(* ===== verification/_CoqProject ===== *)
-Q . S2P
Prelude.v
Field25519.v
Prime25519.v
FieldCong.v
Curve25519.v
Elligator.v
Wire.v
Sha256.v
I2NP.v
Buffers.v
TunnelBlocks.v
Reassembly.v
Gateway.v
Endpoint.v
SSU2Ack.v
Chacha.v
NTCP2.v
Noise.v
SSU2Blocks.v
SSU2Packet.v
KBucket.v
GarlicTags.v
Streaming.v
StreamConn.v
Identity.v
Clove.v
TunnelCrypto.v
NTCP2Handshake.v
Circuits.v
Registry.v
TunnelRuntime.v
TunnelPath.v
CircuitRuntime.v
BuildRecord.v
BuildManager.v
Transit.v
BuildPath.v
