(* ===== verification/Prelude.v ===== *)
(** * Verification of IVNP, an I2P router in Go

    ** The program and its parts

    IVNP moves I2NP messages between routers.  The modelled parts form three
    stacks over a common base.

    - Base.  [src/internal/wire] reads and writes bytes, [src/internal/pool] and
      [src/internal/packet] own memory, [src/foundation] has the I2NP codec and
      the identity structures, [src/cryptography] has X25519, Elligator2 and the
      ChaCha20-Poly1305 wrapper.
    - Transports, [src/dataplane/internal/transport].  NTCP2 runs a Noise XK
      handshake over a stream and then frames with masked lengths; SSU2 sends
      packets with protected headers, acknowledges them and validates paths.
    - Tunnels.  The control plane ([src/controlplane/internal/tunnel]) sends a
      build message along a path; each hop installs a circuit in the runtime of
      [src/dataplane/internal/tunnel].  Afterwards the creator fragments
      messages into fixed-size payloads and removes all layers in advance, the
      hops put theirs on, and the endpoint reassembles and delivers.
    - Above them: garlic cloves and one-use keys ([src/dataplane/internal/garlic]),
      streams ([src/dataplane/internal/streaming]), and the Kademlia table of the
      network database ([src/controlplane/internal/netdb/kbucket.go]).

    ** Conventions

    Definitions carry the names of the source.  A Go integer is a [Z] and every
    operation that can wrap says so ([u8], [u16], [u32], [u64], [i32], [i64]).
    A byte slice is a list of [Z]; an index or slice out of range is the outcome
    [Panic].  A call that can fail has type [res]: [Ok], [Err] with the source's
    error value, or [Panic].  A method on a pointer is a function of the monad
    [go S]: it maps the receiver to the outcome and the receiver after the call,
    also when the call fails.  A map is a [gmap]; where Go's iteration order
    matters it is an argument that is only assumed to enumerate the map.  Objects
    that are shared or compared by pointer (leases, circuits, endpoints) live in
    an explicit heap.  Loops are structural, or take a number of rounds that the
    definition computes from the input; where that number is a bound, a theorem
    shows that it is enough.

    Code that is not in the repository is a parameter: the AES block function,
    the ChaCha20-Poly1305 primitives ([Chacha.Primitives]), [crypto/ecdh]
    ([Noise.Curve]), random readers, clocks, senders and callbacks.  What the
    code relies on is a named class or hypothesis next to it, and each theorem
    that uses one is applied to a concrete instance in its witness.  SHA-256 and
    HMAC are executable.

    ** The files

    Base:
    - [Prelude]: outcomes, errors, wrapped integers, slices, byte order, tactics
      and hint databases.
    - [Wire]: the monad [go]; [Cursor] and [Writer] of [internal/wire/cursor.go].
    - [Sha256]: [sha256.Sum256].
    - [I2NP]: [foundation/internal/i2np/i2np.go], frames, headers and the parsers
      of all payloads.
    - [Buffers]: [internal/pool/slab.go] (module [Pool]) and
      [internal/packet/buffer.go] (module [Packet]).
    - [Identity]: [foundation/internal/identity/types.go].

    Cryptography:
    - [Field25519]: [cryptography/field25519.go] limb by limb; [Prime25519]: the
      modulus is prime; [FieldCong]: the limb operations as congruences.
    - [Curve25519]: the ladder and [x25519.go]; [Elligator]: [elligator.go].
    - [Chacha]: [chacha.go].

    Transports:
    - [NTCP2]: [ntcp2/frame.go] and [io.go]; [Noise]: [noise/state.go];
      [NTCP2Handshake]: [ntcp2/handshake.go] and [session.go].
    - [SSU2Ack]: [ssu2/ack.go]; [SSU2Blocks]: [block.go], [extensions.go],
      [peertest.go], [introduction.go] and the payload grammars of [handshake.go]
      and [token.go]; [SSU2Packet]: [packet.go], [token.go] and [path.go].

    Tunnels:
    - [TunnelBlocks], [Reassembly], [Gateway], [Endpoint]: [blocks.go],
      [reassembly.go] and the two halves of [gateway.go].
    - [TunnelCrypto]: [crypto.go].
    - [Circuits]: the registry of [circuits.go] and [runtime.go], its objects and
      operations; [Registry]: its steps under concurrency and its theorems.
    - [TunnelRuntime]: the packet paths of [runtime.go]; [TunnelPath]: several
      such routers in a row.
    - [CircuitRuntime]: the source's interface of that name as a class with laws,
      and the registry as an instance.
    - [BuildRecord]: [build_record.go]; [BuildManager]: how [build_manager.go]
      prepares a message and opens its reply; [Transit]: how a hop handles it;
      [BuildPath]: creator and hops together.

    Above:
    - [GarlicTags]: [garlic/tags.go] and [reply_keys.go]; [Clove]:
      [garlic/clove.go] and [serialize.go].
    - [Streaming]: [packet.go], [encode.go], [reliability.go] and [state.go] of
      [streaming]; [StreamConn]: the write path of [conn.go].
    - [KBucket]: [controlplane/internal/netdb/kbucket.go].

    ** What the theorems show

    - End to end.  In these theorems a network carries a message only to the
      router it is addressed to.  [TunnelPath.tunnel_delivers]: a message sent
      into a tunnel reaches the handler at its end, through every router's
      runtime.  [BuildPath.tunnel_built]: the build message passes from router
      to router along the path, its reply reaches the reply tunnel under the
      identifier and key the creator keeps, the creator and each hop hold the
      same keys, the creator obtains its circuit exactly when all accepted, and
      the layers of the circuits cancel.
      [NTCP2Handshake.handshake_session]: both parties complete the handshake
      and read what the other writes.  [Endpoint.tunnel_end_to_end] and
      [Reassembly.reassembly_any_order]: fragments give the message back, in
      any order of arrival.
    - Arithmetic.  The limb routines compute in the field; the ladder is the one
      of RFC 7748; Elligator2 decodes what it encodes; [mulA24], [invert] and the
      square root are exact.  [Field25519.mul_double_carry] shows a product
      outside the documented domain of [bits.Add64].
    - Concurrency.  Circuits are not wiped while a packet uses them, removal is
      final, expiry is exact ([Registry]); a write that was cancelled does not
      retain its buffer and every write returns ([StreamConn]).
    - Ownership.  A lease has one holder, also when a release is repeated before
      the pool hands the lease out again; [Buffers.Pool.stale_release_aliases]
      shows what a later repetition does.  The AEAD never gets a nonce twice
      under the key of an NTCP2 direction ([NTCP2.nonces_never_repeat]).
    - Safety of building.  A transit call installs exactly the circuit of its
      request or nothing, and a record is accepted once in its lifetime
      ([Transit]).
    - Codecs.  Round trips and grammars for I2NP, identities, mappings, cloves,
      SSU2 blocks, acknowledgements, build requests and options; the I2NP
      payload parsers do not panic on any input.  An acknowledgement is decoded
      with the 64 ranges a receiver keeps unless it has all 64 pairs
      ([SSU2Ack.ack_roundtrip]); [SSU2Ack.ack_limit_mismatch] is one that has.
    - State machines against specifications: packet buffers against a deque,
      path validation, the stream state ([Streaming.StreamSpec]), the
      acknowledgement tracker, the routing table, the one-use stores.

    ** Bounds

    Rounds that run out are a [Panic], so a theorem that a call returns also
    says that its rounds were enough.
    - [Endpoint.Parse] iterates over blocks; each takes at least one byte, and
      [Parse_total] shows that the payload's length is enough rounds.
    - The number of rounds of the block, clove, mapping and option iterators is
      the length of their input, by the same argument.
    - [KBucket.bucketIndex] halves an interval of buckets and has as many rounds
      as there are buckets; a split lowers the end of the bucket it works on, and
      that end bounds the rounds of [KBucket.split].
    - The acknowledgement encoder writes at most [MaxACKRanges] = 64 pairs, the
      rounds of its two loops.
    - [TunnelRuntime.messageID] skips zero, which two rounds cover.
    - [BuildManager.uniqueMessageID] makes the 16 attempts of the source.
    - [BuildRecord.FormatUint] has 20 rounds; a 64-bit number has at most 20
      digits.
    - Iterations over circuits and over the reassembler's map run over the list
      the order argument gives.

    ** Not modelled

    - Sockets, HTTP, files, flags, the web interface, the client front ends, the
      reseed tool, metrics and logging: input and output around libraries.
    - Goroutine start and stop, and the wiring of the subsystems: no state of
      their own beyond what they pass on.
    - Hop selection, peer profiles, pools and rotation: heuristics with timers
      and no stated contract.
    - The tables of pending builds, inbound and legacy builds of
      [build_manager.go]: bound to contexts, timers and statistics.
    - The recycling of the reassembler's records through a [sync.Pool]: [remove]
      clears a record before it puts it back, so a recycled one is a new one.
    - ElGamal, ML-KEM, signature and GOST hash wrappers, ratchets and signed
      structures (router infos, lease sets, datagrams): their content is the
      library primitive they call.
    - The lookups, flooding and persistence of the network database.
    - The SSU2 handshake and its sockets, the read side of [conn.go], and the
      connection manager over tunnels.
    - Locks: what runs under one is a step; a model that takes one call at a
      time says so.  Clearing of secrets in local variables that no later code
      reads. *)

From stdpp Require Export base list gmap.
From Stdlib Require Export ZArith Lia.

#[global] Open Scope Z_scope.

(** ** Go values

    A Go [int] or [uintN] is a [Z]; the wrap-around of the fixed-width types is
    written out with [u8], [u16], [u32], [u64] and the two's-complement reading
    of a 32-bit word with [i32].  A [[]byte] is a list of [Z] whose elements
    satisfy [is_byte]. *)

Abbreviation bytes := (list Z).

Definition u8 (z : Z) : Z := z mod 2 ^ 8.
Definition u16 (z : Z) : Z := z mod 2 ^ 16.
Definition u32 (z : Z) : Z := z mod 2 ^ 32.
Definition u64 (z : Z) : Z := z mod 2 ^ 64.
Definition i32 (z : Z) : Z := (z + 2 ^ 31) mod 2 ^ 32 - 2 ^ 31.

Definition is_byte (z : Z) : Prop := 0 <= z < 256.
Definition bytes_ok (l : bytes) : Prop := Forall is_byte l.

(** ** Errors and panics

    One constructor per sentinel error of the modelled packages.  The package
    is part of the name where two packages declare the same identifier. *)

Inductive error :=
(* internal/wire *)
| ErrShortBuffer | ErrLargeField
(* foundation/internal/i2np *)
| ErrPayloadTooLarge | ErrChecksum | I2NP_ErrMalformed | ErrUnknownStoreType
| ErrInvalidTunnelID
(* foundation/internal/identity *)
| ErrInvalidCertificate | ErrUnknownKeyType | ErrInvalidIdentity | ErrInvalidMapping
| ErrUnsortedMapping | ErrDestinationSmall
(* foundation/internal/netdb *)
| NetDB_ErrMalformed | ErrTooManyItems | ErrInvalidKeyLength | ErrStructureTooLarge
| ErrNoSupportedEncryptionKey | ErrELSExpired | ErrInvalidNetID | ErrInvalidDatabaseStore
(* dataplane/internal/tunnel *)
| ErrBlock | ErrGatewayPayload | ErrGatewayBlock | ErrGatewayOutput | ErrFragment | ErrTooLarge
| ErrLayerSize | ErrCircuitID | ErrCircuitExists | ErrCircuitOwner | ErrCircuitNotFound | ErrCircuitExpired
| ErrCircuitDirection | ErrTunnelSender | ErrDeliveryHandler
(* dataplane/internal/transport/ssu2 *)
| ErrACK | ErrPacketLength | ErrPacketType | ErrNetwork | ErrHeaderProtection | ErrHandshake
| ErrSensitiveReleased | ErrExtensionBlock | ErrPeerTest | ErrIntroduction
(* dataplane/internal/transport/ntcp2 *)
| ErrFrameLength | ErrFrameTooLarge | ErrNonceExhausted | ErrBlockOrder | ErrBlockLength
| NTCP2_ErrHandshake | NTCP2_ErrNetwork
(* dataplane/internal/streaming *)
| ErrPacket
(* dataplane/internal/garlic *)
| ErrDelivery | ErrClove | ErrLookupReply | ErrReplyKeyRegistryFull | ErrReplyKeyRegistryDuplicate | ErrSession
(* dataplane/internal/garlic/ecies *)
| ECIES_ErrHandshake | ErrHandshakeClosed | ErrHybrid | ErrOneTimeReplyExistingSession | ErrRatchet
| ErrRatchetClosed | ErrRatchetReplay | ErrRatchetExpired | ErrRatchetNoSession | ErrRatchetTagExhausted
| ErrRouterMessage
(* dataplane/internal/datagram *)
| ErrDatagram | ErrProtocol
(* controlplane/internal/tunnel *)
| ErrShortBuildRecord | ErrShortBuildKey | ErrLegacyBuildRecord | ErrLegacyBuildKey
| ErrBuildConfig | ErrBuildPending | ErrBuildRejected | ErrBuildTransit | ErrBuildFakeRecord
| ErrPoolTunnelID | ErrPoolFull | ErrPoolOwner
(* controlplane/internal/netdb *)
| ErrStoreKeyMismatch | ErrStoreUnsupported | ErrRouterInfoTooLarge | ErrRouterInfoStale | ErrRouterInfoFuture
| ErrLeaseSetExpired | ErrLeaseSetFuture | ErrRouterInfoNetworkMismatch | ErrInvalidSignature
(* controlplane/internal/nat/natpmp *)
| ErrGatewayRequired | ErrInvalidRequest | ErrMalformedResponse
(* client/internal/sam *)
| ErrLineTooLong | ErrUnsupported
(* net *)
| ErrNetClosed
(* cryptography *)
| ErrKeyLength | ErrNonceLength | ErrDestination | ErrAuthentication | ErrElligator | ErrLowOrderPoint
(* crypto/ecdh *)
| ErrECDH
(* dataplane/internal/transport/noise *)
| Noise_ErrNonceExhausted
(* an error of a caller-supplied io.Reader or io.Writer *)
| ErrRead | ErrWrite | ErrShortWrite.

#[global] Instance error_eq_dec : EqDecision error.
Proof. solve_decision. Defined.

(** The outcome of a Go call: a value, an error return, or a run-time panic
    (an index or slice expression out of range). *)
Inductive res (A : Type) :=
| Ok (a : A)
| Err (e : error)
| Panic.
Arguments Ok {A} a.
Arguments Err {A} e.
Arguments Panic {A}.

Definition bind {A B} (m : res A) (f : A -> res B) : res B :=
  match m with Ok a => f a | Err e => Err e | Panic => Panic end.

(** [m] returns to its caller: it does not panic. *)
Definition safe {A} (m : res A) : Prop := m <> Panic.

(** The error value of a call, as Go's [err] result. *)
Definition err_of {A} (m : res A) : option error :=
  match m with Err e => Some e | _ => None end.

Declare Scope go_scope.
Delimit Scope go_scope with go.
#[global] Open Scope go_scope.

(** [fail_if c with e ;; k] is [if c { return e }; k]. *)
Notation "'fail_if' c 'with' e ;; k" := (if c then Err e else k)
  (at level 100, c at level 99, e at level 99, k at level 200, right associativity,
   format "'fail_if'  c  'with'  e ;; '//' k") : go_scope.

(** [let? x := m in k]: bind in [res]. *)
Notation "'let?' x := m 'in' k" := (bind m (fun x => k))
  (at level 100, x pattern, m at level 99, k at level 200, right associativity,
   format "'let?'  x  :=  m  'in' '//' k") : go_scope.

(** ** Slices *)

Definition len {A} (l : list A) : Z := Z.of_nat (length l).

(** The elements [lo <= i < hi] of [l]. *)
Definition sub {A} (lo hi : Z) (l : list A) : list A :=
  take (Z.to_nat (hi - lo)) (drop (Z.to_nat lo) l).

(** [l[lo:hi]].  Go lets [hi] run to the capacity; here the length is the
    limit, so a program shown not to panic never reads past the length. *)
Definition slice {A} (l : list A) (lo hi : Z) : res (list A) :=
  if (0 <=? lo) && (lo <=? hi) && (hi <=? len l) then Ok (sub lo hi l) else Panic.

(** [l[lo:]] *)
Definition slice_from {A} (l : list A) (lo : Z) : res (list A) := slice l lo (len l).

(** [l[i]] *)
Definition index {A} (l : list A) (i : Z) : res A :=
  if (0 <=? i) then
    match l !! Z.to_nat i with Some x => Ok x | None => Panic end
  else Panic.

(** [encoding/binary]'s big-endian readers: the value of the first [n] bytes. *)
Definition be_val (l : bytes) : Z := fold_left (fun acc b => acc * 256 + b) l 0.

Definition be_uint (n : Z) (b : bytes) : res Z :=
  if n <=? len b then Ok (be_val (sub 0 n b)) else Panic.

(** The [n]-byte big-endian form of [v]. *)
Fixpoint be_bytes (n : nat) (v : Z) : bytes :=
  match n with
  | O => []
  | S n' => (v / 256 ^ Z.of_nat n') mod 256 :: be_bytes n' v
  end.

(** Writing [src] over [dst[off:off+len(src)]], all of it in range. *)
Definition write {A} (dst : list A) (off : Z) (src : list A) : res (list A) :=
  if (0 <=? off) && (off + len src <=? len dst)
  then Ok (sub 0 off dst ++ src ++ sub (off + len src) (len dst) dst)
  else Panic.

(** [copy(dst[off:], src)]: the common prefix is written, never a panic once
    the slice expression is in range. *)
Definition copy_at {A} (dst : list A) (off : Z) (src : list A) : res (list A) :=
  if (0 <=? off) && (off <=? len dst)
  then write dst off (sub 0 (Z.min (len src) (len dst - off)) src)
  else Panic.

(** [n] zero bytes: [make([]byte, n)]. *)
Definition make_bytes (n : Z) : bytes := replicate (Z.to_nat n) 0.

Definition bytes_eqb (a b : bytes) : bool := bool_decide (a = b).

(** ** Lengths *)

Section Len.
Context {A : Type}.
Implicit Types l a b : list A.

Lemma len_nonneg l : 0 <= len l.
Proof. unfold len. lia. Qed.

Lemma len_nil : len (@nil A) = 0.
Proof. reflexivity. Qed.

Lemma len_cons x l : len (x :: l) = 1 + len l.
Proof. unfold len. cbn [length]. lia. Qed.

Lemma len_app a b : len (a ++ b) = len a + len b.
Proof. unfold len. rewrite length_app. lia. Qed.

Lemma len_replicate n (x : A) : len (replicate (Z.to_nat n) x) = Z.max 0 n.
Proof. unfold len. rewrite length_replicate. lia. Qed.

Lemma len_sub lo hi l : 0 <= lo <= hi -> hi <= len l -> len (sub lo hi l) = hi - lo.
Proof. unfold len, sub. intros. rewrite length_take, length_drop. lia. Qed.

Lemma len_sub_le lo hi l : len (sub lo hi l) <= Z.max 0 (hi - lo).
Proof. unfold len, sub. rewrite length_take, length_drop. lia. Qed.

Lemma len_zero_nil l : len l = 0 -> l = [].
Proof. unfold len. destruct l; cbn; [done | lia]. Qed.
End Len.

Lemma len_fmap {A B} (f : A -> B) (l : list A) : len (f <$> l) = len l.
Proof. unfold len. by rewrite length_fmap. Qed.

Lemma len_be_bytes n v : len (be_bytes n v) = Z.of_nat n.
Proof. unfold len. induction n; cbn; lia. Qed.

Lemma len_make_bytes n : len (make_bytes n) = Z.max 0 n.
Proof. apply len_replicate. Qed.

Create Rewrite HintDb go_len.
Create HintDb go_safe.
#[export] Hint Rewrite @len_nil @len_cons @len_app @len_replicate @len_be_bytes
  @len_make_bytes @len_fmap Nat2Z.id : go_len.

(** Every length in the context is non-negative. *)
Ltac len_pos :=
  repeat match goal with
  | |- context [len ?l] =>
      lazymatch goal with H : 0 <= len l |- _ => fail | _ => pose proof (len_nonneg l) end
  | H : context [len ?l] |- _ =>
      lazymatch goal with H : 0 <= len l |- _ => fail | _ => pose proof (len_nonneg l) end
  end.

(** Rewrites the lengths it knows in the goal, the slices' under side
    conditions that [lia] discharges. *)
Ltac len_simpl :=
  repeat (autorewrite with go_len
          || match goal with
             | |- context [len (sub ?lo ?hi ?l)] =>
                 rewrite (len_sub lo hi l) by (len_pos; autorewrite with go_len; lia)
             end).

Ltac len_simpl_in H :=
  repeat (autorewrite with go_len in H
          || match type of H with
             | context [len (sub ?lo ?hi ?l)] =>
                 rewrite (len_sub lo hi l) in H by (len_pos; autorewrite with go_len; lia)
             end).

(** Linear arithmetic over lengths. *)
Ltac len_lia := len_simpl; len_pos; lia.

(** Evaluates the comparisons of the goal that arithmetic decides. *)
Ltac zbool :=
  rewrite ?Z.gtb_ltb, ?Z.geb_leb;
  repeat match goal with
  | |- context [?a <=? ?b] =>
      first [ rewrite (proj2 (Z.leb_le a b)) by len_lia
            | rewrite (proj2 (Z.leb_gt a b)) by len_lia ]
  | |- context [?a <? ?b] =>
      first [ rewrite (proj2 (Z.ltb_lt a b)) by len_lia
            | rewrite (proj2 (Z.ltb_ge a b)) by len_lia ]
  | |- context [?a =? ?b] =>
      first [ rewrite (proj2 (Z.eqb_eq a b)) by len_lia
            | rewrite (proj2 (Z.eqb_neq a b)) by len_lia ]
  end; cbn [andb orb negb].

(** ** Slices of concatenations *)

Section Sub.
Context {A : Type}.
Implicit Types l a b : list A.

Lemma sub_all l hi : hi = len l -> sub 0 hi l = l.
Proof.
  intros ->. unfold sub, len. rewrite drop_0.
  apply take_ge. lia.
Qed.

Lemma sub_empty l lo hi : hi <= lo -> sub lo hi l = [].
Proof. intros. unfold sub. by replace (Z.to_nat (hi - lo)) with 0%nat by lia. Qed.

Lemma sub_nil lo hi : sub lo hi (@nil A) = [].
Proof. unfold sub. by rewrite drop_nil, take_nil. Qed.

Lemma sub_app_l a b lo hi : 0 <= lo -> hi <= len a -> sub lo hi (a ++ b) = sub lo hi a.
Proof.
  intros Hlo Hhi. destruct (decide (hi <= lo)) as [?|?]; [by rewrite !sub_empty by lia|].
  unfold sub, len in *. rewrite drop_app_le by lia.
  apply take_app_le. rewrite length_drop. lia.
Qed.

Lemma sub_app_r a b lo hi :
  len a <= lo -> sub lo hi (a ++ b) = sub (lo - len a) (hi - len a) b.
Proof.
  intros. unfold sub, len in *. rewrite drop_app_ge by lia.
  f_equal; [lia|]. f_equal. lia.
Qed.

Lemma sub_app_exact a b hi : hi = len a -> sub 0 hi (a ++ b) = a.
Proof. intros ->. rewrite sub_app_l by lia. by apply sub_all. Qed.

Lemma sub_sub l lo hi x y :
  0 <= lo -> 0 <= x -> y <= hi - lo -> sub x y (sub lo hi l) = sub (lo + x) (lo + y) l.
Proof.
  intros. unfold sub. rewrite skipn_firstn_comm, take_take, drop_drop.
  f_equal; [lia|]. f_equal. lia.
Qed.

Lemma sub_app_split l lo mid hi :
  0 <= lo <= mid -> mid <= hi -> hi <= len l -> sub lo mid l ++ sub mid hi l = sub lo hi l.
Proof.
  intros. unfold sub, len in *.
  replace (Z.to_nat (hi - lo)) with (Z.to_nat (mid - lo) + Z.to_nat (hi - mid))%nat by lia.
  rewrite <- take_take_drop, drop_drop. do 3 f_equal. lia.
Qed.

Lemma sub_app_join l lo mid mid' hi :
  mid = mid' -> 0 <= lo <= mid -> mid <= hi -> hi <= len l ->
  sub lo mid l ++ sub mid' hi l = sub lo hi l.
Proof. intros <-. apply sub_app_split. Qed.

Lemma sub_split_at l n : 0 <= n <= len l -> sub 0 n l ++ sub n (len l) l = l.
Proof. intros. rewrite sub_app_split by lia. by apply sub_all. Qed.

Lemma sub_cons x l hi : 1 <= hi -> sub 0 hi (x :: l) = x :: sub 0 (hi - 1) l.
Proof.
  intros. unfold sub. cbn [drop].
  replace (Z.to_nat (hi - 0)) with (S (Z.to_nat (hi - 1 - 0))) by lia. done.
Qed.

Lemma sub_cons_r x l lo hi : 1 <= lo -> sub lo hi (x :: l) = sub (lo - 1) (hi - 1) l.
Proof.
  intros. change (x :: l) with ([x] ++ l). rewrite sub_app_r by len_lia. by replace (len [x]) with 1.
Qed.

Lemma slice_ok l lo hi : 0 <= lo <= hi -> hi <= len l -> slice l lo hi = Ok (sub lo hi l).
Proof.
  intros. unfold slice. by zbool.
Qed.

Lemma slice_inv l lo hi r :
  slice l lo hi = Ok r -> 0 <= lo <= hi /\ hi <= len l /\ r = sub lo hi l.
Proof.
  unfold slice. destruct ((0 <=? lo) && (lo <=? hi) && (hi <=? len l)) eqn:E;
    intros; simplify_eq. repeat split; lia || done.
Qed.

Lemma slice_from_ok l lo : 0 <= lo <= len l -> slice_from l lo = Ok (sub lo (len l) l).
Proof. intros. unfold slice_from. apply slice_ok; lia. Qed.

Lemma index_cons_0 (x : A) l : index (x :: l) 0 = Ok x.
Proof. reflexivity. Qed.

Lemma index_ok l i : 0 <= i < len l -> exists x, index l i = Ok x /\ l !! Z.to_nat i = Some x.
Proof.
  intros. unfold index, len in *. zbool.
  destruct (lookup_lt_is_Some_2 l (Z.to_nat i)) as [x Hx]; [lia|].
  rewrite Hx. eauto.
Qed.

Lemma index_app_l a b i : 0 <= i < len a -> index (a ++ b) i = index a i.
Proof.
  intros. unfold index, len in *. by rewrite lookup_app_l by lia.
Qed.

Lemma index_app_r a b i : len a <= i -> index (a ++ b) i = index b (i - len a).
Proof.
  intros. unfold index, len in *. rewrite lookup_app_r by lia.
  zbool. replace (Z.to_nat i - length a)%nat with (Z.to_nat (i - Z.of_nat (length a))) by lia.
  done.
Qed.

Lemma index_sub l lo hi i :
  0 <= lo -> 0 <= i < hi - lo -> index (sub lo hi l) i = index l (lo + i).
Proof.
  intros. unfold index, sub. zbool.
  rewrite lookup_take_lt, lookup_drop by lia.
  by replace (Z.to_nat lo + Z.to_nat i)%nat with (Z.to_nat (lo + i)) by lia.
Qed.

Lemma write_app a b src off :
  off = len a -> len src <= len b -> write (a ++ b) off src = Ok (a ++ src ++ sub (len src) (len b) b).
Proof.
  intros -> ?. unfold write. len_simpl.
  zbool.
  rewrite sub_app_exact, sub_app_r by (len_pos; lia). do 3 f_equal. f_equal; lia.
Qed.

Lemma copy_at_app a b src off :
  off = len a -> len src <= len b ->
  copy_at (a ++ b) off src = Ok (a ++ src ++ sub (len src) (len b) b).
Proof.
  intros -> ?. unfold copy_at. len_simpl.
  zbool.
  rewrite Z.min_l by lia. rewrite sub_all by done. by apply write_app.
Qed.

(** Sequential writes: [acc] is what the writer has produced over [dst]. *)
Definition over (acc dst : list A) : list A := acc ++ sub (len acc) (len dst) dst.

Lemma over_nil dst : dst = over [] dst.
Proof. unfold over. by rewrite sub_all. Qed.

Lemma write_over acc dst off src :
  off = len acc -> len acc + len src <= len dst ->
  write (over acc dst) off src = Ok (over (acc ++ src) dst).
Proof.
  intros. unfold over. rewrite write_app by len_lia. len_simpl.
  rewrite <- app_assoc, sub_sub by len_lia. do 4 f_equal; lia.
Qed.

Lemma copy_at_over acc dst off src :
  off = len acc -> len acc + len src <= len dst ->
  copy_at (over acc dst) off src = Ok (over (acc ++ src) dst).
Proof.
  intros. unfold over. rewrite copy_at_app by len_lia. len_simpl.
  rewrite <- app_assoc, sub_sub by len_lia. do 4 f_equal; lia.
Qed.

Lemma len_over acc dst : len acc <= len dst -> len (over acc dst) = len dst.
Proof. intros. unfold over. len_lia. Qed.

(** The part of [dst] past the written prefix is untouched. *)
Lemma over_suffix acc dst n :
  n = len acc -> len acc <= len dst -> sub n (len dst) (over acc dst) = sub n (len dst) dst.
Proof.
  intros -> ?. unfold over. rewrite sub_app_r by lia.
  rewrite sub_sub by len_lia. f_equal; lia.
Qed.

Lemma index_one l i hi x : index l i = Ok x -> 0 <= i -> hi = i + 1 -> sub i hi l = [x].
Proof.
  intros Hx Hi ->. revert Hx. unfold index, sub. zbool. destruct (l !! Z.to_nat i) eqn:E; intros; simplify_eq.
  replace (Z.to_nat (i + 1 - i)) with 1%nat by lia.
  rewrite (drop_S _ _ _ E). cbn. by rewrite take_0.
Qed.
End Sub.

(** Runs a sequence of writes that fills [dst] from its start. *)
Ltac write_run dst :=
  rewrite (over_nil dst) at 1;
  repeat first
  [ progress cbn [bind]
  | rewrite write_over by len_lia
  | rewrite copy_at_over by len_lia ].

(** ** Bytes and big-endian integers *)

Section Bytes.
Implicit Types l a b : bytes.

Lemma bytes_ok_app a b : bytes_ok (a ++ b) <-> bytes_ok a /\ bytes_ok b.
Proof. apply Forall_app. Qed.

(** Decides [bytes_ok] by evaluation. *)
Lemma bytes_ok_check l :
  forallb (fun z => (0 <=? z) && (z <? 256)) l = true -> bytes_ok l.
Proof.
  intros H. apply Forall_forall. intros x Hx. rewrite forallb_forall in H.
  apply list_elem_of_In in Hx. specialize (H x Hx). unfold is_byte. lia.
Qed.

Lemma bytes_ok_sub l lo hi : bytes_ok l -> bytes_ok (sub lo hi l).
Proof. intros. unfold sub. by apply Forall_take, Forall_drop. Qed.

Lemma bytes_ok_index l i x : bytes_ok l -> index l i = Ok x -> is_byte x.
Proof.
  unfold index. intros Hl. destruct (0 <=? i); [|done].
  destruct (l !! Z.to_nat i) eqn:E; intros; simplify_eq.
  eapply Forall_lookup_1; eauto.
Qed.

Lemma bytes_ok_be n v : bytes_ok (be_bytes n v).
Proof.
  induction n; constructor; [|done].
  unfold is_byte. pose proof (Z.mod_pos_bound (v / 256 ^ Z.of_nat n) 256). lia.
Qed.

Lemma be_val_acc l (acc : Z) :
  fold_left (fun s x => s * 256 + x) l acc = acc * 256 ^ len l + be_val l.
Proof.
  unfold be_val. revert acc. induction l as [|x l IH]; intros; cbn [fold_left].
  - rewrite len_nil. lia.
  - rewrite IH, (IH (0 * 256 + x)), len_cons, Z.pow_add_r by len_lia. lia.
Qed.

Lemma be_val_cons x l : be_val (x :: l) = x * 256 ^ len l + be_val l.
Proof. unfold be_val at 1. cbn [fold_left]. by rewrite be_val_acc. Qed.

Lemma be_val_app a b : be_val (a ++ b) = be_val a * 256 ^ len b + be_val b.
Proof. unfold be_val at 1. rewrite fold_left_app. apply be_val_acc. Qed.

Lemma be_val_bound l : bytes_ok l -> 0 <= be_val l < 256 ^ len l.
Proof.
  induction 1 as [|x l Hx Hl IH].
  - change (0 <= 0 < 1). lia.
  - rewrite be_val_cons, len_cons, Z.pow_add_r by len_lia. unfold is_byte in Hx. nia.
Qed.

Lemma be_val_sub_nonneg l lo hi : bytes_ok l -> 0 <= be_val (sub lo hi l).
Proof. intros. by apply be_val_bound, bytes_ok_sub. Qed.

Lemma be_val_sub_lt l lo hi :
  bytes_ok l -> 0 <= lo <= hi -> be_val (sub lo hi l) < 256 ^ (hi - lo).
Proof.
  intros. pose proof (be_val_bound _ (bytes_ok_sub l lo hi H)) as Hb.
  pose proof (len_sub_le lo hi l). pose proof (len_nonneg (sub lo hi l)).
  assert (256 ^ len (sub lo hi l) <= 256 ^ (hi - lo)) by (apply Z.pow_le_mono_r; lia). lia.
Qed.

Lemma be_val_be_bytes n v : be_val (be_bytes n v) = v mod 256 ^ Z.of_nat n.
Proof.
  induction n as [|n IH]; cbn [be_bytes].
  - by rewrite Z.mod_1_r.
  - rewrite be_val_cons, len_be_bytes, IH.
    rewrite Nat2Z.inj_succ, Z.pow_succ_r, (Z.mul_comm 256), Z.rem_mul_r by lia. lia.
Qed.

Lemma be_val_small n v : 0 <= v < 256 ^ Z.of_nat n -> be_val (be_bytes n v) = v.
Proof. intros. rewrite be_val_be_bytes. by apply Z.mod_small. Qed.

Lemma be_bytes_shift n k v :
  be_bytes n (v + k * 256 ^ Z.of_nat n) = be_bytes n v.
Proof.
  assert (forall m, (m <= n)%nat ->
    be_bytes m (v + k * 256 ^ Z.of_nat n) = be_bytes m v) as H; [|by apply H].
  induction m as [|m IH]; intros; [done|]. cbn [be_bytes]. rewrite IH by lia. f_equal.
  replace (Z.of_nat n) with ((Z.of_nat n - Z.of_nat m - 1) + 1 + Z.of_nat m) by lia.
  rewrite !Z.pow_add_r, !Z.mul_assoc by lia.
  rewrite Z.div_add by lia. change (256 ^ 1) with 256. by rewrite Z.mod_add by lia.
Qed.

Lemma be_bytes_be_val l : bytes_ok l -> be_bytes (length l) (be_val l) = l.
Proof.
  induction 1 as [|x l Hx Hl IH]; [done|]. cbn [length be_bytes].
  pose proof (be_val_bound l Hl) as Hb. unfold is_byte in Hx.
  rewrite be_val_cons. unfold len in *. f_equal.
  - rewrite Z.div_add_l, Z.div_small, Z.mod_small by lia. lia.
  - rewrite Z.add_comm, be_bytes_shift. done.
Qed.

Lemma be_bytes_sub l lo hi n :
  bytes_ok l -> 0 <= lo <= hi -> hi <= len l -> Z.of_nat n = hi - lo ->
  be_bytes n (be_val (sub lo hi l)) = sub lo hi l.
Proof.
  intros. replace n with (length (sub lo hi l)).
  - apply be_bytes_be_val. by apply bytes_ok_sub.
  - assert (len (sub lo hi l) = hi - lo) by (apply len_sub; lia). unfold len in *. lia.
Qed.

Lemma be_uint_ok n l : n <= len l -> be_uint n l = Ok (be_val (sub 0 n l)).
Proof. intros. unfold be_uint. by zbool. Qed.

Lemma be_uint_sub n l lo hi :
  0 <= lo <= hi -> hi <= len l -> n = hi - lo ->
  be_uint n (sub lo hi l) = Ok (be_val (sub lo hi l)).
Proof. intros. rewrite be_uint_ok by len_lia. by rewrite sub_all by len_lia. Qed.
End Bytes.

(** Little-endian integers: the big-endian form reversed. *)
Definition le_bytes (n : nat) (v : Z) : bytes := rev (be_bytes n v).
Definition le_val (l : bytes) : Z := be_val (rev l).
Definition le_uint (n : Z) (b : bytes) : res Z :=
  if n <=? len b then Ok (le_val (sub 0 n b)) else Panic.

Lemma len_rev {A} (l : list A) : len (rev l) = len l.
Proof. unfold len. by rewrite length_rev. Qed.

Lemma len_le_bytes n v : len (le_bytes n v) = Z.of_nat n.
Proof. unfold le_bytes. by rewrite len_rev, len_be_bytes. Qed.

Lemma bytes_ok_rev l : bytes_ok l -> bytes_ok (rev l).
Proof. unfold bytes_ok. intros. by apply Forall_rev. Qed.

Lemma bytes_ok_le n v : bytes_ok (le_bytes n v).
Proof. apply bytes_ok_rev, bytes_ok_be. Qed.

Lemma le_val_small n v : 0 <= v < 256 ^ Z.of_nat n -> le_val (le_bytes n v) = v.
Proof. intros. unfold le_val, le_bytes. rewrite rev_involutive. by apply be_val_small. Qed.

Lemma le_val_bound l : bytes_ok l -> 0 <= le_val l < 256 ^ len l.
Proof. intros. unfold le_val. rewrite <- len_rev. by apply be_val_bound, bytes_ok_rev. Qed.

Lemma le_uint_ok n l : n <= len l -> le_uint n l = Ok (le_val (sub 0 n l)).
Proof. intros. unfold le_uint. by zbool. Qed.

Lemma le_val_nil : le_val [] = 0.
Proof. done. Qed.

Lemma le_val_cons x l : le_val (x :: l) = x + 256 * le_val l.
Proof. unfold le_val. cbn [rev]. rewrite be_val_app. change (256 ^ len [x]) with 256. change (be_val [x]) with x. lia. Qed.

Lemma le_val_app a b : le_val (a ++ b) = le_val a + 256 ^ len a * le_val b.
Proof. unfold le_val. rewrite rev_app_distr, be_val_app, len_rev. lia. Qed.

Lemma le_bytes_le_val l : bytes_ok l -> le_bytes (length l) (le_val l) = l.
Proof.
  intros Hl. unfold le_bytes, le_val. rewrite <- length_rev, be_bytes_be_val by by apply bytes_ok_rev.
  apply rev_involutive.
Qed.

Lemma le_bytes_succ n v : le_bytes (S n) v = v mod 256 :: le_bytes n (v / 256).
Proof.
  unfold le_bytes. assert (H : be_bytes (S n) v = be_bytes n (v / 256) ++ [v mod 256]).
  { induction n as [|n IH]; [cbn [be_bytes app]; by rewrite Z.div_1_r|].
    change (be_bytes (S (S n)) v) with ((v / 256 ^ Z.of_nat (S n)) mod 256 :: be_bytes (S n) v).
    rewrite IH. cbn [be_bytes app]. f_equal. rewrite Z.div_div by lia. do 2 f_equal.
    rewrite Nat2Z.inj_succ, Z.pow_succ_r by lia. lia. }
  by rewrite H, rev_app_distr.
Qed.

#[export] Hint Rewrite @len_rev len_le_bytes : go_len.

#[global] Opaque be_bytes be_val le_bytes le_val.

(** Decides a property of all values below [n] by evaluation. *)
Lemma exhaust (P : Z -> bool) (n : nat) :
  forallb (fun k => P (Z.of_nat k)) (seq 0 n) = true -> forall z, 0 <= z < Z.of_nat n -> P z = true.
Proof.
  intros H z Hz. rewrite forallb_forall in H. specialize (H (Z.to_nat z)).
  rewrite in_seq, Z2Nat.id in H by lia. apply H. lia.
Qed.

(** ** Bit fields *)

Lemma testbit_small b k j : 0 <= b < 2 ^ k -> k <= j -> 0 <= k -> Z.testbit b j = false.
Proof.
  intros Hb Hj Hk. rewrite <- (Z.mod_small b (2 ^ k)) by lia. apply Z.mod_pow2_bits_high. lia.
Qed.

(** Or-ing a value into the low bits of a shifted one is addition. *)
Lemma lor_shiftl a b k : 0 <= k -> 0 <= b < 2 ^ k -> Z.lor (Z.shiftl a k) b = a * 2 ^ k + b.
Proof.
  intros Hk Hb. assert (Hz : Z.land (Z.shiftl a k) b = 0).
  { apply Z.bits_inj'. intros j Hj. rewrite Z.land_spec, Z.bits_0. destruct (decide (j < k)).
    - by rewrite Z.shiftl_spec_low.
    - rewrite (testbit_small b k j) by lia. apply andb_false_r. }
  rewrite <- Z.lxor_lor, <- Z.add_nocarry_lxor, Z.shiftl_mul_pow2 by done. done.
Qed.

Lemma lxor_bound a b k : 0 <= k -> 0 <= a < 2 ^ k -> 0 <= b < 2 ^ k -> 0 <= Z.lxor a b < 2 ^ k.
Proof.
  intros Hk Ha Hb. assert (Z.lxor a b = Z.lxor a b mod 2 ^ k) as ->; [|apply Z.mod_pos_bound; lia].
  apply Z.bits_inj'. intros j Hj. destruct (decide (j < k)).
  - by rewrite Z.mod_pow2_bits_low.
  - rewrite Z.mod_pow2_bits_high, Z.lxor_spec, !(testbit_small _ k) by lia. done.
Qed.

Lemma lxor_cancel a b : Z.lxor (Z.lxor a b) b = a.
Proof. by rewrite Z.lxor_assoc, Z.lxor_nilpotent, Z.lxor_0_r. Qed.

(** ** Evaluating straight-line code *)

(** Normalises slices of concatenations and of slices. *)
Ltac sub_norm :=
  repeat match goal with
  | |- context [sub ?x ?y (sub ?lo ?hi ?l)] => rewrite (sub_sub l lo hi x y) by len_lia
  | |- context [sub 0 ?hi (?a ++ ?b)] => rewrite (sub_app_exact a b hi) by len_lia
  | |- context [sub ?lo ?hi (?a ++ ?b)] =>
      first [ rewrite (sub_app_r a b lo hi) by len_lia
            | rewrite (sub_app_l a b lo hi) by len_lia ]
  | |- context [sub ?lo ?hi ?l] =>
      first [ rewrite (sub_empty l lo hi) by len_lia
            | replace (sub lo hi l) with l
                by (replace lo with 0 by len_lia; symmetry; apply sub_all; len_lia) ]
  | |- context [be_val (be_bytes ?n ?v)] => rewrite (be_val_small n v) by len_lia
  | |- context [index (sub ?lo ?hi ?l) ?i] => rewrite (index_sub l lo hi i) by len_lia
  | |- context [index (?a ++ ?b) ?i] =>
      first [ rewrite (index_app_r a b i) by len_lia
            | rewrite (index_app_l a b i) by len_lia ]
  | |- context [index [?x] ?i] => replace (index [x] i) with (Ok x) by (replace i with 0 by len_lia; done)
  end.

(** The converse: reassembles adjacent slices into one. *)
Ltac sub_join :=
  repeat match goal with
  | |- context [be_bytes ?n (be_val (sub ?lo ?hi ?l))] =>
      rewrite (be_bytes_sub l lo hi n) by (assumption || len_lia)
  | |- context [sub ?a ?b ?l ++ sub ?b' ?c ?l ++ ?r] =>
      rewrite (app_assoc (sub a b l) (sub b' c l) r), (sub_app_join l a b b' c) by len_lia
  | |- context [sub ?a ?b ?l ++ sub ?b' ?c ?l] => rewrite (sub_app_join l a b b' c) by len_lia
  end.

(** Turns a byte read by index back into the one-byte slice it came from. *)
Ltac index_join :=
  repeat match goal with
  | H : index ?l ?i = Ok ?x |- context [[?x]] =>
      rewrite <- (index_one l i (i + 1) x H) by lia; clear H
  end.

(** Rewrites with the guards already taken. *)
Ltac use_bools :=
  repeat match goal with
  | H : ?b = true |- context [?b] => rewrite H
  | H : ?b = false |- context [?b] => rewrite H
  end; cbn [negb].

Lemma write_middle {A} (a b c src : list A) off :
  off = len a -> len src = len b -> write (a ++ b ++ c) off src = Ok (a ++ src ++ c).
Proof.
  intros Ho Hs. rewrite write_app by len_lia. rewrite Hs. by sub_norm.
Qed.

Lemma write_prefix {A} (b c src : list A) : len src = len b -> write (b ++ c) 0 src = Ok (src ++ c).
Proof. apply (write_middle [] b c src 0). done. Qed.

(** Runs slice, read and bind steps whose bounds arithmetic decides. *)
Ltac go_step :=
  first
  [ progress cbn [bind fst snd]
  | match goal with |- context [slice ?l ?lo ?hi] => rewrite (slice_ok l lo hi) by len_lia end
  | match goal with |- context [slice_from ?l ?lo] => rewrite (slice_from_ok l lo) by len_lia end
  | match goal with
    | |- context [sub ?x ?y (sub ?lo ?hi ?l)] => rewrite (sub_sub l lo hi x y) by len_lia
    | |- context [index (sub ?lo ?hi ?l) ?i] => rewrite (index_sub l lo hi i) by len_lia
    | |- context [len (sub ?lo ?hi ?l)] => rewrite (len_sub lo hi l) by len_lia
    end
  | match goal with
    | |- context [be_uint ?n (sub ?lo ?hi ?l)] => rewrite (be_uint_sub n l lo hi) by len_lia
    | |- context [be_uint ?n ?l] => rewrite (be_uint_ok n l) by len_lia
    end
  ].

(** Evaluates code whose guards, bounds and slices are all decided. *)
Ltac go_eval := repeat first [ go_step | progress sub_norm | progress zbool ].

(** Case analysis on the guard of the outermost conditional of the goal. *)
Ltac go_if :=
  match goal with
  | |- context [if ?b then _ else _] => destruct b eqn:?
  end.

(** An in-range index yields a value, a byte when the list holds bytes. *)
Ltac go_index :=
  match goal with
  | |- context [index ?l ?i] =>
      let x := fresh "x" in let H := fresh "Hx" in
      destruct (index_ok l i) as (x & H & _); [len_lia | rewrite H];
      try match goal with
          | Hok : bytes_ok l |- _ =>
              let Hb := fresh "Hb" in
              pose proof (bytes_ok_index l i x Hok H) as Hb; unfold is_byte in Hb
          end
  end.

(** The range of every big-endian value read from known bytes. *)
Ltac be_bounds :=
  repeat match goal with
  | Hok : bytes_ok ?l |- context [be_val (sub ?lo ?hi ?l)] =>
      lazymatch goal with
      | _ : 0 <= be_val (sub lo hi l) |- _ => fail
      | _ => pose proof (be_val_sub_nonneg l lo hi Hok)
      end
  end.

(** Upper bounds of the big-endian values in the goal. *)
Ltac be_uppers :=
  repeat match goal with
  | Hok : bytes_ok ?l |- context [be_val (sub ?lo ?hi ?l)] =>
      lazymatch goal with
      | _ : be_val (sub lo hi l) < _ |- _ => fail
      | _ => pose proof (be_val_sub_lt l lo hi Hok ltac:(lia))
      end
  end.

(** Runs the goal's code to its returns, splitting on the guards; what is left
    are the paths that arithmetic does not exclude. *)
Ltac go_run := repeat first [ progress be_bounds | go_step | go_index | go_if ].

(** Closes [safe] goals: every path of the code returns. *)
Ltac go_safe := unfold safe; go_run; try discriminate; auto.
