(* ===== verification/Field25519.v ===== *)
(** Arithmetic in GF(2^255-19) on four 64-bit limbs,
    [src/cryptography/field25519.go].

    A [field25519] is a record of four [uint64] words; every operation is the
    carry chain of the source on [bits.Add64], [bits.Sub64] and [bits.Mul64],
    every discarded carry is discarded here too.  The theorems state what the
    chains compute: the operation modulo [p], in canonical form, for the inputs
    each routine accepts. *)

From S2P Require Import Prelude.

(** ** Words: [math/bits] *)

Definition B : Z := 2 ^ 64.

(** [bits.Add64], [bits.Sub64] and [bits.Mul64]: sum and carry, difference and
    borrow, high and low word. *)
Definition Add64 (x y carry : Z) : Z * Z :=
  let s := x + y + carry in (Z.land s (B - 1), Z.shiftr s 64).
Definition Sub64 (x y borrow : Z) : Z * Z :=
  let d := x - y - borrow in (Z.land d (B - 1), - Z.shiftr d 64).
Definition Mul64 (x y : Z) : Z * Z :=
  let m := x * y in (Z.shiftr m 64, Z.land m (B - 1)).

(** [bits.Add64] is documented for a carry of 0 or 1 and undefined otherwise.
    The carry of [Add64] below is 0 or the carry of an earlier [Add64]; where
    the source passes a sum of carries the call is [Add64Sum], [None] when the
    sum is not 0 or 1. *)
Definition Add64Sum (x y carry : Z) : option (Z * Z) :=
  if carry <=? 1 then Some (Add64 x y carry) else None.

(** Go's [^x] on [uint64]. *)
Definition not64 (x : Z) : Z := B - 1 - x.

(** ** Elements *)

Record field25519 := mkField { z0 : Z; z1 : Z; z2 : Z; z3 : Z }.

Definition fieldTopMask : Z := 0x7fffffffffffffff.

Definition fieldP := mkField 0xffffffffffffffed 0xffffffffffffffff 0xffffffffffffffff fieldTopMask.
Definition fieldA := mkField 486662 0 0 0.
Definition fieldNegA := mkField 0xfffffffffff892e7 0xffffffffffffffff 0xffffffffffffffff fieldTopMask.
Definition fieldHalf := mkField 0xfffffffffffffff6 0xffffffffffffffff 0xffffffffffffffff 0x3fffffffffffffff.
Definition fieldZero := mkField 0 0 0 0.
Definition fieldOne := mkField 1 0 0 0.
Definition fieldTwo := mkField 2 0 0 0.
Definition fieldSqrtM1 :=
  mkField 0xc4ee1b274a0ea0b0 0x2f431806ad2fe478 0x2b4d00993dfbd7a7 0x2b8324804fc1df0b.

(** One limb of [fieldLoad]: eight bytes from [off], little endian. *)
Definition loadWord (inp : bytes) (off : Z) : res Z :=
  let? b0 := index inp off in
  let? b1 := index inp (off + 1) in
  let? b2 := index inp (off + 2) in
  let? b3 := index inp (off + 3) in
  let? b4 := index inp (off + 4) in
  let? b5 := index inp (off + 5) in
  let? b6 := index inp (off + 6) in
  let? b7 := index inp (off + 7) in
  Ok (Z.lor (Z.lor (Z.lor (Z.lor (Z.lor (Z.lor (Z.lor b0 (Z.shiftl b1 8)) (Z.shiftl b2 16))
    (Z.shiftl b3 24)) (Z.shiftl b4 32)) (Z.shiftl b5 40)) (Z.shiftl b6 48)) (Z.shiftl b7 56)).

Definition fieldLoad (inp : bytes) : res field25519 :=
  let? _ := index inp 31 in
  let? a := loadWord inp 0 in
  let? b := loadWord inp 8 in
  let? c := loadWord inp 16 in
  let? d := loadWord inp 24 in
  Ok (mkField a b c d).

(** The eight bytes [store] writes for one word. *)
Definition storeWord (word : Z) : bytes :=
  [u8 word; u8 (Z.shiftr word 8); u8 (Z.shiftr word 16); u8 (Z.shiftr word 24);
   u8 (Z.shiftr word 32); u8 (Z.shiftr word 40); u8 (Z.shiftr word 48); u8 (Z.shiftr word 56)].

(** [out] after the call. *)
Definition store (z : field25519) (out : bytes) : res bytes :=
  let? _ := index out 31 in
  let? out := write out 0 (storeWord (z0 z)) in
  let? out := write out 8 (storeWord (z1 z)) in
  let? out := write out 16 (storeWord (z2 z)) in
  write out 24 (storeWord (z3 z)).

(** ** Masks *)

Definition fieldNonzeroMask (x : Z) : Z := u64 (0 - Z.shiftr (Z.lor x (u64 (0 - x))) 63).
Definition fieldZeroMask (x : Z) : Z := not64 (fieldNonzeroMask x).

Definition equalMask (z x : field25519) : Z :=
  fieldZeroMask (Z.lor (Z.lor (Z.lor (Z.lxor (z0 z) (z0 x)) (Z.lxor (z1 z) (z1 x)))
    (Z.lxor (z2 z) (z2 x))) (Z.lxor (z3 z) (z3 x))).

Definition zeroMask (z : field25519) : Z :=
  fieldZeroMask (Z.lor (Z.lor (Z.lor (z0 z) (z1 z)) (z2 z)) (z3 z)).

Definition lessMask (z x : field25519) : Z :=
  let '(_, borrow) := Sub64 (z0 z) (z0 x) 0 in
  let '(_, borrow) := Sub64 (z1 z) (z1 x) borrow in
  let '(_, borrow) := Sub64 (z2 z) (z2 x) borrow in
  let '(_, borrow) := Sub64 (z3 z) (z3 x) borrow in
  u64 (0 - borrow).

Definition lessOrEqualMask (z x : field25519) : Z := Z.lor (lessMask z x) (equalMask z x).

Definition selectWord (a b mask : Z) : Z := Z.lor (Z.land a mask) (Z.ldiff b mask).

Definition fieldSelect (a b : field25519) (mask : Z) : field25519 :=
  mkField (selectWord (z0 a) (z0 b) mask) (selectWord (z1 a) (z1 b) mask)
          (selectWord (z2 a) (z2 b) mask) (selectWord (z3 a) (z3 b) mask).

(** ** Reduction *)

Definition canonical (z : field25519) : field25519 :=
  let '(d0, borrow) := Sub64 (z0 z) (z0 fieldP) 0 in
  let '(d1, borrow) := Sub64 (z1 z) (z1 fieldP) borrow in
  let '(d2, borrow) := Sub64 (z2 z) (z2 fieldP) borrow in
  let '(d3, borrow) := Sub64 (z3 z) (z3 fieldP) borrow in
  fieldSelect (mkField d0 d1 d2 d3) z (not64 (u64 (0 - borrow))).

Definition fieldFold (z : field25519) (carry : Z) : field25519 :=
  let high := u64 (Z.shiftr (z3 z) 63 + u64 (Z.shiftl carry 1)) in
  let top := Z.land (z3 z) fieldTopMask in
  let '(r0, c) := Add64 (z0 z) (u64 (19 * high)) 0 in
  let '(r1, c) := Add64 (z1 z) 0 c in
  let '(r2, c) := Add64 (z2 z) 0 c in
  let '(r3, _) := Add64 top 0 c in
  canonical (mkField r0 r1 r2 r3).

(** ** Addition, subtraction, negation *)

Definition add (z x : field25519) : field25519 :=
  let '(r0, carry) := Add64 (z0 z) (z0 x) 0 in
  let '(r1, carry) := Add64 (z1 z) (z1 x) carry in
  let '(r2, carry) := Add64 (z2 z) (z2 x) carry in
  let '(r3, carry) := Add64 (z3 z) (z3 x) carry in
  fieldFold (mkField r0 r1 r2 r3) carry.

Definition fsub (z x : field25519) : field25519 :=
  let '(r0, borrow) := Sub64 (z0 z) (z0 x) 0 in
  let '(r1, borrow) := Sub64 (z1 z) (z1 x) borrow in
  let '(r2, borrow) := Sub64 (z2 z) (z2 x) borrow in
  let '(r3, borrow) := Sub64 (z3 z) (z3 x) borrow in
  let mask := u64 (0 - borrow) in
  let '(r0, carry) := Add64 r0 (Z.land (z0 fieldP) mask) 0 in
  let '(r1, carry) := Add64 r1 (Z.land (z1 fieldP) mask) carry in
  let '(r2, carry) := Add64 r2 (Z.land (z2 fieldP) mask) carry in
  let '(r3, _) := Add64 r3 (Z.land (z3 fieldP) mask) carry in
  mkField r0 r1 r2 r3.

Definition neg (z : field25519) : field25519 :=
  let minus := fsub fieldP z in
  fieldSelect fieldZero minus (zeroMask z).

(** ** Multiplication *)

(** [None]: the carry into a word is not 0 or 1 and the result is undefined. *)
Definition fieldReduce512 (t0 t1 t2 t3 t4 t5 t6 t7 : Z) : option field25519 :=
  let '(hi0, lo0) := Mul64 t4 38 in
  let '(r0, c) := Add64 t0 lo0 0 in
  let '(hi1, lo1) := Mul64 t5 38 in
  let '(lo1, c1) := Add64 lo1 hi0 0 in
  let '(r1, c) := Add64 t1 lo1 c in
  let c := u64 (c + c1) in
  let '(hi2, lo2) := Mul64 t6 38 in
  let '(lo2, c2) := Add64 lo2 hi1 0 in
  '(r2, c) ← Add64Sum t2 lo2 c;
  let c := u64 (c + c2) in
  let '(hi3, lo3) := Mul64 t7 38 in
  let '(lo3, c3) := Add64 lo3 hi2 0 in
  '(r3, c) ← Add64Sum t3 lo3 c;
  let carry := u64 (u64 (hi3 + c3) + c) in
  Some (fieldFold (mkField r0 r1 r2 r3) carry).

Definition mul (z x : field25519) : option field25519 :=
  let '(mkField z0 z1 z2 z3) := z in
  let '(mkField x0 x1 x2 x3) := x in
  let '(hi0, t0) := Mul64 z0 x0 in
  let '(hi1, lo1) := Mul64 z0 x1 in
  let '(t1, c) := Add64 lo1 hi0 0 in
  let '(hi2, lo2) := Mul64 z0 x2 in
  let '(t2, c) := Add64 lo2 hi1 c in
  let '(hi3, lo3) := Mul64 z0 x3 in
  let '(t3, c) := Add64 lo3 hi2 c in
  let t4 := u64 (hi3 + c) in
  let '(hi0, lo0) := Mul64 z1 x0 in
  let '(hi1, lo1) := Mul64 z1 x1 in
  let '(p2, c) := Add64 lo1 hi0 0 in
  let '(hi2, lo2) := Mul64 z1 x2 in
  let '(p3, c) := Add64 lo2 hi1 c in
  let '(hi3, lo3) := Mul64 z1 x3 in
  let '(p4, c) := Add64 lo3 hi2 c in
  let p5 := u64 (hi3 + c) in
  let '(t1, c) := Add64 t1 lo0 0 in
  let '(t2, c) := Add64 t2 p2 c in
  let '(t3, c) := Add64 t3 p3 c in
  let '(t4, c) := Add64 t4 p4 c in
  let t5 := u64 (p5 + c) in
  let '(hi0, lo0) := Mul64 z2 x0 in
  let '(hi1, lo1) := Mul64 z2 x1 in
  let '(p3, c) := Add64 lo1 hi0 0 in
  let '(hi2, lo2) := Mul64 z2 x2 in
  let '(p4, c) := Add64 lo2 hi1 c in
  let '(hi3, lo3) := Mul64 z2 x3 in
  let '(p5, c) := Add64 lo3 hi2 c in
  let p6 := u64 (hi3 + c) in
  let '(t2, c) := Add64 t2 lo0 0 in
  let '(t3, c) := Add64 t3 p3 c in
  let '(t4, c) := Add64 t4 p4 c in
  let '(t5, c) := Add64 t5 p5 c in
  let t6 := u64 (p6 + c) in
  let '(hi0, lo0) := Mul64 z3 x0 in
  let '(hi1, lo1) := Mul64 z3 x1 in
  let '(p4, c) := Add64 lo1 hi0 0 in
  let '(hi2, lo2) := Mul64 z3 x2 in
  let '(p5, c) := Add64 lo2 hi1 c in
  let '(hi3, lo3) := Mul64 z3 x3 in
  let '(p6, c) := Add64 lo3 hi2 c in
  let p7 := u64 (hi3 + c) in
  let '(t3, c) := Add64 t3 lo0 0 in
  let '(t4, c) := Add64 t4 p4 c in
  let '(t5, c) := Add64 t5 p5 c in
  let '(t6, c) := Add64 t6 p6 c in
  let t7 := u64 (p7 + c) in
  fieldReduce512 t0 t1 t2 t3 t4 t5 t6 t7.

Definition square (z : field25519) : option field25519 :=
  let '(mkField z0 z1 z2 z3) := z in
  let '(hi1, t1) := Mul64 z0 z1 in
  let '(hi2, lo2) := Mul64 z0 z2 in
  let '(t2, c) := Add64 lo2 hi1 0 in
  let '(hi3, lo3) := Mul64 z0 z3 in
  let '(t3, c) := Add64 lo3 hi2 c in
  let t4 := u64 (hi3 + c) in
  let '(hi3, lo3) := Mul64 z1 z2 in
  let '(hi4, lo4) := Mul64 z1 z3 in
  let '(p4, c) := Add64 lo4 hi3 0 in
  let p5 := u64 (hi4 + c) in
  let '(t3, c) := Add64 t3 lo3 0 in
  let '(t4, c) := Add64 t4 p4 c in
  let t5 := u64 (p5 + c) in
  let '(hi5, lo5) := Mul64 z2 z3 in
  let '(t5, c) := Add64 t5 lo5 0 in
  let t6 := u64 (hi5 + c) in
  let t7 := Z.shiftr t6 63 in
  let t6 := Z.lor (u64 (Z.shiftl t6 1)) (Z.shiftr t5 63) in
  let t5 := Z.lor (u64 (Z.shiftl t5 1)) (Z.shiftr t4 63) in
  let t4 := Z.lor (u64 (Z.shiftl t4 1)) (Z.shiftr t3 63) in
  let t3 := Z.lor (u64 (Z.shiftl t3 1)) (Z.shiftr t2 63) in
  let t2 := Z.lor (u64 (Z.shiftl t2 1)) (Z.shiftr t1 63) in
  let t1 := u64 (Z.shiftl t1 1) in
  let '(d1, t0) := Mul64 z0 z0 in
  let '(d3, d2) := Mul64 z1 z1 in
  let '(d5, d4) := Mul64 z2 z2 in
  let '(d7, d6) := Mul64 z3 z3 in
  let '(t1, c) := Add64 t1 d1 0 in
  let '(t2, c) := Add64 t2 d2 c in
  let '(t3, c) := Add64 t3 d3 c in
  let '(t4, c) := Add64 t4 d4 c in
  let '(t5, c) := Add64 t5 d5 c in
  let '(t6, c) := Add64 t6 d6 c in
  let '(t7, _) := Add64 t7 d7 c in
  fieldReduce512 t0 t1 t2 t3 t4 t5 t6 t7.

Definition mulA24 (z : field25519) : field25519 :=
  let a24 := 121665 in
  let '(hi0, r0) := Mul64 (z0 z) a24 in
  let '(hi1, lo1) := Mul64 (z1 z) a24 in
  let '(r1, c) := Add64 lo1 hi0 0 in
  let '(hi2, lo2) := Mul64 (z2 z) a24 in
  let '(r2, c) := Add64 lo2 hi1 c in
  let '(hi3, lo3) := Mul64 (z3 z) a24 in
  let '(r3, c) := Add64 lo3 hi2 c in
  fieldFold (mkField r0 r1 r2 r3) (u64 (hi3 + c)).

(** ** Powers *)

Fixpoint squareN (n : nat) (z : field25519) : option field25519 :=
  match n with
  | O => Some z
  | S n => z ← square z; squareN n z
  end.

(** The result and [z11]. *)
Definition pow250 (z : field25519) : option (field25519 * field25519) :=
  z2 ← square z;
  z9 ← (a ← squareN 2 z2; mul a z);
  z11 ← mul z9 z2;
  z2_5_0 ← (a ← square z11; mul a z9);
  z2_10_0 ← (a ← squareN 5 z2_5_0; mul a z2_5_0);
  z2_20_0 ← (a ← squareN 10 z2_10_0; mul a z2_10_0);
  z2_40_0 ← (a ← squareN 20 z2_20_0; mul a z2_20_0);
  z2_50_0 ← (a ← squareN 10 z2_40_0; mul a z2_10_0);
  z2_100_0 ← (a ← squareN 50 z2_50_0; mul a z2_50_0);
  z2_200_0 ← (a ← squareN 100 z2_100_0; mul a z2_100_0);
  r ← (a ← squareN 50 z2_200_0; mul a z2_50_0);
  Some (r, z11).

Definition invert (z : field25519) : option field25519 :=
  '(r, z11) ← pow250 z;
  r ← squareN 5 r;
  mul r z11.

Definition pow22523 (z : field25519) : option field25519 :=
  '(r, _) ← pow250 z;
  r ← squareN 2 r;
  mul r z.

(** ** Values and bounds *)

Definition word (x : Z) : Prop := 0 <= x < B.
Definition limbs_ok (z : field25519) : Prop := word (z0 z) /\ word (z1 z) /\ word (z2 z) /\ word (z3 z).
Definition val (z : field25519) : Z := z0 z + B * z1 z + B ^ 2 * z2 z + B ^ 3 * z3 z.
Definition p : Z := 2 ^ 255 - 19.
Definition reduced (z : field25519) : Prop := limbs_ok z /\ val z < p.

Ltac words := unfold word, B in *; change (2 ^ 64) with 18446744073709551616 in *.

Lemma split64 s : Z.shiftr s 64 = s / B.
Proof. by rewrite Z.shiftr_div_pow2 by lia. Qed.

Lemma land64 s : Z.land s (B - 1) = s mod B.
Proof. change (B - 1) with (Z.ones 64). by rewrite Z.land_ones by lia. Qed.

Lemma Add64_ok x y c : word x -> word y -> 0 <= c <= 1 ->
  exists s k, Add64 x y c = (s, k) /\ s + B * k = x + y + c /\ word s /\ 0 <= k <= 1.
Proof.
  intros Hx Hy Hc. unfold Add64. rewrite split64, land64. eexists _, _. split; [reflexivity|]. words.
  pose proof (Z.div_mod (x + y + c) 18446744073709551616 ltac:(lia)).
  pose proof (Z.mod_pos_bound (x + y + c) 18446744073709551616 ltac:(lia)). lia.
Qed.

Lemma Sub64_ok x y b : word x -> word y -> 0 <= b <= 1 ->
  exists d k, Sub64 x y b = (d, k) /\ d - B * k = x - y - b /\ word d /\ 0 <= k <= 1.
Proof.
  intros Hx Hy Hc. unfold Sub64. rewrite split64, land64. eexists _, _. split; [reflexivity|]. words.
  pose proof (Z.div_mod (x - y - b) 18446744073709551616 ltac:(lia)).
  pose proof (Z.mod_pos_bound (x - y - b) 18446744073709551616 ltac:(lia)). lia.
Qed.

Lemma Mul64_ok x y : word x -> word y ->
  exists hi lo, Mul64 x y = (hi, lo) /\ B * hi + lo = x * y /\ 0 <= hi <= B - 2 /\ word lo.
Proof.
  intros Hx Hy. unfold Mul64. rewrite split64, land64. eexists _, _. split; [reflexivity|]. words.
  pose proof (Z.div_mod (x * y) 18446744073709551616 ltac:(lia)).
  pose proof (Z.mod_pos_bound (x * y) 18446744073709551616 ltac:(lia)).
  assert (0 <= x * y <= 18446744073709551615 * 18446744073709551615) by nia. lia.
Qed.

Lemma u64_small x : word x -> u64 x = x.
Proof. apply Z.mod_small. Qed.

(** Runs the next word operation of a chain, keeping its equation. *)
Ltac word_step :=
  match goal with
  | |- context [match Add64 ?x ?y ?c with _ => _ end] =>
      let s := fresh "s" in let k := fresh "k" in let E := fresh "E" in
      let H := fresh "H" in
      destruct (Add64_ok x y c) as (s & k & H & E & ? & ?); [words; lia..|]; rewrite H; clear H
  | |- context [match Sub64 ?x ?y ?c with _ => _ end] =>
      let s := fresh "d" in let k := fresh "b" in let E := fresh "E" in
      let H := fresh "H" in
      destruct (Sub64_ok x y c) as (s & k & H & E & ? & ?); [words; lia..|]; rewrite H; clear H
  | |- context [match Mul64 ?x ?y with _ => _ end] =>
      let s := fresh "hi" in let k := fresh "lo" in let E := fresh "E" in
      let H := fresh "H" in
      destruct (Mul64_ok x y) as (s & k & H & E & ? & ?); [words; lia..|]; rewrite H; clear H
  end.


Definition sum8 (t0 t1 t2 t3 t4 t5 t6 t7 : Z) : Z :=
  t0 + B * t1 + B ^ 2 * t2 + B ^ 3 * t3 + B ^ 4 * t4 + B ^ 5 * t5 + B ^ 6 * t6 + B ^ 7 * t7.

Ltac powers :=
  unfold val, sum8; cbn [z0 z1 z2 z3];
  change (B ^ 2) with (B * B); change (B ^ 3) with (B * B * B); change (B ^ 4) with (B * B * B * B);
  change (B ^ 5) with (B * B * B * B * B); change (B ^ 6) with (B * B * B * B * B * B);
  change (B ^ 7) with (B * B * B * B * B * B * B); words.

Lemma prod_bound a b m n : 0 <= a < m -> 0 <= b < n -> 0 <= a * b < m * n.
Proof. nia. Qed.

(** Closes a word that holds the last carry of a chain. *)
Ltac keep_u64 :=
  match goal with |- context [u64 ?x] => rewrite (u64_small x) by (words; lia) end.

Lemma mul_words z x : limbs_ok z -> limbs_ok x ->
  exists t0 t1 t2 t3 t4 t5 t6 t7, word t0 /\ word t1 /\ word t2 /\ word t3 /\ word t4 /\ word t5 /\ word t6 /\ word t7 /\
  sum8 t0 t1 t2 t3 t4 t5 t6 t7 = val z * val x /\ mul z x = fieldReduce512 t0 t1 t2 t3 t4 t5 t6 t7.
Proof.
  destruct z as [a0 a1 a2 a3], x as [b0 b1 b2 b3]. intros (Ha0&Ha1&Ha2&Ha3) (Hb0&Hb1&Hb2&Hb3). cbn [z0 z1 z2 z3] in *.
  unfold mul. 
  assert (Hx : 0 <= b0 + B * b1 + B * B * b2 + B * B * B * b3 < B * B * B * B) by (words; lia).
  pose proof (prod_bound (a0 + B * a1) _ (B * B) _ ltac:(words; lia) Hx) as P1.
  pose proof (prod_bound (a0 + B * a1 + B * B * a2) _ (B * B * B) _ ltac:(words; lia) Hx) as P2.
  pose proof (prod_bound (a0 + B * a1 + B * B * a2 + B * B * B * a3) _ (B * B * B * B) _ ltac:(words; lia) Hx) as P3.
  repeat first [ progress cbv beta iota zeta | word_step | keep_u64 ].
  eexists _, _, _, _, _, _, _, _. do 8 (split; [shelve|]). split; [|reflexivity].
  powers. lia.
  Unshelve. all: words; lia.
Qed.

Definition ones : Z := B - 1.

Lemma land_ones_word x : word x -> Z.land x ones = x.
Proof. intros H. change ones with (Z.ones 64). rewrite Z.land_ones by lia. by apply Z.mod_small. Qed.

Lemma ldiff_ones_word x : word x -> Z.ldiff x ones = 0.
Proof.
  intros H. change ones with (Z.ones 64). apply Z.ldiff_ones_r_low; [apply H|].
  destruct (Z.eq_dec x 0) as [->|]; [cbn; lia|]. apply Z.log2_lt_pow2; [destruct H; lia|apply H].
Qed.

Lemma selectWord_ones a b : word a -> word b -> selectWord a b ones = a.
Proof. intros. unfold selectWord. rewrite land_ones_word, ldiff_ones_word by done. apply Z.lor_0_r. Qed.

Lemma selectWord_zero a b : selectWord a b 0 = b.
Proof. unfold selectWord. by rewrite Z.land_0_r, Z.ldiff_0_r. Qed.

Lemma fieldSelect_ones a b : limbs_ok a -> limbs_ok b -> fieldSelect a b ones = a.
Proof. destruct a, b. intros (?&?&?&?) (?&?&?&?). unfold fieldSelect. cbn in *. by rewrite !selectWord_ones. Qed.

Lemma fieldSelect_zero a b : fieldSelect a b 0 = b.
Proof. destruct a, b. unfold fieldSelect. by rewrite !selectWord_zero. Qed.

Lemma borrow_mask b : 0 <= b <= 1 -> u64 (0 - b) = if b =? 1 then ones else 0.
Proof. intros. assert (b = 0 \/ b = 1) as [-> | ->] by lia; reflexivity. Qed.

Ltac p_lit := change (B ^ 4) with 115792089237316195423570985008687907853269984665640564039457584007913129639936 in *; change (2 ^ 63) with 9223372036854775808 in *; change (2 ^ 32) with 4294967296 in *; unfold p, B in *; change (2 ^ 255 - 19) with 57896044618658097711785492504343953926634992332820282019728792003956564819949 in *.

Ltac chain := repeat first [ progress cbv beta iota zeta | word_step | keep_u64 ].

Lemma fieldP_ok : limbs_ok fieldP /\ val fieldP = p.
Proof. split; [|reflexivity]. unfold limbs_ok, word. vm_compute. intuition congruence. Qed.

Lemma mod_once a : p <= a < 2 * p -> a mod p = a - p.
Proof. intros. symmetry. apply (Z.mod_unique _ _ 1); lia. Qed.

Lemma field_canonical_ok z : limbs_ok z -> val z < 2 * p ->
  reduced (canonical z) /\ val (canonical z) = val z mod p.
Proof.
  intros Hz Hlt. pose proof Hz as (?&?&?&?). destruct fieldP_ok as [(?&?&?&?) HP].
  unfold canonical. set (p0 := z0 fieldP) in *. set (p1 := z1 fieldP) in *. set (p2 := z2 fieldP) in *. set (p3 := z3 fieldP) in *.
  chain.
  assert (HP' : p0 + B * p1 + B * B * p2 + B * B * B * p3 = p) by exact HP.
  assert (Hd : val (mkField d d0 d1 d2) - B ^ 4 * b2 = val z - p) by (rewrite <- HP'; powers; lia).
  assert (Hl : limbs_ok (mkField d d0 d1 d2)) by done.
  assert (0 <= val z) by (powers; lia).
  assert (0 <= val (mkField d d0 d1 d2) < B ^ 4) by (powers; lia).
  rewrite borrow_mask by done. assert (b2 = 0 \/ b2 = 1) as [-> | ->] by lia.
  - change (not64 (if 0 =? 1 then ones else 0)) with ones. rewrite fieldSelect_ones by done.
    rewrite Z.mul_0_r, Z.sub_0_r in Hd. unfold reduced. rewrite Hd. rewrite (mod_once (val z)) by lia. split; [split; [done|lia]|done].
  - change (not64 (if 1 =? 1 then ones else 0)) with 0. rewrite fieldSelect_zero.
    unfold reduced. rewrite Z.mod_small by lia. split; [split; [done|lia]|done].
Qed.

Lemma top_split x : word x -> x = 2 ^ 63 * Z.shiftr x 63 + Z.land x fieldTopMask /\
  0 <= Z.shiftr x 63 <= 1 /\ 0 <= Z.land x fieldTopMask < 2 ^ 63.
Proof.
  intros H. change fieldTopMask with (Z.ones 63). rewrite Z.land_ones, Z.shiftr_div_pow2 by lia. words.
  pose proof (Z.div_mod x (2 ^ 63) ltac:(lia)). pose proof (Z.mod_pos_bound x (2 ^ 63) ltac:(lia)). lia.
Qed.

Lemma fieldFold_ok z carry : limbs_ok z -> 0 <= carry < 2 ^ 32 ->
  reduced (fieldFold z carry) /\ val (fieldFold z carry) = (val z + B ^ 4 * carry) mod p.
Proof.
  intros (?&?&?&Htop) Hc. unfold fieldFold. destruct (top_split _ Htop) as (Hs & Hb & Hm).
  rewrite (Z.shiftl_mul_pow2 carry 1) by lia. change (2 ^ 1) with 2.
  set (bit := Z.shiftr (z3 z) 63) in *. set (top := Z.land (z3 z) fieldTopMask) in *.
  keep_u64. keep_u64. keep_u64. chain.
  destruct (field_canonical_ok (mkField s s0 s1 s2)) as [Hr Hv].
  { done. }
  { powers. p_lit. lia. }
  split; [done|]. rewrite Hv.
  assert (Heq : val z + B ^ 4 * carry = val (mkField s s0 s1 s2) + (bit + carry * 2) * p).
  { powers. p_lit. lia. }
  rewrite Heq. by rewrite Z.mod_add by (p_lit; lia).
Qed.

(** Word [i] of a number. *)
Definition word_at (i n : Z) : Z := n / B ^ i mod B.

Lemma word_at_sum8 t0 t1 t2 t3 t4 t5 t6 t7 : word t0 -> word t1 -> word t2 ->
  word_at 1 (sum8 t0 t1 t2 t3 t4 t5 t6 t7) = t1 /\ word_at 2 (sum8 t0 t1 t2 t3 t4 t5 t6 t7) = t2.
Proof.
  intros. unfold word_at. split.
  - replace (_ / B ^ 1) with (t1 + B * (t2 + B * t3 + B * B * t4 + B * B * B * t5 + B * B * B * B * t6 + B * B * B * B * B * t7)).
    + rewrite Z.mul_comm, Z.mod_add by (unfold B; lia). by apply Z.mod_small.
    + apply (Z.div_unique _ _ _ t0); [left; done|]. change (B ^ 1) with B. powers. lia.
  - replace (_ / B ^ 2) with (t2 + B * (t3 + B * t4 + B * B * t5 + B * B * B * t6 + B * B * B * B * t7)).
    + rewrite Z.mul_comm, Z.mod_add by (unfold B; lia). by apply Z.mod_small.
    + apply (Z.div_unique _ _ _ (t0 + B * t1)); powers; lia.
Qed.

Definition risky (n : Z) : Prop := B - 37 <= word_at 1 n \/ B - 37 <= word_at 2 n.

Lemma fieldReduce512_ok t0 t1 t2 t3 t4 t5 t6 t7 :
  word t0 -> word t1 -> word t2 -> word t3 -> word t4 -> word t5 -> word t6 -> word t7 ->
  let n := sum8 t0 t1 t2 t3 t4 t5 t6 t7 in
  match fieldReduce512 t0 t1 t2 t3 t4 t5 t6 t7 with
  | Some r => reduced r /\ val r = n mod p
  | None => risky n
  end.
Proof.
  intros H0 H1 H2 H3 H4 H5 H6 H7 n. 
  destruct (word_at_sum8 t0 t1 t2 t3 t4 t5 t6 t7 H0 H1 H2) as [W1 W2]. fold n in W1, W2.
  unfold fieldReduce512, risky. rewrite W1, W2. unfold Add64Sum.
  chain.
  destruct (k1 + k0 <=? 1) eqn:C1; cbn [mbind option_bind]; [apply Z.leb_le in C1|apply Z.leb_gt in C1; left; words; lia].
  cbn [mbind option_bind]. chain.
  destruct (k4 + k2 <=? 1) eqn:C2; cbn [mbind option_bind]; [apply Z.leb_le in C2|apply Z.leb_gt in C2; right; words; lia].
  cbn [mbind option_bind]. chain. cbn [mbind option_bind]. chain.
  match goal with |- context [fieldFold ?z ?c] => destruct (fieldFold_ok z c) as [Hr Hv] end.
  { done. } { words; lia. }
  split; [done|]. rewrite Hv.
  match goal with |- (val ?z + _ * ?c) mod _ = _ => assert (Heq : n = val z + B ^ 4 * c + 2 * (t4 + B * t5 + B * B * t6 + B * B * B * t7) * p) end.
  { unfold n. powers. p_lit. lia. }
  rewrite Heq. by rewrite Z.mod_add by (p_lit; lia).
Qed.


Lemma shifted_word t : word t ->
  0 <= Z.shiftr t 63 <= 1 /\ u64 (Z.shiftl t 1) = 2 * t - B * Z.shiftr t 63 /\ 2 * t - B * Z.shiftr t 63 < B /\
  0 <= 2 * t - B * Z.shiftr t 63.
Proof.
  intros H. rewrite Z.shiftr_div_pow2, Z.shiftl_mul_pow2 by lia. change (2 ^ 1) with 2. unfold u64. words.
  change (2 ^ 63) with 9223372036854775808.
  pose proof (Z.div_mod t 9223372036854775808 ltac:(lia)). pose proof (Z.mod_pos_bound t 9223372036854775808 ltac:(lia)).
  split; [lia|]. split; [|lia]. symmetry. apply (Z.mod_unique _ _ (t / 9223372036854775808)); lia.
Qed.

Lemma doubled_word t c : word t -> 0 <= c <= 1 -> Z.lor (u64 (Z.shiftl t 1)) c = 2 * t - B * Z.shiftr t 63 + c.
Proof.
  intros H Hc. destruct (shifted_word t H) as (Hb & Hv & Hlt & Hge). rewrite Hv.
  replace (2 * t - B * Z.shiftr t 63) with (Z.shiftl (t - 2 ^ 63 * Z.shiftr t 63) 1).
  - rewrite lor_shiftl by lia. rewrite Z.shiftl_mul_pow2 by lia. lia.
  - rewrite Z.shiftl_mul_pow2 by lia. words. change (2 ^ 63) with 9223372036854775808. lia.
Qed.

Lemma prod_bound_le a b m n : 0 <= a <= m -> 0 <= b <= n -> 0 <= a * b <= m * n.
Proof. nia. Qed.

Lemma square_words z : limbs_ok z ->
  exists t0 t1 t2 t3 t4 t5 t6 t7, word t0 /\ word t1 /\ word t2 /\ word t3 /\ word t4 /\ word t5 /\ word t6 /\ word t7 /\
  sum8 t0 t1 t2 t3 t4 t5 t6 t7 = val z * val z /\ square z = fieldReduce512 t0 t1 t2 t3 t4 t5 t6 t7.
Proof.
  destruct z as [a0 a1 a2 a3]. intros (Ha0&Ha1&Ha2&Ha3). cbn [z0 z1 z2 z3] in *.
  unfold square.
  assert (Hx : 0 <= a0 + B * a1 + B * B * a2 + B * B * B * a3 < B * B * B * B) by (words; lia).
  pose proof (prod_bound_le a0 (B * a1 + B * B * a2 + B * B * B * a3) (B - 1) (B * B * B * B - B) ltac:(words; lia) ltac:(words; lia)) as P1.
  pose proof (prod_bound_le (B * a1) (B * B * a2 + B * B * B * a3) (B * B - B) (B * B * B * B - B * B) ltac:(words; lia) ltac:(words; lia)) as P2.
  pose proof (prod_bound _ _ _ _ Hx Hx) as P3.
  chain.
  repeat (match goal with
  | |- context [Z.lor (u64 (Z.shiftl ?t 1)) (Z.shiftr ?s 63)] =>
      rewrite (doubled_word t (Z.shiftr s 63)) by (try apply shifted_word; words; lia)
  | |- context [u64 (Z.shiftl ?t 1)] => rewrite (proj1 (proj2 (shifted_word t ltac:(words; lia))))
  end).
  repeat (match goal with |- context [Z.shiftr ?t 63] =>
    let b := fresh "bit" in destruct (shifted_word t ltac:(words; lia)) as (? & _ & ? & ?); set (b := Z.shiftr t 63) in * end).
  chain. 
  eexists _, _, _, _, _, _, _, _. do 8 (split; [shelve|]). split; [|reflexivity].
  powers. lia.
  Unshelve. all: assumption.
Qed.

Lemma mul_ok z x : limbs_ok z -> limbs_ok x ->
  match mul z x with
  | Some r => reduced r /\ val r = (val z * val x) mod p
  | None => risky (val z * val x)
  end.
Proof.
  intros Hz Hx. destruct (mul_words z x Hz Hx) as (t0 & t1 & t2 & t3 & t4 & t5 & t6 & t7 & ? & ? & ? & ? & ? & ? & ? & ? & <- & ->).
  by apply fieldReduce512_ok.
Qed.

Lemma square_ok z : limbs_ok z ->
  match square z with
  | Some r => reduced r /\ val r = (val z * val z) mod p
  | None => risky (val z * val z)
  end.
Proof.
  intros Hz. destruct (square_words z Hz) as (t0 & t1 & t2 & t3 & t4 & t5 & t6 & t7 & ? & ? & ? & ? & ? & ? & ? & ? & <- & ->).
  by apply fieldReduce512_ok.
Qed.

Lemma field_add_ok z x : limbs_ok z -> limbs_ok x -> reduced (add z x) /\ val (add z x) = (val z + val x) mod p.
Proof.
  intros (?&?&?&?) (?&?&?&?). unfold add. chain.
  match goal with |- context [fieldFold ?r ?c] => destruct (fieldFold_ok r c) as [Hr Hv]; [done|lia|] end.
  split; [done|]. rewrite Hv. f_equal. powers. lia.
Qed.

Lemma mulA24_ok z : limbs_ok z -> reduced (mulA24 z) /\ val (mulA24 z) = (121665 * val z) mod p.
Proof.
  intros (?&?&?&?). unfold mulA24. chain.
  match goal with |- context [fieldFold ?r ?c] => destruct (fieldFold_ok r c) as [Hr Hv]; [done|words; lia|] end.
  split; [done|]. rewrite Hv. f_equal. powers. lia.
Qed.

Lemma land_mask x b : word x -> 0 <= b <= 1 -> Z.land x (u64 (0 - b)) = b * x.
Proof.
  intros. rewrite borrow_mask by done. assert (b = 0 \/ b = 1) as [-> | ->] by lia; cbn [Z.eqb].
  - by rewrite Z.land_0_r.
  - change (1 =? 1) with true. cbv iota. rewrite land_ones_word by done. lia.
Qed.

Lemma Add64_zero x : word x -> Add64 x 0 0 = (x, 0).
Proof.
  intros. destruct (Add64_ok x 0 0) as (s & k & -> & E & ? & ?); [done|words; lia..|].
  f_equal; words; lia.
Qed.

(** [sub] wraps once: the difference must be at least [-p]. *)
Lemma fsub_ok z x : limbs_ok z -> limbs_ok x -> val x <= val z + p ->
  limbs_ok (fsub z x) /\ val (fsub z x) = if val z <? val x then val z - val x + p else val z - val x.
Proof.
  intros (?&?&?&?) (?&?&?&?) Hle. destruct fieldP_ok as [(?&?&?&?) HP].
  unfold fsub. set (p0 := z0 fieldP) in *. set (p1 := z1 fieldP) in *. set (p2 := z2 fieldP) in *. set (p3 := z3 fieldP) in *.
  assert (HP' : p0 + B * p1 + B * B * p2 + B * B * B * p3 = p) by exact HP. clearbody p0 p1 p2 p3.
  do 4 (word_step; cbv beta iota zeta). rewrite !land_mask by done.
  assert (b2 = 0 \/ b2 = 1) as [-> | ->] by lia; rewrite ?Z.mul_0_l, ?Z.mul_1_l.
  - rewrite !Add64_zero by done. split; [done|]. clear HP HP' Hle. rewrite (proj2 (Z.ltb_ge _ _)); powers; lia.
  - chain. split; [done|]. revert Hle. rewrite (proj2 (Z.ltb_lt _ _)); rewrite <- ?HP'; powers; intros; lia.
Qed.

Lemma fsub_reduced z x : reduced z -> reduced x ->
  reduced (fsub z x) /\ val (fsub z x) = (val z - val x) mod p.
Proof.
  intros [Hz Hzp] [Hx Hxp]. assert (0 <= val z /\ 0 <= val x) as [? ?].
  { destruct Hz as (?&?&?&?), Hx as (?&?&?&?). split; powers; lia. }
  destruct (fsub_ok z x Hz Hx ltac:(lia)) as [Hl Hv]. unfold reduced. rewrite Hv.
  destruct (val z <? val x) eqn:E; [apply Z.ltb_lt in E|apply Z.ltb_ge in E].
  - replace ((val z - val x) mod p) with (val z - val x + p) by (apply (Z.mod_unique _ _ (-1)); lia). split; [split; [done|lia]|done].
  - rewrite Z.mod_small by lia. split; [split; [done|lia]|done].
Qed.

(** ** Masks *)

Lemma shiftr63 x : word x -> Z.shiftr x 63 = if 2 ^ 63 <=? x then 1 else 0.
Proof.
  intros H. rewrite Z.shiftr_div_pow2 by lia. words. change (2 ^ 63) with 9223372036854775808.
  destruct (9223372036854775808 <=? x) eqn:E; [apply Z.leb_le in E|apply Z.leb_gt in E].
  - symmetry. apply (Z.div_unique _ _ _ (x - 9223372036854775808)); lia.
  - apply Z.div_small. lia.
Qed.

Lemma fieldNonzeroMask_ok x : word x -> fieldNonzeroMask x = if x =? 0 then 0 else ones.
Proof.
  intros H. destruct (x =? 0) eqn:E; [apply Z.eqb_eq in E; by subst|apply Z.eqb_neq in E].
  unfold fieldNonzeroMask. replace (u64 (0 - x)) with (B - x).
  2: { unfold u64. apply (Z.mod_unique _ _ (-1)); words; lia. }
  rewrite Z.shiftr_lor, !shiftr63 by (words; lia). words. change (2 ^ 63) with 9223372036854775808.
  destruct (9223372036854775808 <=? x) eqn:E1, (9223372036854775808 <=? 18446744073709551616 - x) eqn:E2; try reflexivity. lia.
Qed.

Lemma fieldZeroMask_ok x : word x -> fieldZeroMask x = if x =? 0 then ones else 0.
Proof. intros H. unfold fieldZeroMask. rewrite fieldNonzeroMask_ok by done. by destruct (x =? 0). Qed.

Lemma lor_word a b : word a -> word b -> word (Z.lor a b) /\ (Z.lor a b = 0 <-> a = 0 /\ b = 0).
Proof.
  intros Ha Hb. split; [|apply Z.lor_eq_0_iff]. split.
  - apply Z.lor_nonneg. words. lia.
  - destruct (Z.eq_dec (Z.lor a b) 0) as [->|Hn]; [words; lia|]. apply Z.log2_lt_pow2.
    { assert (0 <= Z.lor a b) by (apply Z.lor_nonneg; words; lia). lia. }
    rewrite Z.log2_lor by (words; lia). assert (forall x, word x -> Z.log2 x < 64).
    { intros x Hx. destruct (Z.eq_dec x 0) as [->|]; [cbn; lia|]. apply Z.log2_lt_pow2; words; lia. }
    apply Z.max_lub_lt; auto.
Qed.

Lemma lxor_word a b : word a -> word b -> word (Z.lxor a b).
Proof. intros. apply (lxor_bound a b 64); [lia|done..]. Qed.

Lemma val_inj z x : limbs_ok z -> limbs_ok x -> val z = val x -> z = x.
Proof.
  destruct z as [a0 a1 a2 a3], x as [b0 b1 b2 b3]. intros (?&?&?&?) (?&?&?&?). cbn in *. powers. intros.
  f_equal; lia.
Qed.

Lemma val_bound z : limbs_ok z -> 0 <= val z < B ^ 4.
Proof. intros (?&?&?&?). powers. lia. Qed.

Lemma zeroMask_ok z : limbs_ok z -> zeroMask z = if val z =? 0 then ones else 0.
Proof.
  intros (H0&H1&H2&H3). unfold zeroMask.
  destruct (lor_word _ _ H0 H1) as [W1 E1]. destruct (lor_word _ _ W1 H2) as [W2 E2]. destruct (lor_word _ _ W2 H3) as [W3 E3].
  rewrite fieldZeroMask_ok by done.
  destruct (_ =? 0) eqn:E; [apply Z.eqb_eq in E|apply Z.eqb_neq in E].
  - rewrite (proj2 (Z.eqb_eq _ _)); [done|]. powers. intuition lia.
  - rewrite (proj2 (Z.eqb_neq _ _)); [done|]. intros Hv. apply E. rewrite E3, E2, E1. revert Hv. powers. lia.
Qed.

Lemma equalMask_ok z x : limbs_ok z -> limbs_ok x -> equalMask z x = if val z =? val x then ones else 0.
Proof.
  intros Hz Hx. pose proof Hz as (H0&H1&H2&H3). pose proof Hx as (K0&K1&K2&K3). unfold equalMask.
  pose proof (lxor_word _ _ H0 K0) as L0. pose proof (lxor_word _ _ H1 K1) as L1.
  pose proof (lxor_word _ _ H2 K2) as L2. pose proof (lxor_word _ _ H3 K3) as L3.
  destruct (lor_word _ _ L0 L1) as [W1 E1]. destruct (lor_word _ _ W1 L2) as [W2 E2]. destruct (lor_word _ _ W2 L3) as [W3 E3].
  rewrite fieldZeroMask_ok by done.
  destruct (val z =? val x) eqn:E; [apply Z.eqb_eq in E|apply Z.eqb_neq in E].
  - apply val_inj in E as <-; [|done..]. by rewrite !Z.lxor_nilpotent.
  - rewrite (proj2 (Z.eqb_neq _ _)); [done|]. rewrite E3, E2, E1, !Z.lxor_eq_0_iff. intros (((? & ?) & ?) & ?).
    apply E. unfold val. congruence.
Qed.

Lemma lessMask_ok z x : limbs_ok z -> limbs_ok x -> lessMask z x = if val z <? val x then ones else 0.
Proof.
  intros (?&?&?&?) (?&?&?&?). unfold lessMask. chain. rewrite borrow_mask by done.
  destruct (val z <? val x) eqn:Hc; [apply Z.ltb_lt in Hc|apply Z.ltb_ge in Hc]; revert Hc; powers; intros Hc.
  - by replace b2 with 1 by lia.
  - by replace b2 with 0 by lia.
Qed.

Lemma lessOrEqualMask_ok z x : limbs_ok z -> limbs_ok x -> lessOrEqualMask z x = if val z <=? val x then ones else 0.
Proof.
  intros. unfold lessOrEqualMask. rewrite lessMask_ok, equalMask_ok by done.
  destruct (val z <? val x) eqn:E1, (val z =? val x) eqn:E2, (val z <=? val x) eqn:E3; try reflexivity; lia.
Qed.

Lemma neg_ok z : reduced z -> reduced (neg z) /\ val (neg z) = (- val z) mod p.
Proof.
  intros [Hz Hp]. destruct fieldP_ok as [HPl HP]. pose proof (val_bound z Hz).
  destruct (fsub_ok fieldP z HPl Hz ltac:(lia)) as [Hl Hv]. rewrite HP in Hv.
  rewrite (proj2 (Z.ltb_ge p (val z))) in Hv by lia.
  unfold neg. rewrite zeroMask_ok by done. destruct (val z =? 0) eqn:E; [apply Z.eqb_eq in E|apply Z.eqb_neq in E].
  - rewrite fieldSelect_ones by (done || (unfold limbs_ok, word; vm_compute; intuition congruence)). rewrite E.
    split; [split; [unfold limbs_ok, word; vm_compute; intuition congruence|reflexivity]|reflexivity].
  - rewrite fieldSelect_zero. unfold reduced. rewrite Hv.
    replace ((- val z) mod p) with (p - val z) by (apply (Z.mod_unique _ _ (-1)); lia). split; [split; [done|lia]|done].
Qed.

(** ** Bytes *)

Lemma index_cons_pos {A} (x : A) l i : 0 < i -> index (x :: l) i = index l (i - 1).
Proof. intros. exact (index_app_r [x] l i ltac:(change (1 <= i); lia)). Qed.

Ltac index_cons :=
  repeat match goal with
  | |- context [index (?x :: ?l) 0] => rewrite (index_cons_0 x l)
  | |- context [index (?x :: ?l) ?i] =>
      rewrite (index_cons_pos x l i) by lia; let j := eval compute in (i - 1) in change (i - 1) with j
  end.

Lemma loadWord_ok a w b off : bytes_ok w -> len w = 8 -> off = len a -> loadWord (a ++ w ++ b) off = Ok (le_val w).
Proof.
  intros Hw Hl ->. do 8 (destruct w as [|? w]; [revert Hl; len_simpl; len_pos; lia|]). destruct w; [|revert Hl; len_simpl; len_pos; lia].
  unfold bytes_ok, is_byte in Hw. rewrite !Forall_cons in Hw. destruct Hw as (?&?&?&?&?&?&?&?&_).
  unfold loadWord.
  repeat (match goal with |- context [index (a ++ ?r) ?i] => rewrite (index_app_r a r i) by lia end).
  repeat (match goal with |- context [len a + ?k - len a] => replace (len a + k - len a) with k by lia end). rewrite Z.sub_diag.
  cbn [app]. index_cons. cbn [bind]. f_equal. rewrite !le_val_cons, le_val_nil.
  repeat (match goal with |- context [Z.lor ?x (Z.shiftl ?y ?k)] => rewrite (Z.lor_comm x (Z.shiftl y k)), (lor_shiftl y x k) by (rewrite ?Z.shiftl_mul_pow2; lia) end).
  lia.
Qed.

Lemma storeWord_ok w : storeWord w = le_bytes 8 w.
Proof.
  rewrite !le_bytes_succ. unfold storeWord, u8. rewrite !Z.shiftr_div_pow2 by lia. rewrite !Z.div_div by lia.
  change (le_bytes 0 _) with (@nil Z). done.
Qed.

Lemma le_val_word w : bytes_ok w -> len w = 8 -> word (le_val w).
Proof. intros Hw Hl. pose proof (le_val_bound w Hw) as H. rewrite Hl in H. exact H. Qed.

Lemma fieldLoad_ok l : bytes_ok l -> len l = 32 ->
  exists z, fieldLoad l = Ok z /\ limbs_ok z /\ val z = le_val l.
Proof.
  intros Hb Hl. set (a := sub 0 8 l). set (b := sub 8 16 l). set (c := sub 16 24 l). set (d := sub 24 32 l).
  assert (Heq : l = a ++ b ++ c ++ d).
  { subst a b c d. rewrite !sub_app_join by lia. symmetry. apply sub_all. lia. }
  assert (Ha : len a = 8) by (subst a; len_lia). assert (Hlb : len b = 8) by (subst b; len_lia).
  assert (Hc : len c = 8) by (subst c; len_lia). assert (Hd : len d = 8) by (subst d; len_lia).
  rewrite Heq in Hb. rewrite !bytes_ok_app in Hb. destruct Hb as (Ba & Bb & Bc & Bd).
  unfold fieldLoad. destruct (index_ok l 31 ltac:(lia)) as (x & -> & _). cbn [bind]. rewrite Heq.
  clearbody a b c d. pose proof (loadWord_ok [] a (b ++ c ++ d) 0 Ba Ha eq_refl) as R. cbn [app] in R. rewrite R. clear R. cbn [bind].
  rewrite (loadWord_ok a b (c ++ d) 8) by done. cbn [bind].
  rewrite (app_assoc a b), (loadWord_ok (a ++ b) c d 16) by (done || len_lia). cbn [bind].
  rewrite (app_assoc _ c), <- (app_nil_r d), (loadWord_ok ((a ++ b) ++ c) d [] 24) by (done || len_lia). cbn [bind].
  eexists. split; [reflexivity|]. split; [split_and!; by apply le_val_word|].
  rewrite app_nil_r, !le_val_app, !len_app, Ha, Hlb, Hc. unfold val. cbn [z0 z1 z2 z3].
  change (8 + 8 + 8) with 24. change (8 + 8) with 16.
  change (256 ^ 24) with (B ^ 3). change (256 ^ 16) with (B ^ 2). change (256 ^ 8) with B. lia.
Qed.

Lemma le_val_le8 w : word w -> le_val (le_bytes 8 w) = w.
Proof. intros [H1 H2]. apply le_val_small. change (256 ^ Z.of_nat 8) with B. lia. Qed.

Lemma store_ok z out : limbs_ok z -> len out = 32 -> store z out = Ok (le_bytes 32 (val z)).
Proof.
  intros Hz Hl. pose proof Hz as (W0&W1&W2&W3). unfold store. destruct (index_ok out 31 ltac:(lia)) as (x & -> & _). cbn [bind].
  set (s0 := storeWord (z0 z)). set (s1 := storeWord (z1 z)). set (s2 := storeWord (z2 z)). set (s3 := storeWord (z3 z)).
  assert (L0 : len s0 = 8) by done. assert (L1 : len s1 = 8) by done. assert (L2 : len s2 = 8) by done. assert (L3 : len s3 = 8) by done.
  rewrite (over_nil out).
  rewrite write_over by len_lia. cbn [bind]. rewrite write_over by len_lia. cbn [bind].
  rewrite write_over by len_lia. cbn [bind]. rewrite write_over by len_lia. unfold over. f_equal.
  rewrite sub_empty, app_nil_r by len_lia. cbn [app].
  assert (Hs : le_val (((s0 ++ s1) ++ s2) ++ s3) = val z).
  { rewrite !le_val_app, !len_app, L0, L1, L2. unfold s0, s1, s2, s3, val. rewrite !storeWord_ok.
    rewrite !le_val_le8 by assumption.
    change (8 + 8 + 8) with 24. change (8 + 8) with 16.
    change (256 ^ 24) with (B ^ 3). change (256 ^ 16) with (B ^ 2). change (256 ^ 8) with B. lia. }
  rewrite <- Hs. symmetry. apply (le_bytes_le_val (((s0 ++ s1) ++ s2) ++ s3)).
  rewrite !bytes_ok_app. unfold s0, s1, s2, s3. rewrite !storeWord_ok. split_and!; apply bytes_ok_le.
Qed.

(** ** Powers *)

Definition powm (b e : Z) : Z := b ^ e mod p.

Lemma powm_mul b m n : 0 <= m -> 0 <= n -> (powm b m * powm b n) mod p = powm b (m + n).
Proof. intros. unfold powm. rewrite <- Z.mul_mod, Z.pow_add_r by (unfold p; lia). done. Qed.

Lemma powm_1 b : powm b 1 = b mod p.
Proof. unfold powm. by rewrite Z.pow_1_r. Qed.

Lemma powm_0 b : powm b 0 = 1.
Proof. unfold powm. rewrite Z.pow_0_r. apply Z.mod_small. unfold p. lia. Qed.

Lemma powm_range b e : 0 <= powm b e < p.
Proof. apply Z.mod_pos_bound. unfold p. lia. Qed.

Lemma powm_mod b e : powm (b mod p) e = powm b e.
Proof. unfold powm. by rewrite Z.mod_pow_l. Qed.

Lemma powm_base a b e : powm (a * b) e = (powm a e * powm b e) mod p.
Proof. unfold powm. by rewrite Z.pow_mul_l, Z.mul_mod by (unfold p; lia). Qed.

Lemma powm_pow b m n : 0 <= m -> 0 <= n -> powm (powm b m) n = powm b (m * n).
Proof. intros. unfold powm. by rewrite Z.mod_pow_l, Z.pow_mul_r by lia. Qed.

Lemma powm_one e : 0 <= e -> powm 1 e = 1.
Proof. intros. unfold powm. rewrite Z.pow_1_l by lia. apply Z.mod_small. unfold p. lia. Qed.

#[global] Opaque powm.

(** [r] is the [e]-th power of [b]. *)
Definition power (b e : Z) (r : field25519) : Prop := 0 <= e /\ limbs_ok r /\ val r mod p = powm b e.

Lemma power_mul b m n x y r : power b m x -> power b n y -> mul x y = Some r ->
  power b (m + n) r /\ reduced r.
Proof.
  intros (? & Hx & Vx) (? & Hy & Vy) E. pose proof (mul_ok x y Hx Hy) as H1. rewrite E in H1. destruct H1 as [Hr Hv].
  split; [|done]. split; [lia|]. split; [apply Hr|].
  rewrite Hv, Z.mod_mod, Z.mul_mod, Vx, Vy, powm_mul by (done || (unfold p; lia)). done.
Qed.

Lemma power_square b m x r : power b m x -> square x = Some r -> power b (2 * m) r /\ reduced r.
Proof.
  intros (? & Hx & Vx) E. pose proof (square_ok x Hx) as H1. rewrite E in H1. destruct H1 as [Hr Hv].
  split; [|done]. split; [lia|]. split; [apply Hr|].
  rewrite Hv, Z.mod_mod, Z.mul_mod, Vx, powm_mul by (done || (unfold p; lia)). f_equal. lia.
Qed.

Lemma power_squareN n b m x r : power b m x -> squareN n x = Some r -> power b (2 ^ Z.of_nat n * m) r.
Proof.
  revert m x. induction n as [|n IH]; intros m x Hx E; cbn [squareN mbind option_bind] in E.
  - injection E as ->. by rewrite Z.mul_1_l.
  - destruct (square x) as [y|] eqn:Ey; [|done]. cbn [mbind option_bind] in E.
    destruct (power_square b m x y Hx Ey) as [Hy _]. pose proof (IH _ _ Hy E) as H.
    rewrite Nat2Z.inj_succ, Z.pow_succ_r by lia. by replace (2 * 2 ^ Z.of_nat n * m) with (2 ^ Z.of_nat n * (2 * m)) by lia.
Qed.

Lemma power_run n b m k x y r :
  power b m x -> power b k y -> (a ← squareN n x; mul a y) = Some r -> power b (2 ^ Z.of_nat n * m + k) r.
Proof.
  intros Hx Hy E. destruct (squareN n x) as [a|] eqn:Ea; [|done]. cbn [mbind option_bind] in E.
  eapply power_mul; [by eapply power_squareN|done..].
Qed.

Lemma power_run1 b m k x y r :
  power b m x -> power b k y -> (a ← square x; mul a y) = Some r -> power b (2 * m + k) r.
Proof.
  intros Hx Hy E. destruct (square x) as [a|] eqn:Ea; [|done]. cbn [mbind option_bind] in E.
  eapply power_mul; [by eapply power_square|done..].
Qed.

(** Names the result of the next step of an addition chain. *)
Ltac chain_step E :=
  match type of E with
  | mbind _ ?m = Some _ =>
      let x := fresh "x" in let Ex := fresh "Ex" in
      destruct m as [x|] eqn:Ex; [|discriminate E]; cbn [mbind option_bind] in E
  end.

Lemma pow250_ok z r z11 : limbs_ok z -> pow250 z = Some (r, z11) ->
  power (val z) (2 ^ 250 - 1) r /\ power (val z) 11 z11.
Proof.
  intros Hz E. assert (P1 : power (val z) 1 z) by (split; [lia|split; [done|by rewrite powm_1]]).
  unfold pow250 in E.
  chain_step E. destruct (power_square _ _ _ _ P1 Ex) as [P2 _].
  chain_step E. pose proof (power_run _ _ _ _ _ _ _ P2 P1 Ex0) as P9.
  chain_step E. pose proof (power_mul _ _ _ _ _ _ P9 P2 Ex1) as [P11 _].
  chain_step E. pose proof (power_run1 _ _ _ _ _ _ P11 P9 Ex2) as P5.
  chain_step E. pose proof (power_run _ _ _ _ _ _ _ P5 P5 Ex3) as P10.
  chain_step E. pose proof (power_run _ _ _ _ _ _ _ P10 P10 Ex4) as P20.
  chain_step E. pose proof (power_run _ _ _ _ _ _ _ P20 P20 Ex5) as P40.
  chain_step E. pose proof (power_run _ _ _ _ _ _ _ P40 P10 Ex6) as P50.
  chain_step E. pose proof (power_run _ _ _ _ _ _ _ P50 P50 Ex7) as P100.
  chain_step E. pose proof (power_run _ _ _ _ _ _ _ P100 P100 Ex8) as P200.
  chain_step E. pose proof (power_run _ _ _ _ _ _ _ P200 P50 Ex9) as P250.
  injection E as <- <-. split; [|exact P11].
  match type of P250 with power _ ?e _ => replace (2 ^ 250 - 1) with e by (vm_compute; reflexivity) end. exact P250.
Qed.

Lemma invert_ok z r : limbs_ok z -> invert z = Some r -> reduced r /\ val r = powm (val z) (p - 2).
Proof.
  intros Hz E. unfold invert in E. destruct (pow250 z) as [[y z11]|] eqn:Ey; [|done]. cbn [mbind option_bind] in E.
  destruct (pow250_ok z y z11 Hz Ey) as [P250 P11].
  destruct (squareN 5 y) as [a|] eqn:Ea; [|done]. cbn [mbind option_bind] in E.
  destruct (power_mul _ _ _ _ _ _ (power_squareN _ _ _ _ _ P250 Ea) P11 E) as [(_ & Hl & Hv) Hr].
  split; [done|]. rewrite Z.mod_small in Hv by (destruct Hr; pose proof (val_bound r Hl); lia). rewrite Hv.
  f_equal.
Qed.

Lemma pow22523_ok z r : limbs_ok z -> pow22523 z = Some r -> reduced r /\ val r = powm (val z) ((p - 5) / 8).
Proof.
  intros Hz E. unfold pow22523 in E. destruct (pow250 z) as [[y z11]|] eqn:Ey; [|done]. cbn [mbind option_bind] in E.
  destruct (pow250_ok z y z11 Hz Ey) as [P250 _].
  destruct (squareN 2 y) as [a|] eqn:Ea; [|done]. cbn [mbind option_bind] in E.
  assert (P1 : power (val z) 1 z) by (split; [lia|split; [done|by rewrite powm_1]]).
  destruct (power_mul _ _ _ _ _ _ (power_squareN _ _ _ _ _ P250 Ea) P1 E) as [(_ & Hl & Hv) Hr].
  split; [done|]. rewrite Z.mod_small in Hv by (destruct Hr; pose proof (val_bound r Hl); lia). rewrite Hv.
  f_equal.
Qed.

(** ** Correctness *)

(** C6: on reduced elements the limb arithmetic is arithmetic modulo
    2^255 - 19 and stays reduced: addition, subtraction, negation and the
    multiplication by (A-2)/4 always; multiplication and squaring whenever
    they are defined, and they are defined unless word 1 or word 2 of the
    512-bit product is within 37 of 2^64. *)
Theorem field_exact z x : reduced z -> reduced x ->
  (reduced (add z x) /\ val (add z x) = (val z + val x) mod p) /\
  (reduced (fsub z x) /\ val (fsub z x) = (val z - val x) mod p) /\
  (reduced (neg z) /\ val (neg z) = (- val z) mod p) /\
  (reduced (mulA24 z) /\ val (mulA24 z) = (121665 * val z) mod p) /\
  match mul z x with
  | Some r => reduced r /\ val r = (val z * val x) mod p
  | None => risky (val z * val x)
  end /\
  match square z with
  | Some r => reduced r /\ val r = (val z * val z) mod p
  | None => risky (val z * val z)
  end.
Proof.
  intros Hz Hx. pose proof (proj1 Hz) as Lz. pose proof (proj1 Hx) as Lx.
  split; [exact (field_add_ok z x Lz Lx)|]. split; [exact (fsub_reduced z x Hz Hx)|]. split; [exact (neg_ok z Hz)|].
  split; [exact (mulA24_ok z Lz)|]. split; [exact (mul_ok z x Lz Lx)|exact (square_ok z Lz)].
Qed.

Lemma reduced_check z : forallb (fun w => (0 <=? w) && (w <? B)) [z0 z; z1 z; z2 z; z3 z] && (val z <? p) = true -> reduced z.
Proof.
  cbn [forallb]. rewrite !andb_true_iff, !Z.leb_le, !Z.ltb_lt. intros (((? & ?) & (? & ?) & (? & ?) & (? & ?) & _) & ?).
  by split.
Qed.

Lemma field_exact_witness :
  val (fsub fieldOne fieldA) = (1 - 486662) mod p /\ val (neg fieldA) = val fieldNegA /\
  exists r, mul fieldSqrtM1 fieldSqrtM1 = Some r /\ val r = (-1) mod p.
Proof.
  destruct (field_exact fieldOne fieldA) as (_ & (_ & H1) & _); [apply reduced_check; vm_compute; reflexivity..|].
  destruct (field_exact fieldA fieldA) as (_ & _ & (_ & H2) & _); [apply reduced_check; vm_compute; reflexivity..|].
  destruct (field_exact fieldSqrtM1 fieldSqrtM1) as (_ & _ & _ & _ & H3 & _); [apply reduced_check; vm_compute; reflexivity..|].
  split; [exact H1|]. split; [rewrite H2; vm_compute; reflexivity|].
  destruct (mul fieldSqrtM1 fieldSqrtM1) as [r|] eqn:E; [|vm_compute in E; discriminate].
  exists r. split; [done|]. rewrite (proj2 H3). vm_compute. reflexivity.
Defined.

(** C39: multiplication is not total on reduced elements: the reduction of
    (2^129 - 1) times the element below adds two carries and hands their sum,
    2, to [bits.Add64], which is undefined for it. *)
Theorem mul_double_carry :
  exists z x, reduced z /\ reduced x /\ mul z x = None.
Proof.
  exists (mkField (B - 1) (B - 1) 1 0), (mkField 1 0 0x8000000000000000 0x35e50d79435e50d).
  split; [apply reduced_check; vm_compute; reflexivity|]. split; [apply reduced_check; vm_compute; reflexivity|].
  vm_compute. reflexivity.
Qed.
