(* ===== verification/Prime25519.v ===== *)
(** 2^255 - 19 is prime: Pocklington's criterion and a certificate.

    [src/cryptography/field25519.go] computes in the integers modulo
    2^255 - 19 and its inversion and square roots are powers; they are what
    they are called because the modulus is prime. *)

From S2P Require Import Prelude.
From Stdlib Require Import Znumtheory Zdivisibility Zmod.ZmodInv.

(** ** Modular powers, executable *)

Fixpoint pow_pos_mod (a : Z) (e : positive) (n : Z) : Z :=
  match e with
  | xH => a mod n
  | xO e => let r := pow_pos_mod a e n in (r * r) mod n
  | xI e => let r := pow_pos_mod a e n in ((r * r) mod n * a) mod n
  end.

Definition pow_mod (a e n : Z) : Z :=
  match e with
  | Zpos e => pow_pos_mod a e n
  | _ => 1 mod n
  end.

Lemma pow_pos_mod_ok a e n : 0 < n -> pow_pos_mod a e n = a ^ Zpos e mod n.
Proof.
  intros Hn. induction e as [e IH|e IH|]; cbn [pow_pos_mod].
  - rewrite IH. rewrite Pos2Z.inj_xI, Z.pow_add_r, Z.pow_1_r by lia.
    replace (2 * Zpos e) with (Zpos e + Zpos e) by lia. rewrite Z.pow_add_r by lia.
    rewrite <- Z.mul_mod by lia. by rewrite Z.mul_mod_idemp_l by lia.
  - rewrite IH. replace (Zpos e~0) with (Zpos e + Zpos e) by lia. rewrite Z.pow_add_r by lia.
    by rewrite <- Z.mul_mod by lia.
  - by rewrite Z.pow_1_r.
Qed.

Lemma pow_mod_ok a e n : 0 < n -> 0 <= e -> pow_mod a e n = a ^ e mod n.
Proof. intros Hn He. destruct e as [|e|e]; [done|by apply pow_pos_mod_ok|lia]. Qed.

(** ** Divisors *)

Lemma prime_divisor m : 1 < m -> exists r, Z.prime r /\ (r | m).
Proof.
  intros Hm. assert (H0 : 0 <= m) by lia. revert m H0 Hm.
  apply (Z_lt_induction (fun m => 1 < m -> exists r, Z.prime r /\ (r | m))). intros m IH Hm. destruct (prime_dec m) as [Hp|Hp].
  - exists m. split; [by apply prime_alt|apply Z.divide_refl].
  - destruct (not_prime_divide m Hm Hp) as (d & Hd & Hdm).
    destruct (IH d ltac:(lia) ltac:(lia)) as (r & Hr & Hrd). exists r. split; [done|by apply (Z.divide_trans _ d)].
Qed.

(** A composite number has a prime divisor that is at most its square root. *)
Lemma small_prime_divisor n : 1 < n -> ~ Z.prime n -> exists r, Z.prime r /\ (r | n) /\ r * r <= n.
Proof.
  intros Hn Hp. rewrite prime_alt in Hp. destruct (not_prime_divide n Hn Hp) as (d & Hd & [e He]).
  assert (1 < e) by nia. assert (Hs : d * d <= n \/ e * e <= n) by nia.
  assert (exists m, 1 < m /\ (m | n) /\ m * m <= n) as (m & Hm & Hdiv & Hle).
  { destruct Hs; [exists d|exists e]; (split; [lia|split; [|done]]); [by exists e|exists d; lia]. }
  destruct (prime_divisor m Hm) as (r & Hr & Hrm). exists r. split; [done|].
  split; [by apply (Z.divide_trans _ m)|]. apply Z.divide_pos_le in Hrm; [|lia].
  pose proof (Z.prime_ge_2 r Hr). nia.
Qed.

(** Trial division. *)
Definition no_divisor (n : Z) : bool :=
  (1 <? n) && forallb (fun d => negb (n mod d =? 0)) (seqZ 2 (Z.sqrt n - 1)).

Lemma no_divisor_prime n : no_divisor n = true -> Z.prime n.
Proof.
  unfold no_divisor. intros [Hn Hd]%andb_true_iff. apply Z.ltb_lt in Hn.
  rewrite forallb_forall in Hd. destruct (prime_dec n) as [|Hp]; [by apply prime_alt|]. exfalso.
  rewrite <- prime_alt in Hp. destruct (small_prime_divisor n Hn Hp) as (r & Hr & Hrn & Hle).
  pose proof (Z.prime_ge_2 r Hr). assert (Hin : In r (seqZ 2 (Z.sqrt n - 1))).
  { apply list_elem_of_In, elem_of_seqZ. pose proof (Z.sqrt_le_square n r ltac:(lia) ltac:(lia)). lia. }
  specialize (Hd r Hin). apply Z.mod_divide in Hrn; [|lia]. rewrite Hrn in Hd. done.
Qed.

(** ** Pocklington's criterion *)

Definition product (l : list Z) : Z := foldr Z.mul 1 l.

(** Every listed prime divides [n - 1] and [a] has no smaller order for it. *)
Definition pocklington_check (n a : Z) (qs : list Z) : bool :=
  (1 <? n) && bool_decide (NoDup qs) && (n <? product qs * product qs) &&
  (pow_mod a (n - 1) n =? 1) &&
  forallb (fun q => ((n - 1) mod q =? 0) && (Z.gcd (pow_mod a ((n - 1) / q) n - 1) n =? 1)) qs.

Lemma pow_mod_divisor a e n r : 0 < n -> 0 < r -> (r | n) -> (a ^ e mod n) mod r = a ^ e mod r.
Proof. intros Hn Hr [k ->]. rewrite Z.mul_comm, Z.rem_mul_r by nia. rewrite Z.mul_comm, Z.mod_add by lia. apply Z.mod_mod. lia. Qed.

Lemma pow_one_mod b e k r : 1 < r -> 0 <= e -> 0 <= k -> b ^ e mod r = 1 -> b ^ (e * k) mod r = 1.
Proof.
  intros Hr He Hk H1. rewrite Z.pow_mul_r by lia. rewrite <- Z.mod_pow_l, H1, Z.pow_1_l by lia. apply Z.mod_small. lia.
Qed.

Lemma coprime_exponents r b q : 1 < r -> 0 <= q -> b mod r <> 0 -> Z.gcd q (r - 1) = 1 ->
  b ^ q mod r = 1 -> b ^ (r - 1) mod r = 1 -> b mod r = 1.
Proof.
  intros Hr Hq Hb0 Hc Hbq Hbr. destruct (Z.eq_dec r 2) as [->|Hr2].
  { pose proof (Z.mod_pos_bound b 2 ltac:(lia)). lia. }
  destruct (proj1 (Z.Bezout_coprime_iff q (r - 1)) Hc) as (u & v & Huv).
  set (w := u mod (r - 1)). set (k := w * q / (r - 1)).
  pose proof (Z.mod_pos_bound u (r - 1) ltac:(lia)) as Hw. fold w in Hw.
  assert (Hk : w * q = (r - 1) * k + 1).
  { unfold k. rewrite (Z.div_mod (w * q) (r - 1)) at 1 by lia. f_equal. unfold w.
    rewrite Z.mul_mod_idemp_l by lia. replace (u * q) with (1 + (- v) * (r - 1)) by lia.
    rewrite Z.mod_add by lia. apply Z.mod_small. lia. }
  assert (0 <= k) by (apply Z.div_pos; nia).
  pose proof (pow_one_mod b q w r ltac:(lia) ltac:(lia) ltac:(lia) Hbq) as H1.
  pose proof (pow_one_mod b (r - 1) k r ltac:(lia) ltac:(lia) ltac:(lia) Hbr) as H2.
  assert (0 <= (r - 1) * k) by nia.
  rewrite Z.mul_comm, Hk, Z.pow_add_r, Z.pow_1_r, Z.mul_mod, H2, Z.mul_1_l, Z.mod_mod in H1 by lia. done.
Qed.

(** The order of [a^((n-1)/q)] modulo a prime divisor [r] of [n] is [q]. *)
Lemma prime_divides_order n a q r :
  1 < n -> Z.prime q -> (q | n - 1) -> a ^ (n - 1) mod n = 1 ->
  Z.gcd (a ^ ((n - 1) / q) mod n - 1) n = 1 -> Z.prime r -> (r | n) -> (q | r - 1).
Proof.
  intros Hn Hq [m Hm] Hpow Hgcd Hr Hrn. pose proof (Z.prime_ge_2 q Hq). pose proof (Z.prime_ge_2 r Hr).
  assert (0 < m) by nia. rewrite Hm, Z.div_mul in Hgcd by lia. set (b := a ^ m).
  assert (Hbq : b ^ q mod r = 1).
  { unfold b. rewrite <- Z.pow_mul_r, <- Hm by lia. rewrite <- (pow_mod_divisor a (n - 1) n r), Hpow by (done || lia).
    apply Z.mod_small. lia. }
  assert (Hb1 : b mod r <> 1).
  { intros Hone. assert (Hd : (r | a ^ m mod n - 1)).
    { apply Z.mod_divide; [lia|]. rewrite Zminus_mod, (pow_mod_divisor a m n r) by (done || lia).
      fold b. rewrite Hone. by rewrite (Z.mod_small 1 r), Z.sub_diag, Z.mod_0_l by lia. }
    pose proof (Z.gcd_greatest _ _ _ Hd Hrn) as Hg. rewrite Hgcd in Hg. apply Z.divide_1_r in Hg. lia. }
  assert (Hb0 : b mod r <> 0).
  { intros H0'. rewrite <- Z.mod_pow_l, H0', Z.pow_0_l, Z.mod_0_l in Hbq by lia. done. }
  pose proof (Z.fermat_nz r b Hr Hb0) as Hf.
  destruct (Z.eq_dec (Z.gcd q (r - 1)) 1) as [Hc|Hc].
  - exfalso. apply Hb1. apply (coprime_exponents r b q); (done || lia).
  - destruct (Z.divide_prime_r (Z.gcd q (r - 1)) q Hq (Z.gcd_divide_l _ _)) as [E|[E|[E|E]]];
      pose proof (Z.gcd_nonneg q (r - 1)); try lia.
    rewrite <- E. apply Z.gcd_divide_r.
Qed.

Lemma product_divides qs m : Forall Z.prime qs -> NoDup qs -> Forall (fun q => (q | m)) qs -> (product qs | m).
Proof.
  intros Hp Hnd Hd. induction qs as [|q qs IH]; [apply Z.divide_1_l|].
  inversion_clear Hp as [|? ? Hq Hqs]. inversion_clear Hnd as [|? ? Hni Hnd']. inversion_clear Hd as [|? ? Hqm Hd'].
  assert (Hc : Z.coprime q (product qs)).
  { clear - Hq Hqs Hni. induction qs as [|x qs IH]; [apply Z.coprime_1_r|].
    inversion_clear Hqs as [|? ? Hx Hqs']. apply Z.coprime_mul_r; [|apply IH; set_solver].
    apply Z.coprime_prime_l; [done|]. intros E%Z.divide_prime_prime; [set_solver|done..]. }
  destruct (IH Hqs Hnd' Hd') as [e He]. rewrite He in Hqm. apply Z.divide_prime_mul in Hqm as [[f Hf]|Hqm]; [|exfalso|done].
  - exists f. cbn. rewrite He, Hf. fold (product qs). lia.
  - apply Z.coprime_prime_l_iff in Hc; done.
Qed.

Lemma product_pos qs : Forall Z.prime qs -> 0 < product qs.
Proof. induction 1 as [|q qs Hq _ IH]; cbn; [lia|]. pose proof (Z.prime_ge_2 q Hq). fold (product qs). nia. Qed.

Lemma pocklington n a qs : Forall Z.prime qs -> pocklington_check n a qs = true -> Z.prime n.
Proof.
  unfold pocklington_check. rewrite !andb_true_iff, !Z.ltb_lt, Z.eqb_eq, bool_decide_eq_true, forallb_forall.
  intros Hqs ((((Hn & Hnd) & Hlt) & Hpow) & Hall). rewrite pow_mod_ok in Hpow by lia.
  destruct (prime_dec n) as [|Hp]; [by apply prime_alt|]. exfalso. rewrite <- prime_alt in Hp.
  destruct (small_prime_divisor n Hn Hp) as (r & Hr & Hrn & Hle).
  assert (Hdiv : (product qs | r - 1)).
  { apply product_divides; [done..|]. rewrite Forall_forall in Hqs |- *. intros q Hq.
    pose proof (Z.prime_ge_2 q (Hqs q Hq)).
    specialize (Hall q (proj1 (list_elem_of_In _ _) Hq)). apply andb_true_iff in Hall as [Hd Hg].
    apply Z.eqb_eq in Hd, Hg. apply Z.mod_divide in Hd; [|lia].
    rewrite pow_mod_ok in Hg by (lia || (apply Z.div_pos; lia)).
    by apply (prime_divides_order n a q r); auto. }
  pose proof (Z.prime_ge_2 r Hr). apply Z.divide_pos_le in Hdiv; [|lia]. pose proof (product_pos qs Hqs). nia.
Qed.

(** ** The certificate *)

Lemma prime_8574133 : Z.prime 8574133.
Proof. apply no_divisor_prime. vm_compute. reflexivity. Qed.

Lemma prime_127 : Z.prime 127.
Proof. apply no_divisor_prime. vm_compute. reflexivity. Qed.

Lemma prime_75707 : Z.prime 75707.
Proof. apply no_divisor_prime. vm_compute. reflexivity. Qed.

Lemma prime_430751 : Z.prime 430751.
Proof. apply no_divisor_prime. vm_compute. reflexivity. Qed.

Lemma prime_4153 : Z.prime 4153.
Proof. apply no_divisor_prime. vm_compute. reflexivity. Qed.

Lemma prime_51 : Z.prime 1919519569386763.
Proof. apply (pocklington _ 2 [8574133; 127]); [|vm_compute; reflexivity]. eauto using prime_8574133, prime_127. Qed.

Lemma prime_55 : Z.prime 31757755568855353.
Proof. apply (pocklington _ 2 [430751; 4153]); [|vm_compute; reflexivity]. eauto using prime_430751, prime_4153. Qed.

Lemma prime_116 : Z.prime 75445702479781427272750846543864801.
Proof. apply (pocklington _ 2 [1919519569386763; 75707]); [|vm_compute; reflexivity]. eauto using prime_51, prime_75707. Qed.

Lemma prime_236 : Z.prime 74058212732561358302231226437062788676166966415465897661863160754340907.
Proof.
  apply (pocklington _ 2 [31757755568855353; 75445702479781427272750846543864801]); [|vm_compute; reflexivity].
  eauto using prime_55, prime_116.
Qed.

Lemma prime_25519 : Z.prime (2 ^ 255 - 19).
Proof.
  apply (pocklington _ 2 [74058212732561358302231226437062788676166966415465897661863160754340907]); [|vm_compute; reflexivity].
  eauto using prime_236.
Qed.
