(* ===== verification/FieldCong.v ===== *)
(** Congruence modulo 2^255 - 19: the setoid the curve arithmetic is rewritten
    in, the limb operations of [Field25519] stated in it, and what the
    primality of the modulus gives (cancellation, inverses, Euler's residue
    symbol). *)

From S2P Require Import Prelude Field25519 Prime25519.
From Stdlib Require Import Znumtheory Zdivisibility Zmod.ZmodInv Setoid Morphisms.

Definition cong (a b : Z) : Prop := a mod p = b mod p.

Declare Scope cong_scope.
Delimit Scope cong_scope with cong.
Infix "==" := cong (at level 70, no associativity) : cong_scope.
#[global] Open Scope cong_scope.

Lemma p_pos : 1 < p.
Proof. unfold p. lia. Qed.

Lemma p_odd : p = 2 * ((p - 1) / 2) + 1 /\ p = 4 * ((p - 1) / 4) + 1 /\ p = 8 * ((p - 5) / 8) + 5.
Proof. vm_compute. done. Qed.

#[global] Instance cong_equiv : Equivalence cong.
Proof. split; unfold cong; [intros ?|intros ? ? ?|intros ? ? ? ? ?]; congruence. Qed.

#[global] Instance add_cong : Proper (cong ==> cong ==> cong) Z.add.
Proof. intros a a' Ha b b' Hb. unfold cong in *. by rewrite Zplus_mod, Ha, Hb, <- Zplus_mod. Qed.

#[global] Instance sub_cong : Proper (cong ==> cong ==> cong) Z.sub.
Proof. intros a a' Ha b b' Hb. unfold cong in *. by rewrite Zminus_mod, Ha, Hb, <- Zminus_mod. Qed.

#[global] Instance mul_cong : Proper (cong ==> cong ==> cong) Z.mul.
Proof. intros a a' Ha b b' Hb. unfold cong in *. by rewrite Zmult_mod, Ha, Hb, <- Zmult_mod. Qed.

#[global] Instance opp_cong : Proper (cong ==> cong) Z.opp.
Proof. intros a a' Ha. rewrite <- !Z.sub_0_l. by rewrite Ha. Qed.

#[global] Instance powm_cong : Proper (cong ==> eq ==> eq) powm.
Proof. intros a a' Ha e e' <-. rewrite <- (powm_mod a), <- (powm_mod a'). by rewrite Ha. Qed.

Lemma cong_mod a : a mod p == a.
Proof. unfold cong. apply Z.mod_mod. pose proof p_pos. lia. Qed.

Lemma cong_eq a b : a = b -> a == b.
Proof. by intros ->. Qed.

(** Reduced elements are equal when they are congruent. *)
Lemma cong_reduced z v : reduced z -> val z == v -> val z = v mod p.
Proof. intros [Hl Hz] H. rewrite <- H. symmetry. apply Z.mod_small. pose proof (val_bound z Hl). lia. Qed.

Lemma cong_unique a b : 0 <= a < p -> 0 <= b < p -> a == b -> a = b.
Proof. unfold cong. intros Ha Hb H. by rewrite !Z.mod_small in H. Qed.

Lemma reduced_range z : reduced z -> 0 <= val z < p.
Proof. intros [Hl Hz]. pose proof (val_bound z Hl). lia. Qed.

Lemma val_eq z x : reduced z -> reduced x -> val z == val x -> z = x.
Proof.
  intros Hz Hx H. apply val_inj; [apply Hz|apply Hx|]. apply cong_unique; [by apply reduced_range..|done].
Qed.

(** ** The operations *)

Lemma mul_some z x r : limbs_ok z -> limbs_ok x -> mul z x = Some r -> reduced r /\ val r == val z * val x.
Proof. intros Hz Hx E. pose proof (mul_ok z x Hz Hx) as H. rewrite E in H. destruct H as [Hr ->]. by split; [|apply cong_mod]. Qed.

Lemma square_some z r : limbs_ok z -> square z = Some r -> reduced r /\ val r == val z * val z.
Proof. intros Hz E. pose proof (square_ok z Hz) as H. rewrite E in H. destruct H as [Hr ->]. by split; [|apply cong_mod]. Qed.

Lemma add_red z x : limbs_ok z -> limbs_ok x -> reduced (add z x) /\ val (add z x) == val z + val x.
Proof. intros Hz Hx. destruct (field_add_ok z x Hz Hx) as [Hr ->]. by split; [|apply cong_mod]. Qed.

Lemma mulA24_red z : limbs_ok z -> reduced (mulA24 z) /\ val (mulA24 z) == 121665 * val z.
Proof. intros Hz. destruct (mulA24_ok z Hz) as [Hr ->]. by split; [|apply cong_mod]. Qed.

Lemma fsub_red z x : reduced z -> reduced x -> reduced (fsub z x) /\ val (fsub z x) == val z - val x.
Proof. intros Hz Hx. destruct (fsub_reduced z x Hz Hx) as [Hr ->]. by split; [|apply cong_mod]. Qed.

Lemma neg_red z : reduced z -> reduced (neg z) /\ val (neg z) == - val z.
Proof. intros Hz. destruct (neg_ok z Hz) as [Hr ->]. by split; [|apply cong_mod]. Qed.

(** The minuend need not be reduced. *)
Lemma fsub_cong z x : limbs_ok z -> reduced x -> limbs_ok (fsub z x) /\ val (fsub z x) == val z - val x.
Proof.
  intros Hz Hx. pose proof (val_bound z Hz). pose proof (reduced_range x Hx).
  destruct (fsub_ok z x Hz (proj1 Hx) ltac:(lia)) as [Hl ->]. split; [done|].
  destruct (_ <? _); [|done]. unfold cong. rewrite <- (Z.mul_1_l p) at 1. apply Z.mod_add. pose proof p_pos. lia.
Qed.

Lemma invert_some z r : limbs_ok z -> invert z = Some r -> reduced r /\ val r = powm (val z) (p - 2).
Proof. apply invert_ok. Qed.

(** ** Primality *)

Lemma p_prime : Z.prime p.
Proof. exact prime_25519. Qed.

Lemma cong0_divide a : a == 0 <-> (p | a).
Proof. unfold cong. rewrite Z.mod_0_l by (unfold p; lia). apply Z.mod_divide. unfold p. lia. Qed.

Lemma cong0_mul a b : a * b == 0 <-> a == 0 \/ b == 0.
Proof. rewrite !cong0_divide. apply Z.divide_prime_mul, p_prime. Qed.

Lemma cong0_sub a b : a - b == 0 <-> a == b.
Proof.
  split; intros H.
  - replace a with (a - b + b) by lia. rewrite H. by rewrite Z.add_0_l.
  - rewrite H. by rewrite Z.sub_diag.
Qed.

Lemma cong_cancel_l c a b : ~ c == 0 -> c * a == c * b -> a == b.
Proof.
  intros Hc H. apply cong0_sub. assert (c * (a - b) == 0) as [?|?]%cong0_mul; [|done..].
  rewrite Z.mul_sub_distr_l. by apply cong0_sub.
Qed.

Lemma fermat a : ~ a == 0 -> powm a (p - 1) = 1.
Proof.
  intros Ha. Transparent powm. unfold powm. Opaque powm. apply Z.fermat_nz; [apply p_prime|].
  intros H. apply Ha. unfold cong. rewrite H. by rewrite Z.mod_0_l by (unfold p; lia).
Qed.

(** Powers, executable. *)
Lemma powm_eval b e : 0 <= e -> powm b e = pow_mod b e p.
Proof.
  intros He. rewrite pow_mod_ok by (done || (unfold p; lia)). Transparent powm. unfold powm. Opaque powm. done.
Qed.

Lemma powm_add b m n : 0 <= m -> 0 <= n -> powm b (m + n) == powm b m * powm b n.
Proof. intros. rewrite <- powm_mul by done. apply cong_mod. Qed.

Lemma powm_base_cong a b e : powm (a * b) e == powm a e * powm b e.
Proof. rewrite powm_base. apply cong_mod. Qed.

Lemma powm_one_exp b : powm b 1 == b.
Proof. rewrite powm_1. apply cong_mod. Qed.

Lemma powm_2 b : powm b 2 == b * b.
Proof. change 2 with (1 + 1). rewrite powm_add by lia. by rewrite powm_one_exp. Qed.

(** The power [p - 2] is the inverse. *)
Lemma inverse a : ~ a == 0 -> a * powm a (p - 2) == 1.
Proof.
  intros Ha. rewrite <- (powm_one_exp a) at 1. rewrite <- powm_add by (unfold p; lia).
  replace (1 + (p - 2)) with (p - 1) by lia. by rewrite fermat.
Qed.

(** ** Residues *)

(** Euler's symbol. *)
Definition symbol (a : Z) : Z := powm a ((p - 1) / 2).

Lemma half_nonneg : 0 <= (p - 1) / 2 /\ 0 <= (p - 1) / 4 /\ 0 <= (p - 5) / 8.
Proof. vm_compute. intuition congruence. Qed.

Lemma symbol_mul a b : symbol (a * b) == symbol a * symbol b.
Proof. apply powm_base_cong. Qed.

#[global] Instance symbol_cong : Proper (cong ==> eq) symbol.
Proof. intros a b H. unfold symbol. by rewrite H. Qed.

Lemma symbol_square a : ~ a == 0 -> symbol (a * a) = 1.
Proof.
  intros Ha. unfold symbol. rewrite <- (powm_2 a). rewrite powm_pow by (apply half_nonneg || lia).
  replace (2 * ((p - 1) / 2)) with (p - 1) by (pose proof p_odd; lia). by apply fermat.
Qed.

Lemma one_not_minus : ~ 1 == -1.
Proof. intros H. vm_compute in H. discriminate. Qed.

Lemma symbol_2 : symbol 2 == -1.
Proof.
  unfold symbol. rewrite powm_eval by apply half_nonneg. vm_compute. reflexivity.
Qed.

(** 2 times a nonzero square is not a square. *)
Lemma two_squares y s : ~ y == 0 -> ~ y * y == 2 * (s * s).
Proof.
  intros Hy H. destruct (decide (s mod p = 0 mod p)) as [Hs|Hs].
  - apply Hy. change (s == 0) in Hs. rewrite Hs in H. rewrite Z.mul_0_r in H. by apply cong0_mul in H as [?|?].
  - pose proof (symbol_square y Hy) as H1. rewrite H in H1.
    apply one_not_minus. rewrite <- H1, symbol_mul, symbol_2, (symbol_square s Hs). done.
Qed.

(** From here on the operations are used through their lemmas. *)
#[global] Opaque mul square add fsub neg mulA24 invert pow250 pow22523 squareN fieldLoad store
  lessMask lessOrEqualMask equalMask zeroMask.
