(* ===== verification/Curve25519.v ===== *)
(** X25519, [src/cryptography/field25519.go] and [src/cryptography/x25519.go].

    The Montgomery ladder and the private keys over the limb arithmetic of
    [Field25519], equal to the ladder of RFC 7748 on the integers modulo
    2^255 - 19.  An operation is [None] when one of its multiplications is
    undefined. *)

From S2P Require Import Prelude Field25519 Prime25519 FieldCong.

(** [l[i] = f(l[i])] on an array of 32 bytes, [i] a constant index. *)
Definition update (i : nat) (f : Z -> Z) (l : bytes) : bytes := alter f i l.

(** ** The Montgomery ladder *)

Definition clampScalar (scalar : bytes) : bytes :=
  update 31 (fun b => Z.lor b 64) (update 31 (fun b => Z.land b 127) (update 0 (fun b => Z.land b 248) scalar)).

Definition clearTopBit (point : bytes) : bytes := update 31 (fun b => Z.land b 0x7f) point.

(** The loop variables [x2], [z2], [x3], [z3] and [swap]. *)
Record ladder := mkLadder { lx2 : field25519; lz2 : field25519; lx3 : field25519; lz3 : field25519; lswap : Z }.

(** [kt := uint64((e[t>>3] >> uint(t&7)) & 1)] *)
Definition scalarBit (e : bytes) (t : Z) : Z :=
  Z.land (Z.shiftr (nth (Z.to_nat (Z.shiftr t 3)) e 0) (Z.land t 7)) 1.

Definition ladderStep (x1 : field25519) (e : bytes) (t : Z) (s : ladder) : option ladder :=
  let kt := scalarBit e t in
  let swap := Z.lxor (lswap s) kt in
  let mask := u64 (0 - swap) in
  let '(x2, x3) := (fieldSelect (lx3 s) (lx2 s) mask, fieldSelect (lx2 s) (lx3 s) mask) in
  let '(z2, z3) := (fieldSelect (lz3 s) (lz2 s) mask, fieldSelect (lz2 s) (lz3 s) mask) in
  let swap := kt in
  let a := add x2 z2 in
  aa ← square a;
  let b := fsub x2 z2 in
  bb ← square b;
  let eField := fsub aa bb in
  let c := add x3 z3 in
  let d := fsub x3 z3 in
  da ← mul d a;
  cb ← mul c b;
  x3 ← square (add da cb);
  z3 ← (q ← square (fsub da cb); mul x1 q);
  x2 ← mul aa bb;
  z2 ← mul eField (add aa (mulA24 eField));
  Some (mkLadder x2 z2 x3 z3 swap).

(** [for t := 254; t >= 0; t--]: the iterations for [t] = [n-1] down to 0. *)
Fixpoint ladderLoop (x1 : field25519) (e : bytes) (n : nat) (s : ladder) : option ladder :=
  match n with
  | O => Some s
  | S t => s ← ladderStep x1 e (Z.of_nat t) s; ladderLoop x1 e t s
  end.

(** [dst] after the call. *)
Definition x25519ScalarMult (scalar point : bytes) : option (res bytes) :=
  let e := clampScalar scalar in
  let uBytes := clearTopBit point in
  match fieldLoad uBytes with
  | Ok x1 =>
      s ← ladderLoop x1 e 255 (mkLadder fieldOne fieldZero x1 fieldOne 0);
      let mask := u64 (0 - lswap s) in
      let x2 := fieldSelect (lx3 s) (lx2 s) mask in
      let z2 := fieldSelect (lz3 s) (lz2 s) mask in
      i ← invert z2;
      r ← mul x2 i;
      Some (store r (make_bytes 32))
  | Err e => Some (Err e)
  | Panic => Some Panic
  end.

Definition fieldBasepoint : bytes := 9 :: make_bytes 31.

(** ** Private keys, [x25519.go] *)

Record X25519PrivateKey := mkKey { kscalar : bytes; kpublic : bytes; kreleased : bool }.

Definition NewX25519PrivateKey (encoded : bytes) : option (res X25519PrivateKey) :=
  if negb (len encoded =? 32) then Some (Err ErrKeyLength)
  else public ← x25519ScalarMult encoded fieldBasepoint;
       Some (let? public := public in Ok (mkKey encoded public false)).

Section Generate.
(** [io.ReadFull] on the random source, [crypto/rand]'s when none is given. *)
Context {reader : Type} (readFull : reader -> Z -> res bytes * reader).

Definition GenerateX25519PrivateKey (random : reader) : option (res X25519PrivateKey * reader) :=
  match readFull random 32 with
  | (Ok scalar, random) =>
      public ← x25519ScalarMult scalar fieldBasepoint;
      Some (let? public := public in Ok (mkKey scalar public false), random)
  | (Err e, random) => Some (Err e, random)
  | (Panic, random) => Some (Panic, random)
  end.
End Generate.

(** [PublicKey]: the error and [dst] after the call. *)
Definition PublicKey (k : option X25519PrivateKey) : option error * bytes :=
  match k with
  | Some k => if kreleased k then (Some ErrSensitiveReleased, make_bytes 32) else (None, kpublic k)
  | None => (Some ErrSensitiveReleased, make_bytes 32)
  end.

(** [ECDH]: the error and [dst] after the call. *)
Definition ECDH (k : option X25519PrivateKey) (peer : bytes) : option (res (option error * bytes)) :=
  match k with
  | None => Some (Ok (Some ErrSensitiveReleased, make_bytes 32))
  | Some k =>
      if kreleased k then Some (Ok (Some ErrSensitiveReleased, make_bytes 32))
      else if negb (len peer =? 32) then Some (Ok (Some ErrKeyLength, make_bytes 32))
      else shared ← x25519ScalarMult (kscalar k) peer;
           Some (let? dst := shared in
                 if bytes_eqb dst (make_bytes 32) then Ok (Some ErrLowOrderPoint, make_bytes 32)
                 else Ok (None, dst))
  end.

Definition ReleaseSensitive (k : X25519PrivateKey) : X25519PrivateKey :=
  if kreleased k then k else mkKey (make_bytes 32) (make_bytes 32) true.

(** ** The ladder *)

Section Reference.
Variable x1 : Z.

(** The projective doubling and differential addition of RFC 7748. *)
Definition xdbl (P : Z * Z) : Z * Z :=
  let aa := (P.1 + P.2) * (P.1 + P.2) in
  let bb := (P.1 - P.2) * (P.1 - P.2) in
  let e := aa - bb in
  ((aa * bb) mod p, (e * (aa + 121665 * e)) mod p).

Definition xadd (P Q : Z * Z) : Z * Z :=
  let da := (Q.1 - Q.2) * (P.1 + P.2) in
  let cb := (Q.1 + Q.2) * (P.1 - P.2) in
  (((da + cb) * (da + cb)) mod p, (x1 * ((da - cb) * (da - cb))) mod p).

(** Bits [n-1] down to 0 of [k]: [P] and [Q] stay one base point apart. *)
Fixpoint montgomery (k : Z) (n : nat) (P Q : Z * Z) : Z * Z :=
  match n with
  | O => P
  | S t => if Z.testbit k (Z.of_nat t) then montgomery k t (xadd P Q) (xdbl Q)
           else montgomery k t (xdbl P) (xadd P Q)
  end.

(** The affine coordinate: a division by the power [p - 2]. *)
Definition affine (P : Z * Z) : Z := (P.1 * powm P.2 (p - 2)) mod p.
End Reference.

Definition x25519_spec (k u : Z) : Z := affine (montgomery u k 255 (1, 0) (u, 1)).

Definition is_point (x z : field25519) (P : Z * Z) : Prop :=
  limbs_ok x /\ reduced z /\ val x == P.1 /\ val z == P.2.

(** The loop variables against the two points, which they hold in the order the
    last bit asked for. *)
Definition ladder_ok (s : ladder) (P Q : Z * Z) : Prop :=
  (lswap s = 0 /\ is_point (lx2 s) (lz2 s) P /\ is_point (lx3 s) (lz3 s) Q) \/
  (lswap s = 1 /\ is_point (lx2 s) (lz2 s) Q /\ is_point (lx3 s) (lz3 s) P).

(** Names the result of the next step of a sequence in [option]. *)
Ltac run E :=
  let x := fresh "r" in let Ex := fresh "Er" in
  apply bind_Some in E as (x & Ex & E); cbv beta zeta in E.

(** Inside an iteration, with the points selected. *)
Definition ladderBody (x1 x2 z2 x3 z3 : field25519) (swap : Z) : option ladder :=
  let a := add x2 z2 in
  aa ← square a;
  let b := fsub x2 z2 in
  bb ← square b;
  let eField := fsub aa bb in
  let c := add x3 z3 in
  let d := fsub x3 z3 in
  da ← mul d a;
  cb ← mul c b;
  x3 ← square (add da cb);
  z3 ← (q ← square (fsub da cb); mul x1 q);
  x2 ← mul aa bb;
  z2 ← mul eField (add aa (mulA24 eField));
  Some (mkLadder x2 z2 x3 z3 swap).

Lemma ladderBody_ok x1 x2 z2 x3 z3 swap s P Q :
  limbs_ok x1 -> is_point x2 z2 P -> is_point x3 z3 Q -> ladderBody x1 x2 z2 x3 z3 swap = Some s ->
  lswap s = swap /\ is_point (lx2 s) (lz2 s) (xdbl P) /\ is_point (lx3 s) (lz3 s) (xadd (val x1) P Q).
Proof.
  intros H1 (Lx2 & Rz2 & Vx2 & Vz2) (Lx3 & Rz3 & Vx3 & Vz3) E. unfold ladderBody in E.
  destruct (add_red x2 z2 Lx2 (proj1 Rz2)) as [Ra Va]. set (a := add x2 z2) in *.
  destruct (fsub_cong x2 z2 Lx2 Rz2) as [Lb Vb]. set (b := fsub x2 z2) in *.
  destruct (add_red x3 z3 Lx3 (proj1 Rz3)) as [Rc Vc]. set (c := add x3 z3) in *.
  destruct (fsub_cong x3 z3 Lx3 Rz3) as [Ld Vd]. set (d := fsub x3 z3) in *.
  cbv zeta in E. run E. destruct (square_some _ _ (proj1 Ra) Er) as [Raa Vaa].
  run E. destruct (square_some _ _ Lb Er0) as [Rbb Vbb].
  destruct (fsub_red r r0 Raa Rbb) as [Re Ve]. set (e := fsub r r0) in *.
  destruct (mulA24_red e (proj1 Re)) as [R24 V24]. destruct (add_red r _ (proj1 Raa) (proj1 R24)) as [Rf Vf].
  run E. destruct (mul_some _ _ _ Ld (proj1 Ra) Er1) as [Rda Vda].
  run E. destruct (mul_some _ _ _ (proj1 Rc) Lb Er2) as [Rcb Vcb].
  destruct (add_red r1 r2 (proj1 Rda) (proj1 Rcb)) as [Rs Vs]. destruct (fsub_red r1 r2 Rda Rcb) as [Rt Vt].
  run E. destruct (square_some _ _ (proj1 Rs) Er3) as [R3 V3].
  run E. apply bind_Some in Er4 as (q & Eq & Er4). cbv beta in Er4.
  destruct (square_some _ _ (proj1 Rt) Eq) as [Rq Vq]. destruct (mul_some _ _ _ H1 (proj1 Rq) Er4) as [R4 V4].
  run E. destruct (mul_some _ _ _ (proj1 Raa) (proj1 Rbb) Er5) as [R5 V5].
  run E. destruct (mul_some _ _ _ (proj1 Re) (proj1 Rf) Er6) as [R6 V6].
  injection E as <-. cbn [lswap lx2 lz2 lx3 lz3]. split; [done|].
  split; (split; [apply R5 || apply R3|split; [done|]]); cbn [fst snd xdbl xadd]; rewrite !cong_mod; split.
  - rewrite V5, Vaa, Vbb, Va, Vb, Vx2, Vz2. done.
  - rewrite V6, Vf, V24, Ve, Vaa, Vbb, Va, Vb, Vx2, Vz2. done.
  - rewrite V3, Vs, Vda, Vcb, Va, Vb, Vc, Vd, Vx2, Vz2, Vx3, Vz3. done.
  - rewrite V4, Vq, Vt, Vda, Vcb, Va, Vb, Vc, Vd, Vx2, Vz2, Vx3, Vz3. done.
Qed.

Lemma ladderStep_body x1 e t s :
  ladderStep x1 e t s =
  let kt := scalarBit e t in
  let mask := u64 (0 - Z.lxor (lswap s) kt) in
  ladderBody x1 (fieldSelect (lx3 s) (lx2 s) mask) (fieldSelect (lz3 s) (lz2 s) mask)
    (fieldSelect (lx2 s) (lx3 s) mask) (fieldSelect (lz2 s) (lz3 s) mask) kt.
Proof. reflexivity. Qed.

Lemma is_point_cong x z P Q : is_point x z P -> P.1 == Q.1 -> P.2 == Q.2 -> is_point x z Q.
Proof. intros (? & ? & H1 & H2) E1 E2. split_and!; [done..|by rewrite H1|by rewrite H2]. Qed.

Lemma xadd_sym u P Q : (xadd u P Q).1 == (xadd u Q P).1 /\ (xadd u P Q).2 == (xadd u Q P).2.
Proof. cbn [xadd fst snd]. rewrite !cong_mod. split; apply cong_eq; ring. Qed.

Lemma select_point a b c d m P Q : is_point a c P -> is_point b d Q -> m = 0 \/ m = 1 ->
  is_point (fieldSelect a b (u64 (0 - m))) (fieldSelect c d (u64 (0 - m))) (if m =? 1 then P else Q).
Proof.
  intros HP HQ Hm. rewrite borrow_mask by lia. destruct HP as (? & ? & HP), HQ as (? & ? & HQ).
  destruct Hm as [-> | ->]; cbn [Z.eqb].
  - by rewrite !fieldSelect_zero.
  - change (1 =? 1) with true. cbv iota. rewrite !fieldSelect_ones by (done || by apply H0 || by apply H2). done.
Qed.

Lemma land_one v : Z.land v 1 = v mod 2.
Proof. exact (Z.land_ones v 1 ltac:(lia)). Qed.

Lemma scalarBit_01 e t : scalarBit e t = 0 \/ scalarBit e t = 1.
Proof.
  unfold scalarBit. set (v := Z.shiftr _ _). rewrite land_one.
  pose proof (Z.mod_pos_bound v 2 ltac:(lia)). lia.
Qed.

Lemma ladderStep_ok x1 e t s s' P Q : limbs_ok x1 -> ladder_ok s P Q -> ladderStep x1 e t s = Some s' ->
  if scalarBit e t =? 1 then ladder_ok s' (xadd (val x1) P Q) (xdbl Q) else ladder_ok s' (xdbl P) (xadd (val x1) P Q).
Proof.
  intros H1 Hs E. rewrite ladderStep_body in E. cbv zeta in E.
  destruct (xadd_sym (val x1) Q P) as [S1 S2].
  assert (Hb : forall kt, kt = 0 \/ kt = 1 -> let m := Z.lxor (lswap s) kt in
    (m = 0 \/ m = 1) /\
    is_point (fieldSelect (lx3 s) (lx2 s) (u64 (0 - m))) (fieldSelect (lz3 s) (lz2 s) (u64 (0 - m))) (if kt =? 1 then Q else P) /\
    is_point (fieldSelect (lx2 s) (lx3 s) (u64 (0 - m))) (fieldSelect (lz2 s) (lz3 s) (u64 (0 - m))) (if kt =? 1 then P else Q)).
  { intros kt Hkt m. destruct Hs as [(Hw & H2 & H3)|(Hw & H2 & H3)]; unfold m; rewrite Hw; destruct Hkt as [-> | ->];
      match goal with |- context [Z.lxor ?a ?b] => let v := eval compute in (Z.lxor a b) in change (Z.lxor a b) with v;
        pose proof (select_point _ _ _ _ v _ _ H3 H2 ltac:(lia)) as Ka; pose proof (select_point _ _ _ _ v _ _ H2 H3 ltac:(lia)) as Kb end;
      (split; [lia|split; [exact Ka|exact Kb]]). }
  destruct (Hb _ (scalarBit_01 e t)) as (_ & Hp & Hq).
  destruct (ladderBody_ok _ _ _ _ _ _ _ _ _ H1 Hp Hq E) as (Hw & H2 & H3).
  destruct (scalarBit_01 e t) as [K|K]; rewrite K in *; cbn [Z.eqb] in *.
  - left. exact (conj Hw (conj H2 H3)).
  - right. exact (conj Hw (conj H2 (is_point_cong _ _ _ _ H3 S1 S2))).
Qed.

Lemma ladderLoop_ok x1 e n s s' P Q : limbs_ok x1 -> ladder_ok s P Q -> ladderLoop x1 e n s = Some s' ->
  (forall t, (t < n)%nat -> (scalarBit e (Z.of_nat t) =? 1) = Z.testbit (le_val e) (Z.of_nat t)) ->
  exists Q', ladder_ok s' (montgomery (val x1) (le_val e) n P Q) Q'.
Proof.
  intros H1 Hs E Hbits. revert s P Q Hs E. induction n as [|n IH]; intros s P Q Hs E; cbn [ladderLoop montgomery] in *.
  - injection E as <-. by exists Q.
  - run E. pose proof (ladderStep_ok _ _ _ _ _ _ _ H1 Hs Er) as Hr. rewrite Hbits in Hr by lia.
    destruct (Z.testbit _ _); (eapply IH; [intros; apply Hbits; lia|exact Hr|exact E]).
Qed.

(** ** Bits of little-endian numbers *)

Lemma testbit_le_val l i j : bytes_ok l -> 0 <= j < 8 -> Z.testbit (le_val l) (8 * Z.of_nat i + j) = Z.testbit (nth i l 0) j.
Proof.
  intros Hl Hj. revert l Hl. induction i as [|i IH]; intros [|x l] Hl; try (rewrite le_val_nil, !Z.bits_0; done).
  - inversion_clear Hl. rewrite le_val_cons. cbn [nth]. replace (x + 256 * le_val l) with (le_val l * 2 ^ 8 + x) by lia.
    rewrite <- lor_shiftl by (unfold is_byte in *; lia). rewrite Z.lor_spec, Z.shiftl_spec_low by lia. done.
  - inversion_clear Hl. rewrite le_val_cons. cbn [nth]. rewrite <- (IH l) by done.
    replace (x + 256 * le_val l) with (le_val l * 2 ^ 8 + x) by lia.
    rewrite <- lor_shiftl by (unfold is_byte in *; lia). rewrite Z.lor_spec, Z.shiftl_spec by lia.
    rewrite (testbit_small x 8) by (unfold is_byte in *; lia). rewrite orb_false_r. f_equal. lia.
Qed.

Lemma scalarBit_testbit e t : bytes_ok e -> 0 <= t -> (scalarBit e t =? 1) = Z.testbit (le_val e) t.
Proof.
  intros He Ht. unfold scalarBit.
  replace (Z.land t 7) with (t mod 8) by (symmetry; apply (Z.land_ones t 3); lia).
  rewrite (Z.shiftr_div_pow2 t 3) by lia. change (2 ^ 3) with 8.
  rewrite (Z.div_mod t 8) at 3 by lia. pose proof (Z.mod_pos_bound t 8 ltac:(lia)). pose proof (Z.div_pos t 8 Ht ltac:(lia)).
  rewrite <- (Z2Nat.id (t / 8)) at 2 by lia. rewrite testbit_le_val by (done || lia).
  set (b := nth _ e 0). rewrite land_one.
  rewrite <- Z.bit0_mod, Z.shiftr_spec by lia. rewrite Z.add_0_l.
  by destruct (Z.testbit b (t mod 8)).
Qed.

Lemma split32 (l : bytes) : len l = 32 -> exists a m b, l = a :: m ++ [b] /\ len m = 30.
Proof.
  intros Hl. destruct l as [|a l]; [done|]. destruct (decide (l = [])) as [->|Hn]; [done|].
  destruct (exists_last Hn) as (m & b & ->). exists a, m, b. split; [done|]. revert Hl. len_simpl. lia.
Qed.

Lemma update_last f a m b : len m = 30 -> update 31 f (a :: m ++ [b]) = a :: m ++ [f b].
Proof.
  intros Hm. unfold update. cbn [alter list_alter]. f_equal.
  replace 30%nat with (length m + 0)%nat by (unfold len in Hm; lia). rewrite alter_app_r. done.
Qed.

Lemma update_first f a m : update 0 f (a :: m) = f a :: m.
Proof. done. Qed.

Lemma clamp_low b : is_byte b -> Z.land b 248 = b - b mod 8.
Proof.
  intros Hb. pose proof (exhaust (fun b => Z.land b 248 =? b - b mod 8) 256 ltac:(vm_compute; reflexivity) b Hb) as H.
  by apply Z.eqb_eq in H.
Qed.

Lemma clamp_high b : is_byte b -> Z.lor (Z.land b 127) 64 = 64 + b mod 64.
Proof.
  intros Hb. pose proof (exhaust (fun b => Z.lor (Z.land b 127) 64 =? 64 + b mod 64) 256 ltac:(vm_compute; reflexivity) b Hb) as H.
  by apply Z.eqb_eq in H.
Qed.

Lemma le_val_split a m b : len m = 30 -> le_val (a :: m ++ [b]) = a + 256 * le_val m + 2 ^ 248 * b.
Proof.
  intros Hm. rewrite le_val_cons, le_val_app, le_val_cons, le_val_nil, Hm.
  change (256 ^ 30) with (2 ^ 240). change (2 ^ 248) with (256 * 2 ^ 240). lia.
Qed.

Lemma bytes32 (l : bytes) : bytes_ok l -> len l = 32 -> exists a m b, l = a :: m ++ [b] /\ len m = 30 /\ is_byte a /\ is_byte b /\ bytes_ok m.
Proof.
  intros Hb Hl. destruct (split32 l Hl) as (a & m & b & -> & Hm). exists a, m, b.
  apply Forall_cons in Hb as [Ha Hb]. apply bytes_ok_app in Hb as [Hmb Hb]. apply Forall_cons in Hb as [Hb _]. done.
Qed.

(** RFC 7748's decodeScalar25519. *)
Definition scalar_value (s : Z) : Z := 2 ^ 254 + (s mod 2 ^ 254) / 8 * 8.

Lemma clampScalar_ok s : bytes_ok s -> len s = 32 ->
  bytes_ok (clampScalar s) /\ le_val (clampScalar s) = scalar_value (le_val s).
Proof.
  intros Hb Hl. destruct (bytes32 s Hb Hl) as (a & m & b & -> & Hm & Ha & Hbb & Hmm).
  unfold clampScalar. rewrite update_first, !update_last by done. rewrite clamp_low, clamp_high by done.
  pose proof (Z.mod_pos_bound a 8 ltac:(lia)). pose proof (Z.mod_pos_bound b 64 ltac:(lia)).
  split.
  - apply Forall_cons. split; [unfold is_byte in *; pose proof (Z.mod_le a 8); lia|].
    apply bytes_ok_app. split; [done|]. apply Forall_cons. split; [unfold is_byte in *; lia|done].
  - rewrite !le_val_split by done. unfold scalar_value. pose proof (le_val_bound m Hmm) as Hv. rewrite Hm in Hv.
    change (256 ^ 30) with (2 ^ 240) in Hv. unfold is_byte in *.
    assert (Hlow : (a + 256 * le_val m + 2 ^ 248 * b) mod 2 ^ 254 = a + 256 * le_val m + 2 ^ 248 * (b mod 64)).
    { symmetry. apply (Z.mod_unique _ _ (b / 64)); [left; change (2 ^ 254) with (64 * 2 ^ 248); change (2 ^ 248) with (256 * 2 ^ 240); lia|].
      rewrite (Z.div_mod b 64) at 1 by lia. change (2 ^ 254) with (2 ^ 248 * 64). lia. }
    rewrite Hlow. set (v := le_val m) in *. set (c := b mod 64) in *.
    assert (Hdiv : (a + 256 * v + 2 ^ 248 * c) / 8 = a / 8 + 32 * v + 2 ^ 245 * c).
    { symmetry. apply (Z.div_unique _ _ _ (a mod 8)); [lia|]. rewrite (Z.div_mod a 8) at 1 by lia.
      change (2 ^ 248) with (8 * 2 ^ 245). lia. }
    rewrite Hdiv. rewrite (Z.div_mod a 8) at 1 by lia. change (2 ^ 254) with (2 ^ 248 * 64). change (2 ^ 248) with (8 * 2 ^ 245). lia.
Qed.

Lemma land_127 b : is_byte b -> Z.land b 0x7f = b mod 128.
Proof. intros. exact (Z.land_ones b 7 ltac:(lia)). Qed.

Lemma clearTopBit_ok u : bytes_ok u -> len u = 32 ->
  bytes_ok (clearTopBit u) /\ len (clearTopBit u) = 32 /\ le_val (clearTopBit u) = le_val u mod 2 ^ 255.
Proof.
  intros Hb Hl. destruct (bytes32 u Hb Hl) as (a & m & b & -> & Hm & Ha & Hbb & Hmm).
  unfold clearTopBit. rewrite update_last, land_127 by done. pose proof (Z.mod_pos_bound b 128 ltac:(lia)). split_and!.
  - apply Forall_cons. split; [done|]. apply bytes_ok_app. split; [done|]. apply Forall_cons. split; [unfold is_byte in *; lia|done].
  - revert Hl. len_simpl. lia.
  - rewrite !le_val_split by done. pose proof (le_val_bound m Hmm) as Hv. rewrite Hm in Hv.
    change (256 ^ 30) with (2 ^ 240) in Hv. unfold is_byte in *.
    apply (Z.mod_unique _ _ (b / 128)); [left; change (2 ^ 255) with (128 * 2 ^ 248); change (2 ^ 248) with (256 * 2 ^ 240); lia|].
    rewrite (Z.div_mod b 128) at 1 by lia. change (2 ^ 255) with (2 ^ 248 * 128). lia.
Qed.

Lemma constants_reduced :
  reduced fieldZero /\ reduced fieldOne /\ reduced fieldTwo /\ reduced fieldA /\ reduced fieldNegA /\
  reduced fieldHalf /\ reduced fieldSqrtM1.
Proof. split_and!; apply reduced_check; vm_compute; reflexivity. Qed.

Lemma select_keep a b : fieldSelect a b (u64 (0 - 0)) = b.
Proof. apply fieldSelect_zero. Qed.

Lemma select_swap a b : limbs_ok a -> limbs_ok b -> fieldSelect a b (u64 (0 - 1)) = a.
Proof. apply fieldSelect_ones. Qed.

(** C4: whenever it is defined, the constant-time ladder with its deferred
    conditional swaps, on clamped scalar bytes and a point with its top bit
    cleared, returns the 32 little-endian bytes of the coordinate that
    RFC 7748's ladder computes with integers modulo 2^255 - 19. *)
Theorem x25519_exact scalar point out :
  bytes_ok scalar -> len scalar = 32 -> bytes_ok point -> len point = 32 ->
  x25519ScalarMult scalar point = Some out ->
  out = Ok (le_bytes 32 (x25519_spec (scalar_value (le_val scalar)) (le_val point mod 2 ^ 255))).
Proof.
  intros Hs Ls Hp Lp E. destruct (clampScalar_ok scalar Hs Ls) as [Ke Ve]. destruct (clearTopBit_ok point Hp Lp) as (Ku & Lu & Vu).
  destruct constants_reduced as (R0 & R1 & _). unfold x25519ScalarMult in E.
  destruct (fieldLoad_ok _ Ku Lu) as (x1 & Hload & L1 & V1). rewrite Hload in E. cbv zeta in E.
  run E. rename r into s.
  assert (Hinit : ladder_ok (mkLadder fieldOne fieldZero x1 fieldOne 0) (1, 0) (val x1, 1)).
  { left. split; [done|]. split; (split; [apply R1 || apply L1|]); (split; [exact R0 || exact R1|]); split; reflexivity. }
  destruct (ladderLoop_ok x1 _ 255 _ s _ _ L1 Hinit Er) as (Q & HQ).
  { intros t Ht. apply scalarBit_testbit; [done|lia]. }
  rewrite Ve, V1, Vu in HQ. remember (montgomery _ _ _ _ _) as P eqn:EP in HQ.
  assert (Hfin : is_point (fieldSelect (lx3 s) (lx2 s) (u64 (0 - lswap s))) (fieldSelect (lz3 s) (lz2 s) (u64 (0 - lswap s))) P).
  { destruct HQ as [(Hw & H2 & H3)|(Hw & H2 & H3)]; rewrite Hw.
    - by rewrite !select_keep.
    - pose proof H3 as (L3 & R3 & _). destruct H2 as (L2 & R2 & _).
      rewrite (select_swap (lx3 s) (lx2 s) L3 L2), (select_swap (lz3 s) (lz2 s) (proj1 R3) (proj1 R2)). exact H3. }
  destruct Hfin as (Lx & Rz & Vx & Vz). run E. run E. injection E as <-.
  destruct (invert_some _ _ (proj1 Rz) Er0) as [Ri Vi]. destruct (mul_some _ _ _ Lx (proj1 Ri) Er1) as [Rr Vr].
  rewrite store_ok; [|apply Rr|done]. do 2 f_equal.
  rewrite (cong_reduced _ _ Rr Vr), Vi. unfold x25519_spec. rewrite <- EP. unfold affine.
  change ((val (fieldSelect (lx3 s) (lx2 s) (u64 (0 - lswap s))) * powm (val (fieldSelect (lz3 s) (lz2 s) (u64 (0 - lswap s)))) (p - 2)) == P.1 * powm P.2 (p - 2)).
  by rewrite Vx, Vz.
Qed.

(** RFC 7748, section 5.2, first vector. *)
Definition rfc_scalar : bytes := be_bytes 32 0xa546e36bf0527c9d3b16154b82465edd62144c0ac1fc5a18506a2244ba449ac4.
Definition rfc_point : bytes := be_bytes 32 0xe6db6867583030db3594c1a424b15f7c726624ec26b3353b10a903a6d0ab1c4c.
Definition rfc_output : bytes := be_bytes 32 0xc3da55379de9c6908e94ea4df28d084f32eccf03491c71f754b4075577a28552.

Lemma x25519_exact_witness :
  x25519ScalarMult rfc_scalar rfc_point = Some (Ok rfc_output) /\
  Ok rfc_output = Ok (le_bytes 32 (x25519_spec (scalar_value (le_val rfc_scalar)) (le_val rfc_point mod 2 ^ 255))).
Proof.
  assert (E : x25519ScalarMult rfc_scalar rfc_point = Some (Ok rfc_output)) by (vm_compute; reflexivity).
  split; [exact E|].
  apply (x25519_exact rfc_scalar rfc_point (Ok rfc_output)); [apply bytes_ok_be|apply len_be_bytes|apply bytes_ok_be|apply len_be_bytes|exact E].
Defined.
