(* ===== verification/Elligator.v ===== *)
(** Elligator2, [src/cryptography/field25519.go] and
    [src/cryptography/elligator.go].

    The square root of a ratio and the two maps between X25519 coordinates and
    uniform 32-byte representatives, over the limb arithmetic of [Field25519].
    An operation is [None] when one of its multiplications is undefined;
    [crypto/ecdh]'s key generation and the random source are parameters. *)

From S2P Require Import Prelude Field25519 Prime25519 FieldCong Curve25519.

(** ** Square roots *)

(** [^uint64(0)]. *)
Definition allOnes : Z := 0xffffffffffffffff.

(** [fieldSelect(r.neg(), r, r.lessOrEqualMask(fieldHalf)^allOnes)] *)
Definition lowerHalf (r : field25519) : field25519 :=
  fieldSelect (neg r) r (Z.lxor (lessOrEqualMask r fieldHalf) allOnes).

(** The candidate root in the lower half range and the mask. *)
Definition fieldSqrtRatio (u v : field25519) : option (field25519 * Z) :=
  v2 ← square v;
  uv3 ← (a ← mul u v2; mul a v);
  uv7 ← (a ← mul uv3 v2; mul a v2);
  r ← (a ← pow22523 uv7; mul uv3 a);
  check ← (a ← square r; mul v a);
  let isU := equalMask check u in
  let isNegU := equalMask check (neg u) in
  ri ← mul r fieldSqrtM1;
  let r := fieldSelect ri r isNegU in
  Some (lowerHalf r, Z.lor isU isNegU).

Definition fieldIsSquareNonzero (z : field25519) : option Z :=
  '(_, square) ← fieldSqrtRatio z fieldOne;
  Some (Z.ldiff square (zeroMask z)).

(** ** The two maps *)

Section Code.
(** The random source: [readByte] is one byte from it ([ReadByte] where the
    reader has the method, a one-byte [io.ReadFull] where it does not);
    [GenerateKey] and [publicBytes] are [crypto/ecdh]'s key generation and
    [PublicKey().Bytes()]. *)
Context {reader key : Type}.
Variable readByte : reader -> res Z * reader.
Variable GenerateKey : reader -> res key * reader.
Variable publicBytes : key -> bytes.

(** The result and [dst] after the call, and the reader. *)
Definition EncodeElligator2 (dst public : bytes) (random : reader) : option (res (bool * bytes) * reader) :=
  if (len dst <? 32) || negb (len public =? 32) then Some (Err ErrElligator, random)
  else match fieldLoad public with
  | Ok x =>
      let canonical := lessMask x fieldP in
      let valid := Z.ldiff (Z.ldiff canonical (zeroMask x)) (equalMask x fieldNegA) in
      if negb (valid =? allOnes) then Some (Err ErrElligator, random)
      else
        let xA := neg (add x fieldA) in
        d ← mul fieldTwo xA;
        '(r0, square) ← fieldSqrtRatio x d;
        if negb (square =? allOnes) then Some (Ok (false, dst), random)
        else match readByte random with
        | (Ok entropy, random) =>
            r1 ← (a ← mul fieldTwo r0; invert a);
            let r := fieldSelect r1 r0 (u64 (0 - Z.land entropy 1)) in
            let r := lowerHalf r in
            Some (let? encoded := store r (make_bytes 32) in
                  let encoded := update 31 (fun b => Z.lor b (Z.land entropy 0xc0)) encoded in
                  let? dst := write dst 0 encoded in
                  Ok (true, dst), random)
        | (Err e, random) => Some (Err e, random)
        | (Panic, random) => Some (Panic, random)
        end
  | Err e => Some (Err e, random)
  | Panic => Some (Panic, random)
  end.

(** [dst] after the call. *)
Definition DecodeElligator2 (dst encoded : bytes) : option (res bytes) :=
  if (len dst <? 32) || negb (len encoded =? 32) then Some (Err ErrElligator)
  else
    let representative := update 31 (fun b => Z.land b 0x3f) encoded in
    match fieldLoad representative with
    | Ok r =>
        let valid := lessOrEqualMask r fieldHalf in
        d ← (a ← square r; b ← mul fieldTwo a; Some (add fieldOne b));
        v ← (a ← invert d; mul fieldNegA a);
        vSquared ← square v;
        t ← mul vSquared v;
        t ← (a ← mul fieldA vSquared; Some (add t a));
        let t := add t v in
        let other := fsub (neg v) fieldA in
        mask ← fieldIsSquareNonzero t;
        let x := fieldSelect v other mask in
        if negb (valid =? allOnes) then Some (Err ErrElligator)
        else Some (let? canonical := store x (make_bytes 32) in write dst 0 canonical)
    | Err e => Some (Err e)
    | Panic => Some Panic
    end.

Fixpoint generateLoop (n : nat) (random : reader) : option (res (key * bytes) * reader) :=
  match n with
  | O => Some (Err ErrElligator, random)
  | S n =>
      match GenerateKey random with
      | (Ok private, random) =>
          '(encoded, random) ← EncodeElligator2 (make_bytes 32) (publicBytes private) random;
          match encoded with
          | Ok (true, encoded) => Some (Ok (private, encoded), random)
          | Ok (false, _) => generateLoop n random
          | Err e => Some (Err e, random)
          | Panic => Some (Panic, random)
          end
      | (Err e, random) => Some (Err e, random)
      | (Panic, random) => Some (Panic, random)
      end
  end.

Definition GenerateElligator2X25519 (random : reader) : option (res (key * bytes) * reader) :=
  generateLoop 128 random.
End Code.

(** ** Roots *)

(** [v * s^2 = u] has a solution. *)
Definition ratio_square (u v : Z) : Prop := exists s, v * (s * s) == u.

Lemma symbol_root : val fieldSqrtM1 * val fieldSqrtM1 == -1.
Proof. vm_compute. reflexivity. Qed.

Lemma half_value : val fieldHalf = (p - 1) / 2.
Proof. vm_compute. reflexivity. Qed.

Lemma lowerHalf_ok r : reduced r ->
  reduced (lowerHalf r) /\ val (lowerHalf r) <= (p - 1) / 2 /\ (val (lowerHalf r) == val r \/ val (lowerHalf r) == - val r).
Proof.
  intros Hr. destruct constants_reduced as (_ & _ & _ & _ & _ & Rh & _). destruct (neg_red r Hr) as [Rn Vn].
  unfold lowerHalf. rewrite lessOrEqualMask_ok by (apply Hr || apply Rh). rewrite half_value.
  destruct (val r <=? (p - 1) / 2) eqn:E; [apply Z.leb_le in E|apply Z.leb_gt in E].
  - change (Z.lxor ones allOnes) with 0. rewrite fieldSelect_zero. split; [done|]. split; [done|by left].
  - change (Z.lxor 0 allOnes) with ones. rewrite fieldSelect_ones by (apply Rn || apply Hr).
    split; [done|]. split; [|by right].
    destruct (neg_ok r Hr) as [_ ->]. pose proof (reduced_range r Hr). pose proof p_odd as [Ho _].
    replace ((- val r) mod p) with (p - val r) by (apply (Z.mod_unique _ _ (-1)); pose proof half_nonneg; lia). lia.
Qed.

Lemma quarter_exponent : (p - 1) / 4 = 2 * ((p - 5) / 8) + 1.
Proof. vm_compute. reflexivity. Qed.

(** The candidate [r] of [fieldSqrtRatio] satisfies [v r^2 = u w] for the
    fourth root of unity [w = (u v^7)^((p-1)/4)]. *)
Lemma candidate_check u v e : e == u * (v * v * v * (v * v * v * v)) ->
  let r := u * (v * v * v) * powm e ((p - 5) / 8) in
  v * (r * r) == u * powm e ((p - 1) / 4).
Proof.
  intros He r. unfold r. rewrite quarter_exponent. pose proof half_nonneg.
  rewrite powm_add, powm_one_exp by lia.
  replace (2 * ((p - 5) / 8)) with ((p - 5) / 8 + (p - 5) / 8) by lia. rewrite powm_add by lia.
  set (q := powm e ((p - 5) / 8)). rewrite He. apply cong_eq. ring.
Qed.

Lemma unity_square u v s : ~ v == 0 -> ~ s == 0 -> v * (s * s) == u ->
  let w := powm (u * (v * v * v * (v * v * v * v))) ((p - 1) / 4) in w == 1 \/ w == -1.
Proof.
  intros Hv Hs Hu w. set (g := powm (v * v * v * v * s) ((p - 1) / 2)). pose proof half_nonneg.
  assert (Hw : w == g).
  { unfold w, g. rewrite <- Hu.
    assert (Hsq : v * (s * s) * (v * v * v * (v * v * v * v)) == powm (v * v * v * v * s) 2) by (rewrite powm_2; apply cong_eq; ring).
    rewrite Hsq, powm_pow by lia. by replace (2 * ((p - 1) / 4)) with ((p - 1) / 2) by (vm_compute; reflexivity). }
  assert (Hn : ~ v * v * v * v * s == 0) by (rewrite !cong0_mul; tauto).
  assert (Hg : (g - 1) * (g + 1) == 0).
  { replace ((g - 1) * (g + 1)) with (g * g - 1) by lia. apply cong0_sub. rewrite <- (powm_2 g). unfold g.
    rewrite powm_pow by lia. replace ((p - 1) / 2 * 2) with (p - 1) by (pose proof p_odd; lia). by rewrite fermat. }
  apply cong0_mul in Hg as [Hg|Hg]; [left|right]; rewrite Hw; apply cong0_sub; [done|].
  by replace (g - -1) with (g + 1) by lia.
Qed.

Lemma mask_or a b : Z.lor (if a : bool then ones else 0) (if b : bool then ones else 0) = if a || b then ones else 0.
Proof. by destruct a, b. Qed.

Lemma no_ratio_square u v check nu e : reduced u -> reduced check -> reduced nu -> val nu == - val u ->
  e == val u * (val v * val v * val v * (val v * val v * val v * val v)) ->
  val check == val u * powm e ((p - 1) / 4) -> val check <> val u -> val check <> val nu ->
  ~ ratio_square (val u) (val v).
Proof.
  intros Ru Rc Rn Vn He Hchk H1 H2 [s Hs].
  assert (Hu : ~ val u == 0).
  { intros Hu. apply H1. apply cong_unique; [by apply reduced_range..|]. by rewrite Hchk, Hu. }
  assert (Hn : ~ val v == 0 /\ ~ s == 0) by (split; intros H; apply Hu; rewrite <- Hs, H; apply cong_eq; ring).
  destruct (unity_square _ _ s (proj1 Hn) (proj2 Hn) Hs) as [Hw|Hw]; rewrite <- He in Hw; rewrite Hw in Hchk.
  - apply H1. apply cong_unique; [by apply reduced_range..|]. rewrite Hchk. apply cong_eq. ring.
  - apply H2. apply cong_unique; [by apply reduced_range..|]. rewrite Hchk, Vn. apply cong_eq. ring.
Qed.

Lemma sqrtRatio_ok u v r m : reduced u -> reduced v -> fieldSqrtRatio u v = Some (r, m) ->
  reduced r /\ val r <= (p - 1) / 2 /\
  ((m = ones /\ val v * (val r * val r) == val u) \/ (m = 0 /\ ~ ratio_square (val u) (val v))).
Proof.
  intros Ru Rv E. unfold fieldSqrtRatio in E. destruct constants_reduced as (_ & _ & _ & _ & _ & _ & Ri).
  run E. destruct (square_some _ _ (proj1 Rv) Er) as [R2 V2]. rename r0 into v2.
  run E. apply bind_Some in Er0 as (a & Ea & Er0). destruct (mul_some _ _ _ (proj1 Ru) (proj1 R2) Ea) as [Rx Vx].
  destruct (mul_some _ _ _ (proj1 Rx) (proj1 Rv) Er0) as [R3 V3]. rename r0 into uv3.
  run E. apply bind_Some in Er1 as (b & Eb & Er1). destruct (mul_some _ _ _ (proj1 R3) (proj1 R2) Eb) as [Ry Vy].
  destruct (mul_some _ _ _ (proj1 Ry) (proj1 R2) Er1) as [R7 V7]. rename r0 into uv7.
  run E. apply bind_Some in Er2 as (c & Ec & Er2). destruct (pow22523_ok _ _ (proj1 R7) Ec) as [Rc Vc].
  destruct (mul_some _ _ _ (proj1 R3) (proj1 Rc) Er2) as [Rr Vr]. rename r0 into cand.
  run E. apply bind_Some in Er3 as (d & Ed & Er3). destruct (square_some _ _ (proj1 Rr) Ed) as [Rd Vd].
  destruct (mul_some _ _ _ (proj1 Rv) (proj1 Rd) Er3) as [Rk Vk]. rename r0 into check.
  run E. destruct (mul_some _ _ _ (proj1 Rr) (proj1 Ri) Er4) as [Rs Vs]. rename r0 into ri.
  destruct (neg_red u Ru) as [Rn Vn]. injection E as <- <-.
  assert (He : val uv7 == val u * (val v * val v * val v * (val v * val v * val v * val v)))
    by (rewrite V7, Vy, V3, Vx, V2; apply cong_eq; ring).
  assert (Hsq : val v * (val cand * val cand) == val check) by (by rewrite Vk, Vd).
  assert (Hchk : val check == val u * powm (val uv7) ((p - 1) / 4)).
  { rewrite <- Hsq, Vr, V3, Vx, V2, Vc, <- (candidate_check _ _ _ He). apply cong_eq. ring. }
  rewrite !equalMask_ok by (apply Rk || apply Ru || apply Rn). rewrite mask_or.
  assert (Hroot : forall x, reduced x -> val v * (val x * val x) == val u ->
    reduced (lowerHalf x) /\ val (lowerHalf x) <= (p - 1) / 2 /\ val v * (val (lowerHalf x) * val (lowerHalf x)) == val u).
  { intros x Hx Hv. destruct (lowerHalf_ok x Hx) as (? & ? & Hs). split; [done|]. split; [done|]. rewrite <- Hv.
    destruct Hs as [-> | ->]; [done|apply cong_eq; ring]. }
  destruct (val check =? val (neg u)) eqn:E1; [apply Z.eqb_eq in E1|apply Z.eqb_neq in E1].
  - rewrite orb_true_r, fieldSelect_ones by (apply Rs || apply Rr).
    destruct (Hroot ri Rs) as (? & ? & ?); [|by auto].
    rewrite Vs. transitivity (val v * (val cand * val cand) * (val fieldSqrtM1 * val fieldSqrtM1)); [apply cong_eq; ring|].
    rewrite symbol_root, Hsq, E1, Vn. apply cong_eq. ring.
  - rewrite orb_false_r, fieldSelect_zero. destruct (val check =? val u) eqn:E2; [apply Z.eqb_eq in E2|apply Z.eqb_neq in E2].
    + destruct (Hroot cand Rr) as (? & ? & ?); [by rewrite Hsq, E2|by auto].
    + destruct (lowerHalf_ok cand Rr) as (? & ? & _). split; [done|]. split; [done|]. right. split; [done|].
      by apply (no_ratio_square u v check (neg u) (val uv7)).
Qed.

Definition A : Z := 486662.

(** The right-hand side of the curve equation. *)
Definition rhs (x : Z) : Z := x * x * x + A * (x * x) + x.

Lemma val_A : val fieldA = A.
Proof. reflexivity. Qed.

Lemma val_negA : val fieldNegA == - A.
Proof. vm_compute. reflexivity. Qed.

Lemma symbol_disc : symbol (A * A - 4) == -1.
Proof. unfold symbol. rewrite powm_eval by apply half_nonneg. vm_compute. reflexivity. Qed.

Lemma quadratic_nonzero x : ~ x * x + A * x + 1 == 0.
Proof.
  intros H. assert (Hd : (2 * x + A) * (2 * x + A) == A * A - 4).
  { transitivity (4 * (x * x + A * x + 1) + (A * A - 4)); [apply cong_eq; ring|]. rewrite H. apply cong_eq. ring. }
  destruct (decide ((2 * x + A) mod p = 0 mod p)) as [Hz|Hz].
  - change (2 * x + A == 0) in Hz. rewrite Hz in Hd. vm_compute in Hd. discriminate.
  - pose proof (symbol_square _ Hz) as H1. rewrite Hd in H1. apply one_not_minus. rewrite <- H1. apply symbol_disc.
Qed.

Lemma rhs_nonzero x : ~ x == 0 -> ~ rhs x == 0.
Proof.
  intros Hx H. assert (Hf : x * (x * x + A * x + 1) == 0) by (rewrite <- H; apply cong_eq; unfold rhs; ring).
  apply cong0_mul in Hf as [?|Hf]; [done|by apply (quadratic_nonzero x)].
Qed.

(** ** The nonzero-square test *)

Lemma isSquareNonzero_ok z m : reduced z -> fieldIsSquareNonzero z = Some m ->
  (m = ones /\ exists s, s * s == val z) \/ (m = 0 /\ (val z == 0 \/ ~ exists s, s * s == val z)).
Proof.
  intros Rz E. unfold fieldIsSquareNonzero in E. apply bind_Some in E as ([r q] & Er & E). cbv beta iota in E. injection E as <-.
  destruct constants_reduced as (_ & R1 & _).
  destruct (sqrtRatio_ok _ _ _ _ Rz R1 Er) as (_ & _ & Hm). change (val fieldOne) with 1 in Hm.
  rewrite zeroMask_ok by apply Rz. destruct (val z =? 0) eqn:E0; [apply Z.eqb_eq in E0|apply Z.eqb_neq in E0].
  - right. rewrite E0. split; [|by left]. by destruct Hm as [[-> _]|[-> _]].
  - rewrite Z.ldiff_0_r. destruct Hm as [[-> Hr]|[-> Hr]].
    + left. split; [done|]. exists (val r). by rewrite Z.mul_1_l in Hr.
    + right. split; [done|]. right. intros [s Hs]. apply Hr. exists s. by rewrite Z.mul_1_l.
Qed.

(** ** Representatives *)

(** The two ways a representative [q] stands for [x]. *)
Definition represents (q x : Z) : Prop :=
  2 * (- x - A) * (q * q) == x \/ 2 * x * (q * q) == - x - A.

Lemma decoded_point q x v : ~ A == 0 -> ~ x == 0 -> represents q x -> (1 + 2 * (q * q)) * v == - A ->
  (2 * (- x - A) * (q * q) == x /\ v == - x - A) \/ v == x.
Proof.
  intros HA Hx Hr Hv. set (d := 1 + 2 * (q * q)) in *.
  assert (Hd : ~ d == 0) by (intros H; rewrite H in Hv; apply HA; transitivity (- (0 * v)); [rewrite Hv|]; apply cong_eq; ring).
  destruct Hr as [Hr|Hr]; [left; split; [done|]|right]; apply (cong_cancel_l d); try done; rewrite Hv; unfold d.
  - transitivity ((- x - A) + 2 * (- x - A) * (q * q)); [rewrite Hr|]; apply cong_eq; ring.
  - transitivity (x + 2 * x * (q * q)); [rewrite Hr|]; apply cong_eq; ring.
Qed.

(** On the curve only one of the two candidate coordinates passes the test. *)
Lemma twist_not_square q x v y : ~ x == 0 -> 2 * (- x - A) * (q * q) == x -> v == - x - A -> y * y == rhs x ->
  rhs v == 0 \/ ~ exists s, s * s == rhs v.
Proof.
  intros Hx Hq Hv Hy. right. intros [s Hs].
  assert (Hy0 : ~ y == 0).
  { intros H. apply (rhs_nonzero x Hx). rewrite <- Hy, H. apply cong_eq. ring. }
  apply (two_squares y (q * s) Hy0). rewrite Hy.
  transitivity (2 * (q * q) * (s * s)); [|apply cong_eq; ring]. rewrite Hs. unfold rhs. rewrite Hv.
  transitivity (2 * (- x - A) * (q * q) * (x * x + A * x + 1)); [rewrite Hq|]; apply cong_eq; ring.
Qed.

Lemma A_nonzero : ~ A == 0.
Proof. intros H. vm_compute in H. discriminate. Qed.

(** The bytes of a representative with the two random bits set and cleared. *)
Lemma representative_bytes q entropy : 0 <= q <= (p - 1) / 2 -> is_byte entropy ->
  let encoded := update 31 (fun b => Z.lor b (Z.land entropy 0xc0)) (le_bytes 32 q) in
  len encoded = 32 /\ bytes_ok encoded /\ update 31 (fun b => Z.land b 0x3f) encoded = le_bytes 32 q.
Proof.
  intros Hq He encoded.
  destruct (bytes32 (le_bytes 32 q) (bytes_ok_le 32 q) (len_le_bytes 32 q)) as (a & m & b & El & Hm & Ha & Hb & Hmm).
  assert (Hb64 : b < 64).
  { assert (Hv : le_val (le_bytes 32 q) = q).
    { apply le_val_small. split; [lia|]. change (256 ^ Z.of_nat 32) with (2 * (2 ^ 255 - 19) + 38). fold p. pose proof half_nonneg. pose proof p_odd. lia. }
    rewrite El, le_val_split in Hv by done. pose proof (le_val_bound m Hmm) as [Hv0 _]. unfold is_byte in Ha.
    assert ((p - 1) / 2 < 2 ^ 248 * 64) by (vm_compute; reflexivity).
    destruct (Z.lt_ge_cases b 64); [done|]. assert (2 ^ 248 * 64 <= 2 ^ 248 * b) by (apply Z.mul_le_mono_nonneg_l; [vm_compute; congruence|done]). lia. }
  pose proof (exhaust (fun e => forallb (fun k => let b := Z.of_nat k in
      (Z.land (Z.lor b (Z.land e 0xc0)) 0x3f =? b) && (0 <=? Z.lor b (Z.land e 0xc0)) && (Z.lor b (Z.land e 0xc0) <? 256)) (seq 0 64))
    256 ltac:(vm_compute; reflexivity) entropy He) as Hex.
  rewrite forallb_forall in Hex. specialize (Hex (Z.to_nat b)). rewrite in_seq in Hex.
  unfold is_byte in Hb. specialize (Hex ltac:(lia)). cbv zeta in Hex. rewrite Z2Nat.id in Hex by lia.
  rewrite !andb_true_iff, Z.eqb_eq, Z.leb_le, Z.ltb_lt in Hex. destruct Hex as ((H1 & H2) & H3).
  unfold encoded. rewrite El, !update_last by done. split_and!.
  - len_simpl. lia.
  - apply Forall_cons. split; [done|]. apply bytes_ok_app. split; [done|]. apply Forall_cons. split; [split; lia|done].
  - by rewrite H1.
Qed.

(** A coordinate [EncodeElligator2] accepts. *)
Definition encodable (x : Z) : Prop := 0 < x < p /\ x <> p - A.

Lemma encodable_nonzero x : encodable x -> ~ x == 0 /\ ~ - x - A == 0.
Proof.
  intros [Hx Hn]. split.
  - intros H. apply cong_unique in H; [lia|lia|pose proof p_pos; lia].
  - intros H. apply Hn. apply cong_unique; [lia|unfold p, A; lia|].
    transitivity (- (- x - A) - A); [apply cong_eq; ring|]. rewrite H. unfold cong.
    replace (- 0 - A) with (p - A + (-1) * p) by lia. by rewrite Z.mod_add by (unfold p; lia).
Qed.

Lemma bit_mask e : is_byte e -> u64 (0 - Z.land e 1) = if Z.odd e then ones else 0.
Proof.
  intros. rewrite land_one. rewrite borrow_mask by (pose proof (Z.mod_pos_bound e 2); lia).
  rewrite Zmod_odd. by destruct (Z.odd e).
Qed.

Lemma odd_root x q r0 c : c * c = 1 -> 2 * (- x - A) * (r0 * r0) == x -> q * (2 * r0) == c -> 2 * x * (q * q) == - x - A.
Proof.
  intros Hc H Hq. transitivity (2 * (2 * (- x - A) * (r0 * r0)) * (q * q)); [by rewrite H|].
  transitivity ((- x - A) * ((q * (2 * r0)) * (q * (2 * r0)))); [apply cong_eq; ring|].
  rewrite Hq, Hc. apply cong_eq. ring.
Qed.

Lemma root_represents x r0 q : 2 * (- x - A) * (r0 * r0) == x ->
  q == r0 \/ q == - r0 \/ q * (2 * r0) == 1 \/ q * (2 * r0) == -1 -> represents q x.
Proof.
  intros H Hq. unfold represents. destruct Hq as [E |[E |[Hq|Hq]]].
  - left. rewrite E. done.
  - left. rewrite E. transitivity (2 * (- x - A) * (r0 * r0)); [apply cong_eq; ring|done].
  - right. by apply (odd_root x q r0 1).
  - right. by apply (odd_root x q r0 (-1)).
Qed.

Lemma representable_nonzero q x : encodable x -> represents q x -> ~ 1 + 2 * (q * q) == 0.
Proof.
  intros Hx Hr Hd. apply A_nonzero. set (d := 1 + 2 * (q * q)) in *.
  destruct Hr as [Hr|Hr].
  - transitivity (- ((- x - A) * d)); [|rewrite Hd; apply cong_eq; ring]. unfold d.
    transitivity (- ((- x - A) + 2 * (- x - A) * (q * q))); [rewrite Hr|]; apply cong_eq; ring.
  - transitivity (- (x * d)); [|rewrite Hd; apply cong_eq; ring]. unfold d.
    transitivity (- (x + 2 * x * (q * q))); [rewrite Hr|]; apply cong_eq; ring.
Qed.

Section Elligator.
Context {reader : Type} (readByte : reader -> res Z * reader).
Hypothesis readByte_byte : forall r b r', readByte r = (Ok b, r') -> is_byte b.


(** What a successful encoding holds. *)
Lemma Encode_true dst public random dst' random' : bytes_ok public -> len public = 32 ->
  EncodeElligator2 readByte dst public random = Some (Ok (true, dst'), random') ->
  encodable (le_val public) /\ ratio_square (le_val public) (2 * (- le_val public - A)) /\
  exists q entropy, 0 <= q <= (p - 1) / 2 /\ is_byte entropy /\ readByte random = (Ok entropy, random') /\
  represents q (le_val public) /\
  dst' = update 31 (fun b => Z.lor b (Z.land entropy 0xc0)) (le_bytes 32 q) ++ sub 32 (len dst) dst.
Proof.
  intros Hb Hl E. unfold EncodeElligator2 in E.
  destruct ((len dst <? 32) || negb (len public =? 32)) eqn:Hg; [discriminate|].
  apply orb_false_iff in Hg as [Hd _]. apply Z.ltb_ge in Hd.
  destruct (fieldLoad_ok public Hb Hl) as (x & Hload & Lx & Vx). rewrite Hload in E. cbv zeta in E.
  destruct (negb _) eqn:Hv in E; [discriminate|]. apply negb_false_iff, Z.eqb_eq in Hv.
  destruct constants_reduced as (_ & R1 & R2 & RA & RN & _).
  rewrite lessMask_ok, zeroMask_ok, equalMask_ok in Hv by (apply Lx || apply RN || apply fieldP_ok).
  rewrite (proj2 fieldP_ok) in Hv. change (val fieldNegA) with (p - A) in Hv.
  assert (Hx : encodable (val x)).
  { pose proof (val_bound x Lx). unfold encodable.
    destruct (val x <? p) eqn:E1, (val x =? 0) eqn:E2, (val x =? p - A) eqn:E3; try (vm_compute in Hv; discriminate). lia. }
  assert (Rx : reduced x) by (split; [done|apply Hx]).
  destruct (add_red x fieldA Lx (proj1 RA)) as [Rs Vs]. destruct (neg_red _ Rs) as [Rm Vm].
  run E. destruct (mul_some _ _ _ (proj1 R2) (proj1 Rm) Er) as [Rd Vd].
  apply bind_Some in E as ([r0 sq] & Esq & E). cbv beta iota in E.
  destruct (sqrtRatio_ok _ _ _ _ Rx Rd Esq) as (Rr0 & Hr0 & Hm).
  destruct (negb (sq =? allOnes)) eqn:Hsq; [discriminate|]. apply negb_false_iff, Z.eqb_eq in Hsq.
  destruct Hm as [[_ Hroot]|[-> _]]; [|discriminate].
  assert (Hd2 : val r == 2 * (- val x - A)).
  { rewrite Vd, Vm, Vs, val_A. change (val fieldTwo) with 2. apply cong_eq. ring. }
  rewrite Hd2 in Hroot.
  destruct (readByte random) as [[entropy|e|] rnd] eqn:Erd; [|discriminate..].
  pose proof (readByte_byte _ _ _ Erd) as He.
  run E. apply bind_Some in Er0 as (a & Ea & Er0). destruct (mul_some _ _ _ (proj1 R2) (proj1 Rr0) Ea) as [Ra Va].
  destruct (invert_some _ _ (proj1 Ra) Er0) as [R1' V1]. rename r1 into inv.
  set (sel := fieldSelect inv r0 _) in E.
  assert (Rsel : reduced sel /\ (sel = r0 \/ sel = inv)).
  { unfold sel. rewrite bit_mask by done. destruct (Z.odd entropy).
    - rewrite fieldSelect_ones by (apply R1' || apply Rr0). auto.
    - rewrite fieldSelect_zero. auto. }
  destruct Rsel as [Rsel Hsel]. destruct (lowerHalf_ok sel Rsel) as (Rq & Hq & Hqs). set (q := lowerHalf sel) in *.
  assert (Hinv : val inv * (2 * val r0) == 1).
  { rewrite Z.mul_comm. change 2 with (val fieldTwo). rewrite <- Va, V1. apply inverse.
    rewrite Va. change (val fieldTwo) with 2. rewrite cong0_mul. intros [H2|H0].
    - vm_compute in H2. discriminate.
    - apply (proj1 (encodable_nonzero _ Hx)). rewrite <- Hroot, H0. apply cong_eq. ring. }
  rewrite store_ok in E; [|apply Rq|done]. cbn [bind] in E.
  pose proof (reduced_range q Rq).
  destruct (representative_bytes (val q) entropy ltac:(lia) He) as (Le & _ & _).
  rewrite (over_nil dst), write_over in E by len_lia. cbn [bind] in E. injection E as <- <-. rewrite <- Vx.
  split; [done|]. split; [by exists (val r0)|].
  exists (val q), entropy. split; [lia|]. split; [done|]. split; [done|]. split.
  - apply (root_represents _ (val r0)); [done|]. destruct Hsel as [-> | ->]; destruct Hqs as [Hqs|Hqs]; auto.
    + right. right. left. by rewrite Hqs.
    + right. right. right. rewrite Hqs. transitivity (- (val inv * (2 * val r0))); [apply cong_eq; ring|by rewrite Hinv].
  - unfold over. rewrite Le. reflexivity.
Qed.

(** Decoding: the coordinate is one of the two candidates. *)
Lemma Decode_ok dst encoded q out x y : bytes_ok (le_bytes 32 q) -> 32 <= len dst -> len encoded = 32 ->
  update 31 (fun b => Z.land b 0x3f) encoded = le_bytes 32 q -> 0 <= q <= (p - 1) / 2 ->
  encodable x -> represents q x -> y * y == rhs x ->
  DecodeElligator2 dst encoded = Some out -> out = Ok (le_bytes 32 x ++ sub 32 (len dst) dst).
Proof.
  intros Hqb Hd Hl Hu Hq Hx Hrep Hy E. unfold DecodeElligator2 in E.
  replace ((len dst <? 32) || negb (len encoded =? 32)) with false in E by (symmetry; apply orb_false_iff; split; [lia|rewrite Hl; done]).
  rewrite Hu in E. destruct (fieldLoad_ok (le_bytes 32 q) Hqb (len_le_bytes 32 q)) as (r & Hload & Lr & Vr).
  rewrite Hload in E. cbv zeta in E.
  assert (Hrq : val r = q).
  { rewrite Vr. apply le_val_small. split; [lia|]. change (256 ^ Z.of_nat 32) with (2 * (2 ^ 255 - 19) + 38). fold p.
    pose proof half_nonneg. pose proof p_odd. lia. }
  destruct constants_reduced as (_ & R1 & R2 & RA & RN & Rh & _).
  run E. apply bind_Some in Er as (a & Ea & Er). apply bind_Some in Er as (b & Eb & Er). injection Er as <-.
  destruct (square_some _ _ Lr Ea) as [Ra Va]. destruct (mul_some _ _ _ (proj1 R2) (proj1 Ra) Eb) as [Rb Vb].
  destruct (add_red fieldOne b (proj1 R1) (proj1 Rb)) as [Rd Vd]. set (d := add fieldOne b) in *.
  run E. apply bind_Some in Er as (i & Ei & Er). destruct (invert_some _ _ (proj1 Rd) Ei) as [Ri Vi].
  destruct (mul_some _ _ _ (proj1 RN) (proj1 Ri) Er) as [Rv Vv]. rename r0 into v.
  run E. destruct (square_some _ _ (proj1 Rv) Er0) as [Rw Vw]. rename r0 into w.
  run E. destruct (mul_some _ _ _ (proj1 Rw) (proj1 Rv) Er1) as [Rt1 Vt1]. rename r0 into t1.
  run E. apply bind_Some in Er2 as (c & Ec & Er2). injection Er2 as <-.
  destruct (mul_some _ _ _ (proj1 RA) (proj1 Rw) Ec) as [Rc Vc]. destruct (add_red t1 c (proj1 Rt1) (proj1 Rc)) as [Rt2 Vt2].
  destruct (add_red (add t1 c) v (proj1 Rt2) (proj1 Rv)) as [Rt Vt]. set (t := add (add t1 c) v) in *.
  destruct (neg_red v Rv) as [Rnv Vnv]. destruct (fsub_red _ _ Rnv RA) as [Ro Vo]. set (other := fsub (neg v) fieldA) in *.
  run E. rename r0 into m. pose proof (isSquareNonzero_ok _ _ Rt Er2) as Hm.
  assert (Ht : val t == rhs (val v)).
  { rewrite Vt, Vt2, Vt1, Vc, Vw, val_A. apply cong_eq. unfold rhs. ring. }
  assert (Hdv : (1 + 2 * (q * q)) * val v == - A).
  { assert (Hdd : val d == 1 + 2 * (q * q)) by (rewrite Vd, Vb, Va, Hrq; apply cong_eq; reflexivity).
    assert (Hnz : ~ val d == 0) by (rewrite Hdd; by apply (representable_nonzero q x)).
    rewrite <- Hdd, Vv, val_negA, Vi. transitivity (- A * (val d * powm (val d) (p - 2))); [apply cong_eq; ring|].
    rewrite inverse by done. apply cong_eq. ring. }
  assert (Hsel : reduced (fieldSelect v other m) /\ val (fieldSelect v other m) == x).
  { destruct (encodable_nonzero x Hx) as [Hx0 _].
    destruct (decoded_point q x (val v) A_nonzero Hx0 Hrep Hdv) as [[Hq1 Hvx]|Hvx].
    - assert (Hm0 : m = 0).
      { destruct Hm as [[_ [s Hs]]|[? _]]; [|done]. exfalso.
        destruct (twist_not_square q x (val v) y Hx0 Hq1 Hvx Hy) as [H0|H0].
        + revert H0. apply rhs_nonzero. rewrite Hvx. by apply encodable_nonzero.
        + apply H0. exists s. by rewrite Hs. }
      rewrite Hm0, fieldSelect_zero. split; [done|]. rewrite Vo, Vnv, Hvx, val_A. apply cong_eq. ring.
    - assert (Hm1 : m = ones).
      { destruct Hm as [[? _]|[_ [H0|H0]]]; [done|exfalso..].
        + apply (rhs_nonzero x Hx0). rewrite <- H0, Ht. unfold rhs. by rewrite Hvx.
        + apply H0. exists y. rewrite Hy, Ht. unfold rhs. by rewrite Hvx. }
      rewrite Hm1, fieldSelect_ones by (apply Rv || apply Ro). exact (conj Rv Hvx). }
  destruct Hsel as [Rx Vx]. rewrite lessOrEqualMask_ok in E by (apply Lr || apply Rh). rewrite half_value, Hrq in E.
  rewrite (proj2 (Z.leb_le _ _)) in E by lia. change (negb (ones =? allOnes)) with false in E. cbv iota in E.
  rewrite store_ok in E; [|apply Rx|done]. cbn [bind] in E.
  rewrite (over_nil dst), write_over in E by len_lia. injection E as <-.
  rewrite (cong_reduced _ _ Rx Vx), (Z.mod_small x) by (destruct Hx; lia). unfold over. cbn [app]. rewrite len_le_bytes. reflexivity.
Qed.

(** C5: a coordinate of a curve point that [EncodeElligator2] accepts and
    encodes, with either root and any random bits, is what [DecodeElligator2]
    returns for the encoding, whenever the arithmetic of both is defined; the
    rest of the destination is untouched. *)
Theorem elligator_roundtrip dst public random dst' random' y dst2 out :
  bytes_ok public -> len public = 32 -> y * y == rhs (le_val public) -> 32 <= len dst2 ->
  EncodeElligator2 readByte dst public random = Some (Ok (true, dst'), random') ->
  DecodeElligator2 dst2 (sub 0 32 dst') = Some out ->
  out = Ok (public ++ sub 32 (len dst2) dst2).
Proof.
  intros Hb Hl Hy Hd2 Henc Hdec.
  destruct (Encode_true _ _ _ _ _ Hb Hl Henc) as (Hx & _ & q & entropy & Hq & He & _ & Hrep & ->).
  destruct (representative_bytes q entropy Hq He) as (Le & _ & Hu).
  rewrite sub_app_exact in Hdec by done.
  rewrite (Decode_ok dst2 _ q out (le_val public) y (bytes_ok_le 32 q) Hd2 Le Hu Hq Hx Hrep Hy Hdec).
  do 2 f_equal. replace 32%nat with (length public) by (unfold len in Hl; lia). by apply le_bytes_le_val.
Qed.
End Elligator.

(** A source of the byte 0xc1. *)
Definition constantByte (r : unit) : res Z * unit := (Ok 0xc1, r).

(** The representative of the base point's coordinate with that byte. *)
Definition nine : bytes := le_bytes 32 9.
Definition nine_encoded : bytes := be_bytes 32 83886680204619940176132612140881505172114904934381919382083349800259901499883.

Lemma elligator_roundtrip_witness :
  EncodeElligator2 constantByte (make_bytes 32) nine tt = Some (Ok (true, nine_encoded), tt) /\
  DecodeElligator2 (make_bytes 32) (sub 0 32 nine_encoded) = Some (Ok (nine ++ sub 32 (len (make_bytes 32)) (make_bytes 32))).
Proof.
  assert (E : EncodeElligator2 constantByte (make_bytes 32) nine tt = Some (Ok (true, nine_encoded), tt)) by (vm_compute; reflexivity).
  split; [exact E|].
  assert (D : exists out, DecodeElligator2 (make_bytes 32) (sub 0 32 nine_encoded) = Some out) by (eexists; vm_compute; reflexivity).
  destruct D as [out D]. rewrite D. f_equal.
  apply (elligator_roundtrip constantByte ltac:(intros r b r' H; injection H as <- <-; unfold is_byte; lia)
    (make_bytes 32) nine tt nine_encoded tt 14781619447589544791020593568409986887264606134616475288964881837755586237401 (make_bytes 32) out
    (bytes_ok_le 32 9) (len_le_bytes 32 9) ltac:(vm_compute; reflexivity) ltac:(vm_compute; congruence) E D).
Defined.
