(* ===== verification/Wire.v ===== *)
(** The wire primitives, [src/internal/wire/cursor.go]: the reading [Cursor]
    and the fixed-capacity [Writer].

    A pointer receiver is state passing in the monad [go]: a method maps the
    receiver to the call's outcome and the receiver after it, so what a failing
    call leaves behind is part of the model.  The slice [Reserve] returns
    aliases the writer's buffer; it is modelled by the range it covers. *)

From S2P Require Import Prelude.

(** ** Methods on a mutable receiver *)

Definition go (S A : Type) : Type := S -> res A * S.

Definition ret {S A} (a : A) : go S A := fun s => (Ok a, s).
Definition fail {S A} (e : error) : go S A := fun s => (Err e, s).
Definition lift {S A} (m : res A) : go S A := fun s => (m, s).
Definition get {S} : go S S := fun s => (Ok s, s).
Definition put {S} (s' : S) : go S unit := fun _ => (Ok tt, s').
Definition gbind {S A B} (m : go S A) (f : A -> go S B) : go S B :=
  fun s => match m s with
           | (Ok a, s') => f a s'
           | (Err e, s') => (Err e, s')
           | (Panic, s') => (Panic, s')
           end.

Notation "'let!' x := m 'in' k" := (gbind m (fun x => k))
  (at level 100, x pattern, m at level 99, k at level 200, right associativity,
   format "'let!'  x  :=  m  'in' '//' k") : go_scope.

(** Unfolds the monad to plain state passing. *)
Ltac go_unfold := unfold gbind, get, put, lift, ret, fail.

(** ** Running a method call by call *)

Lemma gbind_ok {S X Y} (m : go S X) (f : X -> go S Y) s a s' :
  m s = (Ok a, s') -> gbind m f s = f a s'.
Proof. intros H. unfold gbind. by rewrite H. Qed.

Lemma lift_ok {S B} (r : res B) a (s : S) : r = Ok a -> lift r s = (Ok a, s).
Proof. by intros ->. Qed.

(** One call: in general, of a pure function, of [get] and of [put]. *)
Ltac go_call E := rewrite (gbind_ok _ _ _ _ _ E); cbv beta iota.
Ltac go_lift E :=
  match goal with |- gbind (lift _) _ ?p = _ => go_call (lift_ok _ _ p E) end.
Ltac go_get := match goal with |- gbind get _ ?p = _ => go_call (eq_refl : get p = (Ok p, p)) end.
Ltac go_put := match goal with |- gbind (put ?q) _ ?p = _ => go_call (eq_refl : put q p = (Ok tt, q)) end.

(** A method that returns from every receiver state. *)
Definition returns {S A} (m : go S A) : Prop := forall s, (m s).1 <> Panic.

Section Returns.
Context {S A B : Type}.

Lemma returns_ret (a : A) : returns (S := S) (ret a).
Proof. done. Qed.

Lemma returns_fail e : returns (S := S) (A := A) (fail e).
Proof. done. Qed.

Lemma returns_get : returns (S := S) get.
Proof. done. Qed.

Lemma returns_put (s' : S) : returns (put s').
Proof. done. Qed.

Lemma returns_lift (m : res A) : safe m -> returns (S := S) (lift m).
Proof. intros H s. exact H. Qed.

Lemma returns_bind (m : go S A) (f : A -> go S B) :
  returns m -> (forall a, returns (f a)) -> returns (gbind m f).
Proof.
  intros Hm Hf s. specialize (Hm s). unfold gbind. destruct (m s) as [[a| |] s']; [apply Hf|done|done].
Qed.
End Returns.

#[export] Hint Resolve returns_ret returns_fail returns_get returns_put returns_lift returns_bind : go_safe.

(** Safety of monadic code, by its structure. *)
Ltac returns_tac :=
  repeat (intros; first
    [ apply returns_bind | solve [auto with go_safe]
    | match goal with
      | |- returns (if ?b then _ else _) => destruct b eqn:?
      | |- returns (match ?x with _ => _ end) => destruct x eqn:?
      end ]).

Module Cursor.

Record Cursor := mkCursor { buf : bytes; off : Z }.

Definition NewCursor (b : bytes) : Cursor := mkCursor b 0.

Definition Offset (c : Cursor) : Z := off c.
Definition Remaining (c : Cursor) : Z := len (buf c) - off c.
Definition Done (c : Cursor) : bool := off c =? len (buf c).
Definition Bytes (c : Cursor) : res bytes := slice_from (buf c) (off c).

Definition ReadU8 : go Cursor Z :=
  let! c := get in
  if off c =? len (buf c) then fail ErrShortBuffer
  else
    let! v := lift (index (buf c) (off c)) in
    let! _ := put (mkCursor (buf c) (off c + 1)) in
    ret v.

Definition ReadBytes (n : Z) : go Cursor bytes :=
  let! c := get in
  if n <? 0 then fail ErrLargeField
  else if n >? len (buf c) - off c then fail ErrShortBuffer
  else
    let start := off c in
    let! _ := put (mkCursor (buf c) (off c + n)) in
    lift (slice (buf c) start (off c + n)).

Definition ReadU16 : go Cursor Z := let! b := ReadBytes 2 in lift (be_uint 2 b).
Definition ReadU32 : go Cursor Z := let! b := ReadBytes 4 in lift (be_uint 4 b).
Definition ReadU64 : go Cursor Z := let! b := ReadBytes 8 in lift (be_uint 8 b).
Definition Skip (n : Z) : go Cursor unit := let! _ := ReadBytes n in ret tt.

(** The bytes still to read: what a cursor stands for. *)
Definition rest (c : Cursor) : bytes := sub (off c) (len (buf c)) (buf c).
Definition wf (c : Cursor) : Prop := 0 <= off c <= len (buf c).

Lemma wf_new b : wf (NewCursor b).
Proof. unfold wf, NewCursor. cbn. len_lia. Qed.

Lemma rest_new b : rest (NewCursor b) = b.
Proof. unfold rest, NewCursor. cbn. by apply sub_all. Qed.

Lemma len_rest c : wf c -> len (rest c) = Remaining c.
Proof. unfold wf, rest, Remaining. intros. len_lia. Qed.

Lemma Bytes_rest c : wf c -> Bytes c = Ok (rest c).
Proof. unfold wf, Bytes, rest. intros. by apply slice_from_ok. Qed.

(** The step every reader takes: [n] bytes of [rest] move past the cursor. *)
Definition advance (n : Z) (c : Cursor) : Cursor := mkCursor (buf c) (off c + n).

Lemma wf_advance n c : wf c -> 0 <= n <= Remaining c -> wf (advance n c).
Proof. unfold wf, Remaining, advance. cbn. lia. Qed.

Lemma rest_advance n c : wf c -> 0 <= n <= Remaining c -> rest (advance n c) = sub n (len (rest c)) (rest c).
Proof.
  intros Hw Hn. rewrite len_rest by done. unfold wf, Remaining, rest, advance in *. cbn [buf off].
  rewrite sub_sub by lia. f_equal; lia.
Qed.

Lemma ReadBytes_ok n c :
  wf c -> 0 <= n <= Remaining c -> ReadBytes n c = (Ok (sub 0 n (rest c)), advance n c).
Proof.
  unfold wf, Remaining, ReadBytes, rest, gbind, get, put, lift, advance. intros Hw Hn. cbn [buf off].
  zbool. rewrite slice_ok by lia. rewrite sub_sub by lia. do 3 f_equal; lia.
Qed.

Lemma ReadBytes_short n c : Remaining c < n -> 0 <= n -> ReadBytes n c = (Err ErrShortBuffer, c).
Proof. unfold Remaining, ReadBytes, gbind, get, fail. intros. by zbool. Qed.

Lemma ReadBytes_negative n c : n < 0 -> ReadBytes n c = (Err ErrLargeField, c).
Proof. unfold ReadBytes, gbind, get, fail. intros. by zbool. Qed.

Lemma ReadU8_ok c x r : wf c -> rest c = x :: r -> ReadU8 c = (Ok x, advance 1 c).
Proof.
  intros Hw Hr. assert (len (rest c) = 1 + len r) as Hl by (rewrite Hr; len_lia).
  rewrite len_rest in Hl by done. unfold wf, Remaining, ReadU8, gbind, get, put, lift, ret, advance, rest in *.
  cbn [buf off] in *. zbool.
  replace (index (buf c) (off c)) with (index (sub (off c) (len (buf c)) (buf c)) 0)
    by (rewrite index_sub by len_lia; f_equal; lia).
  by rewrite Hr.
Qed.

Lemma ReadU8_short c : Remaining c = 0 -> ReadU8 c = (Err ErrShortBuffer, c).
Proof. unfold Remaining, ReadU8, gbind, get, fail. intros. by zbool. Qed.

(** A fixed-width read: [n] bytes, big-endian. *)
Lemma read_be_ok n c :
  wf c -> 0 <= n <= Remaining c ->
  (let! b := ReadBytes n in lift (be_uint n b)) c = (Ok (be_val (sub 0 n (rest c))), advance n c).
Proof.
  intros Hw Hn. unfold gbind. rewrite ReadBytes_ok by done. unfold lift.
  pose proof (len_rest c Hw). rewrite be_uint_sub by len_lia. done.
Qed.

Lemma read_be_short n c :
  0 <= n -> Remaining c < n -> (let! b := ReadBytes n in lift (be_uint n b)) c = (Err ErrShortBuffer, c).
Proof. intros. unfold gbind. by rewrite ReadBytes_short by lia. Qed.

End Cursor.

Module Writer.

Record Writer := mkWriter { buf : bytes; off : Z }.

Definition NewWriter (dst : bytes) : Writer := mkWriter dst 0.

Definition Offset (w : Writer) : Z := off w.
Definition Available (w : Writer) : Z := len (buf w) - off w.
Definition Bytes (w : Writer) : res bytes := slice (buf w) 0 (off w).

Definition PutU8 (v : Z) : go Writer unit :=
  let! w := get in
  if off w =? len (buf w) then fail ErrShortBuffer
  else
    let! b := lift (write (buf w) (off w) [v]) in
    put (mkWriter b (off w + 1)).

(** The range of the returned slice. *)
Definition Reserve (n : Z) : go Writer (Z * Z) :=
  let! w := get in
  if n <? 0 then fail ErrLargeField
  else if n >? len (buf w) - off w then fail ErrShortBuffer
  else
    let start := off w in
    let! _ := put (mkWriter (buf w) (off w + n)) in
    let! _ := lift (slice (buf w) start (off w + n)) in
    ret (start, off w + n).

(** Stores [src] in the reserved range [b]. *)
Definition store (b : Z * Z) (src : bytes) : go Writer unit :=
  let! w := get in
  let! buf' := lift (write (buf w) b.1 (sub 0 (b.2 - b.1) src)) in
  put (mkWriter buf' (off w)).

Definition PutU16 (v : Z) : go Writer unit := let! b := Reserve 2 in store b (be_bytes 2 v).
Definition PutU32 (v : Z) : go Writer unit := let! b := Reserve 4 in store b (be_bytes 4 v).
Definition PutU64 (v : Z) : go Writer unit := let! b := Reserve 8 in store b (be_bytes 8 v).
Definition Put (src : bytes) : go Writer unit := let! b := Reserve (len src) in store b src.

(** [w] has written [out] over the start of [dst] and nothing else. *)
Definition written (dst out : bytes) (w : Writer) : Prop :=
  buf w = over out dst /\ off w = len out /\ len out <= len dst.

Lemma written_new dst : written dst [] (NewWriter dst).
Proof. unfold written, NewWriter. cbn [buf off]. split_and!; [apply over_nil|done|len_lia]. Qed.

Lemma written_Bytes dst out w : written dst out w -> Bytes w = Ok out.
Proof.
  intros (Hb & Ho & Hl). unfold Bytes. rewrite Hb, Ho.
  rewrite slice_ok by (rewrite ?len_over by done; len_lia). unfold over. by rewrite sub_app_exact.
Qed.

Lemma reserve_store src dst out w :
  written dst out w -> len src <= Available w ->
  exists w', (let! b := Reserve (len src) in store b src) w = (Ok tt, w') /\ written dst (out ++ src) w'.
Proof.
  intros (Hb & Ho & Hl) Ha. unfold Available in Ha. destruct w as [b o]. cbn [buf off] in *. subst.
  rewrite len_over in Ha by done.
  unfold Reserve, store, gbind, get, put, lift, ret. cbn [buf off].
  rewrite !len_over by done. zbool. rewrite slice_ok by (rewrite ?len_over by done; len_lia).
  cbn [fst snd buf off]. rewrite sub_all by lia.
  rewrite write_over by lia. eexists. split; [done|].
  unfold written. cbn [buf off]. split_and!; [done|len_lia..].
Qed.

Lemma reserve_short src w :
  Available w < len src -> (let! b := Reserve (len src) in store b src) w = (Err ErrShortBuffer, w).
Proof. unfold Available, Reserve, gbind, get, fail. intros. by zbool. Qed.

Lemma PutU8_ok v dst out w :
  written dst out w -> 1 <= Available w ->
  exists w', PutU8 v w = (Ok tt, w') /\ written dst (out ++ [v]) w'.
Proof.
  intros (Hb & Ho & Hl) Ha. unfold Available in Ha. destruct w as [b o]. cbn [buf off] in *. subst.
  rewrite len_over in Ha by done.
  unfold PutU8, gbind, get, put, lift. cbn [buf off]. rewrite len_over by done. zbool.
  rewrite write_over by len_lia. eexists. split; [done|].
  unfold written. cbn [buf off]. split_and!; [done|len_lia..].
Qed.

Lemma written_Available dst out w : written dst out w -> Available w = len dst - len out.
Proof. intros (Hb & Ho & Hl). unfold Available. rewrite Hb, Ho. by rewrite len_over. Qed.

End Writer.

(** ** Records of fields *)

(** One field of a fixed layout, and its width. *)
Inductive field :=
| FU8 (v : Z)
| FU16 (v : Z)
| FU32 (v : Z)
| FU64 (v : Z)
| FBytes (b : bytes).

Definition encode (f : field) : bytes :=
  match f with
  | FU8 v => [v]
  | FU16 v => be_bytes 2 v
  | FU32 v => be_bytes 4 v
  | FU64 v => be_bytes 8 v
  | FBytes b => b
  end.

Definition in_range (f : field) : Prop :=
  match f with
  | FU8 v => 0 <= v < 2 ^ 8
  | FU16 v => 0 <= v < 2 ^ 16
  | FU32 v => 0 <= v < 2 ^ 32
  | FU64 v => 0 <= v < 2 ^ 64
  | FBytes b => True
  end.

Definition put_field (f : field) : go Writer.Writer unit :=
  match f with
  | FU8 v => Writer.PutU8 v
  | FU16 v => Writer.PutU16 v
  | FU32 v => Writer.PutU32 v
  | FU64 v => Writer.PutU64 v
  | FBytes b => Writer.Put b
  end.

(** Reads a field of the same shape as [f]; the value in [f] is not used. *)
Definition read_like (f : field) : go Cursor.Cursor field :=
  match f with
  | FU8 _ => let! v := Cursor.ReadU8 in ret (FU8 v)
  | FU16 _ => let! v := Cursor.ReadU16 in ret (FU16 v)
  | FU32 _ => let! v := Cursor.ReadU32 in ret (FU32 v)
  | FU64 _ => let! v := Cursor.ReadU64 in ret (FU64 v)
  | FBytes b => let! v := Cursor.ReadBytes (len b) in ret (FBytes v)
  end.

Fixpoint put_all (fs : list field) : go Writer.Writer unit :=
  match fs with
  | [] => ret tt
  | f :: fs => let! _ := put_field f in put_all fs
  end.

Fixpoint read_all (shape : list field) : go Cursor.Cursor (list field) :=
  match shape with
  | [] => ret []
  | f :: fs => let! v := read_like f in let! vs := read_all fs in ret (v :: vs)
  end.

Definition layout (fs : list field) : bytes := concat (encode <$> fs).

Lemma layout_cons f fs : layout (f :: fs) = encode f ++ layout fs.
Proof. reflexivity. Qed.

Lemma put_field_ok f dst out w :
  Writer.written dst out w -> len (encode f) <= Writer.Available w ->
  exists w', put_field f w = (Ok tt, w') /\ Writer.written dst (out ++ encode f) w'.
Proof.
  destruct f as [v|v|v|v|b]; cbn [encode put_field]; intros Hw Ha.
  - apply Writer.PutU8_ok; [done|]. len_simpl_in Ha. lia.
  - apply (Writer.reserve_store (be_bytes 2 v)); done.
  - apply (Writer.reserve_store (be_bytes 4 v)); done.
  - apply (Writer.reserve_store (be_bytes 8 v)); done.
  - apply Writer.reserve_store; done.
Qed.

Lemma put_field_short f dst out w :
  Writer.written dst out w -> Writer.Available w < len (encode f) ->
  put_field f w = (Err ErrShortBuffer, w).
Proof.
  destruct f as [v|v|v|v|b]; cbn [encode put_field]; intros Hw Ha.
  - rewrite (Writer.written_Available dst out) in Ha by done. len_simpl_in Ha.
    destruct Hw as (Hb & Ho & Hl). unfold Writer.PutU8, gbind, get, fail. rewrite Hb, Ho.
    rewrite len_over by done. by zbool.
  - apply (Writer.reserve_short (be_bytes 2 v)). done.
  - apply (Writer.reserve_short (be_bytes 4 v)). done.
  - apply (Writer.reserve_short (be_bytes 8 v)). done.
  - apply Writer.reserve_short. done.
Qed.

Lemma put_all_ok fs dst out w :
  Writer.written dst out w -> len out + len (layout fs) <= len dst ->
  exists w', put_all fs w = (Ok tt, w') /\ Writer.written dst (out ++ layout fs) w'.
Proof.
  revert out w. induction fs as [|f fs IH]; intros out w Hw Hl.
  - exists w. split; [done|]. by rewrite app_nil_r.
  - rewrite layout_cons in *. len_simpl_in Hl. cbn [put_all].
    destruct (put_field_ok f dst out w Hw) as (w1 & H1 & Hw1).
    { rewrite (Writer.written_Available dst out) by done. len_lia. }
    destruct (IH (out ++ encode f) w1 Hw1) as (w2 & H2 & Hw2); [len_lia|].
    exists w2. unfold gbind. rewrite H1, H2. split; [done|]. by rewrite app_assoc.
Qed.

Lemma read_like_ok f c r :
  Cursor.wf c -> in_range f -> Cursor.rest c = encode f ++ r ->
  exists c', read_like f c = (Ok f, c') /\ Cursor.wf c' /\ Cursor.buf c' = Cursor.buf c /\ Cursor.rest c' = r.
Proof.
  intros Hw Hr Hrest.
  assert (len (encode f) + len r = Cursor.Remaining c) as Hrem
    by (rewrite <- Cursor.len_rest, Hrest by done; len_lia).
  exists (Cursor.advance (len (encode f)) c).
  assert (0 <= len (encode f) <= Cursor.Remaining c) as Hn by len_lia.
  split_and!; [|by apply Cursor.wf_advance|done|].
  2:{ rewrite Cursor.rest_advance, Hrest by done. by sub_norm. }
  destruct f as [v|v|v|v|b]; cbn [encode read_like] in *; unfold gbind, ret.
  - by rewrite (Cursor.ReadU8_ok c v r).
  - unfold Cursor.ReadU16. rewrite len_be_bytes in *. rewrite Cursor.read_be_ok by done.
    rewrite Hrest. cbn in Hr. by sub_norm.
  - unfold Cursor.ReadU32. rewrite len_be_bytes in *. rewrite Cursor.read_be_ok by done.
    rewrite Hrest. cbn in Hr. by sub_norm.
  - unfold Cursor.ReadU64. rewrite len_be_bytes in *. rewrite Cursor.read_be_ok by done.
    rewrite Hrest. cbn in Hr. by sub_norm.
  - rewrite Cursor.ReadBytes_ok by done. rewrite Hrest. by sub_norm.
Qed.

Lemma read_all_ok fs c r :
  Cursor.wf c -> Forall in_range fs -> Cursor.rest c = layout fs ++ r ->
  exists c', read_all fs c = (Ok fs, c') /\ Cursor.wf c' /\ Cursor.rest c' = r.
Proof.
  revert c. induction fs as [|f fs IH]; intros c Hw Hf Hr.
  - exists c. done.
  - inversion Hf; subst. rewrite layout_cons, <- app_assoc in Hr.
    destruct (read_like_ok f c (layout fs ++ r) Hw) as (c1 & H1' & Hw1 & _ & Hr1); [done..|].
    destruct (IH c1) as (c2 & H2' & Hw2 & Hr2); [done..|].
    exists c2. cbn [read_all]. unfold gbind. by rewrite H1', H2'.
Qed.

(** ** Properties *)

(** Fields written with [Writer] read back with [Cursor].  For any list of
    in-range fields that fits the destination, every put succeeds, the bytes
    past the written prefix keep their value, and a cursor over [w.Bytes()]
    that reads the same shapes returns the same fields and is then done. *)
Theorem writer_cursor_roundtrip dst fs :
  Forall in_range fs -> len (layout fs) <= len dst ->
  exists w c out,
    put_all fs (Writer.NewWriter dst) = (Ok tt, w) /\
    Writer.Bytes w = Ok out /\
    sub (len out) (len dst) (Writer.buf w) = sub (len out) (len dst) dst /\
    read_all fs (Cursor.NewCursor out) = (Ok fs, c) /\ Cursor.Done c = true.
Proof.
  intros Hf Hl. destruct (put_all_ok fs dst [] _ (Writer.written_new dst)) as (w & Hp & Hw); [len_lia|].
  cbn [app] in Hw.
  destruct (read_all_ok fs (Cursor.NewCursor (layout fs)) [] (Cursor.wf_new _) Hf) as (c & Hr & Hwf & Hrest).
  { by rewrite Cursor.rest_new, app_nil_r. }
  exists w, c, (layout fs). split_and!; [done|by eapply Writer.written_Bytes| |done|].
  - destruct Hw as (-> & _ & _). by apply over_suffix.
  - apply (f_equal len) in Hrest. rewrite Cursor.len_rest in Hrest by done.
    unfold Cursor.Remaining in Hrest. rewrite len_nil in Hrest. unfold Cursor.Done. by zbool.
Qed.

(** A cursor is a view of the unread bytes.  On a well-formed cursor
    [ReadBytes n] never panics: it takes exactly the next [n] unread bytes and
    advances past them, or leaves the cursor as it was and reports
    [ErrLargeField] for a negative [n] and [ErrShortBuffer] for one beyond the
    unread bytes. *)
Theorem ReadBytes_refines n c :
  Cursor.wf c ->
  Cursor.wf (Cursor.ReadBytes n c).2 /\
  ((0 <= n <= len (Cursor.rest c) /\
    (Cursor.ReadBytes n c).1 = Ok (sub 0 n (Cursor.rest c)) /\
    Cursor.rest c = sub 0 n (Cursor.rest c) ++ Cursor.rest (Cursor.ReadBytes n c).2) \/
   (n < 0 /\ Cursor.ReadBytes n c = (Err ErrLargeField, c)) \/
   (len (Cursor.rest c) < n /\ Cursor.ReadBytes n c = (Err ErrShortBuffer, c))).
Proof.
  intros Hw. pose proof (Cursor.len_rest c Hw) as Hr.
  destruct (decide (n < 0)); [rewrite Cursor.ReadBytes_negative by lia; auto 6|].
  destruct (decide (Cursor.Remaining c < n)).
  { rewrite Cursor.ReadBytes_short by lia. split; [done|]. right; right. split; [lia|done]. }
  rewrite Cursor.ReadBytes_ok by (done || lia). cbn [fst snd].
  split; [apply Cursor.wf_advance; done || lia|]. left. split_and!; [lia..|done|].
  rewrite Cursor.rest_advance by (done || lia). symmetry. apply sub_split_at. lia.
Qed.

(** A writer never grows its buffer and never writes a partial field: a
    field that does not fit leaves the writer exactly as it was and returns
    [ErrShortBuffer]. *)
Theorem put_field_atomic f dst out w :
  Writer.written dst out w ->
  (len out + len (encode f) <= len dst /\
   exists w', put_field f w = (Ok tt, w') /\ Writer.written dst (out ++ encode f) w' /\
     len (Writer.buf w') = len dst) \/
  (len dst < len out + len (encode f) /\ put_field f w = (Err ErrShortBuffer, w)).
Proof.
  intros Hw. pose proof (Writer.written_Available dst out w Hw) as Ha.
  destruct (decide (len out + len (encode f) <= len dst)).
  - left. split; [done|]. destruct (put_field_ok f dst out w Hw) as (w' & Hp & Hw'); [lia|].
    exists w'. split_and!; [done|done|]. destruct Hw' as (-> & _ & ?). by apply len_over.
  - right. split; [lia|]. eapply put_field_short; [done|]. lia.
Qed.

(** ** Witnesses *)

Definition sample_fields : list field := [FU8 7; FU16 300; FBytes [1; 2; 3]; FU32 70000; FU64 (2 ^ 40)].

