(* ===== verification/Sha256.v ===== *)
(** SHA-256, the part of Go's [crypto/sha256] that the modelled code calls
    ([sha256.Sum256]): I2NP checksums, tunnel payload checksums and identity
    hashes.  An executable definition following FIPS 180-4, checked against
    two of the standard's vectors. *)

From S2P Require Import Prelude.

Module Sha256.

Definition rotr (x n : Z) : Z := Z.lor (Z.shiftr x n) (u32 (Z.shiftl x (32 - n))).
Definition ch (x y z : Z) : Z := Z.lxor (Z.land x y) (Z.land (2 ^ 32 - 1 - x) z).
Definition maj (x y z : Z) : Z :=
  Z.lxor (Z.lxor (Z.land x y) (Z.land x z)) (Z.land y z).
Definition bsig0 (x : Z) : Z := Z.lxor (Z.lxor (rotr x 2) (rotr x 13)) (rotr x 22).
Definition bsig1 (x : Z) : Z := Z.lxor (Z.lxor (rotr x 6) (rotr x 11)) (rotr x 25).
Definition ssig0 (x : Z) : Z := Z.lxor (Z.lxor (rotr x 7) (rotr x 18)) (Z.shiftr x 3).
Definition ssig1 (x : Z) : Z := Z.lxor (Z.lxor (rotr x 17) (rotr x 19)) (Z.shiftr x 10).

(** The first 64 primes; the round constants and the initial state are the
    leading fractional bits of their cube and square roots. *)
Definition primes : list Z :=
  filter (fun n => Forall (fun d => n mod Z.of_nat d <> 0) (seq 2 (Z.to_nat n - 2)))
    (Z.of_nat <$> seq 2 310).

(** The integer cube root of [n], built bit by bit from bit [k - 1]. *)
Fixpoint cbrt (k : nat) (n r : Z) : Z :=
  match k with
  | O => r
  | S k' => let r' := r + 2 ^ Z.of_nat k' in cbrt k' n (if r' * r' * r' <=? n then r' else r)
  end.

Definition K : list Z :=
  Eval vm_compute in (fun p => u32 (cbrt 36 (p * 2 ^ 96) 0)) <$> primes.

Definition H0 : list Z :=
  Eval vm_compute in (fun p => u32 (Z.sqrt (p * 2 ^ 64))) <$> take 8 primes.

Record digest := Digest { da : Z; db : Z; dc : Z; dd : Z; de : Z; df : Z; dg : Z; dh : Z }.

Definition init : digest :=
  let h i := nth i H0 0 in Digest (h 0%nat) (h 1%nat) (h 2%nat) (h 3%nat) (h 4%nat) (h 5%nat) (h 6%nat) (h 7%nat).

(** The message schedule, newest word first. *)
Fixpoint extend (n : nat) (w : list Z) : list Z :=
  match n with
  | O => w
  | S n' =>
      extend n' (u32 (ssig1 (nth 1 w 0) + nth 6 w 0 + ssig0 (nth 14 w 0) + nth 15 w 0) :: w)
  end.

Fixpoint words (n : nat) (block : bytes) : list Z :=
  match n with
  | O => []
  | S n' => be_val (take 4 block) :: words n' (drop 4 block)
  end.

Definition round (s : digest) (kw : Z * Z) : digest :=
  let t1 := dh s + bsig1 (de s) + ch (de s) (df s) (dg s) + kw.1 + kw.2 in
  let t2 := bsig0 (da s) + maj (da s) (db s) (dc s) in
  Digest (u32 (t1 + t2)) (da s) (db s) (dc s) (u32 (dd s + t1)) (de s) (df s) (dg s).

Definition compress (s : digest) (block : bytes) : digest :=
  let w := rev (extend 48 (rev (words 16 block))) in
  let t := fold_left round (combine K w) s in
  Digest (u32 (da s + da t)) (u32 (db s + db t)) (u32 (dc s + dc t)) (u32 (dd s + dd t))
         (u32 (de s + de t)) (u32 (df s + df t)) (u32 (dg s + dg t)) (u32 (dh s + dh t)).

Definition pad (msg : bytes) : bytes :=
  let n := len msg in
  msg ++ [128] ++ make_bytes ((55 - n) mod 64) ++ be_bytes 8 (8 * n).

Fixpoint run (blocks : nat) (s : digest) (msg : bytes) : digest :=
  match blocks with
  | O => s
  | S n => run n (compress s (take 64 msg)) (drop 64 msg)
  end.

Definition output (s : digest) : bytes :=
  be_bytes 4 (da s) ++ be_bytes 4 (db s) ++ be_bytes 4 (dc s) ++ be_bytes 4 (dd s) ++
  be_bytes 4 (de s) ++ be_bytes 4 (df s) ++ be_bytes 4 (dg s) ++ be_bytes 4 (dh s).

(** [sha256.Sum256] *)
Definition Sum256 (msg : bytes) : bytes :=
  let p := pad msg in output (run (Z.to_nat (len p / 64)) init p).

Lemma len_Sum256 msg : len (Sum256 msg) = 32.
Proof. unfold Sum256, output. len_lia. Qed.

Lemma bytes_ok_Sum256 msg : bytes_ok (Sum256 msg).
Proof.
  unfold Sum256, output. rewrite !bytes_ok_app.
  repeat split; apply bytes_ok_be.
Qed.

Example Sum256_abc : be_val (Sum256 [97; 98; 99]) =
  0xba7816bf8f01cfea414140de5dae2223b00361a396177a9cb410ff61f20015ad.
Proof. vm_compute. reflexivity. Qed.

Example Sum256_empty : be_val (Sum256 []) =
  0xe3b0c44298fc1c149afbf4c8996fb92427ae41e4649b934ca495991b7852b855.
Proof. vm_compute. reflexivity. Qed.

End Sha256.

#[export] Hint Rewrite Sha256.len_Sum256 : go_len.
#[global] Opaque Sha256.Sum256.
