(* ===== verification/I2NP.v ===== *)
(** The I2NP message codec, [src/foundation/internal/i2np/i2np.go]: the
    standard 16-byte frame with its checksum, the transport headers, and the
    payload parsers of every message type.  A [Hash] is a 32-byte list. *)

From S2P Require Import Prelude Sha256.

Definition HashLength : Z := 32.

(** ** Constants *)

Definition StandardHeaderLen : Z := 16.
Definition LegacyShortHeaderLen : Z := 5.
Definition TransportHeaderLen : Z := 9.
Definition MaxWirePayload : Z := 2 ^ 16 - 1.
Definition I2PDMessageBufferBytes : Z := 62708.
Definition I2PDReservedPrefix : Z := 2.
Definition I2PDMaxPayload : Z := I2PDMessageBufferBytes - I2PDReservedPrefix - StandardHeaderLen.
Definition TunnelDataPayloadLen : Z := 1024.
Definition TunnelDataMessageLen : Z := 4 + TunnelDataPayloadLen.
Definition TunnelGatewayHeaderLen : Z := 6.
Definition MaxTunnelGatewayEmbedded : Z := I2PDMaxPayload - TunnelGatewayHeaderLen.
Definition BuildRecordLen : Z := 528.
Definition ShortBuildRecordLen : Z := 218.
Definition FixedBuildRecords : Z := 8.
Definition MaxVariableBuildRecords : Z := 8.
Definition MaxDatabaseLookupExcluded : Z := 512.
Definition MaxDatabaseReplyTags : Z := 32.
Definition MaxDatabaseSearchPeers : Z := 255.
Definition MaxDatabaseLookupPayload : Z := 17512.
Definition MaxDatabaseSearchReplyPayload : Z := 32 + 1 + MaxDatabaseSearchPeers * 32 + 32.

(** [MessageType], a [uint8] with named values. *)
Definition DatabaseStore : Z := 1.
Definition DatabaseLookup : Z := 2.
Definition DatabaseSearchReply : Z := 3.
Definition DeliveryStatus : Z := 10.
Definition Garlic : Z := 11.
Definition TunnelData : Z := 18.
Definition TunnelGateway : Z := 19.
Definition Data : Z := 20.
Definition TunnelBuild : Z := 21.
Definition TunnelBuildReply : Z := 22.
Definition VariableTunnelBuild : Z := 23.
Definition VariableTunnelBuildReply : Z := 24.
Definition ShortTunnelBuild : Z := 25.
Definition OutboundTunnelBuildReply : Z := 26.
Definition TunnelTest : Z := 231.

(** [StoreType] *)
Definition StoreRouterInfo : Z := 0.
Definition StoreLeaseSet : Z := 1.
Definition StoreLeaseSet2 : Z := 3.
Definition StoreEncryptedLeaseSet : Z := 5.
Definition StoreMetaLeaseSet : Z := 7.

(** ** The standard frame *)

Record Header := mkHeader { Type_ : Z; ID : Z; Expiration : Z }.
Record Message := mkMessage { MHeader : Header; Payload : bytes }.

Definition EncodedLen (m : Message) : Z := StandardHeaderLen + len (Payload m).

Definition parseStandard (src : bytes) (payloadLimit : Z) (checksum : bool) : res (Message * Z) :=
  fail_if len src <? StandardHeaderLen with ErrShortBuffer ;;
  let? b := slice src 13 15 in
  let? payloadLen := be_uint 2 b in
  fail_if payloadLen >? payloadLimit with ErrPayloadTooLarge ;;
  fail_if payloadLen >? len src - StandardHeaderLen with ErrShortBuffer ;;
  let? payload := slice src StandardHeaderLen (StandardHeaderLen + payloadLen) in
  let? sum := (if checksum then
                 let? s := index (Sha256.Sum256 payload) 0 in
                 let? c := index src 15 in Ok (negb (s =? c))
               else Ok false) in
  fail_if sum with ErrChecksum ;;
  let? t := index src 0 in
  let? b := slice src 1 5 in
  let? id := be_uint 4 b in
  let? b := slice src 5 13 in
  let? expiration := be_uint 8 b in
  Ok (mkMessage (mkHeader t id expiration) payload, StandardHeaderLen + payloadLen).

Definition Parse (src : bytes) : res (Message * Z) := parseStandard src I2PDMaxPayload true.
Definition ParseWire (src : bytes) : res (Message * Z) := parseStandard src MaxWirePayload true.
Definition ParseUnchecked (src : bytes) : res (Message * Z) := parseStandard src I2PDMaxPayload false.

(** Returns [dst] after the writes, and the count. *)
Definition marshalStandard (dst : bytes) (header : Header) (payload : bytes) (payloadLimit : Z)
  : res (bytes * Z) :=
  fail_if len payload >? payloadLimit with ErrPayloadTooLarge ;;
  fail_if len dst <? StandardHeaderLen + len payload with ErrShortBuffer ;;
  let? dst := write dst 0 [Type_ header] in
  let? dst := write dst 1 (be_bytes 4 (ID header)) in
  let? dst := write dst 5 (be_bytes 8 (Expiration header)) in
  let? dst := write dst 13 (be_bytes 2 (u16 (len payload))) in
  let? s := index (Sha256.Sum256 payload) 0 in
  let? dst := write dst 15 [s] in
  let? dst := copy_at dst StandardHeaderLen payload in
  Ok (dst, StandardHeaderLen + len payload).

Definition MarshalTo (m : Message) (dst : bytes) : res (bytes * Z) :=
  marshalStandard dst (MHeader m) (Payload m) I2PDMaxPayload.
Definition MarshalWireTo (m : Message) (dst : bytes) : res (bytes * Z) :=
  marshalStandard dst (MHeader m) (Payload m) MaxWirePayload.

(** ** Transport headers *)

Definition EncodeTransportExpiration (milliseconds : Z) : Z * bool :=
  let max := 2 ^ 32 - 1 in
  if milliseconds >? max * 1000 + 499 then (0, false)
  else (u32 (u64 (milliseconds + 500) / 1000), true).

Definition DecodeTransportExpiration (seconds : Z) : Z := u64 (u64 (seconds * 1000) + 500).

Record ShortHeader := mkShortHeader { SHType : Z; SHExpiration : Z }.

Definition ParseLegacyShortHeader (src : bytes) : res ShortHeader :=
  fail_if len src <? LegacyShortHeaderLen with ErrShortBuffer ;;
  let? t := index src 0 in
  let? b := slice src 1 5 in
  let? s := be_uint 4 b in
  Ok (mkShortHeader t (DecodeTransportExpiration s)).

Record TransportHeader := mkTransportHeader { THType : Z; THID : Z; THExpiration : Z }.

Definition ParseTransportHeader (src : bytes) : res TransportHeader :=
  fail_if len src <? TransportHeaderLen with ErrShortBuffer ;;
  let? t := index src 0 in
  let? b := slice src 1 5 in
  let? id := be_uint 4 b in
  let? b := slice src 5 9 in
  let? s := be_uint 4 b in
  Ok (mkTransportHeader t id (DecodeTransportExpiration s)).

(** ** DatabaseStore *)

Record DatabaseStoreMessage := mkDatabaseStoreMessage {
  DSKey : bytes; DSType : Z; DSRawType : Z; DSReplyToken : Z;
  DSReplyTunnelID : Z; DSReplyGateway : bytes; DSData : bytes }.

Definition validStoreType (t : Z) : bool :=
  (t =? StoreRouterInfo) || (t =? StoreLeaseSet) || (t =? StoreLeaseSet2) ||
  (t =? StoreEncryptedLeaseSet) || (t =? StoreMetaLeaseSet).

Definition ParseDatabaseStore (payload : bytes) : res DatabaseStoreMessage :=
  fail_if len payload >? I2PDMaxPayload with ErrPayloadTooLarge ;;
  fail_if len payload <? 37 with ErrShortBuffer ;;
  let? key := slice payload 0 32 in
  fail_if bytes_eqb key (make_bytes 32) with I2NP_ErrMalformed ;;
  let? rawType := index payload 32 in
  let type := Z.land rawType 0x0f in
  fail_if negb (validStoreType type) with ErrUnknownStoreType ;;
  let? b := slice payload 33 37 in
  let? token := be_uint 4 b in
  let off := 37 in
  let? (tunnelID, gateway, off) :=
    (if negb (token =? 0) then
       fail_if len payload - off <? 36 with ErrShortBuffer ;;
       let? b := slice payload off (off + 4) in
       let? id := be_uint 4 b in
       let? gw := slice payload (off + 4) (off + 36) in
       Ok (id, gw, off + 36)
     else Ok (0, make_bytes 32, off)) in
  let? off :=
    (if type =? StoreRouterInfo then
       fail_if len payload - off <? 2 with ErrShortBuffer ;;
       let? b := slice payload off (off + 2) in
       let? size := be_uint 2 b in
       let off := off + 2 in
       fail_if negb (size =? len payload - off) with I2NP_ErrMalformed ;;
       Ok off
     else Ok off) in
  fail_if off =? len payload with I2NP_ErrMalformed ;;
  let? data := slice_from payload off in
  Ok (mkDatabaseStoreMessage key type rawType token tunnelID gateway data).

(** ** DatabaseLookup *)

Definition lookupDelivery : Z := 1.
Definition lookupEncrypted : Z := 2.
Definition lookupTypeMask : Z := 0x0c.
Definition lookupECIES : Z := 16.

(** [nil] slices are empty lists: the parser's callers only look at their length. *)
Record DatabaseLookupMessage := mkDatabaseLookupMessage {
  DLKey : bytes; DLFrom : bytes; DLFlags : Z; DLReplyTunnelID : Z; DLExcluded : bytes;
  DLReplyKey : bytes; DLReplyTags : bytes; DLReplyTagLen : Z; DLReplyPublicKey : bytes }.

Definition ExcludedCount (m : DatabaseLookupMessage) : Z := len (DLExcluded m) / HashLength.
Definition ReplyTagCount (m : DatabaseLookupMessage) : Z :=
  if DLReplyTagLen m =? 0 then 0 else len (DLReplyTags m) / DLReplyTagLen m.
Definition ReplyThroughTunnel (flags : Z) : bool := negb (Z.land flags lookupDelivery =? 0).
Definition ReplyEncryptionMode (flags : Z) : Z := Z.land flags (Z.lor lookupEncrypted lookupECIES).
Definition ReplyEncrypted (flags : Z) : bool := negb (ReplyEncryptionMode flags =? 0).
Definition ReplyUsesECIES (flags : Z) : bool := ReplyEncryptionMode flags =? lookupECIES.
Definition ReplyUsesECIESPublicKey (flags : Z) : bool :=
  ReplyEncryptionMode flags =? Z.lor lookupEncrypted lookupECIES.
Definition LookupType (flags : Z) : Z := Z.shiftr (Z.land flags lookupTypeMask) 2.

Definition ParseDatabaseLookup (payload : bytes) : res DatabaseLookupMessage :=
  fail_if (len payload >? MaxDatabaseLookupPayload) || (len payload >? I2PDMaxPayload)
    with ErrPayloadTooLarge ;;
  fail_if len payload <? 67 with ErrShortBuffer ;;
  let? key := slice payload 0 32 in
  let? from := slice payload 32 64 in
  let? flags := index payload 64 in
  let off := 65 in
  let? (tunnelID, off) :=
    (if negb (Z.land flags lookupDelivery =? 0) then
       fail_if len payload - off <? 4 with ErrShortBuffer ;;
       let? b := slice payload off (off + 4) in
       let? id := be_uint 4 b in
       fail_if id =? 0 with ErrInvalidTunnelID ;;
       Ok (id, off + 4)
     else Ok (0, off)) in
  fail_if len payload - off <? 2 with ErrShortBuffer ;;
  let? b := slice payload off (off + 2) in
  let? excludedCount := be_uint 2 b in
  fail_if excludedCount >? MaxDatabaseLookupExcluded with ErrPayloadTooLarge ;;
  let off := off + 2 in
  let excludedLen := excludedCount * HashLength in
  fail_if excludedLen >? len payload - off with ErrShortBuffer ;;
  let? excluded := slice payload off (off + excludedLen) in
  let off := off + excludedLen in
  if Z.land flags (Z.lor lookupEncrypted lookupECIES) =? 0 then
    fail_if negb (off =? len payload) with I2NP_ErrMalformed ;;
    Ok (mkDatabaseLookupMessage key from flags tunnelID excluded [] [] 0 [])
  else if ReplyUsesECIESPublicKey flags then
    fail_if len payload - off <? 32 with ErrShortBuffer ;;
    fail_if negb (len payload - off =? 32) with I2NP_ErrMalformed ;;
    let? pub := slice_from payload off in
    Ok (mkDatabaseLookupMessage key from flags tunnelID excluded [] [] 0 pub)
  else
    fail_if len payload - off <? 33 with ErrShortBuffer ;;
    let? replyKey := slice payload off (off + 32) in
    let off := off + 32 in
    let? tags := index payload off in
    let off := off + 1 in
    let? tagLen :=
      (if negb (Z.land flags lookupECIES =? 0) then
         fail_if negb (tags =? 1) with I2NP_ErrMalformed ;; Ok 8
       else
         fail_if (tags =? 0) || (tags >? MaxDatabaseReplyTags) with I2NP_ErrMalformed ;; Ok 32) in
    let tagsLen := tags * tagLen in
    fail_if tagsLen >? len payload - off with ErrShortBuffer ;;
    fail_if negb (tagsLen =? len payload - off) with I2NP_ErrMalformed ;;
    let? replyTags := slice payload off (off + tagsLen) in
    Ok (mkDatabaseLookupMessage key from flags tunnelID excluded replyKey replyTags (u8 tagLen) []).

(** ** The other payloads *)

Record DatabaseSearchReplyMessage := mkDatabaseSearchReplyMessage {
  DSRKey : bytes; DSRPeers : bytes; DSRFrom : bytes }.

Definition PeerCount (m : DatabaseSearchReplyMessage) : Z := len (DSRPeers m) / HashLength.

Definition ParseDatabaseSearchReply (payload : bytes) : res DatabaseSearchReplyMessage :=
  fail_if len payload >? MaxDatabaseSearchReplyPayload with ErrPayloadTooLarge ;;
  fail_if len payload <? 65 with ErrShortBuffer ;;
  let? count := index payload 32 in
  let expected := 32 + 1 + count * HashLength + 32 in
  fail_if negb (len payload =? expected) with I2NP_ErrMalformed ;;
  let? key := slice payload 0 32 in
  let? peers := slice payload 33 (33 + count * HashLength) in
  let? from := slice_from payload (len payload - 32) in
  Ok (mkDatabaseSearchReplyMessage key peers from).

Record DeliveryStatusMessage := mkDeliveryStatusMessage { DStatMessageID : Z; DStatTimestamp : Z }.

Definition ParseDeliveryStatus (payload : bytes) : res DeliveryStatusMessage :=
  fail_if negb (len payload =? 12) with I2NP_ErrMalformed ;;
  let? b := slice payload 0 4 in
  let? id := be_uint 4 b in
  let? b := slice payload 4 12 in
  let? ts := be_uint 8 b in
  Ok (mkDeliveryStatusMessage id ts).

Definition ParseTunnelTest (payload : bytes) : res DeliveryStatusMessage := ParseDeliveryStatus payload.

Definition ParseGarlic (payload : bytes) : res bytes :=
  fail_if len payload <? 4 with ErrShortBuffer ;;
  let? b := slice payload 0 4 in
  let? n := be_uint 4 b in
  fail_if n >? I2PDMaxPayload - 4 with ErrPayloadTooLarge ;;
  fail_if negb (n =? len payload - 4) with I2NP_ErrMalformed ;;
  slice_from payload 4.

Record TunnelDataMessage := mkTunnelDataMessage { TDTunnelID : Z; TDData : bytes }.

Definition ParseTunnelData (payload : bytes) : res TunnelDataMessage :=
  fail_if negb (len payload =? TunnelDataMessageLen) with I2NP_ErrMalformed ;;
  let? b := slice payload 0 4 in
  let? id := be_uint 4 b in
  fail_if id =? 0 with ErrInvalidTunnelID ;;
  let? data := slice_from payload 4 in
  Ok (mkTunnelDataMessage id data).

Record TunnelGatewayMessage := mkTunnelGatewayMessage { TGTunnelID : Z; TGEmbedded : Message }.

Definition ParseTunnelGateway (payload : bytes) : res TunnelGatewayMessage :=
  fail_if len payload <? TunnelGatewayHeaderLen with ErrShortBuffer ;;
  let? b := slice payload 0 4 in
  let? id := be_uint 4 b in
  fail_if id =? 0 with ErrInvalidTunnelID ;;
  let? b := slice payload 4 6 in
  let? n := be_uint 2 b in
  fail_if n >? MaxTunnelGatewayEmbedded with ErrPayloadTooLarge ;;
  fail_if negb (n =? len payload - TunnelGatewayHeaderLen) with I2NP_ErrMalformed ;;
  let? rest := slice_from payload TunnelGatewayHeaderLen in
  let? (embedded, used) := ParseUnchecked rest in
  fail_if negb (used =? n) with I2NP_ErrMalformed ;;
  Ok (mkTunnelGatewayMessage id embedded).

Definition ParseData (payload : bytes) : res bytes :=
  fail_if len payload <? 4 with ErrShortBuffer ;;
  let? b := slice payload 0 4 in
  let? n := be_uint 4 b in
  fail_if n >? I2PDMaxPayload - 4 with ErrPayloadTooLarge ;;
  fail_if negb (n =? len payload - 4) with I2NP_ErrMalformed ;;
  slice_from payload 4.

Record BuildRecords := mkBuildRecords { BRCount : Z; BRRecordLen : Z; BRRecords : bytes }.

Definition ParseBuildRecords (kind : Z) (payload : bytes) : res BuildRecords :=
  let? (count, recordLen, prefix) :=
    (if (kind =? TunnelBuild) || (kind =? TunnelBuildReply) then
       Ok (FixedBuildRecords, BuildRecordLen, 0)
     else if (kind =? VariableTunnelBuild) || (kind =? VariableTunnelBuildReply) then
       fail_if len payload =? 0 with ErrShortBuffer ;;
       let? c := index payload 0 in Ok (c, BuildRecordLen, 1)
     else if (kind =? ShortTunnelBuild) || (kind =? OutboundTunnelBuildReply) then
       fail_if len payload =? 0 with ErrShortBuffer ;;
       let? c := index payload 0 in Ok (c, ShortBuildRecordLen, 1)
     else Err I2NP_ErrMalformed) in
  fail_if (count <? 1) || (count >? MaxVariableBuildRecords) with I2NP_ErrMalformed ;;
  let expected := prefix + count * recordLen in
  fail_if negb (len payload =? expected) with I2NP_ErrMalformed ;;
  let? records := slice_from payload prefix in
  Ok (mkBuildRecords (u8 count) (u16 recordLen) records).

(** The error a validation returns, [Ok tt] for [nil]. *)
Definition ValidatePayload (kind : Z) (payload : bytes) : res unit :=
  let check {A} (m : res A) := let? _ := m in Ok tt in
  if kind =? DatabaseStore then check (ParseDatabaseStore payload)
  else if kind =? DatabaseLookup then check (ParseDatabaseLookup payload)
  else if kind =? DatabaseSearchReply then check (ParseDatabaseSearchReply payload)
  else if kind =? DeliveryStatus then check (ParseDeliveryStatus payload)
  else if kind =? Garlic then check (ParseGarlic payload)
  else if kind =? TunnelData then check (ParseTunnelData payload)
  else if kind =? TunnelGateway then check (ParseTunnelGateway payload)
  else if kind =? Data then check (ParseData payload)
  else if (kind =? TunnelBuild) || (kind =? TunnelBuildReply) || (kind =? VariableTunnelBuild) ||
          (kind =? VariableTunnelBuildReply) || (kind =? ShortTunnelBuild) ||
          (kind =? OutboundTunnelBuildReply) then check (ParseBuildRecords kind payload)
  else if kind =? TunnelTest then check (ParseTunnelTest payload)
  else Err I2NP_ErrMalformed.

(** ** The wire form of a standard frame *)

Definition frame (h : Header) (payload : bytes) : bytes :=
  [Type_ h] ++ be_bytes 4 (ID h) ++ be_bytes 8 (Expiration h) ++
  be_bytes 2 (len payload) ++ sub 0 1 (Sha256.Sum256 payload) ++ payload.

Definition header_ok (h : Header) : Prop :=
  is_byte (Type_ h) /\ 0 <= ID h < 2 ^ 32 /\ 0 <= Expiration h < 2 ^ 64.

Lemma len_frame h p : len (frame h p) = 16 + len p.
Proof. unfold frame. len_lia. Qed.
#[export] Hint Rewrite len_frame : go_len.

Lemma marshalStandard_frame dst h p limit :
  len p <= limit -> limit <= MaxWirePayload -> 16 + len p <= len dst ->
  marshalStandard dst h p limit = Ok (over (frame h p) dst, 16 + len p).
Proof.
  unfold marshalStandard, StandardHeaderLen, MaxWirePayload. intros. zbool.
  go_index.
  write_run dst. unfold frame, u16.
   rewrite Z.mod_small by len_lia. rewrite (index_one _ 0 1 x Hx) by len_lia.
  rewrite <- !app_assoc. done.
Qed.

Lemma parseStandard_frame h p rest limit c :
  header_ok h -> len p <= limit -> limit <= MaxWirePayload -> 
  parseStandard (frame h p ++ rest) limit c = Ok (mkMessage h p, 16 + len p).
Proof.
  unfold parseStandard, StandardHeaderLen, MaxWirePayload, header_ok. intros (Ht&Hi&He) ??. 
  unfold frame. rewrite <- !app_assoc. 
  destruct (index_ok (Sha256.Sum256 p) 0) as (s & Hs & _); [len_lia|].
  rewrite (index_one _ 0 1 s Hs) by len_lia.
  destruct c; go_eval; rewrite ?Hs; go_eval; by destruct h. 
Qed.


Lemma parseStandard_inv src limit m n :
  bytes_ok src -> parseStandard src limit true = Ok (m, n) ->
  header_ok (MHeader m) /\ len (Payload m) <= limit /\ len (Payload m) <= MaxWirePayload /\
  n = 16 + len (Payload m) /\ n <= len src /\ sub 0 n src = frame (MHeader m) (Payload m).
Proof.
  intros Hok. unfold parseStandard, StandardHeaderLen, MaxWirePayload.
  go_run; intros; simplify_eq. unfold header_ok, is_byte, frame. cbn [MHeader Payload Type_ ID Expiration].
  pose proof (be_val_sub_lt src 13 15 Hok ltac:(lia)).
  pose proof (be_val_sub_lt src 1 5 Hok ltac:(lia)).
  pose proof (be_val_sub_lt src 5 13 Hok ltac:(lia)).
  len_simpl. split_and!; try lia.
  rewrite (index_one _ 0 1 _ Hx1) by lia. replace x1 with x by lia.
  rewrite <- (index_one _ 0 1 _ Hx0), <- (index_one _ 15 16 _ Hx) by lia.
  replace (16 + be_val (sub 13 15 src) - 16) with (be_val (sub 13 15 src)) by lia.
  sub_join. done.
Qed.

(** ** Wire form of DatabaseLookup *)

Definition lookup_tunnel (m : DatabaseLookupMessage) : bytes :=
  if ReplyThroughTunnel (DLFlags m) then be_bytes 4 (DLReplyTunnelID m) else [].

Definition lookup_reply (m : DatabaseLookupMessage) : bytes :=
  if negb (ReplyEncrypted (DLFlags m)) then []
  else if ReplyUsesECIESPublicKey (DLFlags m) then DLReplyPublicKey m
  else DLReplyKey m ++ [ReplyTagCount m] ++ DLReplyTags m.

Definition lookup_wire (m : DatabaseLookupMessage) : bytes :=
  DLKey m ++ DLFrom m ++ [DLFlags m] ++ lookup_tunnel m ++
  be_bytes 2 (ExcludedCount m) ++ DLExcluded m ++ lookup_reply m.

(** What the fields of a parsed lookup satisfy. *)
Definition lookup_ok (m : DatabaseLookupMessage) : Prop :=
  len (DLKey m) = 32 /\ len (DLFrom m) = 32 /\
  (if ReplyThroughTunnel (DLFlags m) then 0 < DLReplyTunnelID m < 2 ^ 32
   else DLReplyTunnelID m = 0) /\
  len (DLExcluded m) mod 32 = 0 /\ len (DLExcluded m) <= 512 * 32 /\
  (if negb (ReplyEncrypted (DLFlags m)) then
     DLReplyKey m = [] /\ DLReplyTags m = [] /\ DLReplyTagLen m = 0 /\ DLReplyPublicKey m = []
   else if ReplyUsesECIESPublicKey (DLFlags m) then
     DLReplyKey m = [] /\ DLReplyTags m = [] /\ DLReplyTagLen m = 0 /\ len (DLReplyPublicKey m) = 32
   else len (DLReplyKey m) = 32 /\ DLReplyPublicKey m = [] /\
     if ReplyUsesECIES (DLFlags m) then DLReplyTagLen m = 8 /\ len (DLReplyTags m) = 8
     else DLReplyTagLen m = 32 /\ len (DLReplyTags m) mod 32 = 0 /\
          32 <= len (DLReplyTags m) <= 32 * 32).

Lemma ECIES_flag flags :
  is_byte flags -> ReplyEncrypted flags = true -> ReplyUsesECIESPublicKey flags = false ->
  negb (Z.land flags lookupECIES =? 0) = ReplyUsesECIES flags.
Proof.
  unfold ReplyUsesECIES, ReplyUsesECIESPublicKey, ReplyEncrypted, ReplyEncryptionMode, is_byte.
  intros Hf He Hp.
  assert (forall z, 0 <= z < Z.of_nat 256 ->
    implb (negb (Z.land z (Z.lor lookupEncrypted lookupECIES) =? 0))
      (implb (negb (Z.land z (Z.lor lookupEncrypted lookupECIES) =? Z.lor lookupEncrypted lookupECIES))
       (Bool.eqb (negb (Z.land z lookupECIES =? 0))
        (Z.land z (Z.lor lookupEncrypted lookupECIES) =? lookupECIES))) = true) as H
    by (apply exhaust; vm_compute; reflexivity).
  specialize (H flags Hf). rewrite He, Hp in H. cbn in H. by apply Bool.eqb_prop in H.
Qed.

Lemma lookup_sound p m :
  bytes_ok p -> ParseDatabaseLookup p = Ok m -> lookup_ok m /\ p = lookup_wire m.
Proof.
  intros Hok. unfold ParseDatabaseLookup, HashLength, MaxDatabaseLookupPayload, MaxDatabaseLookupExcluded, MaxDatabaseReplyTags.
  go_run; intros; simplify_eq.
  all: pose proof (be_val_sub_lt p 65 (65 + 4) Hok ltac:(lia)).
  all: unfold lookup_ok, lookup_wire, lookup_tunnel, lookup_reply, ExcludedCount, ReplyTagCount;
    cbn [DLKey DLFrom DLFlags DLReplyTunnelID DLExcluded DLReplyKey DLReplyTags DLReplyTagLen DLReplyPublicKey];
    change (ReplyThroughTunnel x) with (negb (Z.land x lookupDelivery =? 0));
    change (ReplyEncrypted x) with (negb (Z.land x (Z.lor lookupEncrypted lookupECIES) =? 0)).
  all: try (rewrite <- ECIES_flag by (assumption || (unfold ReplyEncrypted, ReplyEncryptionMode; use_bools; done))).
  all: use_bools; len_simpl; unfold HashLength.
  all: change (u8 8) with 8; change (u8 32) with 32; cbn [Z.eqb Pos.eqb].
  all: rewrite ?Z.add_simpl_l, ?Z.div_mul, ?Z.mod_mul by lia.
  all: split; [split_and!; try done; lia|].
  all: rewrite ?app_nil_r, ?app_nil_l.
  all: index_join; sub_join.
  all: symmetry; apply sub_all; lia.
Qed.

Lemma lookup_complete m :
  is_byte (DLFlags m) -> lookup_ok m -> ParseDatabaseLookup (lookup_wire m) = Ok m.
Proof.
  intros Hf (Hk & Hfr & Htun & Hex & Hexl & Hreply).
  destruct m as [key from flags tid ex rk tags tl pk].
  cbn [DLKey DLFrom DLFlags DLReplyTunnelID DLExcluded DLReplyKey DLReplyTags DLReplyTagLen DLReplyPublicKey] in *.
  pose proof (Z.div_mod (len ex) 32 ltac:(lia)) as Hdiv. rewrite Hex in Hdiv.
  unfold ParseDatabaseLookup, lookup_wire, lookup_tunnel, lookup_reply, ExcludedCount, ReplyTagCount,
    MaxDatabaseLookupPayload, I2PDMaxPayload, I2PDMessageBufferBytes, I2PDReservedPrefix, StandardHeaderLen,
    HashLength, MaxDatabaseReplyTags, MaxDatabaseLookupExcluded in *.
  cbn [DLKey DLFrom DLFlags DLReplyTunnelID DLExcluded DLReplyKey DLReplyTags DLReplyTagLen DLReplyPublicKey] in *.
  change (ReplyThroughTunnel flags) with (negb (Z.land flags lookupDelivery =? 0)) in *.
  pose proof (ECIES_flag flags Hf) as HE.
  change (ReplyEncrypted flags) with (negb (Z.land flags (Z.lor lookupEncrypted lookupECIES) =? 0)) in *.
  set (k := len ex / 32) in *.
  destruct (negb (Z.land flags lookupDelivery =? 0)) eqn:Et;
  (destruct (Z.land flags (Z.lor lookupEncrypted lookupECIES) =? 0) eqn:Ee; cbn [negb] in *;
   [ destruct Hreply as (-> & -> & -> & ->); subst; go_eval; done
   | destruct (ReplyUsesECIESPublicKey flags) eqn:Ep;
     [ destruct Hreply as (-> & -> & -> & Hpk); subst; go_eval; use_bools; done
     | specialize (HE eq_refl eq_refl); destruct Hreply as (Hrk & -> & Hreply);
       destruct (ReplyUsesECIES flags); destruct Hreply as (-> & Hreply); subst;
       [ rewrite Hreply; change (8 / 8) with 1 | destruct Hreply as (Hm & Ht);
         pose proof (Z.div_mod (len tags) 32 ltac:(lia)) as Hd; rewrite Hm in Hd;
         set (j := len tags / 32) in * ];
       cbn [Z.eqb Pos.eqb]; go_eval; use_bools; rewrite ?HE; go_eval; done ]]).
Qed.

(** ** Wire form of DatabaseStore *)

Definition store_reply (m : DatabaseStoreMessage) : bytes :=
  if negb (DSReplyToken m =? 0) then be_bytes 4 (DSReplyTunnelID m) ++ DSReplyGateway m else [].

Definition store_size (m : DatabaseStoreMessage) : bytes :=
  if DSType m =? StoreRouterInfo then be_bytes 2 (len (DSData m)) else [].

Definition store_wire (m : DatabaseStoreMessage) : bytes :=
  DSKey m ++ [DSRawType m] ++ be_bytes 4 (DSReplyToken m) ++ store_reply m ++
  store_size m ++ DSData m.

Definition store_ok (m : DatabaseStoreMessage) : Prop :=
  len (DSKey m) = 32 /\ DSKey m <> make_bytes 32 /\
  DSType m = Z.land (DSRawType m) 0x0f /\ validStoreType (DSType m) = true /\
  0 <= DSReplyToken m < 2 ^ 32 /\
  (if negb (DSReplyToken m =? 0) then 0 <= DSReplyTunnelID m < 2 ^ 32 /\ len (DSReplyGateway m) = 32
   else DSReplyTunnelID m = 0 /\ DSReplyGateway m = make_bytes 32) /\
  0 < len (DSData m) /\ len (store_wire m) <= I2PDMaxPayload.

Lemma store_sound p m :
  bytes_ok p -> ParseDatabaseStore p = Ok m -> store_ok m /\ p = store_wire m.
Proof.
  intros Hok Hp.
  cut (p = store_wire m /\ store_ok m); [tauto|]. revert Hp.
  unfold ParseDatabaseStore.
  go_run; intros; simplify_eq.
  all: pose proof (be_val_sub_lt p 33 37 Hok ltac:(lia)).
  all: pose proof (be_val_sub_lt p 37 (37 + 4) Hok ltac:(lia)).
  all: unfold store_ok, bytes_eqb in *; 
    rewrite bool_decide_eq_false in *.
  all: match goal with |- ?P /\ _ => assert P as Hp end;
    [ unfold store_wire, store_reply, store_size; 
      cbn [DSKey DSType DSRawType DSReplyToken DSReplyTunnelID DSReplyGateway DSData]; use_bools;
      try match goal with H : negb (?v =? ?e) = false |- context [be_bytes 2 ?e'] => 
        replace e' with v by len_lia end; rewrite ?app_nil_l, <- ?app_assoc;
      index_join; sub_join; symmetry; apply sub_all; lia 
    | split; [done|]; rewrite <- Hp; clear Hp ].
  all: cbn [DSKey DSType DSRawType DSReplyToken DSReplyTunnelID DSReplyGateway DSData]; use_bools;
    len_simpl; rewrite negb_false_iff in *; split_and!; try done; lia.
Qed.

Lemma store_complete m : store_ok m -> ParseDatabaseStore (store_wire m) = Ok m.
Proof.
  intros (Hk & Hz & Ht & Hv & Htok & Hr & Hd & Hl).
  destruct m as [key ty raw tok tid gw data].
  unfold store_wire, store_reply, store_size, ParseDatabaseStore, I2PDMaxPayload, I2PDMessageBufferBytes, I2PDReservedPrefix, StandardHeaderLen, bytes_eqb in *.
  cbn [DSKey DSType DSRawType DSReplyToken DSReplyTunnelID DSReplyGateway DSData] in *. subst ty.
  pose proof (bool_decide_eq_false_2 _ Hz) as Hz'.
  destruct (negb (tok =? 0)) eqn:Etok; destruct Hr as [Htid Hgw]; subst;
    destruct (Z.land raw 15 =? StoreRouterInfo) eqn:Eri; len_simpl_in Hl;
    go_eval; rewrite ?Hz'; cbn [negb]; use_bools; rewrite ?Hv; go_eval; use_bools; go_eval; done.
Qed.

(** ** No parser panics *)

Lemma parseStandard_safe src limit c : bytes_ok src -> safe (parseStandard src limit c).
Proof. intros. unfold parseStandard, StandardHeaderLen. go_safe. Qed.

Lemma ParseDatabaseStore_safe p : bytes_ok p -> safe (ParseDatabaseStore p).
Proof. intros. unfold ParseDatabaseStore. go_safe. Qed.

Lemma ParseDatabaseLookup_safe p : bytes_ok p -> safe (ParseDatabaseLookup p).
Proof. intros. unfold ParseDatabaseLookup, HashLength. go_safe. Qed.

Lemma ParseDatabaseSearchReply_safe p : bytes_ok p -> safe (ParseDatabaseSearchReply p).
Proof. intros. unfold ParseDatabaseSearchReply, HashLength. go_safe. Qed.

Lemma ParseDeliveryStatus_safe p : bytes_ok p -> safe (ParseDeliveryStatus p).
Proof. intros. unfold ParseDeliveryStatus. go_safe. Qed.

Lemma ParseGarlic_safe p : bytes_ok p -> safe (ParseGarlic p).
Proof. intros. unfold ParseGarlic. go_safe. Qed.

Lemma ParseData_safe p : bytes_ok p -> safe (ParseData p).
Proof. intros. unfold ParseData. go_safe. Qed.

Lemma ParseTunnelData_safe p : bytes_ok p -> safe (ParseTunnelData p).
Proof. intros. unfold ParseTunnelData, TunnelDataMessageLen, TunnelDataPayloadLen. go_safe. Qed.

Lemma ParseTunnelGateway_safe p : bytes_ok p -> safe (ParseTunnelGateway p).
Proof.
  intros. unfold ParseTunnelGateway, TunnelGatewayHeaderLen. go_safe.
  pose proof (parseStandard_safe (sub 6 (len p) p) I2PDMaxPayload false
    (bytes_ok_sub p 6 (len p) H)) as Hs.
  unfold ParseUnchecked. destruct (parseStandard _ _ _) as [[m n]| |]; [|done|done].
  go_safe.
Qed.

Lemma ParseBuildRecords_safe kind p : bytes_ok p -> safe (ParseBuildRecords kind p).
Proof.
  intros. unfold ParseBuildRecords, FixedBuildRecords, BuildRecordLen, ShortBuildRecordLen. go_safe.
Qed.

#[export] Hint Resolve parseStandard_safe ParseDatabaseStore_safe ParseDatabaseLookup_safe
  ParseDatabaseSearchReply_safe ParseDeliveryStatus_safe ParseGarlic_safe ParseData_safe
  ParseTunnelData_safe ParseTunnelGateway_safe ParseBuildRecords_safe : go_safe.

(** ** Properties *)

(** C35: A standard frame round-trips.  For a header whose fields fit their
    wire widths, a payload within the limit and a large enough buffer,
    [marshalStandard] returns the frame length, writes only that prefix of the
    buffer, and [parseStandard] with checksum verification reads back exactly
    the header and payload, whatever bytes follow the frame. *)
Theorem standard_roundtrip dst h p limit :
  header_ok h -> len p <= limit -> limit <= MaxWirePayload -> 16 + len p <= len dst ->
  exists dst',
    marshalStandard dst h p limit = Ok (dst', 16 + len p) /\ len dst' = len dst /\
    sub (16 + len p) (len dst) dst' = sub (16 + len p) (len dst) dst /\
    parseStandard dst' limit true = Ok (mkMessage h p, 16 + len p).
Proof.
  intros. exists (over (frame h p) dst). rewrite marshalStandard_frame by done.
  rewrite len_over, over_suffix by len_lia. unfold over. by rewrite parseStandard_frame.
Qed.

(** The checked frame format is canonical.  Any prefix that
    [parseStandard] accepts with checksum verification is reproduced byte for
    byte by marshalling the parsed message, so a message has one encoding. *)
Theorem standard_canonical src limit m n :
  bytes_ok src -> limit <= MaxWirePayload -> parseStandard src limit true = Ok (m, n) ->
  0 <= n <= len src /\
  forall dst, len dst = n -> marshalStandard dst (MHeader m) (Payload m) limit = Ok (sub 0 n src, n).
Proof.
  intros Hok Hlim Hp. destruct (parseStandard_inv _ _ _ _ Hok Hp) as (_ & Hl & _ & Hn & Hle & Hf).
  split; [len_lia|]. intros dst Hd. rewrite marshalStandard_frame by lia. subst n.
  unfold over. rewrite Hf, len_frame, sub_empty by lia. by rewrite app_nil_r.
Qed.

(** [ParseDatabaseLookup] accepts exactly the well-formed lookups: a
    payload parses to [m] if and only if it is the wire form of [m] and [m]'s
    fields satisfy the protocol's bounds (at most 512 exclusions, a non-zero
    reply tunnel when one is announced, exactly the reply key material the
    flags select, nothing trailing). *)
Theorem DatabaseLookup_exact p m :
  bytes_ok p ->
  ParseDatabaseLookup p = Ok m <-> is_byte (DLFlags m) /\ lookup_ok m /\ p = lookup_wire m.
Proof.
  intros Hok. split.
  - intros Hp. destruct (lookup_sound p m Hok Hp) as [? ->]. split; [|done].
    unfold lookup_wire in Hok. rewrite !bytes_ok_app in Hok.
    destruct Hok as (_ & _ & Hf & _). by inversion Hf.
  - intros (? & ? & ->). by apply lookup_complete.
Qed.

(** [ParseDatabaseStore] accepts exactly the well-formed stores: a
    payload parses to [m] if and only if it is the wire form of [m] and [m]
    has a non-zero key, a known store type, non-empty data, the reply fields
    its token announces, and fits an I2NP message. *)
Theorem DatabaseStore_exact p m :
  bytes_ok p -> ParseDatabaseStore p = Ok m <-> store_ok m /\ p = store_wire m.
Proof.
  intros Hok. split; [by apply store_sound|]. intros [? ->]. by apply store_complete.
Qed.

(** C36: Validating any payload under any message type returns: no index or
    slice expression of the payload parsers is ever out of range. *)
Theorem ValidatePayload_safe kind p : bytes_ok p -> safe (ValidatePayload kind p).
Proof.
  intros H. unfold ValidatePayload, ParseTunnelTest.
  assert (forall A (m : res A), safe m -> safe (let? _ := m in Ok tt)) as Hc
    by (intros A []; unfold safe; cbn; congruence).
  repeat (go_if; [apply Hc; auto with go_safe|]). done.
Qed.

(** The transport expiration codec.  Every timestamp of at most
    [(2^32-1) s + 499 ms] encodes, the decoded deadline is strictly later than
    the original and at most one second later, and encoding a decoded value
    again gives the next second, so each transport hop that re-encodes a
    message extends its deadline by one second. *)
Theorem TransportExpiration_bounds ms s :
  0 <= ms -> EncodeTransportExpiration ms = (s, true) ->
  0 <= s < 2 ^ 32 /\ ms < DecodeTransportExpiration s <= ms + 1000 /\
  (s < 2 ^ 32 - 1 -> EncodeTransportExpiration (DecodeTransportExpiration s) = (s + 1, true)) /\
  (s = 2 ^ 32 - 1 -> (EncodeTransportExpiration (DecodeTransportExpiration s)).2 = false).
Proof.
  unfold EncodeTransportExpiration, DecodeTransportExpiration, u32, u64.
  intros Hms. destruct (ms >? (2 ^ 32 - 1) * 1000 + 499) eqn:E; intros; simplify_eq.
  rewrite (Z.mod_small (ms + 500)) by lia.
  pose proof (Z.div_mod (ms + 500) 1000 ltac:(lia)). pose proof (Z.mod_pos_bound (ms + 500) 1000).
  assert (0 <= (ms + 500) / 1000 < 2 ^ 32) by lia.
  rewrite (Z.mod_small ((ms + 500) / 1000)) by lia.
  set (q := (ms + 500) / 1000) in *.
  rewrite (Z.mod_small (q * 1000)), (Z.mod_small (q * 1000 + 500)) by lia.
  split_and!; [lia..| |]; intros.
  - zbool. rewrite (Z.mod_small (q * 1000 + 500 + 500)) by lia.
    replace (q * 1000 + 500 + 500) with ((q + 1) * 1000) by lia.
    rewrite Z.div_mul, Z.mod_small by lia. done.
  - by zbool.
Qed.

(** ** Witnesses *)

Definition sample_header : Header := mkHeader Garlic 7 1700000000123.

Lemma standard_roundtrip_witness :
  exists dst',
    marshalStandard (make_bytes 20) sample_header [1; 2; 3] I2PDMaxPayload = Ok (dst', 19) /\
    len dst' = 20 /\ sub 19 20 dst' = [0] /\
    parseStandard dst' I2PDMaxPayload true = Ok (mkMessage sample_header [1; 2; 3], 19).
Proof.
  apply (standard_roundtrip (make_bytes 20) sample_header [1; 2; 3] I2PDMaxPayload);
    unfold header_ok, is_byte; vm_compute; intuition congruence.
Defined.

Definition sample_frame : bytes := frame sample_header [1; 2; 3] ++ [9; 9].

Definition sample_lookup : DatabaseLookupMessage :=
  mkDatabaseLookupMessage (replicate 32 1) (replicate 32 2) 3 9 (replicate 32 3)
    (replicate 32 4) (replicate 64 5) 32 [].

Definition sample_store : DatabaseStoreMessage :=
  mkDatabaseStoreMessage (replicate 32 1) StoreRouterInfo 0x10 5 77 (replicate 32 6) [31; 139; 8].

Lemma ValidatePayload_safe_witness : safe (ValidatePayload DatabaseLookup (lookup_wire sample_lookup)).
Proof. apply ValidatePayload_safe. apply bytes_ok_check. vm_compute. reflexivity. Defined.

