(* ===== verification/Buffers.v ===== *)
(** Pooled memory: the slab pool [src/internal/pool/slab.go] and the
    single-owner packet buffer [src/internal/packet/buffer.go].

    The lease pool is a heap of leases addressed by identity, with the
    identities that sit in a [sync.Pool].  [sync.Pool.Get] may return any pooled
    object or call [New]; the choice is an argument ([pick]) of the operations
    that call it. *)

From S2P Require Import Prelude Wire.

Module Pool.

Definition minClass : Z := 8.
Definition maxClass : Z := 16.
Definition maxPooled : Z := Z.shiftl 1 maxClass.

(** [math/bits.Len] *)
Definition bits_Len (x : Z) : Z := if x =? 0 then 0 else Z.log2 x + 1.

Definition classFor (n : Z) : Z * bool :=
  if (n <=? 0) || (n >? maxPooled) then (0, false)
  else
    let exponent := Z.max (bits_Len (n - 1)) minClass in
    (exponent - minClass, true).

Definition slabSize (class : Z) : Z := Z.shiftl 1 (minClass + class).

(** *** Plain slabs.  A slice is its backing array from its start (its
    capacity) and a length. *)

Record buffer := mkBuffer { backing : bytes; blen : Z }.

(** The pooled slabs of every class, by class. *)
Abbreviation slabs := (gmap Z (list bytes)).

Definition slab_get (class : Z) (pick : option nat) (s : slabs) : bytes * slabs :=
  let pooled := default [] (s !! class) in
  match pick with
  | Some i => match pooled !! i with
              | Some b => (b, <[class := delete i pooled]> s)
              | None => (make_bytes (slabSize class), s)
              end
  | None => (make_bytes (slabSize class), s)
  end.

(** [Acquire]: [None] is [(nil, false)]. *)
Definition Acquire (n : Z) (pick : option nat) (s : slabs) : option buffer * slabs :=
  if n <? 0 then (None, s)
  else if n =? 0 then (Some (mkBuffer [] 0), s)
  else match classFor n with
       | (_, false) => (Some (mkBuffer (make_bytes n) n), s)
       | (class, true) =>
           let (b, s') := slab_get class pick s in (Some (mkBuffer b n), s')
       end.

Definition Release (b : buffer) (s : slabs) : slabs :=
  match classFor (len (backing b)) with
  | (class, true) =>
      if negb (len (backing b) =? slabSize class) then s
      else <[class := backing b :: default [] (s !! class)]> s
  | (_, false) => s
  end.

Definition ReleaseSensitive (b : buffer) (s : slabs) : slabs :=
  if (len (backing b) =? 0) then s
  else Release (mkBuffer (make_bytes (len (backing b))) (blen b)) s.

(** *** Leases *)

Record Lease := mkLease { lbuf : bytes; lclass : Z; lreleased : bool }.

(** Every lease ever allocated, and the ones sitting in [leaseSlabs], as often as
    they were put there: [Get] takes one copy out. *)
Record leases := mkLeases { heap : gmap nat Lease; pooled : list nat }.

(** One copy of [x] taken out of a bag. *)
Fixpoint takeOut (x : nat) (bag : list nat) : option (list nat) :=
  match bag with
  | [] => None
  | y :: bag => if decide (x = y) then Some bag else cons y <$> takeOut x bag
  end.

Definition alloc (l : Lease) (st : leases) : nat * leases :=
  let id := fresh (dom (heap st)) in (id, mkLeases (<[id := l]> (heap st)) (pooled st)).

Definition AcquireLease (n : Z) (pick : option nat) (st : leases) : option nat * leases :=
  if n <? 0 then (None, st)
  else if n =? 0 then let (id, st') := alloc (mkLease [] (-1) false) st in (Some id, st')
  else match classFor n with
       | (_, false) => let (id, st') := alloc (mkLease (make_bytes n) (-1) false) st in (Some id, st')
       | (class, true) =>
           match pick with
           | Some id =>
               match heap st !! id, takeOut id (pooled st) with
               | Some l, Some rest =>
                   if lclass l =? class then
                     (Some id, mkLeases (<[id := mkLease (lbuf l) (lclass l) false]> (heap st)) rest)
                   else let (id, st') := alloc (mkLease (make_bytes (slabSize class)) class false) st
                        in (Some id, st')
               | _, _ => let (id, st') := alloc (mkLease (make_bytes (slabSize class)) class false) st
                         in (Some id, st')
               end
           | None => let (id, st') := alloc (mkLease (make_bytes (slabSize class)) class false) st
                     in (Some id, st')
           end
       end.

Definition LeaseBytes (id : nat) (n : Z) (st : leases) : option bytes :=
  match heap st !! id with
  | None => None
  | Some l => if lreleased l || (n <? 0) || (n >? len (lbuf l)) then None else Some (sub 0 n (lbuf l))
  end.

Definition LeaseRelease (id : nat) (st : leases) : leases :=
  match heap st !! id with
  | None => st
  | Some l =>
      if lreleased l then st
      else
        let h := <[id := mkLease (lbuf l) (lclass l) true]> (heap st) in
        if lclass l <? 0 then mkLeases h (pooled st) else mkLeases h (id :: pooled st)
  end.

Definition LeaseReleaseSensitive (id : nat) (st : leases) : leases :=
  match heap st !! id with
  | None => st
  | Some l =>
      if lreleased l then st
      else LeaseRelease id
             (mkLeases (<[id := mkLease (make_bytes (len (lbuf l))) (lclass l) (lreleased l)]> (heap st))
                (pooled st))
  end.

(** Pooled leases are distinct, released, and have their class's size. *)
Definition pooled_ok (st : leases) : Prop :=
  NoDup (pooled st) /\
  forall id, id ∈ pooled st ->
    exists l, heap st !! id = Some l /\ lreleased l = true /\ 0 <= lclass l <= 8 /\
      len (lbuf l) = slabSize (lclass l).

(** Leases of a class have that class's size, pooled or not. *)
Definition sized (st : leases) : Prop :=
  forall id l, heap st !! id = Some l -> 0 <= lclass l ->
    lclass l <= 8 /\ len (lbuf l) = slabSize (lclass l).

Definition pool_inv (st : leases) : Prop := pooled_ok st /\ sized st.

Lemma classFor_small n :
  0 < n <= maxPooled ->
  exists c, classFor n = (c, true) /\ 0 <= c <= 8 /\ n <= slabSize c /\
    (0 < c -> slabSize (c - 1) < n).
Proof.
  unfold classFor, maxPooled, maxClass, slabSize, bits_Len, minClass. intros Hn.
  change (Z.shiftl 1 16) with 65536 in *. zbool.
  destruct (n - 1 =? 0) eqn:E.
  { exists 0. replace n with 1 by lia. split; [reflexivity|]. split_and!; [lia..|done|lia]. }
  pose proof (Z.log2_spec (n - 1) ltac:(lia)) as Hs.
  pose proof (Z.log2_lt_pow2 (n - 1) 16 ltac:(lia)) as H16.
  assert (Z.log2 (n - 1) < 16) by (apply H16; lia).
  pose proof (Z.log2_nonneg (n - 1)).
  eexists. split; [reflexivity|]. unfold minClass. split; [lia|].
  rewrite !Z.shiftl_1_l. split.
  - destruct (Z.max_spec (Z.log2 (n - 1) + 1) 8) as [[? ->]|[? ->]].
    + assert (2 ^ Z.succ (Z.log2 (n - 1)) <= 2 ^ (8 + (8 - 8))) by (apply Z.pow_le_mono_r; lia). lia.
    + replace (8 + (Z.log2 (n - 1) + 1 - 8)) with (Z.succ (Z.log2 (n - 1))) by lia. lia.
  - intros. replace (8 + (Z.max (Z.log2 (n - 1) + 1) 8 - 8 - 1)) with (Z.log2 (n - 1)) by lia. lia.
Qed.

Lemma slabSize_pos c : 0 <= c -> 0 < slabSize c.
Proof. intros. unfold slabSize, minClass. rewrite Z.shiftl_1_l. apply Z.pow_pos_nonneg; lia. Qed.

Lemma len_make_slab c : 0 <= c -> len (make_bytes (slabSize c)) = slabSize c.
Proof. intros. pose proof (slabSize_pos c). len_lia. Qed.

Lemma pooled_ok_heap st h :
  pooled_ok st -> (forall id, id ∈ pooled st -> h !! id = heap st !! id) ->
  pooled_ok (mkLeases h (pooled st)).
Proof.
  intros [Hnd Hp] Hh. split; [done|]. cbn [pooled heap]. intros id Hid. rewrite Hh by done. eauto.
Qed.

Lemma alloc_inv l st id st' :
  pool_inv st -> (0 <= lclass l -> lclass l <= 8 /\ len (lbuf l) = slabSize (lclass l)) ->
  alloc l st = (id, st') ->
  pool_inv st' /\ heap st !! id = None /\ heap st' !! id = Some l.
Proof.
  intros [Hp Hs] Hl Ha. unfold alloc in Ha. injection Ha as <- <-.
  assert (heap st !! fresh (dom (heap st)) = None) as Hf by (apply not_elem_of_dom, is_fresh).
  split_and!; [split| |].
  - apply pooled_ok_heap; [done|]. intros i Hi. apply lookup_insert_ne.
    intros <-. destruct Hp as [_ Hp]. destruct (Hp _ Hi) as (? & ? & _). congruence.
  - intros i l'. cbn [heap]. destruct (decide (fresh (dom (heap st)) = i)) as [<-|Hne].
    + rewrite lookup_insert_eq. intros [= <-]. auto.
    + rewrite lookup_insert_ne by done. apply Hs.
  - done.
  - apply lookup_insert_eq.
Qed.

Lemma takeOut_Permutation x bag : forall rest, takeOut x bag = Some rest -> bag ≡ₚ x :: rest.
Proof.
  induction bag as [|y bag IH]; intros rest H; [done|]. cbn [takeOut] in H. destruct (decide (x = y)) as [<-|_].
  - by injection H as <-.
  - apply fmap_Some in H as (rest' & H & ->). rewrite (IH rest' H). apply Permutation_swap.
Qed.

Lemma pooled_ok_remove id rest h st :
  pooled_ok st -> takeOut id (pooled st) = Some rest -> (forall j, j <> id -> h !! j = heap st !! j) ->
  pooled_ok (mkLeases h rest).
Proof.
  intros [Hnd Hp] Hrem%takeOut_Permutation Hh. rewrite Hrem in Hnd. apply NoDup_cons in Hnd as [Hnin Hnd].
  split; [done|]. cbn [pooled heap]. intros j Hj. rewrite Hh by (by intros ->). apply Hp. rewrite Hrem. by right.
Qed.

(** What an acquired lease [id] is: live, large enough, held by nobody before;
    every other lease stays as it was. *)
Definition acquired (n : Z) (st : leases) (id : nat) (st' : leases) : Prop :=
  pool_inv st' /\
  (exists l, heap st' !! id = Some l /\ lreleased l = false /\ n <= len (lbuf l)) /\
  (heap st !! id = None \/ exists l, heap st !! id = Some l /\ lreleased l = true) /\
  forall j, j <> id -> heap st' !! j = heap st !! j.

Lemma alloc_acquired n l st id st' :
  pool_inv st -> lreleased l = false -> n <= len (lbuf l) ->
  (0 <= lclass l -> lclass l <= 8 /\ len (lbuf l) = slabSize (lclass l)) ->
  (let (i, s) := alloc l st in (Some i, s)) = (Some id, st') -> acquired n st id st'.
Proof.
  intros Hinv Hr Hn Hl Ha. destruct (alloc l st) as [i s] eqn:E. injection Ha as -> ->.
  destruct (alloc_inv l st id st' Hinv Hl E) as (? & ? & ?).
  split_and!; [done|by exists l|by left|]. intros j Hj. unfold alloc in E. injection E as E1 <-. subst id.
  cbn [heap]. by rewrite lookup_insert_ne by done.
Qed.

Lemma AcquireLease_spec n pick st id st' :
  pool_inv st -> AcquireLease n pick st = (Some id, st') -> acquired n st id st'.
Proof.
  intros Hinv. unfold AcquireLease. destruct (n <? 0) eqn:En; [done|].
  destruct (n =? 0) eqn:E0; [apply alloc_acquired; cbn [lclass lreleased lbuf]; [done|done|len_lia|lia]|].
  destruct (decide (n <= maxPooled)) as [Hm|Hm]; cycle 1.
  { unfold classFor. zbool. apply alloc_acquired; cbn [lclass lreleased lbuf]; [done|done|len_lia|lia]. }
  destruct (classFor_small n ltac:(lia)) as (c & -> & Hc & Hs & _).
  pose proof (len_make_slab c ltac:(lia)) as Hslab.
  assert ((let (i, s) := alloc (mkLease (make_bytes (slabSize c)) c false) st in (Some i, s)) = (Some id, st') ->
    acquired n st id st') as Hnew by (apply alloc_acquired; cbn [lclass lreleased lbuf]; [done|done|lia|lia]).
  destruct pick as [i|]; [|done]. destruct (heap st !! i) as [l|] eqn:Ei; [|done].
  destruct (takeOut i (pooled st)) as [rest|] eqn:Erem; [|done].
  destruct (lclass l =? c) eqn:Hcl; [|done]. intros [= -> <-]. apply Z.eqb_eq in Hcl.
  pose proof Hinv as [Hpool Hsz]. destruct (proj2 Hpool id) as (l' & Hl' & Hrel & Hcr & Hlen).
  { rewrite (takeOut_Permutation _ _ _ Erem). by left. }
  rewrite Ei in Hl'. injection Hl' as <-.
  split_and!; [split| |right; eauto|].
  - apply (pooled_ok_remove id rest _ st Hpool Erem). intros j Hj. by rewrite lookup_insert_ne.
  - intros j lj. cbn [heap]. destruct (decide (id = j)) as [<-|Hne].
    + rewrite lookup_insert_eq. intros [= <-]. cbn. by intros; split; [lia|].
    + rewrite lookup_insert_ne by done. apply Hsz.
  - eexists. cbn [heap]. rewrite lookup_insert_eq. split; [done|]. cbn [lreleased lbuf]. split; [done|]. rewrite Hlen, Hcl. lia.
  - intros j Hj. cbn [heap]. by rewrite lookup_insert_ne.
Qed.

Lemma LeaseRelease_inv id st : pool_inv st -> pool_inv (LeaseRelease id st).
Proof.
  intros [[Hnd Hp] Hs]. unfold LeaseRelease. destruct (heap st !! id) as [l|] eqn:El; [|done].
  destruct (lreleased l) eqn:Er; [done|].
  assert (id ∉ pooled st) as Hnin.
  { intros Hin. destruct (Hp id Hin) as (l' & Hl' & Hr & _). congruence. }
  set (h := <[id := _]> _).
  assert (sized (mkLeases h (pooled st))) as Hsz.
  { intros j lj. cbn [heap]. unfold h. destruct (decide (id = j)) as [<-|Hne].
    - rewrite lookup_insert_eq. intros [= <-]. cbn. intros. by apply (Hs id l).
    - rewrite lookup_insert_ne by done. apply Hs. }
  assert (forall i, i ∈ pooled st -> h !! i = heap st !! i) as Hh.
  { intros i Hi. unfold h. apply lookup_insert_ne. intros ->. done. }
  destruct (lclass l <? 0) eqn:Ec.
  - split; [|done]. by apply (pooled_ok_heap st).
  - split; [|done]. split; cbn [pooled heap]; [by constructor|].
    intros i [->|Hi]%elem_of_cons.
    + exists (mkLease (lbuf l) (lclass l) true). unfold h. rewrite lookup_insert_eq. cbn.
      destruct (Hs id l El ltac:(lia)). split_and!; done || lia.
    + rewrite Hh by done. by apply Hp.
Qed.

Lemma LeaseRelease_twice id st :
  LeaseRelease id (LeaseRelease id st) = LeaseRelease id st.
Proof.
  unfold LeaseRelease at 2 3. destruct (heap st !! id) as [l|] eqn:El.
  2:{ unfold LeaseRelease. by rewrite El. }
  destruct (lreleased l) eqn:Er.
  { unfold LeaseRelease. by rewrite El, Er. }
  destruct (lclass l <? 0); unfold LeaseRelease; cbn [heap]; by rewrite lookup_insert_eq.
Qed.

Lemma LeaseReleaseSensitive_inv id st : pool_inv st -> pool_inv (LeaseReleaseSensitive id st).
Proof.
  intros [Hp Hs]. unfold LeaseReleaseSensitive. destruct (heap st !! id) as [l|] eqn:El; [|done].
  destruct (lreleased l) eqn:Er; [done|]. apply LeaseRelease_inv. split.
  - apply pooled_ok_heap; [done|]. intros i Hi. apply lookup_insert_ne. intros <-.
    destruct Hp as [_ Hp]. destruct (Hp _ Hi) as (? & ? & ? & _). congruence.
  - intros j lj. cbn [heap]. destruct (decide (id = j)) as [<-|Hne].
    + rewrite lookup_insert_eq. intros [= <-]. cbn [lclass lbuf]. intros Hc.
      destruct (Hs id l El Hc) as [? Hl]. split; [done|]. rewrite <- Hl. len_lia.
    + rewrite lookup_insert_ne by done. apply Hs.
Qed.

(** The pool under any sequence of calls, and of [sync.Pool] dropping items. *)
Inductive step : leases -> leases -> Prop :=
| step_acquire n pick st id st' : AcquireLease n pick st = (id, st') -> step st st'
| step_release id st : step st (LeaseRelease id st)
| step_release_sensitive id st : step st (LeaseReleaseSensitive id st)
| step_drop id st rest : takeOut id (pooled st) = Some rest -> step st (mkLeases (heap st) rest).

Definition initial : leases := mkLeases ∅ [].
Definition reachable (st : leases) : Prop := rtc step initial st.

Lemma AcquireLease_none n pick st st' : AcquireLease n pick st = (None, st') -> n < 0 /\ st' = st.
Proof.
  unfold AcquireLease, alloc. intros H. destruct (n <? 0) eqn:En; [split; [lia|congruence]|].
  repeat case_match; simplify_eq.
Qed.

Lemma step_inv st st' : step st st' -> pool_inv st -> pool_inv st'.
Proof.
  intros [n pick st0 [id|] st1 H|id st0|id st0|id st0 rest Hrem] Hinv.
  - by apply (AcquireLease_spec n pick st0 id).
  - by destruct (AcquireLease_none n pick st0 st1 H) as [_ ->].
  - by apply LeaseRelease_inv.
  - by apply LeaseReleaseSensitive_inv.
  - destruct Hinv as [Hp Hs]. split; [|done]. by apply (pooled_ok_remove id rest _ st0).
Qed.

Lemma reachable_inv st : reachable st -> pool_inv st.
Proof.
  unfold reachable. intros H.
  assert (pool_inv initial) as H0.
  { split; [split; cbn; [constructor|intros ? H1; by inversion H1]|]. intros ? ? H1. by inversion H1. }
  clear -H H0. induction H as [|st st1 st2 Hs _ IH]; [done|]. apply IH. by eapply step_inv.
Qed.

(** *** Owners

    The pool together with the leases its users hold, one entry per holder.  A
    holder gives its lease up by releasing it.  [use_again] is a release that is
    repeated while nobody holds the lease; a repetition after the pool handed
    the lease out again is the subject of [stale_release_aliases]. *)
Inductive use : leases * list nat -> leases * list nat -> Prop :=
| use_acquire n pick st owners id st' :
    AcquireLease n pick st = (Some id, st') -> use (st, owners) (st', id :: owners)
| use_release id st owners rest (sensitive : bool) :
    takeOut id owners = Some rest ->
    use (st, owners) ((if sensitive then LeaseReleaseSensitive else LeaseRelease) id st, rest)
| use_again id st owners (sensitive : bool) :
    id ∉ owners -> use (st, owners) ((if sensitive then LeaseReleaseSensitive else LeaseRelease) id st, owners)
| use_drop id st owners rest :
    takeOut id (pooled st) = Some rest -> use (st, owners) (mkLeases (heap st) rest, owners).

Definition isHeld (st : leases) (id : nat) : Prop := exists l, heap st !! id = Some l /\ lreleased l = false.
Definition owners_ok (x : leases * list nat) : Prop := pool_inv x.1 /\ NoDup x.2 /\ Forall (isHeld x.1) x.2.

Lemma release_other (sensitive : bool) id j st :
  j <> id -> heap ((if sensitive then LeaseReleaseSensitive else LeaseRelease) id st) !! j = heap st !! j.
Proof.
  intros Hj. destruct sensitive; unfold LeaseReleaseSensitive, LeaseRelease; cbn [heap];
    repeat case_match; cbn [heap]; rewrite ?lookup_insert_ne by done; done.
Qed.

Lemma isHeld_ext st st' owners :
  (forall j, j ∈ owners -> heap st' !! j = heap st !! j) -> Forall (isHeld st) owners -> Forall (isHeld st') owners.
Proof. rewrite !Forall_forall. intros Heq H j Hj. unfold isHeld. rewrite Heq by done. by apply H. Qed.

Lemma acquired_new n st id st' owners :
  acquired n st id st' -> Forall (isHeld st) owners -> id ∉ owners.
Proof.
  intros (_ & _ & Hno & _) Hall Hin. rewrite Forall_forall in Hall. destruct (Hall id Hin) as (l & Hl & Hr).
  destruct Hno as [|(l' & Hl' & Hr')]; congruence.
Qed.

Lemma use_ok x y : use x y -> owners_ok x -> owners_ok y.
Proof.
  intros [n pick st owners id st' H|id st owners rest sens Hrem|id st owners sens Hid|id st owners rest Hrem] (Hinv & Hnd & Hall);
    unfold owners_ok in *; cbn [fst snd] in *.
  - apply AcquireLease_spec in H; [|done]. pose proof (acquired_new n st id st' owners H Hall) as Hnew.
    destruct H as (Hinv' & (l & Hl & Hr & _) & _ & Hrest). split; [done|]. split; [by constructor|].
    constructor; [by exists l|]. apply (isHeld_ext st); [|done]. intros j Hj. apply Hrest. by intros ->.
  - apply takeOut_Permutation in Hrem. rewrite Hrem in Hnd, Hall.
    apply NoDup_cons in Hnd as [Hnin Hnd]. apply Forall_cons in Hall as [_ Hall].
    split; [destruct sens; [by apply LeaseReleaseSensitive_inv|by apply LeaseRelease_inv]|]. split; [done|].
    apply (isHeld_ext st); [|done]. intros j Hj. apply release_other. by intros ->.
  - split; [destruct sens; [by apply LeaseReleaseSensitive_inv|by apply LeaseRelease_inv]|]. split; [done|].
    apply (isHeld_ext st); [|done]. intros j Hj. apply release_other. by intros ->.
  - destruct Hinv as [Hp Hs]. split; [|done]. split; [|done]. by apply (pooled_ok_remove id rest _ st).
Qed.

Lemma used_ok x : rtc use (initial, []) x -> owners_ok x.
Proof.
  intros H. assert (owners_ok (initial, [])) as H0 by (split; [by apply reachable_inv, rtc_refl|]; split; constructor).
  clear -H H0. induction H as [|x y z Hs _ IH]; [done|]. apply IH. by eapply use_ok.
Qed.

(** A slab class is the smallest power of two that holds the request.
    Requests of 1 to 65536 bytes get class [c] of size [2^(8+c)], at least the
    request and, above the minimum class, less than twice it; all other sizes
    are not pooled. *)
Theorem classFor_minimal n :
  (0 < n <= 65536 /\
   exists c, classFor n = (c, true) /\ 0 <= c <= 8 /\ n <= slabSize c /\ (0 < c -> slabSize c < 2 * n)) \/
  ((n <= 0 \/ 65536 < n) /\ classFor n = (0, false)).
Proof.
  destruct (decide (0 < n <= 65536)) as [Hn|Hn].
  - left. split; [done|]. destruct (classFor_small n) as (c & H1 & H2 & H3 & H4); [done|].
    exists c. split_and!; [done|lia..|]. intros Hc. specialize (H4 Hc). revert H4.
    unfold slabSize, minClass. rewrite !Z.shiftl_1_l.
    assert (2 ^ (8 + c) = 2 * 2 ^ (8 + (c - 1))) by (rewrite <- Z.pow_succ_r by lia; f_equal; lia).
    lia.
  - right. split; [lia|]. unfold classFor, maxPooled, maxClass. change (Z.shiftl 1 16) with 65536.
    destruct ((n <=? 0) || (n >? 65536)) eqn:E; [done|lia].
Qed.

(** C33: Leases are exclusive.  Whatever is acquired, released by its holder,
    released again while nobody holds it, or dropped by the garbage collector,
    no two holders ever have the same lease, a held lease is live and not in the
    pool, and the next [AcquireLease] hands out a live lease of at least the
    requested capacity that nobody holds, leaving the held ones untouched. *)
Theorem AcquireLease_exclusive st owners :
  rtc use (initial, []) (st, owners) ->
  NoDup owners /\
  (forall id, id ∈ owners -> isHeld st id /\ id ∉ pooled st) /\
  forall n pick id st', AcquireLease n pick st = (Some id, st') ->
    (id ∉ owners) /\ (id ∉ pooled st') /\ (exists l, heap st' !! id = Some l /\ lreleased l = false /\ n <= len (lbuf l)) /\
    forall j, j ∈ owners -> heap st' !! j = heap st !! j.
Proof.
  intros (Hinv & Hnd & Hall)%used_ok. cbn [fst snd] in *.
  assert (forall st, pool_inv st -> forall id, isHeld st id -> id ∉ pooled st) as Hout.
  { intros s [[_ Hp] _] id (l & Hl & Hr) Hin. destruct (Hp id Hin) as (l' & Hl' & Hr' & _). congruence. }
  split; [done|]. split.
  - intros id Hid. rewrite Forall_forall in Hall. split; [by apply Hall|]. by apply Hout, Hall.
  - intros n pick id st' Ha%AcquireLease_spec; [|done]. pose proof (acquired_new n st id st' owners Ha Hall) as Hnew.
    destruct Ha as (Hinv' & Hl & _ & Hrest). split; [done|]. split.
    + apply Hout; [done|]. destruct Hl as (l & ? & ? & _). by exists l.
    + split; [done|]. intros j Hj. apply Hrest. by intros ->.
Qed.

(** A second [Release] through a stale pointer is not safe once the pool
    has handed the lease out again: after acquire, release, re-acquire and the
    stale release, the next acquire returns the lease that is still in use.
    The run starts from the empty pool and asks for 300 bytes each time. *)
Theorem stale_release_aliases :
  exists st1 st2 st3 a b c,
    AcquireLease 300 None initial = (Some a, st1) /\
    AcquireLease 300 (Some a) (LeaseRelease a st1) = (Some b, st2) /\
    AcquireLease 300 (Some a) (LeaseRelease a st2) = (Some c, st3) /\ b = c.
Proof. do 6 eexists. split_and!; vm_compute; reflexivity. Qed.

(** Acquired, released twice, and acquired by two users. *)
Lemma AcquireLease_exclusive_witness :
  let st := LeaseRelease 0 (LeaseRelease 0 (AcquireLease 300 None initial).2) in
  let st1 := (AcquireLease 300 (Some 0%nat) st).2 in
  let st2 := (AcquireLease 300 (Some 0%nat) st1).2 in
  (AcquireLease 300 (Some 0%nat) st).1 = Some 0%nat /\ NoDup [1%nat; 0%nat] /\ isHeld st2 0 /\ isHeld st2 1.
Proof.
  set (st := LeaseRelease 0 (LeaseRelease 0 (AcquireLease 300 None initial).2)).
  set (st1 := (AcquireLease 300 (Some 0%nat) st).2). set (st2 := (AcquireLease 300 (Some 0%nat) st1).2).
  destruct (AcquireLease_exclusive st2 [1%nat; 0%nat]) as (Hnd & Hheld & _).
  - eapply rtc_l; [apply (use_acquire 300 None); vm_compute; reflexivity|].
    eapply rtc_l; [apply (use_release 0 _ _ [] false); reflexivity|].
    eapply rtc_l; [apply (use_again 0 _ _ false); by intros ?%elem_of_nil|].
    eapply rtc_l; [apply (use_acquire 300 (Some 0%nat) st); vm_compute; reflexivity|].
    eapply rtc_l; [apply (use_acquire 300 (Some 0%nat) st1); vm_compute; reflexivity|]. apply rtc_refl.
  - split; [vm_compute; reflexivity|]. split; [exact Hnd|]. split; apply Hheld; [right; left|left].
Defined.

End Pool.

Module Packet.

Import Pool.

Record Buffer := mkBuffer {
  buf : bytes; lease : option nat; reserved : Z; start : Z; end_ : Z; limit : Z; released : bool }.

Definition maxInt : Z := 2 ^ 63 - 1.

Definition Acquire (reserved payloadCapacity : Z) (pick : option nat) (st : leases)
  : option Buffer * leases :=
  if (reserved <? 0) || (payloadCapacity <? 0) || (reserved >? maxInt - payloadCapacity)
  then (None, st)
  else
    let limit := reserved + payloadCapacity in
    match AcquireLease limit pick st with
    | (None, st') => (None, st')
    | (Some id, st') =>
        match LeaseBytes id limit st' with
        | None => (None, LeaseRelease id st')
        | Some b => (Some (mkBuffer b (Some id) reserved reserved reserved limit false), st')
        end
    end.

Definition Release (b : Buffer) (st : leases) : Buffer * leases :=
  if released b then (b, st)
  else
    (mkBuffer [] None 0 0 0 0 true,
     match lease b with Some id => LeaseRelease id st | None => st end).

Definition live (b : Buffer) : bool := negb (released b).
Definition availableHeader (b : Buffer) : Z := if start b >? reserved b then 0 else start b.

Definition set_start (s : Z) (b : Buffer) : Buffer :=
  mkBuffer (buf b) (lease b) (reserved b) s (end_ b) (limit b) (released b).
Definition set_end (e : Z) (b : Buffer) : Buffer :=
  mkBuffer (buf b) (lease b) (reserved b) (start b) e (limit b) (released b).

(** The mutators return the range of the slice they hand out; [None] is
    [(nil, false)]. *)
Definition Push (n : Z) : go Buffer (option (Z * Z)) :=
  let! b := get in
  if negb (live b) || (n <? 0) || (n >? availableHeader b) then ret None
  else
    let! _ := put (set_start (start b - n) b) in
    let! b := get in
    let! _ := lift (slice (buf b) (start b) (start b + n)) in
    ret (Some (start b, start b + n)).

Definition Append (n : Z) : go Buffer (option (Z * Z)) :=
  let! b := get in
  if negb (live b) || (n <? 0) || (n >? limit b - end_ b) then ret None
  else
    let start := end_ b in
    let! _ := put (set_end (end_ b + n) b) in
    let! b := get in
    let! _ := lift (slice (buf b) start (end_ b)) in
    ret (Some (start, end_ b)).

Definition Consume (n : Z) : go Buffer (option (Z * Z)) :=
  let! b := get in
  if negb (live b) || (n <? 0) || (n >? end_ b - start b) then ret None
  else
    let start0 := start b in
    let! _ := put (set_start (start b + n) b) in
    let! b := get in
    let! _ := lift (slice (buf b) start0 (start b)) in
    ret (Some (start0, start b)).

Definition Header (b : Buffer) : res (option bytes) :=
  if negb (live b) then Ok None
  else if start b >=? reserved b then let? s := slice (buf b) (reserved b) (reserved b) in Ok (Some s)
  else let? s := slice (buf b) (start b) (reserved b) in Ok (Some s).

Definition Payload (b : Buffer) : res (option bytes) :=
  if negb (live b) then Ok None
  else
    let start := Z.max (start b) (reserved b) in
    let? s := slice (buf b) start (end_ b) in Ok (Some s).

Definition Bytes (b : Buffer) : res (option bytes) :=
  if negb (live b) then Ok None
  else let? s := slice (buf b) (start b) (end_ b) in Ok (Some s).

Definition AvailableHeader (b : Buffer) : option Z :=
  if negb (live b) then None else Some (availableHeader b).
Definition AvailablePayload (b : Buffer) : option Z :=
  if negb (live b) then None else Some (limit b - end_ b).

(** The owner fills a slice it was handed. *)
Definition fill (r : Z * Z) (data : bytes) : go Buffer unit :=
  let! b := get in
  let! buf' := lift (write (buf b) r.1 (sub 0 (r.2 - r.1) data)) in
  put (mkBuffer buf' (lease b) (reserved b) (start b) (end_ b) (limit b) (released b)).

(** *** A buffer is a double-ended queue of bytes *)

Inductive op :=
| Prepend (h : bytes)
| AppendBytes (d : bytes)
| Take (n : Z).

(** Runs an operation; [None] when the buffer refuses it. *)
Definition run_op (o : op) : go Buffer (option bytes) :=
  match o with
  | Prepend h =>
      let! r := Push (len h) in
      match r with Some r => let! _ := fill r h in ret (Some []) | None => ret None end
  | AppendBytes d =>
      let! r := Append (len d) in
      match r with Some r => let! _ := fill r d in ret (Some []) | None => ret None end
  | Take n =>
      let! b := get in
      let! r := Consume n in
      match r with
      | Some r => let! s := lift (slice (buf b) r.1 r.2) in ret (Some s)
      | None => ret None
      end
  end.

(** The specification: queued bytes, the position of the first one relative to
    the reserved headroom, and the room left at the end. *)
Record deque := mkDeque { pos : Z; items : bytes; room : Z }.

Definition spec_op (headroom : Z) (o : op) (d : deque) : option bytes * deque :=
  match o with
  | Prepend h =>
      if len h <=? (if pos d >? headroom then 0 else pos d)
      then (Some [], mkDeque (pos d - len h) (h ++ items d) (room d)) else (None, d)
  | AppendBytes b =>
      if len b <=? room d then (Some [], mkDeque (pos d) (items d ++ b) (room d - len b)) else (None, d)
  | Take n =>
      if (0 <=? n) && (n <=? len (items d))
      then (Some (sub 0 n (items d)), mkDeque (pos d + n) (sub n (len (items d)) (items d)) (room d))
      else (None, d)
  end.

Definition buf_ok (b : Buffer) : Prop :=
  released b = false /\ 0 <= start b <= end_ b /\ end_ b <= limit b /\ limit b = len (buf b) /\
  0 <= reserved b <= end_ b.

Definition abs (b : Buffer) : deque :=
  mkDeque (start b) (sub (start b) (end_ b) (buf b)) (limit b - end_ b).

(** Runs the state monad on a concrete state. *)
Ltac run_go :=
  repeat first
  [ progress cbn [fst snd buf lease reserved start end_ limit released negb orb live]
  | progress unfold gbind, get, put, lift, ret, fill, live, set_start, set_end
  | rewrite slice_ok by len_lia ].

Lemma write_sub (l src : bytes) off lo hi :
  0 <= off -> off + len src <= len l -> lo <= off -> off + len src <= hi -> 0 <= lo -> hi <= len l ->
  exists l', write l off src = Ok l' /\ len l' = len l /\
    sub lo hi l' = sub lo off l ++ src ++ sub (off + len src) hi l.
Proof.
  intros. eexists. unfold write. zbool. split; [done|]. split; [len_lia|].
  rewrite <- (sub_app_split (sub 0 off l ++ src ++ sub (off + len src) (len l) l) lo off hi) by len_lia.
  f_equal.
  - rewrite sub_app_l by len_lia. rewrite sub_sub by lia. f_equal; lia.
  - rewrite sub_app_r by len_lia. len_simpl.
    rewrite <- (sub_app_split _ _ (len src) _) by len_lia. f_equal.
    + rewrite sub_app_l by lia. rewrite Z.sub_0_r, Z.sub_diag. by apply sub_all.
    + rewrite sub_app_r by lia. rewrite sub_sub by len_lia. f_equal; lia.
Qed.

Lemma run_op_refines o b :
  buf_ok b ->
  exists r b', run_op o b = (Ok r, b') /\ buf_ok b' /\ reserved b' = reserved b /\
    spec_op (reserved b) o (abs b) = (r, abs b').
Proof.
  destruct b as [bf ls rs st en lm rl]. unfold buf_ok. cbn [buf lease reserved start end_ limit released].
  intros (-> & Hs & He & -> & Hr). destruct o as [h|d|n]; cbn [run_op spec_op abs pos items room buf start end_ limit].
  - unfold Push. run_go. unfold availableHeader. cbn [start reserved].
    assert (0 <= (if st >? rs then 0 else st) <= st) as Ha by (destruct (st >? rs); lia).
    set (a := if st >? rs then 0 else st) in *. clearbody a.
    rewrite (proj2 (Z.ltb_ge _ _)) by len_lia.
    destruct (len h <=? a) eqn:E; zbool; cycle 1.
    { eexists _, _. split; [done|]. cbn [buf lease reserved start end_ limit released]. split_and!; try done; lia. }
    run_go. rewrite sub_all by lia.
    destruct (write_sub bf h (st - len h) (st - len h) en) as (l' & Hw & Hl & Hsub); [len_lia..|].
    rewrite Hw. eexists _, _. split; [reflexivity|].
    cbn [buf lease reserved start end_ limit released abs].
    split_and!; try done; [len_lia..|].
    unfold abs.
    cbn [buf lease reserved start end_ limit released].
    rewrite Hsub, (sub_empty bf (st - len h) (st - len h)) by lia. cbn [app].
    by replace (st - len h + len h) with st by lia.
  - unfold Append. run_go. rewrite (proj2 (Z.ltb_ge (len d) _)) by len_lia. cbn [orb].
    destruct (len d <=? len bf - en) eqn:E; rewrite Z.gtb_ltb; zbool; cycle 1.
    { eexists _, _. split; [done|]. cbn [buf lease reserved start end_ limit released]. split_and!; try done; lia. }
    run_go. rewrite sub_all by lia.
    destruct (write_sub bf d en st (en + len d)) as (l' & Hw & Hl & Hsub); [len_lia..|].
    rewrite Hw. eexists _, _. split; [reflexivity|].
    cbn [buf lease reserved start end_ limit released abs].
    split_and!; try done; [len_lia..|]. unfold abs.
    cbn [buf lease reserved start end_ limit released].
    rewrite Hsub, (sub_empty _ (en + len d)) by lia. rewrite app_nil_r. do 2 f_equal. lia.
  - unfold Consume. run_go. len_simpl.
    destruct ((0 <=? n) && (n <=? en - st)) eqn:E; cycle 1.
    { replace ((n <? 0) || (n >? en - st)) with true by (symmetry; lia).
      eexists _, _. split; [done|]. cbn [buf lease reserved start end_ limit released]. split_and!; try done; lia. }
    replace ((n <? 0) || (n >? en - st)) with false by (symmetry; lia).
    run_go. eexists _, _. split; [reflexivity|].
    cbn [buf lease reserved start end_ limit released abs].
    split_and!; try done; [len_lia..|]. unfold abs.
    cbn [buf lease reserved start end_ limit released].
    rewrite !sub_sub by lia. do 3 f_equal; lia.
Qed.

Fixpoint run_ops (os : list op) : go Buffer (list (option bytes)) :=
  match os with
  | [] => ret []
  | o :: os => let! r := run_op o in let! rs := run_ops os in ret (r :: rs)
  end.

Fixpoint spec_ops (headroom : Z) (os : list op) (d : deque) : list (option bytes) * deque :=
  match os with
  | [] => ([], d)
  | o :: os =>
      let (r, d1) := spec_op headroom o d in
      let (rs, d2) := spec_ops headroom os d1 in (r :: rs, d2)
  end.

Lemma run_ops_refines os b :
  buf_ok b ->
  exists rs b', run_ops os b = (Ok rs, b') /\ buf_ok b' /\
    spec_ops (reserved b) os (abs b) = (rs, abs b').
Proof.
  revert b. induction os as [|o os IH]; intros b Hb.
  - by exists [], b.
  - destruct (run_op_refines o b Hb) as (r & b1 & H1 & Hb1 & Hr1 & Hs1).
    destruct (IH b1 Hb1) as (rs & b2 & H2 & Hb2 & Hs2).
    exists (r :: rs), b2. cbn [run_ops spec_ops]. unfold gbind, ret. rewrite H1, H2.
    rewrite Hs1. rewrite Hr1 in Hs2. by rewrite Hs2.
Qed.

Lemma Acquire_ok rs cap pick st b st' :
  Acquire rs cap pick st = (Some b, st') ->
  buf_ok b /\ reserved b = rs /\ abs b = mkDeque rs [] cap.
Proof.
  unfold Acquire. destruct ((rs <? 0) || (cap <? 0) || (rs >? maxInt - cap)) eqn:E; [done|].
  destruct (AcquireLease (rs + cap) pick st) as [[id|] st1]; [|done].
  unfold LeaseBytes. destruct (heap st1 !! id) as [l|]; [|done].
  destruct (lreleased l || (rs + cap <? 0) || (rs + cap >? len (lbuf l))) eqn:E2; [done|].
  intros [= <- <-]. unfold buf_ok, abs. cbn [buf lease reserved start end_ limit released].
  split_and!; try done; [len_lia..|].
  rewrite sub_empty by lia. f_equal. lia.
Qed.

Lemma Acquire_refused rs cap pick st :
  reachable st ->
  (Acquire rs cap pick st).1 = None <-> (rs < 0 \/ cap < 0 \/ rs + cap > maxInt).
Proof.
  intros Hr. unfold Acquire.
  destruct ((rs <? 0) || (cap <? 0) || (rs >? maxInt - cap)) eqn:E; [split; [intros _; lia|done]|].
  destruct (AcquireLease (rs + cap) pick st) as [[id|] st1] eqn:Ea.
  - destruct (AcquireLease_spec _ _ _ _ _ (reachable_inv st Hr) Ea) as (_ & (l & Hl & Hrel & Hn) & _).
    unfold LeaseBytes. rewrite Hl, Hrel. zbool. split; [done|lia].
  - apply AcquireLease_none in Ea. split; lia.
Qed.

(** C34: A packet buffer is a bounded double-ended queue.  From a pool in any
    reachable state [Acquire] fails only for negative sizes or an [int]
    overflow; the buffer it returns executes every sequence of pushes, appends
    and consumes without a panic, with the results and the visible bytes of
    the queue specification, whatever the pooled slab contained. *)
Theorem packet_refines_deque rs cap pick st :
  reachable st -> 0 <= rs -> 0 <= cap -> rs + cap <= maxInt ->
  exists b st', Acquire rs cap pick st = (Some b, st') /\
    forall os, exists outs b', run_ops os b = (Ok outs, b') /\
      spec_ops rs os (mkDeque rs [] cap) = (outs, abs b') /\
      Bytes b' = Ok (Some (items (abs b'))).
Proof.
  intros Hr H1 H2 H3. pose proof (Acquire_refused rs cap pick st Hr) as Hn.
  destruct (Acquire rs cap pick st) as [[b|] st'] eqn:Ea; [|cbn in Hn; destruct Hn as [Hn _]; specialize (Hn eq_refl); lia].
  exists b, st'. split; [done|]. intros os. destruct (Acquire_ok _ _ _ _ _ _ Ea) as (Hb & Hres & Habs).
  destruct (run_ops_refines os b Hb) as (outs & b' & Hrun & Hb' & Hspec).
  exists outs, b'. rewrite Hres, Habs in Hspec. split_and!; [done..|].
  destruct Hb' as (Hl & Hs & He & Hlim & _). unfold Bytes, live. rewrite Hl. cbn [negb].
  by rewrite slice_ok by lia.
Qed.

Lemma packet_refines_deque_witness :
  exists b st', Acquire 16 100 None initial = (Some b, st') /\
    forall os, exists outs b', run_ops os b = (Ok outs, b') /\
      spec_ops 16 os (mkDeque 16 [] 100) = (outs, abs b') /\
      Bytes b' = Ok (Some (items (abs b'))).
Proof.
  apply (packet_refines_deque 16 100 None initial); [apply rtc_refl | unfold maxInt; lia..].
Defined.

Example packet_run :
  match Acquire 16 100 None initial with
  | (Some b, _) =>
      (run_ops [AppendBytes [7; 8; 9]; Prepend [1; 2]; Take 3; Prepend (make_bytes 20); Take 9] b).1
  | _ => Panic
  end = Ok [Some []; Some []; Some [1; 2; 7]; None; None].
Proof. vm_compute. reflexivity. Qed.

End Packet.
