(* ===== verification/TunnelBlocks.v ===== *)
(** Tunnel delivery blocks: the iterator of
    [src/dataplane/internal/tunnel/blocks.go] and the block encoder of
    [src/dataplane/internal/tunnel/gateway.go] ([blockLen], [marshalBlock]). *)

From S2P Require Import Prelude Wire.

Definition DeliveryLocal : Z := 0.
Definition DeliveryTunnel : Z := 1.
Definition DeliveryRouter : Z := 2.

Record Block := mkBlock {
  Delivery : Z; Gateway : bytes; TunnelID : Z; MessageID : Z; Fragment : Z;
  FollowOn : bool; Last : bool; Data : bytes }.

Definition zeroHash : bytes := make_bytes 32.

(** [BlockIterator.Next].  The receiver is the unread bytes; [Ok None] is the
    end of the payload.  Like the code, it has consumed what it looked at when
    it returns an error. *)
Definition Next : go bytes (option Block) :=
  let! rest := get in
  if len rest =? 0 then ret None
  else
    let! flag := lift (index rest 0) in
    let! rest := lift (slice_from rest 1) in
    let! _ := put rest in
    let! out :=
      (if negb (Z.land flag 0x80 =? 0) then
         if len rest <? 6 then fail ErrShortBuffer
         else
           let! b := lift (slice rest 0 4) in
           let! id := lift (be_uint 4 b) in
           let fragment := Z.land (Z.shiftr flag 1) 0x3f in
           if fragment =? 0 then fail ErrBlock
           else
             let last := negb (Z.land flag 1 =? 0) in
             let! rest := lift (slice_from rest 4) in
             let! _ := put rest in
             ret (mkBlock 0 zeroHash 0 id fragment true last [])
       else if negb (Z.land flag 0x17 =? 0) then fail ErrBlock
       else
         let delivery := Z.land (Z.shiftr flag 5) 3 in
         if delivery =? 3 then fail ErrBlock
         else
           let! (tunnelID, gateway) :=
             (if delivery =? DeliveryTunnel then
                if len rest <? 36 then fail ErrShortBuffer
                else
                  let! b := lift (slice rest 0 4) in
                  let! id := lift (be_uint 4 b) in
                  if id =? 0 then fail ErrBlock
                  else
                    let! gw := lift (slice rest 4 36) in
                    let! rest := lift (slice_from rest 36) in
                    let! _ := put rest in
                    ret (id, gw)
              else if delivery =? DeliveryRouter then
                if len rest <? 32 then fail ErrShortBuffer
                else
                  let! gw := lift (slice rest 0 32) in
                  let! rest := lift (slice_from rest 32) in
                  let! _ := put rest in
                  ret (0, gw)
              else ret (0, zeroHash)) in
           let! rest := get in
           if negb (Z.land flag 0x08 =? 0) then
             if len rest <? 4 then fail ErrShortBuffer
             else
               let! b := lift (slice rest 0 4) in
               let! id := lift (be_uint 4 b) in
               let! rest := lift (slice_from rest 4) in
               let! _ := put rest in
               ret (mkBlock delivery gateway tunnelID id 0 false false [])
           else ret (mkBlock delivery gateway tunnelID 0 0 false true [])) in
    let! rest := get in
    if len rest <? 2 then fail ErrShortBuffer
    else
      let! b := lift (slice rest 0 2) in
      let! n := lift (be_uint 2 b) in
      let! rest := lift (slice_from rest 2) in
      let! _ := put rest in
      if n =? 0 then fail ErrBlock
      else if n >? len rest then fail ErrBlock
      else
        let! data := lift (slice rest 0 n) in
        let! rest := lift (slice_from rest n) in
        let! _ := put rest in
        ret (Some (mkBlock (Delivery out) (Gateway out) (TunnelID out) (MessageID out) (Fragment out)
                     (FollowOn out) (Last out) data)).

(** ** Encoding *)

Definition firstBlockLen (block : Block) (fragmented : bool) : res Z :=
  fail_if (Delivery block >? DeliveryRouter) || FollowOn block with ErrGatewayBlock ;;
  let n := 1 + 2 in
  let? n :=
    (if Delivery block =? DeliveryTunnel then
       fail_if TunnelID block =? 0 with ErrGatewayBlock ;; Ok (n + 36)
     else if Delivery block =? DeliveryRouter then Ok (n + 32)
     else Ok n) in
  Ok (if fragmented then n + 4 else n).

Definition blockLen (block : Block) : res Z :=
  fail_if (len (Data block) =? 0) || (len (Data block) >? Z.shiftl 1 16 - 1) with ErrGatewayBlock ;;
  if FollowOn block then
    fail_if (Fragment block =? 0) || (Fragment block >? 63) with ErrGatewayBlock ;;
    Ok (1 + 4 + 2 + len (Data block))
  else
    let? n := firstBlockLen block (negb (Last block)) in
    Ok (n + len (Data block)).

(** Returns [dst] after the writes, and the count.  [err != nil || len(dst) < n]
    maps every [blockLen] error to [ErrGatewayBlock]. *)
Definition marshalBlock (dst : bytes) (block : Block) : res (bytes * Z) :=
  match blockLen block with
  | Panic => Panic
  | Err _ => Err ErrGatewayBlock
  | Ok n =>
    fail_if len dst <? n with ErrGatewayBlock ;;
    if FollowOn block then
      let flag := Z.lor 0x80 (u8 (Z.shiftl (Fragment block) 1)) in
      let flag := if Last block then Z.lor flag 1 else flag in
      let? dst := write dst 0 [flag] in
      let? dst := write dst 1 (be_bytes 4 (MessageID block)) in
      let? dst := write dst 5 (be_bytes 2 (u16 (len (Data block)))) in
      let? dst := copy_at dst 7 (Data block) in
      Ok (dst, n)
    else
      let fragmented := negb (Last block) in
      let flag := u8 (Z.shiftl (Delivery block) 5) in
      let flag := if fragmented then Z.lor flag 0x08 else flag in
      let? dst := write dst 0 [flag] in
      let off := 1 in
      let? (dst, off) :=
        (if Delivery block =? DeliveryTunnel then
           let? dst := write dst off (be_bytes 4 (TunnelID block)) in
           let? dst := write dst (off + 4) (Gateway block) in
           Ok (dst, off + 36)
         else if Delivery block =? DeliveryRouter then
           let? dst := write dst off (Gateway block) in
           Ok (dst, off + 32)
         else Ok (dst, off)) in
      let? (dst, off) :=
        (if fragmented then
           let? dst := write dst off (be_bytes 4 (MessageID block)) in Ok (dst, off + 4)
         else Ok (dst, off)) in
      let? dst := write dst off (be_bytes 2 (u16 (len (Data block)))) in
      let off := off + 2 in
      let? dst := copy_at dst off (Data block) in
      Ok (dst, n)
  end.

(** ** The wire form of a block *)

Definition address (b : Block) : bytes :=
  if Delivery b =? DeliveryTunnel then be_bytes 4 (TunnelID b) ++ Gateway b
  else if Delivery b =? DeliveryRouter then Gateway b
  else [].

Definition block_flag (b : Block) : Z :=
  if FollowOn b then 128 + 2 * Fragment b + (if Last b then 1 else 0)
  else 32 * Delivery b + (if Last b then 0 else 8).

Definition block_wire (b : Block) : bytes :=
  [block_flag b] ++
  (if FollowOn b then be_bytes 4 (MessageID b)
   else address b ++ (if Last b then [] else be_bytes 4 (MessageID b))) ++
  be_bytes 2 (len (Data b)) ++ Data b.

(** The blocks a gateway may send. *)
Definition block_ok (b : Block) : Prop :=
  0 < len (Data b) < 2 ^ 16 /\ 0 <= MessageID b < 2 ^ 32 /\ len (Gateway b) = 32 /\
  (if FollowOn b then 0 < Fragment b <= 63
   else 0 <= Delivery b <= 2 /\ (Delivery b = DeliveryTunnel -> 0 < TunnelID b < 2 ^ 32)).

(** What the receiver sees of [b]: the fields that are on the wire. *)
Definition received (b : Block) : Block :=
  if FollowOn b then mkBlock 0 zeroHash 0 (MessageID b) (Fragment b) true (Last b) (Data b)
  else mkBlock (Delivery b)
         (if (Delivery b =? DeliveryTunnel) || (Delivery b =? DeliveryRouter) then Gateway b else zeroHash)
         (if Delivery b =? DeliveryTunnel then TunnelID b else 0)
         (if Last b then 0 else MessageID b) 0 false (Last b) (Data b).

Definition wire_len (b : Block) : Z :=
  (if FollowOn b then 7
   else 3 + (if Delivery b =? DeliveryTunnel then 36 else if Delivery b =? DeliveryRouter then 32 else 0) +
        (if Last b then 0 else 4)) + len (Data b).

Lemma len_block_wire b : block_ok b -> len (block_wire b) = wire_len b.
Proof.
  intros (_ & _ & Hg & _). unfold block_wire, wire_len, address.
  destruct (FollowOn b), (Delivery b =? DeliveryTunnel), (Delivery b =? DeliveryRouter), (Last b); len_lia.
Qed.

Lemma blockLen_ok b : block_ok b -> blockLen b = Ok (wire_len b).
Proof.
  intros (Hd & _ & _ & Hb). unfold blockLen, firstBlockLen, wire_len. change (Z.shiftl 1 16 - 1) with 65535.
  zbool. destruct (FollowOn b); [by zbool|]. destruct Hb as [Hdel Ht].
  unfold DeliveryTunnel, DeliveryRouter in *. zbool.
  destruct (Delivery b =? 1) eqn:E1.
  - rewrite (proj2 (Z.eqb_neq (TunnelID b) 0)) by lia. destruct (Last b); cbn; f_equal; lia.
  - destruct (Delivery b =? 2), (Last b); cbn; f_equal; lia.
Qed.

Lemma follow_flag (frag : Z) (last : bool) :
  0 < frag <= 63 ->
  (if last then Z.lor (Z.lor 0x80 (u8 (Z.shiftl frag 1))) 1 else Z.lor 0x80 (u8 (Z.shiftl frag 1))) =
  128 + 2 * frag + (if last then 1 else 0).
Proof.
  intros H.
  assert (forall z, 0 <= z < Z.of_nat 64 ->
    ((if last then Z.lor (Z.lor 0x80 (u8 (Z.shiftl z 1))) 1 else Z.lor 0x80 (u8 (Z.shiftl z 1))) =?
     128 + 2 * z + (if last then 1 else 0)) = true) as Hx
    by (apply exhaust; destruct last; vm_compute; reflexivity).
  apply Z.eqb_eq, Hx. lia.
Qed.

Lemma first_flag (d : Z) (frag : bool) :
  0 <= d <= 2 ->
  (if frag then Z.lor (u8 (Z.shiftl d 5)) 8 else u8 (Z.shiftl d 5)) = 32 * d + (if frag then 8 else 0).
Proof.
  intros H. assert (d = 0 \/ d = 1 \/ d = 2) as [-> | [-> | ->]] by lia; destruct frag; reflexivity.
Qed.

Lemma marshalBlock_wire dst b :
  block_ok b -> wire_len b <= len dst ->
  marshalBlock dst b = Ok (over (block_wire b) dst, wire_len b).
Proof.
  intros Hok Hl. unfold marshalBlock. rewrite blockLen_ok by done. zbool.
  rewrite <- len_block_wire in Hl by done. revert Hl.
  destruct Hok as (Hd & Hm & Hg & Hb). unfold block_wire, block_flag, address, u16.
  rewrite (Z.mod_small (len (Data b))) by lia.
  destruct (FollowOn b).
  - intros Hl. rewrite follow_flag by lia. len_simpl_in Hl. write_run dst. by rewrite <- !app_assoc.
  - destruct Hb as [Hdel Ht]. rewrite first_flag by lia.
    replace (if negb (Last b) then 8 else 0) with (if Last b then 0 else 8) by by destruct (Last b).
    destruct (Delivery b =? DeliveryTunnel), (Delivery b =? DeliveryRouter), (Last b);
      cbn [negb]; intros Hl; len_simpl_in Hl; write_run dst; by rewrite <- ?app_assoc.
Qed.

(** ** Reading it back *)

Lemma follow_flag_read frag (last : bool) :
  0 < frag <= 63 ->
  let flag := 128 + 2 * frag + (if last then 1 else 0) in
  negb (Z.land flag 0x80 =? 0) = true /\ Z.land (Z.shiftr flag 1) 0x3f = frag /\
  negb (Z.land flag 1 =? 0) = last.
Proof.
  intros H flag.
  assert (forall z, 0 <= z < Z.of_nat 64 ->
    let f := 128 + 2 * z + (if last then 1 else 0) in
    (negb (Z.land f 0x80 =? 0) && (Z.land (Z.shiftr f 1) 0x3f =? z) &&
     Bool.eqb (negb (Z.land f 1 =? 0)) last) = true) as Hx
    by (apply exhaust; destruct last; vm_compute; reflexivity).
  specialize (Hx frag ltac:(lia)). cbn zeta in Hx. fold flag in Hx.
  rewrite !andb_true_iff, Z.eqb_eq in Hx. destruct Hx as [[? ?] ?%Bool.eqb_prop]. done.
Qed.

Lemma first_flag_read d (last : bool) :
  0 <= d <= 2 ->
  let flag := 32 * d + (if last then 0 else 8) in
  negb (Z.land flag 0x80 =? 0) = false /\ negb (Z.land flag 0x17 =? 0) = false /\
  Z.land (Z.shiftr flag 5) 3 = d /\ negb (Z.land flag 0x08 =? 0) = negb last.
Proof.
  intros H. assert (d = 0 \/ d = 1 \/ d = 2) as [-> | [-> | ->]] by lia; destruct last; done.
Qed.

(** Runs the iterator's monad. *)
Ltac next_run :=
  repeat first
  [ progress cbn [gbind get put lift ret fail bind fst snd Delivery Gateway TunnelID MessageID Fragment FollowOn Last Data]
  | rewrite slice_ok by len_lia
  | rewrite slice_from_ok by len_lia
  | match goal with
    | |- context [be_uint ?n (sub ?lo ?hi ?l)] => rewrite (be_uint_sub n l lo hi) by len_lia
    end
  | progress sub_norm | progress zbool ].

Lemma Next_wire b rest :
  block_ok b -> Next (block_wire b ++ rest) = (Ok (Some (received b)), rest).
Proof.
  intros Hok. assert (wire_len b = len (block_wire b)) as Hw by (symmetry; by apply len_block_wire).
  destruct Hok as (Hd & Hm & Hg & Hb). destruct b as [del gw tid mid frag fo last data].
  unfold Next, block_wire, block_flag, address, received, gbind, get, put, lift, ret, fail.
  cbn [Delivery Gateway TunnelID MessageID Fragment FollowOn Last Data] in *.
  destruct fo.
  - destruct (follow_flag_read frag last Hb) as (H1 & H2 & H3).
    rewrite <- !app_assoc. next_run. by rewrite H2, H3.
  - destruct Hb as [Hdel Ht]. destruct (first_flag_read del last Hdel) as (H1 & H2 & H3 & H4).
    unfold DeliveryTunnel, DeliveryRouter in *. rewrite <- !app_assoc.
    assert (del = 0 \/ del = 1 \/ del = 2) as [-> | [-> | ->]] by lia; destruct last; cbn [negb Z.eqb Pos.eqb orb];
      rewrite <- ?app_assoc; next_run; done.
Qed.

(** ** What the iterator accepts *)

Lemma flag_cases flag :
  is_byte flag ->
  (negb (Z.land flag 0x80 =? 0) = true ->
   flag = 128 + 2 * Z.land (Z.shiftr flag 1) 0x3f + (if negb (Z.land flag 1 =? 0) then 1 else 0) /\
   0 <= Z.land (Z.shiftr flag 1) 0x3f <= 63) /\
  (negb (Z.land flag 0x80 =? 0) = false -> negb (Z.land flag 0x17 =? 0) = false ->
   flag = 32 * Z.land (Z.shiftr flag 5) 3 + (if negb (Z.land flag 0x08 =? 0) then 8 else 0) /\
   0 <= Z.land (Z.shiftr flag 5) 3 <= 3).
Proof.
  intros Hf.
  assert (forall z, 0 <= z < Z.of_nat 256 ->
    (if negb (Z.land z 0x80 =? 0) then
      (z =? 128 + 2 * Z.land (Z.shiftr z 1) 0x3f + (if negb (Z.land z 1 =? 0) then 1 else 0)) &&
      (0 <=? Z.land (Z.shiftr z 1) 0x3f) && (Z.land (Z.shiftr z 1) 0x3f <=? 63)
     else implb (negb (negb (Z.land z 0x17 =? 0)))
      ((z =? 32 * Z.land (Z.shiftr z 5) 3 + (if negb (Z.land z 0x08 =? 0) then 8 else 0)) &&
      (0 <=? Z.land (Z.shiftr z 5) 3) && (Z.land (Z.shiftr z 5) 3 <=? 3))) = true) as H
   by (apply exhaust; vm_compute; reflexivity).
  specialize (H flag Hf). split.
  - intros E. rewrite E in H. lia.
  - intros E1 E2. rewrite E1, E2 in H. cbn [negb implb] in H. lia.
Qed.

Ltac next_finish :=
  match goal with
  | Hb : 0 <= ?x < 256, Hx : index ?r 0 = Ok ?x |- _ =>
      let F1 := fresh in let F2 := fresh in
      destruct (flag_cases x Hb) as [F1 F2];
      unfold block_ok, received, block_wire, block_flag, address, DeliveryTunnel, DeliveryRouter;
      cbn [Delivery Gateway TunnelID MessageID Fragment FollowOn Last Data];
      use_bools; cbn [orb];
      repeat match type of F1 with ?P -> _ => specialize (F1 ltac:(assumption)) end;
      repeat match type of F2 with ?P -> _ => specialize (F2 ltac:(assumption)) end;
      repeat match goal with
      | H : ?b = true, F : context [if ?b then _ else _] |- _ => rewrite H in F
      | H : ?b = false, F : context [if ?b then _ else _] |- _ => rewrite H in F
      end;
      split_and!; try done; try len_lia;
      match goal with |- context [[?e]] => replace e with x by lia end;
      rewrite <- (index_one r 0 1 x Hx) by lia; len_simpl;
      match goal with |- context [be_bytes 2 ?e] =>
        match e with context [be_val ?s] => replace e with (be_val s) by lia end end;
      rewrite <- ?app_assoc, ?app_nil_l; sub_join;
      symmetry; apply sub_all; lia
  end.

Lemma Next_sound r b r' :
  bytes_ok r -> Next r = (Ok (Some b), r') ->
  block_ok b /\ received b = b /\ r = block_wire b ++ r'.
Proof.
  intros Hok. unfold Next, DeliveryTunnel, DeliveryRouter. go_unfold.
  go_run.
  all: intros; simplify_eq.
  all: be_uppers; next_finish.
Qed.

Lemma Next_safe r :
  bytes_ok r -> (Next r).1 <> Panic /\ bytes_ok (Next r).2 /\ len (Next r).2 <= len r.
Proof.
  intros Hok. unfold Next, DeliveryTunnel, DeliveryRouter. go_unfold.
  go_run; split_and!; try done; try (by apply bytes_ok_sub); len_lia.
Qed.

Lemma Next_consumes r b r' : bytes_ok r -> Next r = (Ok (Some b), r') -> len r' + 4 <= len r.
Proof.
  intros Hok E. destruct (Next_sound r b r' Hok E) as (Hbk & _ & ->). len_simpl.
  rewrite len_block_wire by done. unfold wire_len. destruct Hbk as (? & _).
  destruct (FollowOn b), (Delivery b =? DeliveryTunnel), (Delivery b =? DeliveryRouter), (Last b); lia.
Qed.

(** ** Properties *)

(** A delivery block survives the wire.  Marshalling any sendable block
    into a buffer with room writes exactly its wire form, and the iterator
    reads back the block (the fields the wire carries), leaving what follows. *)
Theorem block_roundtrip b dst :
  block_ok b -> wire_len b <= len dst ->
  exists dst', marshalBlock dst b = Ok (dst', wire_len b) /\ len dst' = len dst /\
    Next dst' = (Ok (Some (received b)), sub (wire_len b) (len dst) dst).
Proof.
  intros Hok Hl. exists (over (block_wire b) dst). rewrite marshalBlock_wire by done.
  rewrite <- len_block_wire in * by done. rewrite len_over by done. split_and!; [done..|].
  unfold over. by rewrite Next_wire.
Qed.

(** The iterator accepts exactly the wire forms: it yields [b] and leaves
    [r'] if and only if the input is the wire form of [b] followed by [r'] and
    [b] is a sendable block with only wire-carried fields. *)
Theorem Next_exact r b r' :
  bytes_ok r ->
  Next r = (Ok (Some b), r') <-> block_ok b /\ received b = b /\ r = block_wire b ++ r'.
Proof.
  intros Hok. split; [by apply Next_sound|]. intros (Hb & Hr & ->). rewrite Next_wire by done. by rewrite Hr.
Qed.

(** On arbitrary bytes the iterator returns (never out of range) and makes
    progress: a yielded block consumed at least four bytes, so iterating a
    payload terminates. *)
Theorem Next_progress r :
  bytes_ok r ->
  (Next r).1 <> Panic /\
  (forall b, (Next r).1 = Ok (Some b) -> len (Next r).2 + 4 <= len r) /\
  ((Next r).1 = Ok None -> r = []).
Proof.
  intros Hok. destruct (Next_safe r Hok) as (Hs & _ & _). split; [done|]. split.
  - intros b Hb. destruct (Next r) as [m r'] eqn:E. cbn in *. subst m. by eapply Next_consumes.
  - unfold Next, DeliveryTunnel, DeliveryRouter. go_unfold. go_run; try discriminate.
    intros _. apply len_zero_nil. lia.
Qed.

(** ** Witnesses *)

Definition sample_first : Block :=
  mkBlock DeliveryTunnel (replicate 32 7) 4242 99 0 false false [1; 2; 3].

