(* ===== verification/Reassembly.v ===== *)
(** Fragment reassembly, [src/dataplane/internal/tunnel/reassembly.go].

    The map of incomplete messages is a [gmap]; Go's unspecified map iteration
    order is an argument [range] of the operations that iterate, constrained
    only to enumerate the map.  The pooled leases that hold the copied
    fragments are owned by their entry until it is removed, so a part is
    modelled by its bytes.  [remove] clears an entry before it puts it into
    [partialPool], so an entry taken from there is a zero one. *)

From S2P Require Import Prelude.

Record Fragment := mkFragment { FMessageID : Z; Number : Z; FLast : bool; FData : bytes }.

Record partial := mkPartial {
  parts : list bytes; seen : Z; terminal : Z; last : Z; hasLast : bool; psize : Z; created : Z }.

Record Reassembler := mkReassembler {
  maxEntries : Z; maxMessage : Z; entries : gmap Z partial }.

(** An enumeration order of a map, as a [for range] loop may take it. *)
Definition ordering (range : gmap Z partial -> list (Z * partial)) : Prop :=
  forall m, range m ≡ₚ map_to_list m.

Definition NewReassembler (maxEntries maxMessage : Z) : Reassembler :=
  mkReassembler (if maxEntries <=? 0 then 128 else maxEntries)
    (if maxMessage <=? 0 then 62690 else maxMessage) ∅.

Definition zeroPartial (now : Z) : partial := mkPartial (replicate 64 []) 0 0 0 false 0 now.

Definition set_entries (m : gmap Z partial) (r : Reassembler) : Reassembler :=
  mkReassembler (maxEntries r) (maxMessage r) m.

Definition remove (id : Z) (r : Reassembler) : Reassembler := set_entries (delete id (entries r)) r.

(** The loop of [evictOldest]: the entry with the least creation time.  The
    tunnel endpoint runs the same loop over its delivery metadata. *)
Definition oldest {A} (time : A -> Z) (order : list (Z * A)) : Z * Z :=
  fold_left (fun acc item => if time item.2 <? acc.2 then (item.1, time item.2) else acc)
    order (0, 2 ^ 64 - 1).

Definition evictOldest (range : gmap Z partial -> list (Z * partial)) (r : Reassembler) : Reassembler :=
  remove (oldest created (range (entries r))).1 r.

(** The entry [Add] works on: the message's own, or a fresh one stored under
    its identifier after making room for it. *)
Definition entryFor (range : gmap Z partial -> list (Z * partial)) (id now : Z) (r : Reassembler)
  : partial * Reassembler :=
  match entries r !! id with
  | Some e => (e, r)
  | None =>
      let r := if Z.of_nat (size (entries r)) =? maxEntries r then evictOldest range r else r in
      (zeroPartial now, set_entries (<[id := zeroPartial now]> (entries r)) r)
  end.

(** The rest of [Add], on the entry found; [Ok None] is an incomplete message. *)
Definition accept (fragment : Fragment) (entry : partial) (r : Reassembler)
  : res (option bytes) * Reassembler :=
  let id := FMessageID fragment in
  if hasLast entry && (Number fragment >? last entry) then (Err ErrFragment, remove id r)
  else
    let bit := u64 (Z.shiftl 1 (Number fragment)) in
    if negb (Z.land (seen entry) bit =? 0) then
      if negb (Bool.eqb (negb (Z.land (terminal entry) bit =? 0)) (FLast fragment)) ||
         negb (bytes_eqb (default [] (parts entry !! Z.to_nat (Number fragment))) (FData fragment))
      then (Err ErrFragment, remove id r)
      else (Ok None, r)
    else if psize entry >? maxMessage r - len (FData fragment) then (Err ErrTooLarge, remove id r)
    else
      let seen' := Z.lor (seen entry) bit in
      let parts' := <[Z.to_nat (Number fragment) := FData fragment]> (parts entry) in
      let terminal' := if FLast fragment then Z.lor (terminal entry) bit else terminal entry in
      let size' := psize entry + len (FData fragment) in
      if FLast fragment && hasLast entry && negb (last entry =? Number fragment)
      then (Err ErrFragment, remove id r)
      else if FLast fragment && negb (Z.shiftr seen' (u8 (Number fragment + 1)) =? 0)
      then (Err ErrFragment, remove id r)
      else
        let last' := if FLast fragment then Number fragment else last entry in
        let hasLast' := if FLast fragment then true else hasLast entry in
        let entry' := mkPartial parts' seen' terminal' last' hasLast' size' (created entry) in
        let stored := set_entries (<[id := entry']> (entries r)) r in
        if negb hasLast' then (Ok None, stored)
        else
          let requiredMask := Z.shiftr (2 ^ 64 - 1) (u8 (63 - last')) in
          if negb (Z.land seen' requiredMask =? requiredMask) then (Ok None, stored)
          else (Ok (Some (concat (take (Z.to_nat (last' + 1)) parts'))), remove id stored).

Definition Add (range : gmap Z partial -> list (Z * partial)) (fragment : Fragment) (now : Z)
    (r : Reassembler) : res (option bytes) * Reassembler :=
  if (len (FData fragment) =? 0) || (Number fragment >? 63) then (Err ErrFragment, r)
  else
    let (entry, r) := entryFor range (FMessageID fragment) now r in
    accept fragment entry r.

(** [Expire]: the loop over the map, deleting as it goes. *)
Definition Expire (range : gmap Z partial -> list (Z * partial)) (cutoff : Z) (r : Reassembler)
  : Z * Reassembler :=
  fold_left (fun acc item =>
      if created item.2 <=? cutoff then (acc.1 + 1, remove item.1 acc.2) else acc)
    (range (entries r)) (0, r).

(** ** Bit masks *)

Lemma land_pow2 x i : 0 <= i -> Z.land x (2 ^ i) = if Z.testbit x i then 2 ^ i else 0.
Proof.
  intros Hi. apply Z.bits_inj'. intros j Hj. rewrite Z.land_spec, Z.pow2_bits_eqb by lia.
  destruct (i =? j) eqn:E.
  - apply Z.eqb_eq in E as <-. destruct (Z.testbit x i); [by rewrite Z.pow2_bits_true by lia|by rewrite Z.bits_0].
  - rewrite andb_false_r. destruct (Z.testbit x i); [by rewrite Z.pow2_bits_eqb, E by lia|by rewrite Z.bits_0].
Qed.

Lemma land_pow2_test x i : 0 <= i -> negb (Z.land x (2 ^ i) =? 0) = Z.testbit x i.
Proof.
  intros. rewrite land_pow2 by done. pose proof (Z.pow_pos_nonneg 2 i).
  destruct (Z.testbit x i); [by rewrite (proj2 (Z.eqb_neq _ _)) by lia|done].
Qed.

Lemma testbit_lor_pow2 x i j :
  0 <= i -> 0 <= j -> Z.testbit (Z.lor x (2 ^ i)) j = Z.testbit x j || (i =? j).
Proof. intros. by rewrite Z.lor_spec, Z.pow2_bits_eqb by lia. Qed.

Lemma lor_pow2_bound x i n : 0 <= i < n -> 0 <= x < 2 ^ n -> 0 <= Z.lor x (2 ^ i) < 2 ^ n.
Proof.
  intros Hi Hx. assert (Z.lor x (2 ^ i) = Z.land (Z.lor x (2 ^ i)) (Z.ones n)) as ->.
  { rewrite Z.land_lor_distr_l, !Z.land_ones, !Z.mod_small by lia || (split; [lia|]; apply Z.pow_lt_mono_r; lia).
    done. }
  rewrite Z.land_ones by lia. apply Z.mod_pos_bound. lia.
Qed.

Lemma required_mask n : 1 <= n <= 64 -> Z.shiftr (2 ^ 64 - 1) (u8 (63 - (n - 1))) = Z.ones n.
Proof.
  intros Hn.
  assert (forall z, 0 <= z < Z.of_nat 64 ->
    (Z.shiftr (2 ^ 64 - 1) (u8 (63 - z)) =? Z.ones (z + 1)) = true) as H
    by (apply exhaust; vm_compute; reflexivity).
  specialize (H (n - 1) ltac:(lia)). apply Z.eqb_eq in H. rewrite H. f_equal. lia.
Qed.

Lemma mask_complete x n : 0 < n -> 0 <= x < 2 ^ n -> (Z.land x (Z.ones n) =? Z.ones n) = (x =? Z.ones n).
Proof. intros. by rewrite Z.land_ones, Z.mod_small by lia. Qed.

Lemma full_iff_bits x n :
  0 <= n -> 0 <= x < 2 ^ n -> x = Z.ones n <-> forall i, 0 <= i < n -> Z.testbit x i = true.
Proof.
  intros Hn Hx. split.
  - intros -> i Hi. apply Z.ones_spec_low. lia.
  - intros H. apply Z.bits_inj'. intros i Hi. destruct (decide (i < n)).
    + rewrite H, Z.ones_spec_low by lia. done.
    + rewrite Z.ones_spec_high by lia. destruct (decide (x = 0)) as [->|]; [apply Z.bits_0|].
      apply Z.bits_above_log2; [lia|]. apply Z.log2_lt_pow2; [lia|].
      assert (2 ^ n <= 2 ^ i) by (apply Z.pow_le_mono_r; lia). lia.
Qed.

Lemma shiftr_bounded x k : 0 <= k -> 0 <= x < 2 ^ k -> Z.shiftr x k = 0.
Proof. intros. rewrite Z.shiftr_div_pow2, Z.div_small by lia. done. Qed.
Lemma lor_pow2_absorb x i : 0 <= i -> Z.testbit x i = true -> Z.lor x (2 ^ i) = x.
Proof.
  intros Hi Hx. apply Z.bits_inj'. intros j Hj. rewrite testbit_lor_pow2 by done.
  destruct (Z.eqb_spec i j) as [<-|]; [by rewrite Hx|apply orb_false_r].
Qed.

(** ** The entry of a message some of whose fragments have arrived *)

Section Message.
Variable ds : list bytes.
Let n : Z := len ds.

(** The [i]-th fragment of the message split as [ds]. *)
Definition frag_of (id : Z) (i : nat) : Fragment :=
  mkFragment id (Z.of_nat i) (Z.of_nat i =? n - 1) (default [] (ds !! i)).

Fixpoint size_for (ds : list bytes) (got : Z) : Z :=
  match ds with
  | [] => 0
  | d :: ds => (if Z.testbit got 0 then len d else 0) + size_for ds (Z.shiftr got 1)
  end.

Definition part_for (got : Z) (i : nat) : bytes :=
  if Z.testbit got (Z.of_nat i) then default [] (ds !! i) else [].

(** What the entry holds when exactly the fragments of [got] have arrived. *)
Definition entry_for (got now : Z) : partial :=
  let final := Z.testbit got (n - 1) in
  mkPartial (part_for got <$> seq 0 64) got (if final then 2 ^ (n - 1) else 0)
    (if final then n - 1 else 0) final (size_for ds got) now.

End Message.

Lemma size_for_add ds got i d :
  ds !! i = Some d -> Z.testbit got (Z.of_nat i) = false ->
  size_for ds (Z.lor got (2 ^ Z.of_nat i)) = size_for ds got + len d.
Proof.
  revert got i. induction ds as [|e ds IH]; intros got i Hd Hi; [done|].
  cbn [size_for]. rewrite testbit_lor_pow2, Z.shiftr_lor by lia.
  destruct i as [|i]; cbn in Hd; simplify_eq.
  - change (Z.shiftr (2 ^ Z.of_nat 0) 1) with 0. change (Z.of_nat 0) with 0 in *. rewrite Hi, Z.lor_0_r.
    cbn [Z.eqb orb]. lia.
  - rewrite (proj2 (Z.eqb_neq _ 0)), orb_false_r by lia.
    rewrite Z.shiftr_div_pow2 with (a := 2 ^ _) by lia.
    rewrite <- Z.pow_sub_r by lia. replace (Z.of_nat (S i) - 1) with (Z.of_nat i) by lia.
    rewrite IH; [lia|done|]. rewrite Z.shiftr_spec by lia. rewrite <- Hi. f_equal. lia.
Qed.

Lemma size_for_le ds got : size_for ds got <= len (concat ds).
Proof.
  revert got. induction ds as [|d ds IH]; intros; cbn [size_for concat]; [done|].
  rewrite len_app. specialize (IH (Z.shiftr got 1)).
  pose proof (len_nonneg d). destruct (Z.testbit got 0); lia.
Qed.

Lemma size_for_zero ds : size_for ds 0 = 0.
Proof. induction ds as [|d ds IH]; cbn [size_for]; [done|]. rewrite Z.bits_0. apply IH. Qed.

Lemma parts_zero ds : part_for ds 0 <$> seq 0 64 = replicate 64 [].
Proof. reflexivity. Qed.

Lemma parts_lookup ds got i :
  (i < 64)%nat -> (part_for ds got <$> seq 0 64) !! i = Some (part_for ds got i).
Proof. intros. by rewrite list_lookup_fmap, lookup_seq_lt by lia. Qed.

Lemma parts_insert ds got i :
  (i < 64)%nat ->
  <[i := default [] (ds !! i)]> (part_for ds got <$> seq 0 64) =
  part_for ds (Z.lor got (2 ^ Z.of_nat i)) <$> seq 0 64.
Proof.
  intros Hi. apply list_eq. intros j.
  destruct (decide (j < 64)%nat) as [Hj|Hj].
  - rewrite parts_lookup by done. destruct (decide (i = j)) as [->|Hne].
    + rewrite list_lookup_insert_eq by (by rewrite length_fmap, length_seq).
      unfold part_for. by rewrite testbit_lor_pow2, Z.eqb_refl, orb_true_r by lia.
    + rewrite list_lookup_insert_ne, parts_lookup by done. unfold part_for.
      rewrite testbit_lor_pow2, (proj2 (Z.eqb_neq (Z.of_nat i) _)), orb_false_r by lia. done.
  - rewrite !lookup_ge_None_2; rewrite ?length_insert, ?length_fmap, ?length_seq; done || lia.
Qed.

Lemma parts_full ds :
  len ds <= 64 ->
  take (Z.to_nat (len ds - 1 + 1)) (part_for ds (Z.ones (len ds)) <$> seq 0 64) = ds.
Proof.
  intros Hn. replace (Z.to_nat (len ds - 1 + 1)) with (length ds) by (unfold len; lia).
  unfold len in Hn. apply list_eq. intros j. destruct (decide (j < length ds)%nat) as [Hj|Hj].
  - rewrite lookup_take_lt, parts_lookup by lia. unfold part_for.
    rewrite Z.ones_spec_low by (unfold len; lia).
    destruct (lookup_lt_is_Some_2 ds j Hj) as [d ->]. done.
  - rewrite lookup_take_ge, lookup_ge_None_2 by lia. done.
Qed.

(** A message the gateway may have split as [ds]. *)
Definition message_ok (limit : Z) (ds : list bytes) : Prop :=
  1 <= len ds <= 64 /\ Forall (fun d => d <> []) ds /\ len (concat ds) <= limit.

Lemma entry_for_zero ds now : entry_for ds 0 now = zeroPartial now.
Proof. unfold entry_for. rewrite Z.bits_0, parts_zero, size_for_zero. done. Qed.

Lemma bit_of (i : nat) : (i < 64)%nat -> u64 (Z.shiftl 1 (Z.of_nat i)) = 2 ^ Z.of_nat i.
Proof.
  intros. rewrite Z.shiftl_1_l. apply Z.mod_small. split; [lia|]. apply Z.pow_lt_mono_r; lia.
Qed.

(** One fragment of the message, on an entry that holds the fragments of [got]. *)
Lemma accept_frag ds id i d t got r :
  message_ok (maxMessage r) ds -> ds !! i = Some d -> 0 <= got < 2 ^ len ds ->
  accept (frag_of ds id i) (entry_for ds got t) r =
  if Z.testbit got (Z.of_nat i) then (Ok None, r)
  else
    let got' := Z.lor got (2 ^ Z.of_nat i) in
    let stored := set_entries (<[id := entry_for ds got' t]> (entries r)) r in
    if got' =? Z.ones (len ds) then (Ok (Some (concat ds)), remove id stored) else (Ok None, stored).
Proof.
  intros (Hn & Hne & Hsz) Hd Hgot.
  assert (Hi : (i < length ds)%nat) by (by eapply lookup_lt_Some).
  assert (Hin : Z.of_nat i <= len ds - 1) by (unfold len; lia).
  unfold accept. cbn [FMessageID Number FLast FData frag_of hasLast last seen terminal parts psize created entry_for].
  rewrite bit_of by (unfold len in *; lia). rewrite Nat2Z.id, !land_pow2_test by lia.
  set (fin := Z.testbit got (len ds - 1)).
  replace (fin && (Z.of_nat i >? (if fin then len ds - 1 else 0))) with false
    by (destruct fin; cbn [andb]; lia).
  destruct (Z.testbit got (Z.of_nat i)) eqn:Hbit.
  - rewrite parts_lookup by (unfold len in *; lia). unfold part_for. rewrite Hbit. cbn [from_option Datatypes.id].
    replace (Z.testbit (if fin then 2 ^ (len ds - 1) else 0) (Z.of_nat i)) with (Z.of_nat i =? len ds - 1).
    { rewrite Bool.eqb_reflx. unfold bytes_eqb. by rewrite bool_decide_true. }
    subst fin. destruct (decide (Z.of_nat i = len ds - 1)) as [E|E].
    + rewrite <- E, Hbit, Z.pow2_bits_true, Z.eqb_refl by lia. done.
    + rewrite (proj2 (Z.eqb_neq _ _)) by lia. destruct (Z.testbit got (len ds - 1)); [|by rewrite Z.bits_0].
      rewrite Z.pow2_bits_eqb, (proj2 (Z.eqb_neq _ _)) by lia. done.
  - rewrite Hd. cbn [from_option Datatypes.id].
    pose proof (size_for_add ds got i d Hd Hbit) as Hadd.
    pose proof (size_for_le ds (Z.lor got (2 ^ Z.of_nat i))) as Hle.
    assert (Hb' := lor_pow2_bound got (Z.of_nat i) (len ds) ltac:(lia) Hgot).
    assert (Hparts := parts_insert ds got i ltac:(unfold len in *; lia)).
    rewrite Hd in Hparts. cbn [from_option Datatypes.id] in Hparts. rewrite Hparts, <- Hadd.
    assert (Htop := testbit_lor_pow2 got (Z.of_nat i) (len ds - 1) ltac:(lia) ltac:(lia)).
    zbool. unfold entry_for. cbv zeta. revert Htop Hb'. fold fin.
    generalize (Z.lor got (2 ^ Z.of_nat i)). intros got' Htop Hb'. rewrite Htop.
    destruct (decide (Z.of_nat i = len ds - 1)) as [E|E].
    + assert (fin = false) as -> by (subst fin; by rewrite <- E).
      rewrite E, Z.eqb_refl. cbn [andb orb negb].
      replace (u8 (len ds - 1 + 1)) with (len ds) by (unfold u8; rewrite Z.mod_small; lia).
      rewrite shiftr_bounded, Z.eqb_refl, Z.lor_0_l by lia. cbn [negb].
      rewrite required_mask, mask_complete by lia.
      destruct (got' =? Z.ones (len ds)) eqn:Hfull; [|done]. cbn [negb].
      apply Z.eqb_eq in Hfull as ->. by rewrite parts_full by lia.
    + rewrite (proj2 (Z.eqb_neq _ _)) by lia. rewrite orb_false_r. cbn [andb].
      destruct fin; cbn [negb].
      * rewrite required_mask, mask_complete by lia.
        destruct (got' =? Z.ones (len ds)) eqn:Hfull; [|done]. cbn [negb].
        apply Z.eqb_eq in Hfull as ->. by rewrite parts_full by lia.
      * rewrite (proj2 (Z.eqb_neq _ _)); [done|]. intros ->.
        rewrite Z.ones_spec_low, (proj2 (Z.eqb_neq _ _)) in Htop by lia. done.
Qed.

(** ** The other entries *)

Lemma accept_frame f e r :
  let r' := (accept f e r).2 in
  maxEntries r' = maxEntries r /\ maxMessage r' = maxMessage r /\
  dom (entries r') ⊆ dom (entries r) ∪ {[FMessageID f]} /\
  forall j, j <> FMessageID f -> entries r' !! j = entries r !! j.
Proof.
  unfold accept. cbv zeta. repeat go_if; cbn [snd remove set_entries entries maxEntries maxMessage];
    (split_and!; [done|done|rewrite ?dom_delete_L, ?dom_insert_L; clear; set_solver|]);
    intros; rewrite ?lookup_delete_ne, ?lookup_insert_ne by done; done.
Qed.

(** A sequence of arrivals, each with the time it is handled at. *)
Fixpoint run (range : gmap Z partial -> list (Z * partial)) (arrivals : list (Fragment * Z))
    (r : Reassembler) : list (res (option bytes)) * Reassembler :=
  match arrivals with
  | [] => ([], r)
  | (f, now) :: rest =>
      let (out, r) := Add range f now r in
      let (outs, r) := run range rest r in
      (out :: outs, r)
  end.

(** With room for every message of [X] no entry is ever evicted. *)
Lemma entryFor_room range (X : gset Z) id now r :
  Z.of_nat (size X) <= maxEntries r -> dom (entries r) ⊆ X -> id ∈ X ->
  entryFor range id now r =
  match entries r !! id with
  | Some e => (e, r)
  | None => (zeroPartial now, set_entries (<[id := zeroPartial now]> (entries r)) r)
  end.
Proof.
  intros HX Hdom Hid. unfold entryFor. destruct (entries r !! id) eqn:E; [done|].
  rewrite (proj2 (Z.eqb_neq _ _)); [done|].
  apply not_elem_of_dom in E.
  assert (size (dom (entries r)) < size X)%nat by (apply subset_size; set_solver).
  rewrite size_dom in *. lia.
Qed.

Lemma Add_other range (X : gset Z) f now r :
  Z.of_nat (size X) <= maxEntries r -> dom (entries r) ⊆ X -> FMessageID f ∈ X ->
  let r' := (Add range f now r).2 in
  maxEntries r' = maxEntries r /\ maxMessage r' = maxMessage r /\ dom (entries r') ⊆ X /\
  forall j, j <> FMessageID f -> entries r' !! j = entries r !! j.
Proof.
  intros HX Hdom Hf. unfold Add. destruct (_ || _); [by split_and!|].
  rewrite (entryFor_room range X) by done. destruct (entries r !! FMessageID f) eqn:E; cbv zeta.
  - destruct (accept_frame f p r) as (HE & HM & Hd & Hfr). split_and!; [done|done|set_solver|done].
  - destruct (accept_frame f (zeroPartial now) (set_entries (<[FMessageID f:=zeroPartial now]> (entries r)) r))
      as (HE & HM & Hd & Hfr). cbn [set_entries entries maxEntries maxMessage] in *.
    split_and!; [done|done|rewrite dom_insert_L in Hd; set_solver|].
    intros j Hj. by rewrite Hfr, lookup_insert_ne.
Qed.

(** ** Any order, interleaved with other messages *)

Section AnyOrder.
Context (range : gmap Z partial -> list (Z * partial)) (ds : list bytes) (id : Z) (X : gset Z) (i : nat).

(** The state after some fragments other than the [i]-th have arrived. *)
Definition receiving (got : Z) (r : Reassembler) : Prop :=
  message_ok (maxMessage r) ds /\ Z.of_nat (size X) <= maxEntries r /\ dom (entries r) ⊆ X /\
  0 <= got < 2 ^ len ds /\ Z.testbit got (Z.of_nat i) = false /\
  (got = 0 /\ entries r !! id = None \/ exists t, entries r !! id = Some (entry_for ds got t)).

(** An arrival: a fragment of the message other than the [i]-th, or anything
    of another message of [X]. *)
Definition arrival_ok (f : Fragment) : Prop :=
  FMessageID f ∈ X /\
  (FMessageID f = id -> exists j, (j < length ds)%nat /\ j <> i /\ f = frag_of ds id j).

Definition mark (got : Z) (f : Fragment) : Z :=
  if decide (FMessageID f = id) then Z.lor got (2 ^ Number f) else got.

Lemma Add_eq f now r :
  (len (FData f) =? 0) || (Number f >? 63) = false ->
  Add range f now r = accept f (entryFor range (FMessageID f) now r).1 (entryFor range (FMessageID f) now r).2.
Proof. intros H. unfold Add. rewrite H. by destruct (entryFor _ _ _ _). Qed.

Lemma frag_of_valid j :
  message_ok (len (concat ds)) ds -> (j < length ds)%nat ->
  (len (FData (frag_of ds id j)) =? 0) || (Number (frag_of ds id j) >? 63) = false.
Proof.
  intros (Hn & Hne & _) Hj. destruct (lookup_lt_is_Some_2 ds j Hj) as [d Hd].
  cbn [FData Number frag_of]. rewrite Hd. cbn [from_option Datatypes.id].
  pose proof (Forall_lookup_1 _ _ _ _ Hne Hd). destruct d; [done|]. rewrite len_cons.
  pose proof (len_nonneg d). unfold len in Hn. lia.
Qed.

Lemma Add_own got r j now :
  receiving got r -> id ∈ X -> (j < length ds)%nat ->
  exists t r0,
    maxEntries r0 = maxEntries r /\ maxMessage r0 = maxMessage r /\ dom (entries r0) ⊆ X /\
    entries r0 !! id = Some (entry_for ds got t) /\
    Add range (frag_of ds id j) now r = accept (frag_of ds id j) (entry_for ds got t) r0.
Proof.
  intros (Hok & HX & Hdom & Hgot & Hi & Hent) Hid Hj.
  rewrite Add_eq by (apply frag_of_valid; [split_and!; apply Hok || done|done]).
  cbn [FMessageID frag_of]. rewrite (entryFor_room range X) by done.
  destruct Hent as [[-> E]|[t E]]; rewrite E; cbn [fst snd].
  - exists now, (set_entries (<[id:=zeroPartial now]> (entries r)) r). rewrite entry_for_zero.
    split_and!; try done; cbn; [set_solver|by rewrite lookup_insert_eq].
  - exists t, r. done.
Qed.

Lemma testbit_marks fs : forall got j,
  0 <= j -> Forall (fun f => FMessageID f = id -> 0 <= Number f) fs ->
  Z.testbit (fold_left mark fs got) j = true <->
  Z.testbit got j = true \/ exists f, f ∈ fs /\ FMessageID f = id /\ Number f = j.
Proof.
  induction fs as [|f fs IH]; intros got j Hj Hall; cbn [fold_left]; [set_solver|].
  apply Forall_cons in Hall as [Hf Hall]. rewrite IH by done. unfold mark.
  destruct (decide (FMessageID f = id)) as [E|E].
  - rewrite testbit_lor_pow2, orb_true_iff, Z.eqb_eq by auto. set_solver.
  - set_solver.
Qed.

Context (Hlast : (i < length ds)%nat).

Lemma receiving_step got r f now :
  receiving got r -> arrival_ok f ->
  receiving (mark got f) (Add range f now r).2 /\ (FMessageID f = id -> (Add range f now r).1 = Ok None).
Proof.
  intros Hr [Hf Hown]. unfold mark. destruct (decide (FMessageID f = id)) as [E|E].
  - destruct (Hown E) as (j & Hj & Hji & ->). cbn [Number frag_of].
    destruct (lookup_lt_is_Some_2 ds j Hj) as [d Hd].
    destruct (Add_own got r j now Hr ltac:(by rewrite <- E) Hj) as (t & r0 & HE & HM & Hdom & Hent & ->).
    destruct Hr as (Hok & HX & _ & Hgot & Hi & _).
    assert (Hi' : Z.testbit (Z.lor got (2 ^ Z.of_nat j)) (Z.of_nat i) = false).
    { rewrite testbit_lor_pow2, Hi by lia. cbn [orb]. lia. }
    assert (Hb := lor_pow2_bound got (Z.of_nat j) (len ds) ltac:(unfold len; lia) Hgot).
    rewrite (accept_frag ds id j d t got r0); [|by rewrite HM|done|done].
    destruct (Z.testbit got (Z.of_nat j)) eqn:Hbit; [|cbv zeta; rewrite (proj2 (Z.eqb_neq _ _))];
      cbn [fst snd set_entries].
    + rewrite (lor_pow2_absorb got (Z.of_nat j)) by (done || lia).
      split; [|done]. unfold receiving. rewrite HM, HE. split_and!; try (done || lia); eauto.
    + split; [|done]. unfold receiving. cbn [maxEntries maxMessage entries set_entries].
      rewrite HM, HE. split_and!; try (done || lia); [rewrite dom_insert_L; set_solver|].
      right. exists t. by rewrite lookup_insert_eq.
    + intros Hfull. rewrite Hfull, Z.ones_spec_low in Hi'; [done|unfold len; lia].
  - split; [|done]. destruct Hr as (Hok & HX & Hdom & Hgot & Hi & Hent).
    destruct (Add_other range X f now r HX Hdom Hf) as (HE & HM & Hdom' & Hfr).
    unfold receiving. rewrite HE, HM, Hfr by congruence. split_and!; done || lia.
Qed.

(** The last missing fragment completes the message. *)
Lemma receiving_last got r now :
  receiving got r -> id ∈ X ->
  (forall j, (j < length ds)%nat -> j <> i -> Z.testbit got (Z.of_nat j) = true) ->
  (Add range (frag_of ds id i) now r).1 = Ok (Some (concat ds)) /\
  entries (Add range (frag_of ds id i) now r).2 !! id = None.
Proof.
  intros Hr Hid Hcover. destruct (lookup_lt_is_Some_2 ds i Hlast) as [d Hd].
  destruct (Add_own got r i now Hr Hid Hlast) as (t & r0 & HE & HM & Hdom' & Hent & ->).
  destruct Hr as (Hok' & _ & _ & Hgot & Hbit & _).
  rewrite (accept_frag ds id i d t got r0) by (rewrite ?HM; done). rewrite Hbit. cbv zeta.
  rewrite (proj2 (Z.eqb_eq _ _)); cbn [fst snd remove set_entries entries].
  { by rewrite lookup_delete_eq. }
  apply full_iff_bits; [apply len_nonneg|apply lor_pow2_bound; [unfold len; lia|done]|].
  intros j Hj. rewrite testbit_lor_pow2 by lia. destruct (Z.eqb_spec (Z.of_nat i) j) as [|Hne];
    [apply orb_true_r|]. rewrite orb_false_r. unfold len in Hj.
  rewrite <- (Z2Nat.id j) by lia. apply Hcover; lia.
Qed.

Lemma receiving_run arrivals : forall got r,
  receiving got r -> Forall (fun a => arrival_ok a.1) arrivals ->
  receiving (fold_left mark (fst <$> arrivals) got) (run range arrivals r).2 /\
  Forall2 (fun a out => FMessageID a.1 = id -> out = Ok None) arrivals (run range arrivals r).1.
Proof.
  induction arrivals as [|[f now] arrivals IH]; intros got r Hr Hall; [by cbn|].
  apply Forall_cons in Hall as [Hf Hall]. cbn [run].
  destruct (receiving_step got r f now Hr Hf) as [Hr' Hout].
  destruct (Add range f now r) as [out r'] eqn:E. cbn [fst snd] in *.
  destruct (IH _ _ Hr' Hall) as [Hr'' Houts].
  destruct (run range arrivals r') as [outs r'']. cbn [fst snd fmap list_fmap fold_left] in *.
  split; [done|]. by constructor.
Qed.
End AnyOrder.

(** C12: a message split into 1 to 64 non-empty fragments is delivered, intact,
    exactly when its last missing fragment arrives: whatever the order of the
    fragments, however often they are repeated before that, and whatever
    fragments of other messages (well formed or not) arrive in between, as long
    as the reassembler has room for all the messages in flight.  Every earlier
    fragment of the message is accepted without a delivery or an error, and the
    message leaves no state behind. *)
Theorem reassembly_any_order range (ds : list bytes) (id : Z) (X : gset Z) (i : nat)
    (arrivals : list (Fragment * Z)) (now : Z) (r : Reassembler) :
  message_ok (maxMessage r) ds ->
  Z.of_nat (size X) <= maxEntries r -> dom (entries r) ⊆ X -> id ∈ X ->
  entries r !! id = None ->
  Forall (fun a => arrival_ok ds id X i a.1) arrivals ->
  (i < length ds)%nat ->
  (forall j, (j < length ds)%nat -> j <> i -> frag_of ds id j ∈ fst <$> arrivals) ->
  Forall2 (fun a out => FMessageID a.1 = id -> out = Ok None) arrivals (run range arrivals r).1 /\
  (Add range (frag_of ds id i) now (run range arrivals r).2).1 = Ok (Some (concat ds)) /\
  entries (Add range (frag_of ds id i) now (run range arrivals r).2).2 !! id = None.
Proof.
  intros Hok HX Hdom Hid Hnone Hall Hi Hcover.
  assert (receiving ds id X i 0 r) as Hr.
  { unfold receiving. rewrite Z.bits_0. destruct Hok as (Hn & Hne & Hsz).
    split_and!; try done; [apply Z.pow_pos_nonneg; lia|by left]. }
  destruct (receiving_run range ds id X i Hi arrivals 0 r Hr Hall) as [Hr' Houts].
  split; [done|]. eapply receiving_last; [done|done|done|].
  intros j Hj Hne. apply testbit_marks; [lia| |].
  - apply Forall_fmap. eapply Forall_impl; [done|]. intros a [_ Ha] E.
    destruct (Ha E) as (k & _ & _ & Hk). cbn in *. rewrite Hk. cbn [Number frag_of]. lia.
  - right. exists (frag_of ds id j). split; [by apply Hcover|]. cbn [FMessageID Number frag_of]. lia.
Qed.

Lemma reassembly_any_order_witness :
  let ds := [[1]; [2; 3]; [4]] in
  let arrivals := [(frag_of ds 7 2, 10); (mkFragment 9 0 false [5], 11); (frag_of ds 7 0, 12);
                   (frag_of ds 7 2, 13)] in
  (Add map_to_list (frag_of ds 7 1) 14 (run map_to_list arrivals (NewReassembler 2 100)).2).1 =
    Ok (Some [1; 2; 3; 4]).
Proof.
  cbv zeta.
  refine (proj1 (proj2 (reassembly_any_order map_to_list [[1]; [2; 3]; [4]] 7 {[7; 9]} 1 _ 14
    (NewReassembler 2 100) _ _ _ _ _ _ _ _))).
  - repeat split; try (vm_compute; congruence). repeat constructor; done.
  - vm_compute. congruence.
  - set_solver.
  - set_solver.
  - reflexivity.
  - repeat constructor; try (vm_compute; reflexivity); cbn [fst FMessageID frag_of]; try set_solver;
      intros ?; first [done | exists 0%nat; split_and!; [cbn; lia|done|done]
                      | exists 2%nat; split_and!; [cbn; lia|done|done]].
  - cbn. lia.
  - intros j Hj Hne. cbn in Hj. destruct j as [|[|[|]]]; [|done| |lia]; cbn; set_solver.
Defined.

(** ** Bounds *)

Lemma oldest_spec {A} (time : A -> Z) (order : list (Z * A)) : forall acc : Z * Z,
  let out := fold_left (fun acc item => if time item.2 <? acc.2 then (item.1, time item.2) else acc)
               order acc in
  Forall (fun item => out.2 <= time item.2) order /\ out.2 <= acc.2 /\
  (out = acc \/ exists e : A, (out.1, e) ∈ order /\ time e = out.2).
Proof.
  induction order as [|[id e] order IH]; intros acc; cbn [fold_left fst snd]; [by split_and!; auto; lia|].
  destruct (time e <? acc.2) eqn:E.
  - destruct (IH (id, time e)) as (Hall & Hle & Hcase). cbv zeta in *. cbn [fst snd] in *.
    split_and!; [by constructor|lia|]. right. destruct Hcase as [->|(e' & He' & Hc)]; cbn [fst snd].
    + exists e. set_solver.
    + exists e'. set_solver.
  - destruct (IH acc) as (Hall & Hle & Hcase). cbv zeta in *.
    split_and!; [constructor; cbn; [lia|done]|lia|]. destruct Hcase as [?|(e' & He' & Hc)]; [by left|].
    right. exists e'. set_solver.
Qed.

(** Creation times below the largest [uint64], which the eviction loop takes
    for "no entry yet". *)
Definition times_ok (r : Reassembler) : Prop :=
  map_Forall (fun _ e => created e < 2 ^ 64 - 1) (entries r).

Lemma evictOldest_spec range r :
  ordering range -> times_ok r -> entries r <> ∅ ->
  exists id e, entries r !! id = Some e /\ evictOldest range r = remove id r /\
    map_Forall (fun _ e' => created e <= created e') (entries r).
Proof.
  intros Hr Ht Hne. unfold evictOldest.
  pose proof (oldest_spec created (range (entries r)) (0, 2 ^ 64 - 1)) as (Hall & Hle & Hcase).
  fold (oldest created (range (entries r))) in *.
  assert (Hin : forall i e, entries r !! i = Some e <-> (i, e) ∈ range (entries r)).
  { intros. by rewrite (Hr (entries r)), elem_of_map_to_list. }
  rewrite Forall_forall in Hall. destruct Hcase as [E|(e & He & Hc)].
  - exfalso. destruct (map_choose _ Hne) as (i & e & Hi).
    pose proof (Hall _ (proj1 (Hin _ _) Hi)) as H1. assert (created e < 2 ^ 64 - 1) by exact (Ht _ _ Hi).
    rewrite E in H1. cbn [fst snd] in H1. lia.
  - exists (oldest created (range (entries r))).1, e. split; [by apply Hin|]. split; [done|].
    intros i e' Hi. specialize (Hall (i, e')). cbn in Hall. rewrite Hc. apply Hall. by apply Hin.
Qed.

(** A stored entry: the parts of exactly the fragments seen, within the limit. *)
Definition entry_ok (limit : Z) (e : partial) : Prop :=
  length (parts e) = 64%nat /\ psize e = len (concat (parts e)) /\ psize e <= limit /\
  (forall i : nat, Z.testbit (seen e) (Z.of_nat i) = false -> default [] (parts e !! i) = []).

Definition wf (r : Reassembler) : Prop :=
  0 <= maxMessage r /\ Z.of_nat (size (entries r)) <= maxEntries r /\ 0 < maxEntries r /\ times_ok r /\
  map_Forall (fun _ e => entry_ok (maxMessage r) e) (entries r).

Ltac reasm_cbn := unfold wf, times_ok; cbn [remove set_entries entries maxEntries maxMessage fst snd].

Lemma concat_insert_len (l : list bytes) i d :
  (i < length l)%nat -> default [] (l !! i) = [] -> len (concat (<[i := d]> l)) = len (concat l) + len d.
Proof.
  revert i. induction l as [|x l IH]; intros i Hi Hd; [cbn in Hi; lia|].
  destruct i as [|i]; cbn in *; simplify_eq.
  - rewrite len_app. cbn. lia.
  - rewrite !len_app, IH by (done || lia). lia.
Qed.

Lemma len_concat_take n (l : list bytes) : len (concat (take n l)) <= len (concat l).
Proof.
  rewrite <- (take_drop n l) at 2. rewrite concat_app, len_app. pose proof (len_nonneg (concat (drop n l))). lia.
Qed.

Lemma remove_stored id e r : remove id (set_entries (<[id := e]> (entries r)) r) = remove id r.
Proof. unfold remove, set_entries. cbn. by rewrite delete_insert_eq. Qed.

Lemma remove_wf id r : wf r -> wf (remove id r).
Proof.
  intros (HM & Hsz & HE & Ht & Hall).
  reasm_cbn.
  split_and!; try done; [|by apply map_Forall_delete..].
  pose proof (map_size_delete id (entries r)) as Hd. destruct (entries r !! id); simpl in Hd; lia.
Qed.

Lemma accept_wf f e r :
  wf r -> entries r !! FMessageID f = Some e -> 0 <= Number f <= 63 ->
  wf (accept f e r).2 /\
  (forall m, (accept f e r).1 = Ok (Some m) -> len m <= maxMessage r).
Proof.
  intros Hwf He Hn. pose proof Hwf as (HM & Hsz & HE & Ht & Hall).
  destruct (Hall _ _ He) as (Hl & Hps & Hlim & Hz).
  pose proof (remove_wf (FMessageID f) r Hwf).
  unfold accept. destruct (_ && _); [done|]. cbv zeta.
  replace (u64 (Z.shiftl 1 (Number f))) with (2 ^ Number f)
    by (rewrite <- (Z2Nat.id (Number f)) by lia; rewrite bit_of by lia; done).
  rewrite !land_pow2_test by lia. destruct (Z.testbit (seen e) (Number f)) eqn:Hbit.
  { destruct (_ || _); done. }
  destruct (_ >? _) eqn:Hsmall; [done|].
  set (e' := mkPartial _ _ _ _ _ _ _).
  assert (Hlen : len (concat (<[Z.to_nat (Number f):=FData f]> (parts e))) = len (concat (parts e)) + len (FData f)).
  { apply concat_insert_len; [lia|]. apply Hz. by rewrite Z2Nat.id by lia. }
  assert (entry_ok (maxMessage r) e').
  { unfold entry_ok, e'. cbn [parts psize seen]. rewrite length_insert, Hlen. split_and!; [done|lia|lia|].
    intros i. rewrite testbit_lor_pow2 by lia. intros [Hi Hne]%orb_false_elim.
    rewrite list_lookup_insert_ne by lia. auto. }
  assert (wf (set_entries (<[FMessageID f:=e']> (entries r)) r)).
  { reasm_cbn; split_and!; try done.
    - rewrite map_size_insert_Some by eauto. lia.
    - apply map_Forall_insert_2; [exact (Ht _ _ He)|done].
    - by apply map_Forall_insert_2. }
  repeat (destruct (_ && _); [done|]). repeat (destruct (negb _); [done|]).
  cbn [fst snd]. split.
  - by rewrite remove_stored.
  - intros m [= <-]. pose proof (len_concat_take (Z.to_nat ((if FLast f then Number f else last e) + 1)) (<[Z.to_nat (Number f):=FData f]> (parts e))). lia.
Qed.

Lemma zeroPartial_ok limit now : 0 <= limit -> entry_ok limit (zeroPartial now).
Proof.
  intros. split_and!; [done|done|done|]. intros i _. cbn [parts zeroPartial].
  destruct (replicate 64 [] !! i) eqn:E; [|done]. by apply lookup_replicate in E as [-> _].
Qed.

Lemma entryFor_wf range id now r :
  ordering range -> wf r -> now < 2 ^ 64 - 1 ->
  wf (entryFor range id now r).2 /\ maxMessage (entryFor range id now r).2 = maxMessage r /\
  entries (entryFor range id now r).2 !! id = Some (entryFor range id now r).1.
Proof.
  intros Hr Hwf Hnow. unfold entryFor. destruct (entries r !! id) as [e|] eqn:E; [done|].
  cbn [fst snd]. set (r1 := if _ =? _ then _ else r).
  assert (wf r1 /\ maxMessage r1 = maxMessage r /\ entries r1 !! id = None /\
          Z.of_nat (size (entries r1)) < maxEntries r1) as (Hwf1 & HM1 & HN1 & Hlt).
  { subst r1. pose proof Hwf as (_ & Hsz & HE & Ht & _).
    destruct (_ =? _) eqn:Hfull; [|split_and!; done || lia].
    destruct (evictOldest_spec range r Hr Ht) as (k & e & Hk & -> & _).
    { intros H0. rewrite H0, map_size_empty in Hfull. apply Z.eqb_eq in Hfull. simpl in Hfull. lia. }
    split_and!; [by apply remove_wf|done|by apply lookup_delete_None; right|].
    reasm_cbn. rewrite map_size_delete_Some by eauto. lia. }
  clearbody r1. destruct Hwf1 as (HM & _ & HE & Ht & Hall).
  reasm_cbn; split_and!; try done.
  - rewrite map_size_insert_None by done. lia.
  - by apply map_Forall_insert_2.
  - apply map_Forall_insert_2; [by apply zeroPartial_ok|done].
  - apply lookup_insert_eq.
Qed.

Lemma Add_wf range f now r :
  ordering range -> wf r -> 0 <= Number f -> now < 2 ^ 64 - 1 ->
  wf (Add range f now r).2 /\
  (forall m, (Add range f now r).1 = Ok (Some m) -> len m <= maxMessage r).
Proof.
  intros Hr Hwf Hn Hnow. unfold Add. destruct (_ || _) eqn:G; [done|].
  destruct (entryFor_wf range (FMessageID f) now r Hr Hwf Hnow) as (Hwf' & HM & He).
  destruct (entryFor _ _ _ _) as [e r']. cbn [fst snd] in *. rewrite <- HM. apply accept_wf; [done|done|].
  rewrite Z.gtb_ltb in G. lia.
Qed.

Lemma Expire_loop cutoff l : forall k r,
  NoDup l.*1 -> Forall (fun item => entries r !! item.1 = Some item.2) l ->
  let out := fold_left (fun acc item =>
      if created item.2 <=? cutoff then (acc.1 + 1, remove item.1 acc.2) else acc) l (k, r) in
  out.1 + Z.of_nat (size (entries out.2)) = k + Z.of_nat (size (entries r)) /\
  maxEntries out.2 = maxEntries r /\ maxMessage out.2 = maxMessage r /\
  forall j e, entries out.2 !! j = Some e <->
    entries r !! j = Some e /\ ~ ((j, e) ∈ l /\ created e <= cutoff).
Proof.
  induction l as [|[i e] l IH]; intros k r Hnd Hall.
  { cbn. split_and!; try done. intros j e. set_solver. }
  cbn [fold_left fst snd]. inversion_clear Hnd as [|? ? Hi Hnd'].
  apply Forall_cons in Hall as [Hhd Htl]. cbn [fst snd] in Hhd.
  destruct (created e <=? cutoff) eqn:E.
  - destruct (IH (k + 1) (remove i r) Hnd') as (Hc & HE & HM & Hl).
    + rewrite Forall_forall in Htl |- *. intros [j e'] Hj. specialize (Htl _ Hj). reasm_cbn.
      rewrite lookup_delete_ne; [done|]. intros ->. apply Hi.
      apply list_elem_of_fmap. by exists (j, e').
    + cbv zeta. split_and!; [|done|done|].
      * rewrite Hc. reasm_cbn. rewrite map_size_delete_Some by eauto.
        assert (size (entries r) <> 0%nat) 
          by (rewrite map_size_non_empty_iff; intros E0; by rewrite E0 in Hhd). lia.
      * intros j e'. rewrite Hl. cbn [remove set_entries entries]. rewrite lookup_delete_Some.
        set_unfold. naive_solver lia.
  - destruct (IH k r Hnd' Htl) as (Hc & HE & HM & Hl). cbv zeta. split_and!; [done..|].
    intros j e'. rewrite Hl. set_unfold. naive_solver lia.
Qed.

Lemma ordering_nodup range m : ordering range -> NoDup (range m).*1.
Proof. intros Hr. rewrite (Hr m). apply NoDup_fst_map_to_list. Qed.

(** expiry removes exactly the incomplete messages created at or before the
    cutoff, keeps every other one untouched, and returns the number removed,
    whatever the order in which the map is traversed while it shrinks. *)
Theorem Expire_exact range cutoff r :
  ordering range ->
  let (removed, r') := Expire range cutoff r in
  entries r' = filter (fun item => cutoff < created item.2) (entries r) /\
  removed = Z.of_nat (size (entries r)) - Z.of_nat (size (entries r')) /\
  maxEntries r' = maxEntries r /\ maxMessage r' = maxMessage r.
Proof.
  intros Hr. assert (Hin : forall i e, entries r !! i = Some e <-> (i, e) ∈ range (entries r)).
  { intros. by rewrite (Hr (entries r)), elem_of_map_to_list. }
  destruct (Expire_loop cutoff (range (entries r)) 0 r) as (Hc & HE & HM & Hl).
  { by apply ordering_nodup. }
  { apply Forall_forall. intros [i e] Hi. by apply Hin. }
  fold (Expire range cutoff r) in *. destruct (Expire range cutoff r) as [removed r'].
  cbn [fst snd] in *. split_and!; [|lia|done|done].
  apply map_eq. intros j. apply option_eq. intros e. rewrite Hl, map_lookup_filter_Some, <- Hin. cbn. 
  split; [intros [? Hn]; split; [done|]; lia || (destruct (decide (cutoff < created e)); [done|]; exfalso; apply Hn; split; [done|lia])|intros [? ?]; split; [done|lia]].
Qed.

(** The states a reassembler goes through: fragments arrive and messages expire
    at any time before the end of the clock. *)
Inductive reachable (range : gmap Z partial -> list (Z * partial)) : Reassembler -> Prop :=
| reachable_new e m : reachable range (NewReassembler e m)
| reachable_add f now r :
    reachable range r -> 0 <= Number f -> now < 2 ^ 64 - 1 -> reachable range (Add range f now r).2
| reachable_expire cutoff r : reachable range r -> reachable range (Expire range cutoff r).2.

Lemma reachable_run range arrivals : forall r,
  reachable range r -> Forall (fun a => 0 <= Number a.1 /\ a.2 < 2 ^ 64 - 1) arrivals ->
  reachable range (run range arrivals r).2.
Proof.
  induction arrivals as [|[f now] arrivals IH]; intros r Hr Hall; [done|].
  apply Forall_cons in Hall as [[Hn Hnow] Hall]. cbn [run fst snd] in *.
  pose proof (reachable_add range f now r Hr Hn Hnow) as H1.
  destruct (Add range f now r) as [out r']. specialize (IH r' H1 Hall).
  by destruct (run range arrivals r').
Qed.

Lemma Expire_wf range cutoff r : ordering range -> wf r -> wf (Expire range cutoff r).2.
Proof.
  intros Hr (H1 & H2 & H3 & H4 & H5).
  destruct (Expire_loop cutoff (range (entries r)) 0 r) as (Hc & HE & HM & Hl).
  { by apply ordering_nodup. }
  { apply Forall_forall. intros [i e] Hi. rewrite (Hr (entries r)) in Hi. by apply elem_of_map_to_list. }
  fold (Expire range cutoff r) in *. destruct (Expire range cutoff r) as [removed r'].
  cbn [fst snd] in *.
  assert (Hsub : entries r' ⊆ entries r) by (apply map_subseteq_spec; intros ? ? ?%Hl; tauto).
  unfold wf, times_ok. rewrite HE, HM. split_and!; try done.
  - apply map_subseteq_size in Hsub. lia.
  - intros j e Hj. eapply H4, lookup_weaken; eauto.
  - intros j e Hj. eapply H5, lookup_weaken; eauto.
Qed.

Lemma reachable_wf range r : ordering range -> reachable range r -> wf r.
Proof.
  intros Hr. induction 1 as [e m|f now r _ IH Hn Hnow|cutoff r _ IH].
  - reasm_cbn. cbn [NewReassembler entries maxEntries maxMessage]. rewrite map_size_empty.
    split_and!; [destruct (m <=? 0) eqn:?; lia|destruct (e <=? 0) eqn:?; simpl; lia|destruct (e <=? 0) eqn:?; lia|
      apply map_Forall_empty..].
  - by apply Add_wf.
  - by apply Expire_wf.
Qed.

(** The bytes of all the fragments held. *)
Definition retained (m : gmap Z partial) : Z :=
  map_fold (fun _ e acc => len (concat (parts e)) + acc) 0 m.

Lemma retained_le limit m :
  map_Forall (fun _ e => entry_ok limit e) m -> retained m <= Z.of_nat (size m) * limit.
Proof.
  unfold retained.
  apply (map_fold_weak_ind (fun k m => map_Forall (fun _ e => entry_ok limit e) m -> k <= Z.of_nat (size m) * limit)).
  - intros _. by rewrite map_size_empty.
  - intros i e m' k Hi IH [(_ & Hp & Hlim & _) Hm]%map_Forall_insert; [|done].
    specialize (IH Hm). rewrite map_size_insert_None by done. lia.
Qed.

(** the memory bound the type promises.  In every reachable state at most
    [maxEntries] messages are held and the bytes of all their fragments total
    at most [maxEntries * maxMessage]; a delivered message is within
    [maxMessage]. *)
Theorem reassembler_bounded range r :
  ordering range -> reachable range r ->
  Z.of_nat (size (entries r)) <= maxEntries r /\
  retained (entries r) <= maxEntries r * maxMessage r /\
  forall f now m, 0 <= Number f -> now < 2 ^ 64 - 1 ->
    (Add range f now r).1 = Ok (Some m) -> len m <= maxMessage r.
Proof.
  intros Hr Hreach. pose proof (reachable_wf range r Hr Hreach) as Hwf.
  pose proof Hwf as (HM & Hsz & HE & Ht & Hall). split_and!; [done| |].
  - pose proof (retained_le _ _ Hall). nia.
  - intros f now m Hn Hnow. by apply Add_wf.
Qed.

