(* ===== verification/Gateway.v ===== *)
(** The tunnel gateway, [src/dataplane/internal/tunnel/gateway.go]: packing
    delivery blocks into fixed-size TunnelData payloads ([Encode]) and splitting
    a message over several of them ([Fragment]).

    The padding source is an [io.Reader] the caller supplies.  It is a
    parameter of the model: [readFull r n w] is [io.ReadFull] on reader [r] for
    [n] bytes in the world [w]; it returns the error, the bytes stored in the
    destination and the world after the read. *)

From S2P Require Import Prelude Wire Sha256 I2NP Buffers TunnelBlocks.
Import Buffers.Packet.

Definition TunnelPayloadLen : Z := TunnelDataPayloadLen.
Definition tunnelIVLen : Z := 16.
Definition tunnelChecksumLen : Z := 4.
Definition maxBlockBytes : Z := TunnelPayloadLen - tunnelIVLen - tunnelChecksumLen - 1.

Definition nonzero (b : Z) : Z := if b =? 0 then 1 else b.

(** [copy] into the fixed array truncates; the sum covers what was copied. *)
Definition tunnelChecksum (blocks iv : bytes) : bytes :=
  let size := TunnelPayloadLen + tunnelIVLen in
  let a := sub 0 (Z.min (len blocks) size) blocks in
  let b := sub 0 (Z.min (len iv) (size - len a)) iv in
  Sha256.Sum256 (a ++ b).

(** The sizing loop of [Encode]. *)
Fixpoint blocksLen (blocks : list Block) (n : Z) : res Z :=
  match blocks with
  | [] => Ok n
  | block :: rest =>
      match blockLen block with
      | Panic => Panic
      | Err _ => Err ErrGatewayBlock
      | Ok m => fail_if m >? maxBlockBytes - n with ErrGatewayBlock ;; blocksLen rest (n + m)
      end
  end.

(** The writing loop of [Encode]; [m, _ := marshalBlock(...)] drops the error. *)
Fixpoint marshalAll (encoded : bytes) (offset : Z) (blocks : list Block) : res bytes :=
  match blocks with
  | [] => Ok encoded
  | block :: rest =>
      let? dst := slice_from encoded offset in
      match marshalBlock dst block with
      | Panic => Panic
      | Err _ => marshalAll encoded offset rest
      | Ok (dst, m) =>
          let? encoded := write encoded offset dst in
          marshalAll encoded (offset + m) rest
      end
  end.

(** What [Encode] does to the 1,024-byte region after the entropy read. *)
Definition layoutData (data : bytes) (n : Z) (blocks : list Block) : res bytes :=
  let? padding := slice data (tunnelIVLen + tunnelChecksumLen) (len data - n - 1) in
  let? data := write data (tunnelIVLen + tunnelChecksumLen) (nonzero <$> padding) in
  let blocksStart := tunnelIVLen + tunnelChecksumLen + len padding + 1 in
  let? data := write data (blocksStart - 1) [0] in
  let? encoded := slice_from data blocksStart in
  let? encoded := marshalAll encoded 0 blocks in
  let? data := write data blocksStart encoded in
  let? iv := slice data 0 tunnelIVLen in
  let checksum := tunnelChecksum encoded iv in
  write data tunnelIVLen (sub 0 tunnelChecksumLen checksum).

Section Gateway.
Context {reader world : Type} (randReader : reader).
Context (readFull : reader -> Z -> world -> (option error * bytes) * world).

(** [None] is a nil [io.Reader]. *)
Record Gateway_ := mkGateway { padding : option reader }.

Definition NewGateway (padding : option reader) : Gateway_ :=
  match padding with
  | None => mkGateway (Some randReader)
  | Some r => mkGateway (Some r)
  end.

(** Runs a method of the destination buffer. *)
Definition on_dst {A} (m : go Buffer A) : go (world * Buffer) A :=
  fun s => let (a, d) := m s.2 in (a, (s.1, d)).

Definition read (r : reader) (n : Z) : go (world * Buffer) (option error * bytes) :=
  fun s => let (a, w) := readFull r n s.1 in (Ok a, (w, s.2)).

(** [Encode] into a non-nil [dst]; the buffer keeps what was written when the
    reader fails. *)
Definition encodeInto (g : option Gateway_) (tunnelID : Z) (blocks : list Block)
  : go (world * Buffer) unit :=
  let! s := get in
  match AvailablePayload s.2 with
  | None => fail ErrGatewayOutput
  | Some available =>
      if available <? TunnelDataMessageLen then fail ErrGatewayOutput
      else
        let! n := lift (blocksLen blocks 0) in
        let! region := on_dst (Append TunnelDataMessageLen) in
        match region with
        | None => fail ErrGatewayOutput
        | Some region =>
            let! s := get in
            let! out := lift (slice (buf s.2) region.1 region.2) in
            let! out := lift (write out 0 (be_bytes 4 tunnelID)) in
            let reader :=
              match g with Some (mkGateway (Some r)) => r | _ => randReader end in
            let! got := read reader (len out - 4 - n - 1) in
            let! out := lift (write out 4 got.2) in
            let! _ := on_dst (fill region out) in
            match got.1 with
            | Some e => fail e
            | None =>
                let! data := lift (slice_from out 4) in
                let! data := lift (layoutData data n blocks) in
                let! out := lift (write out 4 data) in
                on_dst (fill region out)
            end
        end
  end.

Definition Encode (g : option Gateway_) (tunnelID : Z) (blocks : list Block)
  : go (world * option Buffer) unit :=
  fun s =>
    if tunnelID =? 0 then (Err ErrInvalidTunnelID, s)
    else match s.2 with
         | None => (Err ErrGatewayOutput, s)
         | Some d =>
             let (r, s') := encodeInto g tunnelID blocks (s.1, d) in (r, (s'.1, Some s'.2))
         end.

(** [g.Encode(tunnelID, blocks, dst[i])]; the buffers of [dst] are distinct. *)
Definition encodeAt (g : option Gateway_) (tunnelID : Z) (blocks : list Block) (i : Z)
  : go (world * list (option Buffer)) (option error) :=
  fun s =>
    match index s.2 i with
    | Ok d =>
        let (r, s') := Encode g tunnelID blocks (s.1, d) in
        let s' := (s'.1, <[Z.to_nat i := s'.2]> s.2) in
        match r with
        | Panic => (Panic, s')
        | Err e => (Ok (Some e), s')
        | Ok _ => (Ok None, s')
        end
    | Err e => (Err e, s)
    | Panic => (Panic, s)
    end.

(** [readNonZero]; reading from a nil reader panics. *)
Definition readNonZero (r : option reader) (n : Z) : go (world * list (option Buffer)) (error + bytes) :=
  fun s =>
    match r with
    | None => (Panic, s)
    | Some r =>
        let (got, w) := readFull r n s.1 in
        match got.1 with
        | Some e => (Ok (inl e), (w, s.2))
        | None => (Ok (inr (nonzero <$> got.2)), (w, s.2))
        end
    end.

Definition set_message (id : Z) (b : Block) : Block :=
  mkBlock (Delivery b) (Gateway b) (TunnelID b) id (Fragment b) (FollowOn b) (Last b) (Data b).
Definition set_data (last : bool) (data : bytes) (b : Block) : Block :=
  mkBlock (Delivery b) (Gateway b) (TunnelID b) (MessageID b) (Fragment b) (FollowOn b) last data.

(** The loop over the follow-on fragments.  [fuel] bounds the iterations; each
    one advances [offset], so the length of the data is enough. *)
Fixpoint followLoop (fuel : nat) (g : option Gateway_) (tunnelID messageID : Z) (data : bytes)
    (needed fragment offset : Z) : go (world * list (option Buffer)) (Z * option error) :=
  if offset <? len data then
    match fuel with
    | O => lift Panic
    | S fuel =>
        let end_ := Z.min (offset + maxBlockBytes - 7) (len data) in
        let! part := lift (slice data offset end_) in
        let follow := mkBlock 0 zeroHash 0 messageID (u8 fragment) true (end_ =? len data) part in
        let! err := encodeAt g tunnelID [follow] fragment in
        match err with
        | Some e => ret (fragment, Some e)
        | None => followLoop fuel g tunnelID messageID data needed (fragment + 1) end_
        end
    end
  else ret (needed, None).

(** The end of [Fragment]: the initial fragment, then the follow-on ones. *)
Definition sendFragments (g : option Gateway_) (tunnelID : Z) (block : Block) (needed firstData : Z)
  : go (world * list (option Buffer)) (Z * option error) :=
  let! part := lift (slice (Data block) 0 firstData) in
  let! err := encodeAt g tunnelID [set_data false part block] 0 in
  match err with
  | Some e => ret (0, Some e)
  | None =>
      followLoop (length (Data block)) g tunnelID (MessageID block) (Data block) needed 1 firstData
  end.

(** The message identifier of a fragmented message: the block's own, or four
    nonzero bytes from [g.padding]. *)
Definition chooseMessageID (g : option Gateway_) (block : Block)
  : go (world * list (option Buffer)) (error + Z) :=
  if MessageID block =? 0 then
    match g with
    | None => lift Panic
    | Some g =>
        let! got := readNonZero (padding g) 4 in
        match got with
        | inl e => ret (inl e)
        | inr encoded => let! id := lift (be_uint 4 encoded) in ret (inr id)
        end
    end
  else ret (inr (MessageID block)).

(** [Fragment]: the returned count and error. *)
Definition FragmentBlock (g : option Gateway_) (tunnelID : Z) (block : Block)
  : go (world * list (option Buffer)) (Z * option error) :=
  if tunnelID =? 0 then ret (0, Some ErrInvalidTunnelID)
  else if FollowOn block || (Delivery block >? DeliveryRouter) || (len (Data block) =? 0) ||
          (len (Data block) >? I2PDMaxPayload)
  then ret (0, Some ErrGatewayBlock)
  else
    match firstBlockLen block true with
    | Panic => lift Panic
    | Err e => ret (0, Some e)
    | Ok firstHeader =>
        let! s := get in
        if len (Data block) <=? maxBlockBytes - firstHeader then
          let block := set_data true (Data block) block in
          if len s.2 =? 0 then ret (0, Some ErrGatewayOutput)
          else
            let! err := encodeAt g tunnelID [block] 0 in
            ret (1, err)
        else
          let firstData := maxBlockBytes - firstHeader in
          let needed := 1 + Z.quot (len (Data block) - firstData + maxBlockBytes - 7 - 1) (maxBlockBytes - 7) in
          if (needed >? 64) || (len s.2 <? needed) then ret (0, Some ErrGatewayOutput)
          else
            let! id := chooseMessageID g block in
            match id with
            | inl e => ret (0, Some e)
            | inr id =>
                sendFragments g tunnelID (set_message id block) needed firstData
            end
    end.
End Gateway.
(** ** The payload on the wire *)

Definition wires (blocks : list Block) : bytes := concat (block_wire <$> blocks).

(** The 1,024-byte region for entropy [rnd]. *)
Definition tunnel_data (rnd : bytes) (blocks : list Block) : bytes :=
  sub 0 16 rnd ++ sub 0 4 (Sha256.Sum256 (wires blocks ++ sub 0 16 rnd)) ++
  (nonzero <$> sub 20 (len rnd) rnd) ++ [0] ++ wires blocks.

Definition tunnel_frame (tunnelID : Z) (rnd : bytes) (blocks : list Block) : bytes :=
  be_bytes 4 tunnelID ++ tunnel_data rnd blocks.

Lemma wires_cons b bs : wires (b :: bs) = block_wire b ++ wires bs.
Proof. reflexivity. Qed.

Lemma blocksLen_ok blocks : forall n,
  Forall block_ok blocks -> n + len (wires blocks) <= maxBlockBytes ->
  blocksLen blocks n = Ok (n + len (wires blocks)).
Proof.
  induction blocks as [|b bs IH]; intros n Hall Hn; cbn [blocksLen].
  - unfold wires. cbn. f_equal. rewrite len_nil. lia.
  - apply Forall_cons in Hall as [Hb Hall]. rewrite wires_cons in *. len_simpl_in Hn.
    rewrite blockLen_ok, <- len_block_wire by done. zbool. rewrite IH by (done || lia).
    f_equal. len_lia.
Qed.

Lemma marshalAll_ok blocks : forall acc rest,
  Forall block_ok blocks -> len rest = len (wires blocks) ->
  marshalAll (acc ++ rest) (len acc) blocks = Ok (acc ++ wires blocks).
Proof.
  induction blocks as [|b bs IH]; intros acc rest Hall Hn; cbn [marshalAll].
  - apply len_zero_nil in Hn. by rewrite Hn.
  - apply Forall_cons in Hall as [Hb Hall]. rewrite wires_cons in *. len_simpl_in Hn.
    rewrite slice_from_ok by len_lia. cbn [bind]. sub_norm.
    rewrite marshalBlock_wire by (done || (rewrite <- len_block_wire by done; len_lia)).
    rewrite <- len_block_wire by done.
    rewrite (write_app acc rest) by (rewrite ?len_over by len_lia; len_lia). cbn [bind].
    rewrite len_over, sub_empty, app_nil_r by len_lia. unfold over. rewrite app_assoc, <- len_app.
    rewrite IH by (done || len_lia). by rewrite <- app_assoc.
Qed.

Lemma tunnelChecksum_ok blocks iv :
  len blocks <= 1024 -> len iv = 16 -> tunnelChecksum blocks iv = Sha256.Sum256 (blocks ++ iv).
Proof.
  intros. unfold tunnelChecksum, TunnelPayloadLen, TunnelDataPayloadLen, tunnelIVLen.
  rewrite Z.min_l, (sub_all blocks) by lia. rewrite Z.min_l, sub_all by lia. done.
Qed.

Lemma layoutData_ok iv gap pad t enc0 blocks :
  Forall block_ok blocks -> len (wires blocks) <= maxBlockBytes ->
  len iv = 16 -> len gap = 4 -> len pad = 1003 - len (wires blocks) -> len enc0 = len (wires blocks) ->
  layoutData (iv ++ gap ++ pad ++ [t] ++ enc0) (len (wires blocks)) blocks =
  Ok (iv ++ sub 0 4 (Sha256.Sum256 (wires blocks ++ iv)) ++ (nonzero <$> pad) ++ [0] ++ wires blocks).
Proof.
  intros Hok Hmax Hiv Hgap Hpad Henc. unfold layoutData.
  unfold maxBlockBytes, TunnelPayloadLen, TunnelDataPayloadLen, tunnelIVLen, tunnelChecksumLen in *.
  rewrite slice_ok by len_lia. cbn [bind]. sub_norm. len_simpl.
  rewrite (app_assoc iv gap). rewrite write_middle by len_lia. cbn [bind].
  rewrite (app_assoc (iv ++ gap)). rewrite write_middle by len_lia. cbn [bind].
  rewrite slice_from_ok by len_lia. cbn [bind]. sub_norm.
  pose proof (marshalAll_ok blocks [] enc0 Hok Henc) as Hm. cbn [app] in Hm. rewrite len_nil in Hm.
  rewrite Hm. cbn [bind]. rewrite <- !app_assoc.
  rewrite (app_assoc iv), (app_assoc (iv ++ gap)), (app_assoc ((iv ++ gap) ++ _)).
  rewrite write_app by len_lia. cbn [bind]. rewrite sub_empty, app_nil_r by len_lia.
  rewrite <- !app_assoc. rewrite slice_ok by len_lia. cbn [bind]. sub_norm.
  rewrite tunnelChecksum_ok by lia. by rewrite write_middle by len_lia.
Qed.

Lemma split_entropy (rnd tail : bytes) :
  20 <= len rnd -> 1 <= len tail ->
  exists t enc0, tail = [t] ++ enc0 /\
    rnd ++ tail = sub 0 16 rnd ++ sub 16 20 rnd ++ sub 20 (len rnd) rnd ++ [t] ++ enc0.
Proof.
  intros Hr Ht. destruct tail as [|t enc0]; [by rewrite len_nil in Ht|]. exists t, enc0. split; [done|].
  rewrite (app_assoc (sub 16 20 rnd)), sub_app_split by lia.
  rewrite (app_assoc (sub 0 16 rnd)), sub_split_at by lia. done.
Qed.

Lemma layoutData_frame rnd tail blocks :
  Forall block_ok blocks -> len (wires blocks) <= maxBlockBytes ->
  len rnd = 1023 - len (wires blocks) -> len tail = 1024 - len rnd ->
  layoutData (rnd ++ tail) (len (wires blocks)) blocks = Ok (tunnel_data rnd blocks).
Proof.
  intros Hok Hmax Hr Ht. pose proof Hmax as Hmax'.
  unfold maxBlockBytes, TunnelPayloadLen, TunnelDataPayloadLen, tunnelIVLen, tunnelChecksumLen in Hmax'.
  destruct (split_entropy rnd tail) as (t & enc0 & -> & ->); [len_pos; lia..|].
  len_simpl_in Ht. rewrite layoutData_ok by (done || len_lia). done.
Qed.

Lemma len_tunnel_data rnd blocks :
  20 <= len rnd -> len rnd = 1023 - len (wires blocks) -> len (tunnel_data rnd blocks) = 1024.
Proof. intros. unfold tunnel_data. len_lia. Qed.

(** ** Splitting a message *)

Fixpoint chunk (fuel : nat) (k : Z) (l : bytes) : list bytes :=
  match fuel, l with
  | S fuel, _ :: _ => sub 0 (Z.min k (len l)) l :: chunk fuel k (sub (Z.min k (len l)) (len l) l)
  | _, _ => []
  end.

Lemma chunk_step fuel k l :
  0 < len l -> chunk (S fuel) k l = sub 0 (Z.min k (len l)) l :: chunk fuel k (sub (Z.min k (len l)) (len l) l).
Proof. intros Hl. destruct l; [by cbn in Hl|done]. Qed.

Section Chunks.
Context (k : Z) (Hk : 0 < k).

Lemma chunk_concat fuel : forall l, len l <= Z.of_nat fuel -> concat (chunk fuel k l) = l.
Proof.
  induction fuel as [|fuel IH]; intros l Hl.
  - symmetry. apply len_zero_nil. len_pos. lia.
  - destruct (decide (0 < len l)) as [Hp|Hp].
    + rewrite chunk_step by done. cbn [concat]. rewrite IH by len_lia. apply sub_split_at. lia.
    + assert (l = []) as -> by (apply len_zero_nil; len_pos; lia). done.
Qed.

Lemma chunk_sizes fuel : forall l, Forall (fun d => 0 < len d <= k) (chunk fuel k l).
Proof.
  induction fuel as [|fuel IH]; intros l; [constructor|].
  destruct (decide (0 < len l)) as [Hp|Hp].
  - rewrite chunk_step by done. constructor; [len_lia|apply IH].
  - assert (l = []) as -> by (apply len_zero_nil; len_pos; lia). constructor.
Qed.

Lemma chunk_count fuel : forall l,
  len l <= Z.of_nat fuel -> len (chunk fuel k l) = Z.quot (len l + k - 1) k.
Proof.
  induction fuel as [|fuel IH]; intros l Hl; rewrite Z.quot_div_nonneg by (len_pos; lia).
  - assert (l = []) as -> by (apply len_zero_nil; len_pos; lia). cbn [chunk]. change (len []) with 0.
    rewrite Z.div_small by lia. done.
  - destruct (decide (0 < len l)) as [Hp|Hp].
    + rewrite chunk_step, len_cons, IH by len_lia. rewrite Z.quot_div_nonneg by len_lia. len_simpl.
      destruct (decide (len l <= k)).
      * rewrite Z.min_r by lia. replace (len l + k - 1) with (len l - 1 + 1 * k) by lia.
        rewrite Z.div_add, !Z.div_small by lia. done.
      * rewrite Z.min_l by lia. replace (len l + k - 1) with (len l - 1 + 1 * k) by lia.
        replace (len l - k + k - 1) with (len l - 1) by lia. rewrite Z.div_add by lia. lia.
    + assert (l = []) as -> by (apply len_zero_nil; len_pos; lia). cbn [chunk]. change (len []) with 0.
      rewrite Z.div_small by lia. done.
Qed.
End Chunks.

Section Encoding.
Context {reader world : Type} (randReader : reader).
Context (readFull : reader -> Z -> world -> (option error * bytes) * world).
(** The reader fills every request, as [crypto/rand.Reader] does. *)
Context (readFull_total : forall r n w, 0 <= n ->
  exists b w', readFull r n w = ((None, b), w') /\ len b = n /\ bytes_ok b).

(** A buffer with room for one more payload. *)
Definition has_room (d : Buffer) : Prop :=
  live d = true /\ 0 <= end_ d /\ end_ d + 1028 <= limit d /\ limit d = len (buf d).

(** [d] with [data] appended. *)
Definition appended (d : Buffer) (data : bytes) : Buffer :=
  mkBuffer (sub 0 (end_ d) (buf d) ++ data ++ sub (end_ d + len data) (len (buf d)) (buf d))
    (lease d) (reserved d) (start d) (end_ d + len data) (limit d) (released d).

Lemma fill_ok lo hi data d :
  0 <= lo -> hi <= len (buf d) -> len data = hi - lo ->
  fill (lo, hi) data d =
    (Ok tt, mkBuffer (sub 0 lo (buf d) ++ data ++ sub hi (len (buf d)) (buf d))
              (lease d) (reserved d) (start d) (end_ d) (limit d) (released d)).
Proof.
  intros Hlo Hhi Hd. unfold fill. go_unfold. cbn [fst snd]. rewrite (sub_all data) by lia.
  rewrite <- (sub_split_at (buf d) lo) at 1 by (len_pos; lia). rewrite write_app by len_lia.
  rewrite sub_sub by len_lia. len_simpl. repeat f_equal; lia.
Qed.

Lemma fill_fill d lo hi a b :
  0 <= lo <= hi -> hi <= len (buf d) -> len a = hi - lo -> len b = hi - lo ->
  sub 0 lo (sub 0 lo (buf d) ++ a ++ sub hi (len (buf d)) (buf d)) ++ b ++
    sub hi (len (sub 0 lo (buf d) ++ a ++ sub hi (len (buf d)) (buf d)))
      (sub 0 lo (buf d) ++ a ++ sub hi (len (buf d)) (buf d)) =
  sub 0 lo (buf d) ++ b ++ sub hi (len (buf d)) (buf d).
Proof. intros. sub_norm. len_simpl. sub_norm. repeat f_equal; lia. Qed.

Lemma encodeInto_ok g tunnelID blocks w d :
  Forall block_ok blocks -> len (wires blocks) <= maxBlockBytes -> has_room d ->
  exists rnd w', len rnd = 1023 - len (wires blocks) /\ bytes_ok rnd /\
    encodeInto randReader readFull g tunnelID blocks (w, d) =
      (Ok tt, (w', appended d (tunnel_frame tunnelID rnd blocks))).
Proof.
  intros Hok Hmax (Hl & He & Hroom & Hlim). pose proof Hmax as Hmax'.
  unfold maxBlockBytes, TunnelPayloadLen, TunnelDataPayloadLen, tunnelIVLen, tunnelChecksumLen in Hmax'.
  unfold encodeInto, AvailablePayload. go_unfold. cbn [fst snd]. rewrite Hl. cbn [negb].
  unfold TunnelDataMessageLen, TunnelDataPayloadLen. zbool.
  rewrite blocksLen_ok by (done || lia). unfold on_dst, Append. go_unfold. cbn [fst snd]. rewrite Hl. cbn [negb].
  zbool. cbn [fst snd buf set_end Packet.end_]. rewrite slice_ok by len_lia. cbn [fst snd buf set_end].
  rewrite slice_ok by len_lia.
  set (out0 := sub _ _ (buf d)).
  assert (len out0 = 1028) as Hout by (subst out0; len_lia). clearbody out0.
  rewrite <- (sub_split_at out0 4) by lia. rewrite write_prefix by len_lia.
  set (tail := sub 4 (len out0) out0). assert (len tail = 1024) as Htail by (subst tail; len_lia).
  clearbody tail. unfold read. cbn [fst snd].
  set (rd := match g with Some _ => _ | None => _ end).
  destruct (readFull_total rd (len (be_bytes 4 tunnelID ++ tail) - 4 - (0 + len (wires blocks)) - 1) w)
    as (rnd & w' & Hread & Hrnd & Hbytes); [len_lia|].
  rewrite Hread. cbn [fst snd]. len_simpl_in Hrnd.
  rewrite <- (sub_split_at tail (len rnd)) by len_lia.
  set (tl := sub (len rnd) (len tail) tail). assert (len tl = 1024 - len rnd) by (subst tl; len_lia).
  rewrite write_middle by len_lia. clearbody tl. rewrite fill_ok by (cbn [buf set_end]; len_lia). cbn [fst snd].
  rewrite slice_from_ok by len_lia. sub_norm.
  replace (0 + len (wires blocks)) with (len (wires blocks)) by lia.
  rewrite layoutData_frame by (done || len_lia).
  rewrite write_app by (rewrite ?len_tunnel_data by len_lia; len_lia).
  rewrite len_tunnel_data, (sub_empty _ 1024), app_nil_r by len_lia.
  rewrite fill_ok; cbn [buf set_end Packet.end_ lease reserved start limit released fst snd];
    [|len_lia|len_lia|rewrite len_app, len_tunnel_data by len_lia; len_lia].
  exists rnd, w'. split_and!; [len_lia|done|].
  rewrite fill_fill by (rewrite ?len_app, ?len_tunnel_data by len_lia; len_lia).
  unfold appended, tunnel_frame. rewrite (len_app (be_bytes _ _)), len_tunnel_data by len_lia.
  len_simpl. done.
Qed.

(** The follow-on block number [k] of message [id]. *)
Definition follow_block (id k : Z) (last : bool) (data : bytes) : Block :=
  mkBlock 0 zeroHash 0 id k true last data.

Lemma encodeAt_ok g tunnelID blocks (i : nat) w dst d :
  0 < tunnelID -> Forall block_ok blocks -> len (wires blocks) <= maxBlockBytes ->
  dst !! i = Some (Some d) -> has_room d ->
  exists rnd w', len rnd = 1023 - len (wires blocks) /\ bytes_ok rnd /\
    encodeAt randReader readFull g tunnelID blocks (Z.of_nat i) (w, dst) =
      (Ok None, (w', <[i := Some (appended d (tunnel_frame tunnelID rnd blocks))]> dst)).
Proof.
  intros Ht Hok Hmax Hd Hroom. unfold encodeAt, index. cbn [fst snd]. zbool. rewrite Nat2Z.id, Hd.
  unfold Encode. cbn [fst snd]. zbool.
  destruct (encodeInto_ok g tunnelID blocks w d Hok Hmax Hroom) as (rnd & w' & Hr & Hb & ->).
  exists rnd, w'. done.
Qed.

(** [dst'] is [dst] with the payload of one block appended to each buffer from
    index [k] on, in the order of [blocks]. *)
Definition sent (tunnelID : Z) (k : nat) (blocks : list Block) (dst dst' : list (option Buffer)) : Prop :=
  (forall j, (j < k \/ k + length blocks <= j)%nat -> dst' !! j = dst !! j) /\
  forall j b, blocks !! j = Some b -> exists d rnd,
    dst !! (k + j)%nat = Some (Some d) /\ len rnd = 1023 - len (wires [b]) /\ bytes_ok rnd /\
    dst' !! (k + j)%nat = Some (Some (appended d (tunnel_frame tunnelID rnd [b]))).

Lemma sent_nil tunnelID k dst : sent tunnelID k [] dst dst.
Proof. split; [done|]. intros j b Hj. done. Qed.

Lemma sent_cons tunnelID k b blocks dst dst' d rnd :
  dst !! k = Some (Some d) -> len rnd = 1023 - len (wires [b]) -> bytes_ok rnd ->
  sent tunnelID (S k) blocks (<[k := Some (appended d (tunnel_frame tunnelID rnd [b]))]> dst) dst' ->
  sent tunnelID k (b :: blocks) dst dst'.
Proof.
  intros Hd Hr Hb [Hout Hin]. split.
  - intros j Hj. cbn [length] in Hj. rewrite Hout by lia. apply list_lookup_insert_ne. lia.
  - intros [|j] b' Hj; cbn in Hj; simplify_eq.
    + exists d, rnd. rewrite Nat.add_0_r. split_and!; try done.
      rewrite Hout by lia. apply list_lookup_insert_eq. by eapply lookup_lt_Some.
    + destruct (Hin j b' Hj) as (d' & rnd' & H1 & H2 & H3 & H4). exists d', rnd'.
      replace (k + S j)%nat with (S k + j)%nat by lia. split_and!; try done.
      rewrite <- H1. symmetry. apply list_lookup_insert_ne. lia.
Qed.

Fixpoint follow_blocks (id k : Z) (cs : list bytes) : list Block :=
  match cs with
  | [] => []
  | c :: cs => follow_block id k (match cs with [] => true | _ => false end) c :: follow_blocks id (k + 1) cs
  end.

Lemma followLoop_ok g tunnelID id data needed fuel : forall (k : nat) offset w dst,
  0 < tunnelID -> 0 <= id < 2 ^ 32 -> 0 <= offset <= len data -> len data - offset <= Z.of_nat fuel ->
  (0 < k)%nat ->
  let cs := chunk fuel 996 (sub offset (len data) data) in
  Z.of_nat k + len cs <= 64 ->
  (forall j, (k <= j < k + length cs)%nat -> exists d, dst !! j = Some (Some d) /\ has_room d) ->
  exists w' dst',
    followLoop randReader readFull fuel g tunnelID id data needed (Z.of_nat k) offset (w, dst) =
      (Ok (needed, None), (w', dst')) /\
    sent tunnelID k (follow_blocks id (Z.of_nat k) cs) dst dst'.
Proof.
  induction fuel as [|fuel IH]; intros k offset w dst Ht Hid Ho Hf Hk cs Hn Hdst.
  { exists w, dst. cbn [followLoop]. zbool. split; [done|apply sent_nil]. }
  subst cs. cbn [followLoop].
  destruct (offset <? len data) eqn:E.
  2:{ exists w, dst. split; [done|]. rewrite sub_empty by lia. apply sent_nil. }
  unfold maxBlockBytes, TunnelPayloadLen, TunnelDataPayloadLen, tunnelIVLen, tunnelChecksumLen.
  replace (offset + (1024 - 16 - 4 - 1) - 7) with (offset + 996) by lia.
  set (m := Z.min 996 (len data - offset)).
  replace (Z.min (offset + 996) (len data)) with (offset + m) by lia.
  assert (Hcs : chunk (S fuel) 996 (sub offset (len data) data) =
          sub offset (offset + m) data :: chunk fuel 996 (sub (offset + m) (len data) data)).
  { rewrite chunk_step by len_lia. len_simpl. fold m. rewrite !sub_sub by lia. repeat f_equal; lia. }
  rewrite Hcs in *. set (cs := chunk fuel 996 _) in *. cbn [length] in Hdst. len_simpl_in Hn.
  assert (Hlast : (offset + m =? len data) = match cs with [] => true | _ => false end).
  { destruct (Z.eqb_spec (offset + m) (len data)) as [Heq|Hne]; subst cs.
    - rewrite Heq, sub_empty by lia. by destruct fuel.
    - destruct fuel; [lia|]. by rewrite chunk_step by len_lia. }
  go_unfold. rewrite slice_ok by lia. unfold u8. rewrite (Z.mod_small (Z.of_nat k)) by (len_pos; lia).
  fold (follow_block id (Z.of_nat k) (offset + m =? len data) (sub offset (offset + m) data)).
  set (b := follow_block _ _ _ _).
  destruct (Hdst k) as (d & Hd & Hroom); [lia|].
  assert (Hb : block_ok b).
  { unfold block_ok, b, zeroHash. cbn [FollowOn follow_block TunnelBlocks.Data MessageID Gateway Fragment].
    rewrite len_sub by lia. len_pos. split_and!; lia || done. }
  assert (Hw : len (wires [b]) = 7 + m).
  { unfold wires. cbn [fmap list_fmap concat]. rewrite app_nil_r, len_block_wire by done.
    unfold wire_len, b. cbn [FollowOn follow_block TunnelBlocks.Data]. len_lia. }
  destruct (encodeAt_ok g tunnelID [b] k w dst d) as (rnd & w' & Hr & Hbytes & ->);
    [done|by constructor|unfold maxBlockBytes, TunnelPayloadLen, TunnelDataPayloadLen, tunnelIVLen, tunnelChecksumLen; lia|done|done|].
  replace (Z.of_nat k + 1) with (Z.of_nat (S k)) by lia.
  destruct (IH (S k) (offset + m) w' (<[k:=Some (appended d (tunnel_frame tunnelID rnd [b]))]> dst))
    as (w'' & dst' & Hloop & Hsent); try done; try lia.
  { fold cs. len_pos. lia. }
  { fold cs. intros j Hj. rewrite list_lookup_insert_ne by lia. apply Hdst. lia. }
  exists w'', dst'. split; [done|]. cbn [follow_blocks]. rewrite <- Hlast.
  replace (Z.of_nat k + 1) with (Z.of_nat (S k)) by lia. by eapply sent_cons.
Qed.

(** ** What [Fragment] sends *)

(** Room for data in the first payload of a fragmented message. *)
Definition first_room (b : Block) : Z :=
  996 - (if Delivery b =? DeliveryTunnel then 36 else if Delivery b =? DeliveryRouter then 32 else 0).

Lemma first_room_bound b : 960 <= first_room b <= 996.
Proof. unfold first_room. destruct (Delivery b =? DeliveryTunnel), (Delivery b =? DeliveryRouter); lia. Qed.

Definition pieces (b : Block) : list bytes :=
  sub 0 (first_room b) (Data b) ::
  chunk (length (Data b)) 996 (sub (first_room b) (len (Data b)) (Data b)).

(** The blocks of the payloads, one each, for message identifier [id]. *)
Definition fragments (b : Block) (id : Z) : list Block :=
  if len (Data b) <=? first_room b then [set_data true (Data b) b]
  else set_data false (sub 0 (first_room b) (Data b)) (set_message id b) ::
       follow_blocks id 1 (tail (pieces b)).

(** The blocks [Fragment] accepts. *)
Definition message_block (b : Block) : Prop :=
  block_ok b /\ FollowOn b = false /\ len (Data b) <= I2PDMaxPayload.

Lemma len_follow_blocks id cs : forall k, len (follow_blocks id k cs) = len cs.
Proof. induction cs as [|c cs IH]; intros k; cbn [follow_blocks]; [done|]. by rewrite !len_cons, IH. Qed.

Lemma pieces_count b :
  message_block b -> first_room b < len (Data b) ->
  len (pieces b) = 1 + Z.quot (len (Data b) - first_room b + 995) 996 /\ len (pieces b) <= 63.
Proof.
  intros (_ & _ & Hmax) Hlt. unfold pieces. rewrite len_cons.
  pose proof (first_room_bound b).
  rewrite chunk_count by (len_simpl; unfold len; lia). len_simpl.
  replace (len (Data b) - first_room b + 996 - 1) with (len (Data b) - first_room b + 995) by lia.
  split; [done|]. unfold I2PDMaxPayload, I2PDMessageBufferBytes, I2PDReservedPrefix, StandardHeaderLen in Hmax.
  rewrite Z.quot_div_nonneg by lia.
  assert ((len (Data b) - first_room b + 995) / 996 < 63) by (apply Z.div_lt_upper_bound; lia). lia.
Qed.

Lemma firstBlockLen_ok b :
  message_block b -> firstBlockLen b true = Ok (1003 - first_room b).
Proof.
  intros ((Hd & _ & _ & Hb) & Hf & _). unfold firstBlockLen, first_room. rewrite Hf in *.
  destruct Hb as [Hdel Ht]. unfold DeliveryTunnel, DeliveryRouter in *. zbool. cbn [orb].
  destruct (Delivery b =? 1) eqn:E1.
  - zbool. done.
  - destruct (Delivery b =? 2); done.
Qed.

Lemma nonzero_id l : len l = 4 -> bytes_ok l ->
  exists id, be_uint 4 (nonzero <$> l) = Ok id /\ 0 < id < 2 ^ 32.
Proof.
  intros Hl Hb.
  assert (Hnz : bytes_ok (nonzero <$> l)).
  { apply Forall_fmap. eapply Forall_impl; [done|]. intros x Hx. unfold is_byte, nonzero in *. cbn.
    destruct (x =? 0) eqn:E; lia. }
  rewrite be_uint_ok by len_lia. rewrite sub_all by len_lia. eexists. split; [done|].
  pose proof (be_val_bound _ Hnz) as Hv. len_simpl_in Hv. rewrite Hl in Hv. split; [|lia].
  destruct l as [|x l]; [done|]. cbn [fmap list_fmap] in *. rewrite be_val_cons. len_simpl_in Hl. len_simpl.
  apply Forall_cons in Hnz as [Hx Hnz]. pose proof (be_val_bound _ Hnz).
  replace (len l) with 3 by lia. unfold is_byte, nonzero in *. destruct (x =? 0) eqn:E; lia.
Qed.

Lemma wires_one b : block_ok b -> len (wires [b]) = wire_len b.
Proof. intros. unfold wires. cbn [fmap list_fmap concat]. by rewrite app_nil_r, len_block_wire. Qed.

Lemma first_wire_len b data (last : bool) :
  FollowOn b = false -> wire_len (set_data last data b) = len data + (if last then 999 else 1003) - first_room b.
Proof.
  intros Hf. unfold wire_len, first_room. cbn [FollowOn Delivery Last Data set_data]. rewrite Hf.
  destruct (Delivery b =? DeliveryTunnel), (Delivery b =? DeliveryRouter), last; lia.
Qed.

Lemma set_data_ok b data last :
  block_ok b -> 0 < len data < 2 ^ 16 -> block_ok (set_data last data b).
Proof. intros (Hd & Hr) Hlen. split; [done|]. exact Hr. Qed.

Lemma fragments_count b id :
  first_room b < len (Data b) -> len (fragments b id) = len (pieces b).
Proof.
  intros Hbig. unfold fragments. zbool. unfold pieces. cbn [tail]. by rewrite !len_cons, len_follow_blocks.
Qed.

Lemma sendFragments_ok g tunnelID b id w dst :
  0 < tunnelID -> message_block b -> first_room b < len (Data b) -> 0 < id < 2 ^ 32 ->
  (forall j, Z.of_nat j < len (pieces b) -> exists d, dst !! j = Some (Some d) /\ has_room d) ->
  exists w' dst',
    sendFragments randReader readFull g tunnelID (set_message id b) (len (fragments b id)) (first_room b) (w, dst) =
      (Ok (len (fragments b id), None), (w', dst')) /\
    sent tunnelID 0 (fragments b id) dst dst'.
Proof.
  intros Ht Hb Hbig Hid Hdst. pose proof Hb as (Hok & Hf & Hmax). pose proof (first_room_bound b) as Hfr.
  destruct (pieces_count b Hb Hbig) as [_ Hcount].
  assert (Hok' : block_ok (set_message id b)).
  { destruct Hok as (H1 & H2 & H3). split; [exact H1|]. split; [cbn; lia|exact H3]. }
  unfold sendFragments, fragments. zbool. cbn [pieces tail]. go_unfold.
  change (Data (set_message id b)) with (Data b). change (MessageID (set_message id b)) with id.
  rewrite slice_ok by lia.
  set (b1 := set_data false _ (set_message id b)).
  assert (Hb1 : block_ok b1) by (apply set_data_ok; [done|len_lia]).
  destruct (Hdst 0%nat) as (d0 & Hd0 & Hroom0); [unfold pieces; rewrite len_cons; len_pos; lia|].
  destruct (encodeAt_ok g tunnelID [b1] 0 w dst d0) as (rnd & w' & Hr & Hbytes & Henc);
    [lia|by constructor| |done|done|].
  { rewrite wires_one by done. unfold b1. rewrite first_wire_len by done.
    unfold first_room, maxBlockBytes, TunnelPayloadLen, TunnelDataPayloadLen, tunnelIVLen, tunnelChecksumLen.
    fold (first_room b). cbn [Delivery set_message]. fold (first_room b). len_lia. }
  change (Z.of_nat 0) with 0 in Henc. rewrite Henc. unfold pieces in Hcount, Hdst. len_simpl_in Hcount.
  destruct (followLoop_ok g tunnelID id (Data b) (len (b1 :: follow_blocks id 1
      (chunk (length (Data b)) 996 (sub (first_room b) (len (Data b)) (Data b)))))
      (length (Data b)) 1 (first_room b) w' (<[0%nat:=Some (appended d0 (tunnel_frame tunnelID rnd [b1]))]> dst))
    as (w'' & dst' & Hloop & Hsent); try lia.
  { unfold len. lia. }
  { revert Hcount Hdst. generalize (chunk (length (Data b)) 996 (sub (first_room b) (len (Data b)) (Data b))).
    intros cs Hcount Hdst j Hj. rewrite list_lookup_insert_ne by lia. apply Hdst. rewrite len_cons. unfold len in *. lia. }
  change (Z.of_nat 1) with 1 in *. rewrite Hloop. exists w'', dst'. split; [done|]. by eapply sent_cons.
Qed.

Lemma chooseMessageID_ok (padding : option reader) b w dst :
  0 <= MessageID b < 2 ^ 32 ->
  exists id w', 0 < id < 2 ^ 32 /\ (MessageID b <> 0 -> id = MessageID b) /\
    chooseMessageID readFull (Some (NewGateway randReader padding)) b (w, dst) = (Ok (inr id), (w', dst)).
Proof.
  intros Hm. unfold chooseMessageID. destruct (MessageID b =? 0) eqn:E.
  2:{ exists (MessageID b), w. split_and!; lia || done. }
  go_unfold. unfold readNonZero.
  set (r := default randReader padding).
  replace (Gateway.padding (NewGateway randReader padding)) with (Some r) by by destruct padding.
  destruct (readFull_total r 4 w) as (l & w' & Hread & Hl & Hb); [lia|].
  cbn [fst snd]. rewrite Hread. cbn [fst snd].
  destruct (nonzero_id l Hl Hb) as (id & Hu & Hid). rewrite Hu. exists id, w'.
  split_and!; lia || done.
Qed.

(** [Fragment] sends the whole message.  For every block with 1 to 62,690
    bytes of data and enough buffers it returns no error and the number of
    payloads of [fragments], each payload being the 1,028-byte tunnel frame of
    one fragment appended to its buffer, and it writes no other buffer.  A
    block without message identifier gets a nonzero one. *)
Lemma Fragment_sends (padding : option reader) tunnelID b w dst :
  0 < tunnelID < 2 ^ 32 -> message_block b ->
  (forall j, (j < length (fragments b 0))%nat -> exists d, dst !! j = Some (Some d) /\ has_room d) ->
  exists id w' dst',
    0 < id < 2 ^ 32 /\ (MessageID b <> 0 -> id = MessageID b) /\
    FragmentBlock randReader readFull (Some (NewGateway randReader padding)) tunnelID b (w, dst) =
      (Ok (len (fragments b id), None), (w', dst')) /\
    sent tunnelID 0 (fragments b id) dst dst'.
Proof.
  intros Ht Hb Hdst. pose proof Hb as ((Hd & Hmid & Hg & Hkind) & Hf & Hmax).
  pose proof (first_room_bound b) as Hfr.
  unfold FragmentBlock. rewrite Hf in *. destruct Hkind as [Hdel Htun]. unfold DeliveryRouter. zbool.
  rewrite firstBlockLen_ok by done. go_unfold. cbn [fst snd].
  unfold maxBlockBytes, TunnelPayloadLen, TunnelDataPayloadLen, tunnelIVLen, tunnelChecksumLen.
  replace (1024 - 16 - 4 - 1 - (1003 - first_room b)) with (first_room b) by lia.
  assert (Hn : (0 < length (fragments b 0))%nat) by (unfold fragments; destruct (len (Data b) <=? first_room b); cbn; lia).
  destruct (Hdst 0%nat) as (d0 & Hd0 & Hroom0); [lia|].
  assert (Hall : len (fragments b 0) <= len dst).
  { destruct (Hdst (length (fragments b 0) - 1)%nat) as (d & Hdn & _); [lia|]. apply lookup_lt_Some in Hdn. unfold len. lia. }
  assert (0 < len dst) by (unfold len in *; lia).
  unfold fragments at 1 2. destruct (len (Data b) <=? first_room b) eqn:Hsmall.
  - assert (Hb1 : block_ok (set_data true (Data b) b)) by (apply set_data_ok; [apply Hb|done]).
    zbool.
    destruct (encodeAt_ok (Some (NewGateway randReader padding)) tunnelID [set_data true (Data b) b] 0 w dst d0)
      as (rnd & w' & Hr & Hbytes & Henc); [lia|by constructor| |done..|].
    { rewrite wires_one, first_wire_len by done.
      unfold maxBlockBytes, TunnelPayloadLen, TunnelDataPayloadLen, tunnelIVLen, tunnelChecksumLen. lia. }
    change (Z.of_nat 0) with 0 in Henc. rewrite Henc.
    exists (if MessageID b =? 0 then 1 else MessageID b), w', (<[0%nat:=Some (appended d0 (tunnel_frame tunnelID rnd [set_data true (Data b) b]))]> dst).
    split_and!; try done; try (destruct (MessageID b =? 0) eqn:E; lia).
    eapply sent_cons; [done|done|done|apply sent_nil].
  - replace (len (Data b) - first_room b + (1024 - 16 - 4 - 1) - 7 - 1) with (len (Data b) - first_room b + 995) by lia.
    change (1024 - 16 - 4 - 1 - 7) with 996.
    destruct (pieces_count b Hb ltac:(lia)) as [Hcount Hle].
    assert (Hneeded : forall id, 1 + Z.quot (len (Data b) - first_room b + 995) 996 = len (fragments b id)).
    { intros id. by rewrite fragments_count, <- Hcount by lia. }
    rewrite fragments_count in Hall by lia. rewrite <- Hcount. zbool. rewrite Hcount.
    destruct (chooseMessageID_ok padding b w dst) as (id & w1 & Hid & Hsame & ->); [lia|].
    rewrite (Hneeded id).
    destruct (sendFragments_ok (Some (NewGateway randReader padding)) tunnelID b id w1 dst) as (w' & dst' & Hs & Hsent);
      [lia|done|lia|done| |].
    { intros j Hj. apply Hdst. pose proof (fragments_count b 0 ltac:(lia)) as Hl. unfold len in *. lia. }
    exists id, w', dst'. rewrite Hs. fold (fragments b id). unfold fragments in *. rewrite Hsmall in *. done.
Qed.

(** C37: a [Gateway] without padding reader fragments only messages that bring
    their own identifier: [Encode] falls back to the system's random source, but
    [Fragment] reads the identifier of a message larger than one payload from the
    nil reader and panics. *)
Theorem Fragment_nil_reader_panics tunnelID b w dst :
  0 < tunnelID -> message_block b -> first_room b < len (Data b) -> MessageID b = 0 -> 63 <= len dst ->
  (FragmentBlock randReader readFull (Some (mkGateway None)) tunnelID b (w, dst)).1 = Panic /\
  forall d, has_room d ->
    exists s, Encode randReader readFull (Some (mkGateway None)) tunnelID
      [set_data false (sub 0 (first_room b) (Data b)) b] (w, Some d) = (Ok tt, s).
Proof.
  intros Ht Hb Hbig Hm Hdst. pose proof Hb as (Hok & Hf & Hmax). pose proof (first_room_bound b) as Hfr.
  destruct (pieces_count b Hb Hbig) as [Hcount Hle]. split.
  - pose proof Hok as (Hd & _ & _ & Hkind). rewrite Hf in Hkind. destruct Hkind as [Hdel _].
    unfold FragmentBlock. rewrite Hf. unfold DeliveryRouter. zbool.
    rewrite firstBlockLen_ok by done. go_unfold. cbn [fst snd].
    unfold maxBlockBytes, TunnelPayloadLen, TunnelDataPayloadLen, tunnelIVLen, tunnelChecksumLen.
    replace (1024 - 16 - 4 - 1 - (1003 - first_room b)) with (first_room b) by lia.
    replace (len (Data b) - first_room b + (1024 - 16 - 4 - 1) - 7 - 1) with (len (Data b) - first_room b + 995) by lia.
    change (1024 - 16 - 4 - 1 - 7) with 996. rewrite <- Hcount. zbool.
    unfold chooseMessageID. rewrite Hm. done.
  - intros d Hroom. set (b1 := set_data false _ b).
    assert (Hb1 : block_ok b1) by (apply set_data_ok; [done|len_lia]).
    destruct (encodeInto_ok (Some (mkGateway None)) tunnelID [b1] w d) as (rnd & w' & _ & _ & Henc);
      [by constructor| |done|].
    { rewrite wires_one by done. unfold b1. rewrite first_wire_len by done.
      unfold maxBlockBytes, TunnelPayloadLen, TunnelDataPayloadLen, tunnelIVLen, tunnelChecksumLen. len_lia. }
    unfold Encode. zbool. cbn [fst snd]. rewrite Henc. eauto.
Qed.
End Encoding.

(** ** Witnesses *)

(** A reader that never runs dry. *)
Definition sevens (_ : unit) (n : Z) (w : Z) : (option error * bytes) * Z :=
  ((None, replicate (Z.to_nat n) 7), w + n).

Lemma sevens_total r n w : 0 <= n -> exists b w', sevens r n w = ((None, b), w') /\ len b = n /\ bytes_ok b.
Proof.
  intros. exists (replicate (Z.to_nat n) 7), (w + n). split_and!; [done|len_lia|].
  apply Forall_replicate. unfold is_byte. lia.
Qed.

Definition sample_block (id : Z) : Block :=
  mkBlock DeliveryRouter (replicate 32 9) 0 id 0 false true (replicate 2500 5).

Definition sample_buffer : Buffer := mkBuffer (make_bytes 1100) None 20 20 20 1100 false.

Lemma sample_block_ok id : 0 <= id < 2 ^ 32 -> message_block (sample_block id).
Proof.
  intros. unfold message_block, block_ok.
  cbn [Data MessageID Gateway FollowOn Delivery TunnelID sample_block].
  split_and!; try lia; try (vm_compute; congruence).
Qed.

Lemma sample_buffer_ok : has_room sample_buffer.
Proof. repeat split; vm_compute; congruence. Qed.

Lemma Fragment_nil_reader_panics_witness :
  (FragmentBlock tt sevens (Some (mkGateway None)) 42 (sample_block 0)
     (0, replicate 63 (Some sample_buffer))).1 = Panic.
Proof.
  apply (Fragment_nil_reader_panics tt sevens sevens_total 42 (sample_block 0) 0).
  - lia.
  - apply sample_block_ok. lia.
  - vm_compute. reflexivity.
  - reflexivity.
  - vm_compute. congruence.
Defined.

