(* ===== verification/Endpoint.v ===== *)
(** The tunnel endpoint, the second half of
    [src/dataplane/internal/tunnel/gateway.go]: parsing a decrypted TunnelData
    payload, matching fragments with their delivery instructions, and delivering
    whole messages.

    The state of a call is the endpoint and the deliveries written to [out] so
    far; [room] is [len(out)], so the returned count is the length of that list.
    The two [range] arguments are the iteration orders of the reassembler's and
    of the metadata map. *)

From S2P Require Import Prelude Wire Sha256 I2NP Buffers TunnelBlocks Reassembly Gateway.

Record deliveryMeta := mkMeta { mblock : Block; mcreated : Z }.

Record Endpoint := mkEndpoint { reasm : Reassembler; maxMeta : Z; meta : gmap Z deliveryMeta }.

Definition NewEndpoint (maxEntries maxMessage : Z) : Endpoint :=
  let maxEntries := if maxEntries <=? 0 then 128 else maxEntries in
  mkEndpoint (NewReassembler maxEntries maxMessage) maxEntries ∅.

Definition set_meta (m : gmap Z deliveryMeta) (e : Endpoint) : Endpoint :=
  mkEndpoint (reasm e) (maxMeta e) m.

(** [start] after the scan for the zero delimiter, relative to the scan's start. *)
Fixpoint scanNonzero (l : bytes) : Z :=
  match l with
  | [] => 0
  | b :: l => if b =? 0 then 0 else 1 + scanNonzero l
  end.

Section Endpoint.
Context (range : gmap Z partial -> list (Z * partial)).
Context (rangeMeta : gmap Z deliveryMeta -> list (Z * deliveryMeta)).
Context (room : Z).

Definition state : Type := Endpoint * list Block.

Definition remember (block : Block) (now : Z) : go state unit :=
  let! s := get in
  let e := s.1 in
  let block := set_data (Last block) [] block in
  match meta e !! MessageID block with
  | Some prior =>
      if negb (Delivery (mblock prior) =? Delivery block) ||
         negb (bytes_eqb (Gateway (mblock prior)) (Gateway block)) ||
         negb (TunnelID (mblock prior) =? TunnelID block)
      then fail ErrFragment
      else put (set_meta (<[MessageID block := prior]> (meta e)) e, s.2)
  | None =>
      let m := if Z.of_nat (size (meta e)) =? maxMeta e
               then delete (oldest mcreated (rangeMeta (meta e))).1 (meta e) else meta e in
      put (set_meta (<[MessageID block := mkMeta block now]> m) e, s.2)
  end.

(** [e.reasm.Add] *)
Definition reasmAdd (f : Reassembly.Fragment) (now : Z) : go state (option bytes) :=
  fun s =>
    let (r, r') := Add range f now (reasm s.1) in
    (r, (mkEndpoint r' (maxMeta s.1) (meta s.1), s.2)).

(** [out[n] = block; n++] with its guard. *)
Definition deliver (block : Block) : go state unit :=
  let! s := get in
  if len s.2 =? room then fail ErrGatewayOutput else put (s.1, s.2 ++ [block]).

(** Delivery of a completed message: the stored instructions with its data. *)
Definition complete (m : deliveryMeta) (data : bytes) (messageID : Z) : go state unit :=
  let! _ := deliver (set_data true data (mblock m)) in
  let! s := get in
  put (set_meta (delete messageID (meta s.1)) s.1, s.2).

(** The zero value a Go map read yields for a missing key. *)
Definition zeroMeta : deliveryMeta := mkMeta (mkBlock 0 zeroHash 0 0 0 false false []) 0.

Definition appendFragmentedBlockLocked (block : Block) (now : Z) : go state unit :=
  if negb (FollowOn block) && Last block then deliver block
  else if FollowOn block then
    if TunnelBlocks.Fragment block =? 0 then fail ErrGatewayBlock
    else
      let! done := reasmAdd (mkFragment (MessageID block) (TunnelBlocks.Fragment block) (Last block) (Data block)) now in
      match done with
      | None => ret tt
      | Some data =>
          let! s := get in
          match meta s.1 !! MessageID block with
          | None => fail ErrFragment
          | Some m => complete m data (MessageID block)
          end
      end
  else
    let! _ := remember block now in
    let! done := reasmAdd (mkFragment (MessageID block) 0 false (Data block)) now in
    match done with
    | None => ret tt
    | Some data =>
        let! s := get in
        complete (default zeroMeta (meta s.1 !! MessageID block)) data (MessageID block)
    end.

(** The loops of [parseFragmented] and [Parse].  Every block takes at least one
    byte of the iterator, so its length is enough fuel. *)
Fixpoint parseFragmented (fuel : nat) (block : Block) (it : bytes) (now : Z) : go state unit :=
  match fuel with
  | O => lift Panic
  | S fuel =>
      let! _ := appendFragmentedBlockLocked block now in
      let (next, it) := Next it in
      let! next := lift next in
      match next with
      | None => ret tt
      | Some block => parseFragmented fuel block it now
      end
  end.

Fixpoint parseBlocks (fuel : nat) (it : bytes) (now : Z) : go state unit :=
  match fuel with
  | O => lift Panic
  | S fuel =>
      let (next, it) := Next it in
      let! next := lift next in
      match next with
      | None => ret tt
      | Some block =>
          if negb (FollowOn block) && Last block then
            let! _ := deliver block in parseBlocks fuel it now
          else parseFragmented fuel block it now
      end
  end.

Definition Parse (payload : bytes) (now : Z) : go state unit :=
  let! message := lift (ParseTunnelData payload) in
  let data := TDData message in
  if negb (len data =? TunnelPayloadLen) then fail ErrGatewayPayload
  else
    let! checksum := lift (slice data tunnelIVLen (tunnelIVLen + tunnelChecksumLen)) in
    let! iv := lift (slice data 0 tunnelIVLen) in
    let! rest := lift (slice_from data (tunnelIVLen + tunnelChecksumLen)) in
    let start := tunnelIVLen + tunnelChecksumLen + scanNonzero rest in
    if start =? len data then fail ErrGatewayPayload
    else
      let! blocks := lift (slice_from data (start + 1)) in
      let expected := tunnelChecksum blocks iv in
      if negb (bytes_eqb checksum (sub 0 tunnelChecksumLen expected)) then fail ErrGatewayPayload
      else parseBlocks (S (length blocks)) blocks now.

(** [Expire] over both maps; the count is of removed entries of either. *)
Definition ExpireEndpoint (cutoff : Z) (e : Endpoint) : Z * Endpoint :=
  let (removed, r) := Expire range cutoff (reasm e) in
  fold_left (fun acc item =>
      if mcreated item.2 <=? cutoff
      then (acc.1 + 1, set_meta (delete item.1 (meta acc.2)) acc.2) else acc)
    (rangeMeta (meta e)) (removed, mkEndpoint r (maxMeta e) (meta e)).
End Endpoint.
(** ** Parsing what the gateway encodes *)

Lemma scanNonzero_pad pad rest : scanNonzero ((nonzero <$> pad) ++ [0] ++ rest) = len pad.
Proof.
  induction pad as [|x pad IH]; [done|]. cbn [fmap list_fmap app scanNonzero].
  rewrite len_cons. change (scanNonzero _) with (scanNonzero ((nonzero <$> pad) ++ [0] ++ rest)).
  replace (nonzero x =? 0) with false by (unfold nonzero; destruct (x =? 0) eqn:E; lia). rewrite IH. done.
Qed.

Lemma scanNonzero_bound l : 0 <= scanNonzero l <= len l.
Proof.
  induction l as [|x l IH]; cbn [scanNonzero]; [done|]. rewrite len_cons.
  destruct (x =? 0); len_pos; lia.
Qed.

Section Decoding.
Context (range : gmap Z partial -> list (Z * partial)).
Context (rangeMeta : gmap Z deliveryMeta -> list (Z * deliveryMeta)).
Context (room : Z).

Abbreviation append := (appendFragmentedBlockLocked range rangeMeta room).

(** The blocks of a payload, handled one after the other. *)
Fixpoint process (blocks : list Block) (now : Z) : go state unit :=
  match blocks with
  | [] => ret tt
  | b :: rest => let! _ := append (received b) now in process rest now
  end.

Lemma Next_nil : Next [] = (Ok None, []).
Proof. reflexivity. Qed.

Lemma parseFragmented_wires now blocks : forall fuel block s,
  Forall block_ok blocks -> (length blocks < fuel)%nat ->
  parseFragmented range rangeMeta room fuel block (wires blocks) now s =
  (let! _ := append block now in process blocks now) s.
Proof.
  induction blocks as [|b blocks IH]; intros [|fuel] block s Hok Hf; cbn [length] in Hf; [lia| |lia|];
    cbn [parseFragmented]; unfold gbind at 1; unfold gbind at 2.
  - destruct (append block now s) as [[[]| |] s']; done.
  - apply Forall_cons in Hok as [Hb Hok]. rewrite wires_cons, Next_wire by done.
    destruct (append block now s) as [[[]| |] s']; [|done|done].
    cbn [process]. unfold lift, gbind at 1. apply IH; [done|lia].
Qed.

Lemma parseBlocks_wires now blocks : forall fuel s,
  Forall block_ok blocks -> (length blocks < fuel)%nat ->
  parseBlocks range rangeMeta room fuel (wires blocks) now s = process blocks now s.
Proof.
  induction blocks as [|b blocks IH]; intros [|fuel] s Hok Hf; cbn [length] in Hf; [lia| |lia|];
    cbn [parseBlocks]; [done|].
  apply Forall_cons in Hok as [Hb Hok]. rewrite wires_cons, Next_wire by done. unfold lift, gbind at 1.
  cbn [process]. destruct (negb _ && _) eqn:E.
  - unfold gbind at 1 2, appendFragmentedBlockLocked. rewrite E.
    destruct (deliver room (received b) s) as [[[]| |] s']; [|done|done]. apply IH; [done|lia].
  - apply parseFragmented_wires; [done|lia].
Qed.

Lemma length_le_wires blocks : Forall block_ok blocks -> (length blocks <= length (wires blocks))%nat.
Proof.
  induction 1 as [|b blocks Hb Hall IH]; [done|]. rewrite wires_cons, length_app. cbn [length].
  pose proof (len_block_wire b Hb) as Hl. destruct Hb as ((Hd & _) & _). unfold wire_len in Hl. unfold len in *.
  assert (1 <= Z.of_nat (length (block_wire b))); [|lia].
  rewrite Hl. destruct (FollowOn b), (Delivery b =? DeliveryTunnel), (Delivery b =? DeliveryRouter), (Last b); lia.
Qed.

Lemma Parse_frame tunnelID rnd blocks now s :
  0 < tunnelID < 2 ^ 32 -> Forall block_ok blocks -> len (wires blocks) <= maxBlockBytes ->
  len rnd = 1023 - len (wires blocks) ->
  Parse range rangeMeta room (tunnel_frame tunnelID rnd blocks) now s = process blocks now s.
Proof.
  intros Ht Hok Hmax Hr.
  assert (Hdata : len (tunnel_data rnd blocks) = 1024).
  { apply len_tunnel_data; [|done]. revert Hmax.
    unfold maxBlockBytes, TunnelPayloadLen, TunnelDataPayloadLen, tunnelIVLen, tunnelChecksumLen. lia. }
  unfold Parse, ParseTunnelData, tunnel_frame. go_unfold.
  unfold TunnelDataMessageLen, TunnelDataPayloadLen, maxBlockBytes, TunnelPayloadLen, TunnelDataPayloadLen, tunnelIVLen, tunnelChecksumLen in *.
  go_eval. cbn [TDData]. unfold tunnel_data in *. 
  set (pad := sub 20 (len rnd) rnd) in *. set (iv := sub 0 16 rnd) in *. set (ck := sub 0 4 _) in *.
  assert (len iv = 16) as Hiv by (subst iv; len_lia).
  assert (len ck = 4) as Hck by (subst ck; len_lia).
  assert (len pad = 1003 - len (wires blocks)) as Hpad by (subst pad; len_lia).
  clearbody pad iv. go_eval.
  rewrite scanNonzero_pad. go_eval.
  rewrite tunnelChecksum_ok by lia. fold ck. unfold bytes_eqb. rewrite bool_decide_true by done. cbn [negb].
  apply parseBlocks_wires; [done|]. pose proof (length_le_wires blocks Hok). lia.
Qed.

(** ** No payload makes the endpoint panic *)

Lemma Add_returns f now r : (Add range f now r).1 <> Panic.
Proof.
  unfold Add, accept. destruct (_ || _); [done|]. destruct (entryFor _ _ _ _) as [e r'].
  cbv zeta. repeat go_if; done.
Qed.

Lemma reasmAdd_returns f now : returns (reasmAdd range f now).
Proof.
  intros s. unfold reasmAdd. pose proof (Add_returns f now (reasm s.1)).
  by destruct (Add range f now (reasm s.1)).
Qed.

Lemma append_returns b now : returns (append b now).
Proof.
  unfold appendFragmentedBlockLocked, complete, remember, deliver.
  pose proof reasmAdd_returns. returns_tac.
Qed.

(** Case analysis on the iterator's next block. *)
Ltac next_cases it Hok :=
  let Hs := fresh "Hs" in let Hok' := fresh "Hok" in
  destruct (Next_safe it Hok) as (Hs & Hok' & _);
  pose proof (fun b it' => Next_consumes it b it' Hok);
  destruct (Next it) as [[[?b|]|?e|] ?it]; cbn [fst snd] in *; [| |intros ?; done|done].

Lemma parseFragmented_returns now fuel : forall b it,
  bytes_ok it -> len it < Z.of_nat fuel -> returns (parseFragmented range rangeMeta room fuel b it now).
Proof.
  induction fuel as [|fuel IH]; intros b it Hok Hf; [len_pos; lia|]. cbn [parseFragmented].
  apply returns_bind; [apply append_returns|]. intros _. next_cases it Hok.
  - specialize (H _ _ eq_refl). apply IH; [done|lia].
  - apply returns_ret.
Qed.

Lemma parseBlocks_returns now fuel : forall it,
  bytes_ok it -> len it < Z.of_nat fuel -> returns (parseBlocks range rangeMeta room fuel it now).
Proof.
  induction fuel as [|fuel IH]; intros it Hok Hf; [len_pos; lia|]. cbn [parseBlocks]. next_cases it Hok.
  - specialize (H _ _ eq_refl).
    assert (returns (if negb (FollowOn b) && Last b
      then let! _ := deliver room b in parseBlocks range rangeMeta room fuel it0 now
      else parseFragmented range rangeMeta room fuel b it0 now)) as Hr; [|exact Hr].
    destruct (_ && _).
    + apply returns_bind; [unfold deliver; returns_tac|]. intros _. apply IH; [done|lia].
    + apply parseFragmented_returns; [done|lia].
  - apply returns_ret.
Qed.

Lemma ParseTunnelData_inv payload m :
  bytes_ok payload -> ParseTunnelData payload = Ok m -> bytes_ok (TDData m) /\ len (TDData m) = 1024.
Proof.
  intros Hok. unfold ParseTunnelData, TunnelDataMessageLen, TunnelDataPayloadLen. go_run; intros; simplify_eq.
  cbn [TDData]. split; [by apply bytes_ok_sub|]. len_lia.
Qed.

Lemma Parse_returns payload now : bytes_ok payload -> returns (Parse range rangeMeta room payload now).
Proof.
  intros Hok s. unfold Parse, gbind at 1, lift. pose proof (ParseTunnelData_safe payload Hok) as Hs.
  destruct (ParseTunnelData payload) as [m| |] eqn:E; [|done|done].
  destruct (ParseTunnelData_inv payload m Hok E) as [Hd Hl]. revert s.
  match goal with |- forall s, (?f s).1 <> Panic => change (returns f) end.
  unfold TunnelPayloadLen, TunnelDataPayloadLen, tunnelIVLen, tunnelChecksumLen.
  destruct (negb _); [apply returns_fail|].
  rewrite !slice_ok, (slice_from_ok _ (16 + 4)) by lia. intros s. unfold gbind.
  set (rest := sub (16 + 4) _ _). pose proof (scanNonzero_bound rest) as Hsc.
  assert (len rest = 1004) as Hrest by (subst rest; len_lia).
  destruct (_ =? _) eqn:Hend; [done|]. rewrite slice_from_ok by lia.
  destruct (negb _); [done|]. apply parseBlocks_returns; [by apply bytes_ok_sub|unfold len; lia].
Qed.

(** ** A fragmented message arriving in any order *)

Lemma follow_blocks_lookup id cs : forall k j c,
  cs !! j = Some c ->
  follow_blocks id k cs !! j = Some (follow_block id (k + Z.of_nat j) (Z.of_nat j =? len cs - 1) c).
Proof.
  induction cs as [|c0 cs IH]; intros k [|j] c Hj; cbn [lookup list_lookup] in Hj; simplify_eq;
    cbn [follow_blocks lookup list_lookup].
  - do 2 f_equal; [lia|]. rewrite len_cons. destruct cs; [done|]. rewrite len_cons.
    symmetry. apply Z.eqb_neq. len_pos. lia.
  - rewrite (IH _ _ c) by done. do 2 f_equal; [lia|]. rewrite len_cons.
    destruct (Z.eqb_spec (Z.of_nat j) (len cs - 1)); symmetry; [apply Z.eqb_eq|apply Z.eqb_neq]; lia.
Qed.
End Decoding.

Section Delivery.
Context (range : gmap Z partial -> list (Z * partial)).
Context (rangeMeta : gmap Z deliveryMeta -> list (Z * deliveryMeta)).
Context (room : Z) (Hroom : 0 < room).
Context (b : Block) (id : Z) (Hb : message_block b) (Hbig : first_room b < len (Data b)) (Hid : 0 < id < 2 ^ 32).
Context (meta0 : gmap Z deliveryMeta) (Hfresh : meta0 !! id = None).

Abbreviation append := (appendFragmentedBlockLocked range rangeMeta room).

Definition first_block : Block := set_data false (sub 0 (first_room b) (Data b)) (set_message id b).

(** The delivery instructions the endpoint remembers, and what it delivers. *)
Definition instructions : Block := set_data false [] (received first_block).
Definition delivered : Block := set_data true (Data b) instructions.

Lemma received_first :
  received first_block = set_data false (sub 0 (first_room b) (Data b)) instructions /\
  FollowOn instructions = false /\ MessageID instructions = id /\ Last instructions = false.
Proof.
  destruct Hb as (_ & Hf & _). unfold instructions, received, first_block.
  cbn [FollowOn set_data set_message Last MessageID]. rewrite Hf. done.
Qed.

(** Whether the instructions are there: they come with fragment 0. *)
Definition meta_for (known : bool) (m : gmap Z deliveryMeta) : Prop :=
  if known then exists t, m = <[id := mkMeta instructions t]> meta0 else m = meta0.

Lemma remember_first known now e out :
  meta_for known (meta e) -> Z.of_nat (size meta0) < maxMeta e ->
  exists m, meta_for true m /\
    remember rangeMeta (received first_block) now (e, out) = (Ok tt, (set_meta m e, out)).
Proof.
  intros Hm Hsz. destruct received_first as (-> & Hf & Hmid & Hl). unfold remember. go_unfold.
  cbn [fst snd MessageID set_data]. rewrite Hmid.
  destruct known; cbn in Hm.
  - destruct Hm as [t Hm]. rewrite Hm, lookup_insert_eq. cbn [mblock Delivery Gateway TunnelID set_data].
    unfold bytes_eqb. rewrite !Z.eqb_refl, bool_decide_true by done. cbn [negb orb].
    exists (<[id := mkMeta instructions t]> meta0). split; [by exists t|]. by rewrite insert_insert_eq.
  - rewrite Hm, Hfresh. zbool. exists (<[id := mkMeta instructions now]> meta0). split; [by exists now|].
    done.
Qed.

(** The fragments on the wire are those the reassembler expects. *)
Lemma fragments_lookup j blk :
  fragments b id !! j = Some blk ->
  (j < length (pieces b))%nat /\
  (j = 0%nat /\ blk = first_block /\
   frag_of (pieces b) id 0 = mkFragment id 0 false (sub 0 (first_room b) (Data b)) \/
   exists data, (0 < j)%nat /\ blk = follow_block id (Z.of_nat j) (Z.of_nat j =? len (pieces b) - 1) data /\
     frag_of (pieces b) id j = mkFragment id (Z.of_nat j) (Z.of_nat j =? len (pieces b) - 1) data).
Proof.
  pose proof (first_room_bound b) as Hfr. unfold fragments. zbool. intros Hj.
  assert (2 <= len (pieces b)) as H2.
  { destruct (pieces_count b Hb Hbig) as [-> _]. rewrite Z.quot_div_nonneg by lia.
    assert (1 <= (len (Data b) - first_room b + 995) / 996) by (apply Z.div_le_lower_bound; lia). lia. }
  destruct j as [|j].
  - cbn [lookup list_lookup] in Hj. simplify_eq. split; [unfold len in H2; lia|]. left. split_and!; [done..|].
    unfold frag_of. rewrite (proj2 (Z.eqb_neq _ _)) by lia. done.
  - change (follow_blocks id 1 (tail (pieces b)) !! j = Some blk) in Hj.
    assert (Hlt := lookup_lt_Some _ _ _ Hj).
    pose proof (len_follow_blocks id (tail (pieces b)) 1) as Hlen. unfold len in Hlen.
    destruct (lookup_lt_is_Some_2 (tail (pieces b)) j) as [c Hc]; [lia|].
    rewrite (follow_blocks_lookup id _ 1 j c Hc) in Hj. simplify_eq.
    assert (Hp : pieces b !! S j = Some c) by exact Hc.
    split; [by eapply lookup_lt_Some|]. right. exists c. split; [lia|].
    assert ((Z.of_nat j =? len (tail (pieces b)) - 1) = (Z.of_nat (S j) =? len (pieces b) - 1)) as ->.
    { unfold pieces at 2. rewrite len_cons. cbn [tail pieces].
      destruct (Z.eqb_spec (Z.of_nat j) (len (chunk (length (Data b)) 996 (sub (first_room b) (len (Data b)) (Data b))) - 1));
        symmetry; [apply Z.eqb_eq|apply Z.eqb_neq]; lia. }
    split; [f_equal; lia|]. unfold frag_of. rewrite Hp. done.
Qed.

Lemma pieces_message : message_ok (len (Data b)) (pieces b).
Proof.
  pose proof (first_room_bound b) as Hfr. destruct (pieces_count b Hb Hbig) as [_ Hle]. split_and!.
  - unfold pieces. rewrite len_cons. len_pos. lia.
  - lia.
  - unfold pieces. constructor.
    + intros E. apply (f_equal len) in E. rewrite len_sub in E by lia. change (len []) with 0 in E. lia.
    + eapply Forall_impl; [apply (chunk_sizes 996); lia|]. intros d [Hd _] ->. by change (0 < 0) in Hd.
  - unfold pieces. cbn [concat]. rewrite chunk_concat by (len_simpl; unfold len; lia).
    by rewrite sub_split_at by lia.
Qed.

Lemma pieces_concat : concat (pieces b) = Data b.
Proof.
  pose proof (first_room_bound b). unfold pieces. cbn [concat].
  rewrite chunk_concat by (len_simpl; unfold len; lia). by rewrite sub_split_at by lia.
Qed.

(** Handling one fragment, in terms of what the reassembler answers. *)
Lemma append_fragment j blk known now e :
  fragments b id !! j = Some blk -> meta_for known (meta e) -> Z.of_nat (size meta0) < maxMeta e ->
  let known' := known || (j =? 0)%nat in
  exists m, meta_for known' m /\
  forall out r', Add range (frag_of (pieces b) id j) now (reasm e) = (Ok out, r') ->
    (out = None \/ known' = true) ->
    append (received blk) now (e, []) =
    match out with
    | None => (Ok tt, (mkEndpoint r' (maxMeta e) m, []))
    | Some data => (Ok tt, (mkEndpoint r' (maxMeta e) (delete id m), [set_data true data instructions]))
    end.
Proof.
  intros Hj Hm Hsz. destruct (fragments_lookup j blk Hj) as (Hlt & [(-> & -> & Hf)|(data & Hpos & -> & Hf)]);
    rewrite Hf; cbv zeta.
  - destruct (remember_first known now e [] Hm Hsz) as (m & Hm' & Hrem).
    rewrite orb_true_r. exists m. split; [done|]. intros out r' Hadd _.
    destruct received_first as (Hrec & Hfo & Hmid & Hl). unfold appendFragmentedBlockLocked.
    replace (FollowOn (received first_block)) with false by by rewrite Hrec.
    replace (Last (received first_block)) with false by by rewrite Hrec.
    replace (MessageID (received first_block)) with id by by rewrite Hrec.
    replace (Data (received first_block)) with (sub 0 (first_room b) (Data b)) by by rewrite Hrec.
    cbn [negb andb]. go_unfold. rewrite Hrem. unfold reasmAdd. cbn [fst snd reasm set_meta]. rewrite Hadd.
    destruct out as [d|]; [|done]. unfold complete, deliver. go_unfold.
    cbn [fst snd meta maxMeta reasm set_meta].
    destruct Hm' as [t ->]. rewrite lookup_insert_eq. cbn [from_option Datatypes.id mblock].
    change (len []) with 0. zbool. done.
  - replace (j =? 0)%nat with false by (symmetry; apply Nat.eqb_neq; lia). rewrite orb_false_r.
    exists (meta e). split; [done|]. intros out r' Hadd Hk.
    unfold appendFragmentedBlockLocked, received, follow_block.
    cbn [FollowOn Last MessageID Data TunnelBlocks.Fragment negb andb]. zbool.
    go_unfold. unfold reasmAdd. cbn [fst snd]. rewrite Hadd. destruct out as [d|]; [|done].
    cbn [fst snd meta]. destruct Hk as [Hk|Hk]; [done|]. subst known. destruct Hm as [t Hm]. rewrite Hm, lookup_insert_eq.
    unfold complete, deliver. go_unfold. cbn [fst snd mblock]. change (len []) with 0. zbool. done.
Qed.

(** The payload [p] carries the block [blk] in tunnel [tunnelID]. *)
Definition carries (tunnelID : Z) (blk : Block) (p : bytes) : Prop :=
  exists rnd, len rnd = 1023 - len (wires [blk]) /\ p = tunnel_frame tunnelID rnd [blk] /\ bytes_ok rnd.

(** Payloads handled one after the other, each call with an empty [out]. *)
Fixpoint parseAll (ps : list bytes) (arrivals : list (nat * Z)) (e : Endpoint)
  : list (res unit * list Block) * Endpoint :=
  match arrivals with
  | [] => ([], e)
  | (j, now) :: rest =>
      let (r, s) := Parse range rangeMeta room (default [] (ps !! j)) now (e, []) in
      let (outs, e) := parseAll ps rest s.1 in
      ((r, s.2) :: outs, e)
  end.

Lemma fragment_fits j blk : fragments b id !! j = Some blk -> block_ok blk /\ len (wires [blk]) <= maxBlockBytes.
Proof.
  intros Hj. pose proof (first_room_bound b) as Hfr. pose proof Hb as (Hok & Hfo & Hmax).
  assert (Hok' : block_ok (set_message id b)).
  { destruct Hok as (H1 & H2 & H3). split; [exact H1|]. split; [cbn; lia|exact H3]. }
  destruct (fragments_lookup j blk Hj) as (Hlt & [(-> & -> & _)|(data & Hpos & -> & Hf)]).
  - assert (block_ok first_block) by (apply set_data_ok; [done|len_lia]). split; [done|].
    rewrite wires_one by done. unfold first_block. rewrite first_wire_len by done.
    unfold maxBlockBytes, TunnelPayloadLen, TunnelDataPayloadLen, tunnelIVLen, tunnelChecksumLen.
    change (first_room (set_message id b)) with (first_room b). len_lia.
  - destruct (lookup_lt_is_Some_2 (pieces b) j Hlt) as [c Hc].
    assert (data = c) as -> by (unfold frag_of in Hf; rewrite Hc in Hf; by simplify_eq).
    destruct (pieces_count b Hb Hbig) as [_ Hle].
    assert (0 < len c <= 996) as Hsz.
    { destruct j as [|j]; [lia|]. pose proof (chunk_sizes 996 ltac:(lia) (length (Data b))
        (sub (first_room b) (len (Data b)) (Data b))) as Hall.
      by eapply (Forall_lookup_1 _ _ _ _ Hall Hc). }
    assert (block_ok (follow_block id (Z.of_nat j) (Z.of_nat j =? len (pieces b) - 1) c)).
    { unfold block_ok, follow_block, zeroHash. cbn [FollowOn Data MessageID Gateway TunnelBlocks.Fragment].
      unfold len in Hle. split_and!; lia || done. }
    split; [done|]. rewrite wires_one by done. unfold wire_len, follow_block. cbn [FollowOn Data].
    unfold maxBlockBytes, TunnelPayloadLen, TunnelDataPayloadLen, tunnelIVLen, tunnelChecksumLen. lia.
Qed.

Section Arrivals.
Context (tunnelID : Z) (Ht : 0 < tunnelID < 2 ^ 32) (ps : list bytes).
Context (Hps : Forall2 (carries tunnelID) (fragments b id) ps).
Context (X : gset Z) (HX : id ∈ X) (i : nat) (Hi : (i < length (pieces b))%nat) (limit : Z).

Lemma Parse_fragment j p now s :
  ps !! j = Some p -> exists blk, fragments b id !! j = Some blk /\
    Parse range rangeMeta room p now s = append (received blk) now s.
Proof.
  intros Hp. destruct (Forall2_lookup_r _ _ _ _ _ Hps Hp) as (blk & Hblk & rnd & Hr & -> & _).
  exists blk. split; [done|]. destruct (fragment_fits j blk Hblk) as [Hok Hfit].
  rewrite Parse_frame by (done || by constructor). cbn [process]. unfold gbind, ret.
  by destruct (append (received blk) now s) as [[[]| |] s'].
Qed.

(** The endpoint after some fragments other than the [i]-th. *)
Definition partway (got : Z) (e : Endpoint) : Prop :=
  receiving (pieces b) id X i got (reasm e) /\ Z.of_nat (size meta0) < maxMeta e /\
  meta_for (Z.testbit got 0) (meta e).

Lemma partway_step got e j p now :
  partway got e -> j <> i -> ps !! j = Some p ->
  exists e', Parse range rangeMeta room p now (e, []) = (Ok tt, (e', [])) /\
    partway (Z.lor got (2 ^ Z.of_nat j)) e'.
Proof.
  intros (Hr & Hsz & Hm) Hji Hp. destruct (Parse_fragment j p now (e, []) Hp) as (blk & Hblk & ->).
  destruct (fragments_lookup j blk Hblk) as (Hlt & _).
  destruct (append_fragment j blk (Z.testbit got 0) now e Hblk Hm Hsz) as (m & Hm' & Happ).
  destruct (receiving_step range (pieces b) id X i Hi got (reasm e) (frag_of (pieces b) id j) now Hr) as [Hr' Hout].
  { split; [done|]. intros _. by exists j. }
  specialize (Hout eq_refl). unfold mark in Hr'. rewrite decide_True in Hr' by done.
  destruct (Add range (frag_of (pieces b) id j) now (reasm e)) as [out r'] eqn:Hadd. cbn [fst snd] in *. subst out.
  rewrite (Happ None r' eq_refl (or_introl eq_refl)).
  eexists. split; [done|]. split_and!; [done|done|]. cbn [meta].
  rewrite testbit_lor_pow2 by lia. replace (Z.of_nat j =? 0) with (j =? 0)%nat; [done|].
  destruct (Nat.eqb_spec j 0); symmetry; [apply Z.eqb_eq|apply Z.eqb_neq]; lia.
Qed.

Lemma partway_run arrivals : forall got e,
  partway got e -> Forall (fun a => a.1 <> i /\ (a.1 < length ps)%nat) arrivals ->
  Forall (fun o => o = (Ok tt, [])) (parseAll ps arrivals e).1 /\
  exists got', partway got' (parseAll ps arrivals e).2 /\
    forall j : nat, Z.testbit got (Z.of_nat j) = true \/ j ∈ arrivals.*1 -> Z.testbit got' (Z.of_nat j) = true.
Proof.
  induction arrivals as [|[j now] arrivals IH]; intros got e He Hall.
  { split; [constructor|]. exists got. split; [done|]. set_solver. }
  apply Forall_cons in Hall as [[Hj Hlt] Hall]. cbn [fst] in *.
  destruct (lookup_lt_is_Some_2 ps j Hlt) as [p Hp].
  destruct (partway_step got e j p now He Hj Hp) as (e' & Hparse & He').
  destruct (IH _ _ He' Hall) as (Houts & got' & Hgot' & Hbits).
  cbn [parseAll]. rewrite Hp. cbn [from_option Datatypes.id]. rewrite Hparse. cbn [fst snd].
  destruct (parseAll ps arrivals e') as [outs e'']. cbn [fst snd] in *.
  split; [by constructor|]. exists got'. split; [done|]. intros k Hk. apply Hbits.
  rewrite testbit_lor_pow2 by lia. rewrite fmap_cons in Hk. cbn [fst] in Hk.
  destruct Hk as [Hk|[->|Hk]%elem_of_cons]; [left; by rewrite Hk| |by right].
  left. by rewrite Z.eqb_refl, orb_true_r.
Qed.

Lemma partway_last got e p now :
  partway got e -> ps !! i = Some p ->
  (forall j, (j < length (pieces b))%nat -> j <> i -> Z.testbit got (Z.of_nat j) = true) ->
  exists e', Parse range rangeMeta room p now (e, []) = (Ok tt, (e', [delivered])).
Proof.
  intros (Hr & Hsz & Hm) Hp Hbits. destruct (Parse_fragment i p now (e, []) Hp) as (blk & Hblk & ->).
  destruct (append_fragment i blk (Z.testbit got 0) now e Hblk Hm Hsz) as (m & Hm' & Happ).
  destruct (receiving_last range (pieces b) id X i Hi got (reasm e) now Hr HX Hbits) as [Hout _].
  destruct (Add range (frag_of (pieces b) id i) now (reasm e)) as [out r'] eqn:Hadd. cbn [fst] in Hout. subst out.
  rewrite (Happ _ r' eq_refl).
  - rewrite pieces_concat. by eexists.
  - right. destruct (Nat.eqb_spec i 0); [apply orb_true_r|]. rewrite orb_false_r. apply (Hbits 0%nat); lia.
Qed.
End Arrivals.
End Delivery.

(** ** From gateway to endpoint *)

(** An endpoint with room for one more message that does not hold [id] yet. *)
Definition ready (e : Endpoint) (id : Z) (b : Block) : Prop :=
  entries (reasm e) !! id = None /\ meta e !! id = None /\
  Z.of_nat (size (entries (reasm e))) < maxEntries (reasm e) /\ Z.of_nat (size (meta e)) < maxMeta e /\
  len (Data b) <= maxMessage (reasm e).

(** [ob] tells the receiver to do with the data of [b] what [b] says. *)
Definition same_delivery (b ob : Block) : Prop :=
  Delivery ob = Delivery b /\
  (Delivery b = DeliveryTunnel \/ Delivery b = DeliveryRouter -> Gateway ob = Gateway b) /\
  (Delivery b = DeliveryTunnel -> TunnelID ob = TunnelID b) /\
  Data ob = Data b /\ Last ob = true /\ FollowOn ob = false.

(** The arrivals before the last missing payload [i]: every other payload, in
    any order, any number of times. *)
Definition all_but (n i : nat) (arrivals : list (nat * Z)) : Prop :=
  (i < n)%nat /\ Forall (fun a => a.1 <> i /\ (a.1 < n)%nat) arrivals /\
  forall j, (j < n)%nat -> j <> i -> j ∈ arrivals.*1.

Lemma received_same_delivery b b1 last data :
  FollowOn b = false -> Delivery b1 = Delivery b -> Gateway b1 = Gateway b -> TunnelID b1 = TunnelID b ->
  FollowOn b1 = false -> Data b = data -> same_delivery b (set_data true data (set_data last [] (received b1))).
Proof.
  intros Hf HD HG HT Hf1 Hd. unfold same_delivery, received. rewrite Hf1.
  cbn [Delivery Gateway TunnelID Data Last FollowOn set_data]. rewrite HD, HG, HT.
  unfold DeliveryTunnel, DeliveryRouter. split_and!; try done.
  - intros [->| ->]; done.
  - intros ->. done.
Qed.

Section EndToEnd.
Context (range : gmap Z partial -> list (Z * partial)).
Context (rangeMeta : gmap Z deliveryMeta -> list (Z * deliveryMeta)).
Context (room : Z) (Hroom : 0 < room).

Lemma single_payload b tunnelID rnd now e :
  message_block b -> 0 < tunnelID < 2 ^ 32 -> len (Data b) <= first_room b ->
  len rnd = 1023 - len (wires [set_data true (Data b) b]) ->
  exists e' ob, Parse range rangeMeta room (tunnel_frame tunnelID rnd [set_data true (Data b) b]) now (e, []) =
      (Ok tt, (e', [ob])) /\ same_delivery b ob.
Proof.
  intros (Hok & Hfo & Hmax) Ht Hsmall Hr.
  set (b1 := set_data true (Data b) b) in *. assert (Hb1 : block_ok b1) by (apply set_data_ok; [done|apply Hok]).
  rewrite Parse_frame; [|done|by constructor| |done].
  2:{ rewrite wires_one by done. unfold b1. rewrite first_wire_len by done.
      unfold maxBlockBytes, TunnelPayloadLen, TunnelDataPayloadLen, tunnelIVLen, tunnelChecksumLen. lia. }
  assert (received b1 = set_data true (Data b) (set_data true [] (received b1)) /\
          FollowOn (received b1) = false /\ Last (received b1) = true) as (Heq & H1 & H2)
    by (unfold received, b1; cbn [FollowOn set_data]; by rewrite Hfo).
  cbn [process]. go_unfold. unfold appendFragmentedBlockLocked. rewrite H1, H2.
  cbn [negb andb]. unfold deliver. go_unfold. cbn [fst snd]. change (len []) with 0. zbool.
  exists e, (received b1). split; [done|]. rewrite Heq. by apply received_same_delivery.
Qed.

Lemma length_pieces b id : first_room b < len (Data b) -> length (fragments b id) = length (pieces b).
Proof.
  intros. unfold fragments. zbool. pose proof (len_follow_blocks id (tail (pieces b)) 1) as Hl.
  unfold len in Hl. cbn [length]. unfold pieces at 2. cbn [length]. cbn [pieces tail] in *. lia.
Qed.

Lemma partway_start b id e i :
  message_block b -> first_room b < len (Data b) -> ready e id b ->
  partway b id (meta e) (dom (entries (reasm e)) ∪ {[id]}) i 0 e.
Proof.
  intros Hb Hbig (Hr & Hm & Hre & Hme & Hsz). split_and!; [|lia|done].
  unfold receiving. rewrite Z.bits_0. split_and!; try done.
  - destruct (pieces_message b Hb Hbig) as (H1 & H2 & H3). split_and!; [lia|lia|done|lia].
  - rewrite size_union, size_dom, size_singleton by (apply not_elem_of_dom in Hr; set_solver). lia.
  - set_solver.
  - apply Z.pow_pos_nonneg; [lia|apply len_nonneg].
  - by left.
Qed.

Lemma payloads_any_order b id tunnelID ps i arrivals now e :
  message_block b -> 0 < id < 2 ^ 32 -> 0 < tunnelID < 2 ^ 32 ->
  Forall2 (carries tunnelID) (fragments b id) ps -> ready e id b -> all_but (length ps) i arrivals ->
  Forall (fun o => o = (Ok tt, [])) (parseAll range rangeMeta room ps arrivals e).1 /\
  exists e' ob, Parse range rangeMeta room (default [] (ps !! i)) now
      ((parseAll range rangeMeta room ps arrivals e).2, []) = (Ok tt, (e', [ob])) /\
    same_delivery b ob.
Proof.
  intros Hb Hid Ht Hps Hready (Hi & Harr & Hcover).
  pose proof (Forall2_length _ _ _ Hps) as Hlen. destruct (lookup_lt_is_Some_2 ps i Hi) as [p Hp].
  rewrite Hp. cbn [from_option Datatypes.id]. pose proof Hb as (Hok & Hfo & Hmax).
  destruct (decide (first_room b < len (Data b))) as [Hbig|Hsmall].
  - rewrite length_pieces in Hlen by done. rewrite <- Hlen in Hi, Hcover.
    pose proof (partway_start b id e i Hb Hbig Hready) as Hstart. destruct Hready as (_ & Hm & _).
    destruct (partway_run range rangeMeta room Hroom b id Hb Hbig Hid (meta e) Hm tunnelID Ht ps Hps
      (dom (entries (reasm e)) ∪ {[id]}) ltac:(set_solver) i Hi arrivals 0 e Hstart Harr)
      as (Houts & got & Hgot & Hbits).
    split; [done|].
    destruct (partway_last range rangeMeta room Hroom b id Hb Hbig Hid (meta e) Hm tunnelID Ht ps Hps
      (dom (entries (reasm e)) ∪ {[id]}) ltac:(set_solver) i Hi got _ p now Hgot Hp) as (e' & Hparse).
    { intros j Hj Hne. apply Hbits. right. by apply Hcover. }
    exists e', (delivered b id). split; [done|]. by apply received_same_delivery.
  - unfold fragments in *. revert Hps Hlen. zbool. intros Hps Hlen. cbn [length] in Hlen.
    assert (i = 0%nat) as -> by lia.
    assert (arrivals = []) as ->.
    { destruct arrivals as [|a arrivals]; [done|]. apply Forall_cons in Harr as [[? ?] _]. lia. }
    split; [constructor|]. cbn [parseAll fst snd].
    destruct (Forall2_lookup_r _ _ _ _ _ Hps Hp) as (blk & Hblk & rnd & Hr & -> & _). cbn in Hblk. simplify_eq.
    apply single_payload; done || lia.
Qed.
End EndToEnd.

(** A buffer whose payload is still empty. *)
Definition fresh (d : Packet.Buffer) : Prop :=
  has_room d /\ Packet.start d = Packet.reserved d /\ Packet.end_ d = Packet.reserved d.

Lemma appended_payload d p :
  fresh d -> len p = 1028 -> Packet.Payload (appended d p) = Ok (Some p).
Proof.
  intros ((Hl & He & Hroom & Hlim) & Hs & Hr) Hp. unfold Packet.Payload.
  change (Packet.live (appended d p)) with (Packet.live d). rewrite Hl. cbn [negb].
  unfold appended. cbn [Packet.start Packet.reserved Packet.end_ Packet.buf].
  rewrite Hs, Hr, Z.max_id in *. rewrite slice_ok by len_lia. cbn [bind]. sub_norm. done.
Qed.

Lemma sent_payloads tunnelID blocks dst dst' :
  sent tunnelID 0 blocks dst dst' ->
  (forall j, (j < length blocks)%nat -> exists d, dst !! j = Some (Some d) /\ fresh d) ->
  Forall (fun b => len (wires [b]) <= maxBlockBytes) blocks ->
  exists ps, Forall2 (carries tunnelID) blocks ps /\
    forall j p, ps !! j = Some p -> exists d, dst' !! j = Some (Some d) /\ Packet.Payload d = Ok (Some p).
Proof.
  intros [_ Hsent] Hfresh Hfit.
  assert (Hget : forall j b, blocks !! j = Some b -> exists p, carries tunnelID b p /\
    exists d, dst' !! j = Some (Some d) /\ Packet.Payload d = Ok (Some p)).
  { intros j b Hj. destruct (Hsent j b Hj) as (d & rnd & Hd & Hr & Hbytes & Hd').
    exists (tunnel_frame tunnelID rnd [b]). split; [by exists rnd|]. eexists. split; [exact Hd'|].
    destruct (Hfresh j) as (d1 & Hd1 & Hf); [by eapply lookup_lt_Some|].
    cbn in Hd. rewrite Hd in Hd1. simplify_eq. apply appended_payload; [done|].
    pose proof (Forall_lookup_1 _ _ _ _ Hfit Hj) as Hw. cbn beta in Hw. revert Hw.
    unfold maxBlockBytes, TunnelPayloadLen, TunnelDataPayloadLen, tunnelIVLen, tunnelChecksumLen. intros Hw.
    unfold tunnel_frame. rewrite len_app, len_be_bytes, len_tunnel_data by lia. done. }
  clear Hsent Hfresh Hfit. revert dst' Hget. induction blocks as [|b blocks IH]; intros dst' Hget.
  - exists []. split; [constructor|]. intros j p Hj. done.
  - destruct (Hget 0%nat b eq_refl) as (p & Hp & d & Hd & Hpay).
    destruct (IH (tail dst')) as (ps & Hps & Hall).
    { intros j b' Hj. destruct (Hget (S j) b' Hj) as (p' & Hp' & d' & Hd' & Hpay').
      exists p'. split; [done|]. exists d'. split; [|done]. by destruct dst'. }
    exists (p :: ps). split; [by constructor|]. intros [|j] p' Hj.
    + cbn in Hj. simplify_eq. by exists d.
    + destruct (Hall j p' Hj) as (d' & Hd' & Hpay'). exists d'. split; [|done]. by destruct dst'.
Qed.

Lemma fragments_fit b id : message_block b -> 0 < id < 2 ^ 32 ->
  Forall (fun b => len (wires [b]) <= maxBlockBytes) (fragments b id).
Proof.
  intros Hb Hid. destruct (decide (first_room b < len (Data b))) as [Hbig|Hsmall].
  - apply Forall_lookup_2. intros j blk Hj. by eapply fragment_fits.
  - unfold fragments. zbool. constructor; [|constructor]. destruct Hb as (Hok & Hf & _).
    assert (block_ok (set_data true (Data b) b)) by (apply set_data_ok; [done|apply Hok]).
    rewrite wires_one, first_wire_len by done.
    unfold maxBlockBytes, TunnelPayloadLen, TunnelDataPayloadLen, tunnelIVLen, tunnelChecksumLen. lia.
Qed.

Lemma fragments_length b id : message_block b -> (length (fragments b id) <= 63)%nat.
Proof.
  intros Hb. destruct (decide (first_room b < len (Data b))) as [Hbig|Hsmall].
  - rewrite length_pieces by done. destruct (pieces_count b Hb Hbig) as [_ Hle]. unfold len in Hle. lia.
  - unfold fragments. zbool. cbn. lia.
Qed.


(** C32: whatever bytes arrive in a tunnel, parsing them returns: no slice is out
    of range and the loops over the blocks end. *)
Theorem Parse_total range rangeMeta room payload now s :
  bytes_ok payload -> (Parse range rangeMeta room payload now s).1 <> Panic.
Proof. intros Hok. by apply Parse_returns. Qed.

(** ** Memory bounds under arbitrary traffic *)

(** A method that keeps [P] of its receiver state, whatever it returns. *)
Definition keeps {S A} (P : S -> Prop) (m : go S A) : Prop := forall s, P s -> P (m s).2.

Lemma keeps_bind {S A B} (P : S -> Prop) (m : go S A) (f : A -> go S B) :
  keeps P m -> (forall a, keeps P (f a)) -> keeps P (gbind m f).
Proof.
  intros Hm Hf s Hs. specialize (Hm s Hs). unfold gbind.
  destruct (m s) as [[a| |] s']; [by apply Hf|done|done].
Qed.

Lemma keeps_same {S A} (P : S -> Prop) (m : go S A) : (forall s, (m s).2 = s) -> keeps P m.
Proof. intros H s Hs. by rewrite H. Qed.

Definition meta_ok (e : Endpoint) : Prop :=
  0 < maxMeta e /\ Z.of_nat (size (meta e)) <= maxMeta e /\
  map_Forall (fun _ m => mcreated m < 2 ^ 64 - 1) (meta e).

Definition endpoint_ok (s : state) : Prop := wf (reasm s.1) /\ meta_ok s.1.

Section Bounds.
Context (range : gmap Z partial -> list (Z * partial)) (Hrange : ordering range).
Context (rangeMeta : gmap Z deliveryMeta -> list (Z * deliveryMeta)).
Context (HrangeMeta : forall m, rangeMeta m ≡ₚ map_to_list m) (room now : Z) (Hnow : now < 2 ^ 64 - 1).

Lemma evict_meta m :
  m <> ∅ -> map_Forall (fun _ x => mcreated x < 2 ^ 64 - 1) m ->
  exists id x, m !! id = Some x /\ (oldest mcreated (rangeMeta m)).1 = id.
Proof.
  intros Hne Ht. pose proof (oldest_spec mcreated (rangeMeta m) (0, 2 ^ 64 - 1)) as (Hall & Hle & Hcase).
  fold (oldest mcreated (rangeMeta m)) in *.
  assert (Hin : forall i x, m !! i = Some x <-> (i, x) ∈ rangeMeta m).
  { intros. by rewrite (HrangeMeta m), elem_of_map_to_list. }
  rewrite Forall_forall in Hall. destruct Hcase as [E|(x & Hx & Hc)].
  - exfalso. destruct (map_choose _ Hne) as (i & x & Hi).
    pose proof (Hall _ (proj1 (Hin _ _) Hi)) as H1.
    assert (mcreated x < 2 ^ 64 - 1) by exact (Ht _ _ Hi). rewrite E in H1. cbn [fst snd] in H1. lia.
  - exists (oldest mcreated (rangeMeta m)).1, x. split; [by apply Hin|done].
Qed.

Lemma remember_keeps b : keeps endpoint_ok (remember rangeMeta b now).
Proof.
  intros [e out] (Hwf & Hmax & Hsz & Ht). unfold remember. go_unfold. cbn [fst snd] in *.
  set (b0 := set_data (Last b) [] b). destruct (meta e !! MessageID b0) as [prior|] eqn:E.
  - destruct (_ || _); [done|]. split; [done|]. cbn [fst snd set_meta]. split_and!; [done| |]; cbn [meta set_meta].
    + rewrite map_size_insert_Some by eauto. done.
    + apply map_Forall_insert_2; [exact (Ht _ _ E)|done].
  - split; [done|]. cbn [fst snd].
    set (m := if _ =? _ then _ else meta e).
    assert (m !! MessageID b0 = None /\ Z.of_nat (size m) < maxMeta e /\
      map_Forall (fun _ m => mcreated m < 2 ^ 64 - 1) m) as (HN & Hlt & Ht').
    { subst m. destruct (_ =? _) eqn:Hfull; [|split_and!; done || lia].
      destruct (evict_meta (meta e)) as (k & x & Hk & ->); [|done|].
      { intros H0. rewrite H0, map_size_empty in Hfull. apply Z.eqb_eq in Hfull. simpl in Hfull. lia. }
      split_and!; [by apply lookup_delete_None; right| |by apply map_Forall_delete].
      rewrite map_size_delete_Some by eauto. lia. }
    clearbody m. split_and!; [done| |]; cbn [meta set_meta maxMeta].
    + rewrite map_size_insert_None by done. lia.
    + by apply map_Forall_insert_2.
Qed.

Lemma reasmAdd_keeps f : 0 <= Number f -> keeps endpoint_ok (reasmAdd range f now).
Proof.
  intros Hn [e out] (Hwf & Hm). unfold reasmAdd. cbn [fst snd].
  destruct (Add_wf range f now (reasm e) Hrange Hwf Hn Hnow) as [Hwf' _].
  by destruct (Add range f now (reasm e)).
Qed.

Lemma deliver_keeps b : keeps endpoint_ok (deliver room b).
Proof. intros [e out] He. unfold deliver. go_unfold. cbn [fst snd]. by destruct (_ =? _). Qed.

Lemma complete_keeps m d id : keeps endpoint_ok (complete room m d id).
Proof.
  unfold complete. apply keeps_bind; [apply deliver_keeps|]. intros _ [e out] (Hwf & Hmax & Hsz & Ht).
  split; [done|]. split_and!; [done| |by apply map_Forall_delete]. go_unfold.
  cbn [fst snd meta set_meta maxMeta] in *. pose proof (map_size_delete id (meta e)) as Hd.
  destruct (meta e !! id); simpl in Hd; lia.
Qed.

Lemma append_keeps b :
  0 <= TunnelBlocks.Fragment b -> keeps endpoint_ok (appendFragmentedBlockLocked range rangeMeta room b now).
Proof.
  intros Hf. unfold appendFragmentedBlockLocked.
  destruct (_ && _); [apply deliver_keeps|]. destruct (FollowOn b).
  - destruct (_ =? _); [by apply keeps_same|]. apply keeps_bind; [by apply reasmAdd_keeps|].
    intros [d|]; [|by apply keeps_same]. apply keeps_bind; [by apply keeps_same|]. intros s.
    destruct (meta s.1 !! MessageID b); [apply complete_keeps|by apply keeps_same].
  - apply keeps_bind; [apply remember_keeps|]. intros _. apply keeps_bind; [by apply reasmAdd_keeps|].
    intros [d|]; [|by apply keeps_same]. apply keeps_bind; [by apply keeps_same|]. intros s. apply complete_keeps.
Qed.

Lemma Next_fragment it b it' : bytes_ok it -> Next it = (Ok (Some b), it') -> 0 <= TunnelBlocks.Fragment b /\ bytes_ok it'.
Proof.
  intros Hok E. destruct (Next_safe it Hok) as (_ & Hok' & _). rewrite E in Hok'. split; [|done].
  destruct (Next_sound it b it' Hok E) as ((_ & _ & _ & Hk) & Hr & _).
  destruct (FollowOn b) eqn:F; [lia|]. rewrite <- Hr. unfold received. by rewrite F.
Qed.

Lemma parseFragmented_keeps fuel : forall b it,
  0 <= TunnelBlocks.Fragment b -> bytes_ok it -> keeps endpoint_ok (parseFragmented range rangeMeta room fuel b it now).
Proof.
  induction fuel as [|fuel IH]; intros b it Hf Hok; [by apply keeps_same|]. cbn [parseFragmented].
  apply keeps_bind; [by apply append_keeps|]. intros _.
  pose proof (fun b' it' => Next_fragment it b' it' Hok) as Hn. destruct (Next it) as [[[b'|]| |] it'];
    try (by apply keeps_same). destruct (Hn _ _ eq_refl). by apply IH.
Qed.

Lemma parseBlocks_keeps fuel : forall it,
  bytes_ok it -> keeps endpoint_ok (parseBlocks range rangeMeta room fuel it now).
Proof.
  induction fuel as [|fuel IH]; intros it Hok; [by apply keeps_same|]. cbn [parseBlocks].
  pose proof (fun b' it' => Next_fragment it b' it' Hok) as Hn. destruct (Next it) as [[[b'|]| |] it'];
    try (by apply keeps_same). destruct (Hn _ _ eq_refl).
  change (keeps endpoint_ok (if negb (FollowOn b') && Last b'
    then let! _ := deliver room b' in parseBlocks range rangeMeta room fuel it' now
    else parseFragmented range rangeMeta room fuel b' it' now)).
  destruct (_ && _); [|by apply parseFragmented_keeps].
  apply keeps_bind; [apply deliver_keeps|]. intros _. by apply IH.
Qed.

Lemma Parse_keeps payload : bytes_ok payload -> keeps endpoint_ok (Parse range rangeMeta room payload now).
Proof.
  intros Hok. unfold Parse, slice_from. intros s Hs. go_unfold.
  destruct (ParseTunnelData payload) as [m| |] eqn:E; [|done|done].
  destruct (ParseTunnelData_inv payload m Hok E) as [Hd _].
  destruct (negb _); [done|]. do 2 (destruct (slice _ _ _) as [?| |]; [|done|done]).
  destruct (slice _ _ _) as [rest| |]; [|done|done]. destruct (_ =? _); [done|].
  destruct (slice (TDData m) _ (len (TDData m))) as [blocks| |] eqn:Hb; [|done|done].
  apply slice_inv in Hb as (_ & _ & ->). destruct (negb _); [done|].
  apply parseBlocks_keeps; [by apply bytes_ok_sub|done].
Qed.
End Bounds.

(** The states an endpoint goes through, under any traffic. *)
Inductive reachable_endpoint (range : gmap Z partial -> list (Z * partial))
    (rangeMeta : gmap Z deliveryMeta -> list (Z * deliveryMeta)) : Endpoint -> Prop :=
| reachable_endpoint_new n m : reachable_endpoint range rangeMeta (NewEndpoint n m)
| reachable_endpoint_parse room payload now e :
    reachable_endpoint range rangeMeta e -> bytes_ok payload -> now < 2 ^ 64 - 1 ->
    reachable_endpoint range rangeMeta (Parse range rangeMeta room payload now (e, [])).2.1
| reachable_endpoint_expire cutoff e :
    reachable_endpoint range rangeMeta e ->
    reachable_endpoint range rangeMeta (ExpireEndpoint range rangeMeta cutoff e).2.

Lemma ExpireEndpoint_ok range rangeMeta cutoff e :
  ordering range -> wf (reasm e) -> meta_ok e ->
  let e' := (ExpireEndpoint range rangeMeta cutoff e).2 in wf (reasm e') /\ meta_ok e'.
Proof.
  intros Hr Hwf Hm. unfold ExpireEndpoint. pose proof (Expire_wf range cutoff (reasm e) Hr Hwf) as Hwf'.
  destruct (Expire range cutoff (reasm e)) as [n r]. cbn [snd] in Hwf'.
  assert (meta_ok (mkEndpoint r (maxMeta e) (meta e))) as Hm' by exact Hm.
  assert (wf (reasm (mkEndpoint r (maxMeta e) (meta e)))) as Hw by exact Hwf'.
  revert Hm' Hw. generalize (mkEndpoint r (maxMeta e) (meta e)), n.
  generalize (rangeMeta (meta e)). clear. intros l. cbv zeta.
  induction l as [|[i x] l IH]; intros e n Hm Hw; cbn [fold_left fst snd]; [done|].
  destruct (_ <=? _); [|by apply IH]. apply IH; [|done]. destruct Hm as (Hmax & Hsz & Ht).
  unfold meta_ok. cbn [meta set_meta maxMeta]. split_and!; [done| |by apply map_Forall_delete].
  pose proof (map_size_delete i (meta e)) as Hd. destruct (meta e !! i); simpl in Hd; lia.
Qed.

Lemma reachable_endpoint_ok range rangeMeta e :
  ordering range -> (forall m, rangeMeta m ≡ₚ map_to_list m) ->
  reachable_endpoint range rangeMeta e -> wf (reasm e) /\ meta_ok e.
Proof.
  intros Hr Hm. induction 1 as [n m|room payload now e _ [IHw IHm] Hok Hnow|cutoff e _ [IHw IHm]].
  - split; [apply (reachable_wf range); [done|apply reachable_new]|].
    unfold meta_ok, NewEndpoint. cbn [meta maxMeta]. rewrite map_size_empty.
    split_and!; [destruct (n <=? 0) eqn:?; lia|destruct (n <=? 0) eqn:?; simpl; lia|apply map_Forall_empty].
  - by apply (Parse_keeps range Hr rangeMeta Hm room now Hnow payload Hok (e, [])).
  - by apply ExpireEndpoint_ok.
Qed.

(** no traffic makes an endpoint hold more than it was configured for.
    Whatever payloads a peer sends, in every reachable state at most [maxMeta]
    delivery instructions and [maxEntries] incomplete messages are held, and the
    fragments of the latter total at most [maxEntries * maxMessage] bytes. *)
Theorem endpoint_bounded range rangeMeta e :
  ordering range -> (forall m, rangeMeta m ≡ₚ map_to_list m) -> reachable_endpoint range rangeMeta e ->
  Z.of_nat (size (meta e)) <= maxMeta e /\
  Z.of_nat (size (entries (reasm e))) <= maxEntries (reasm e) /\
  retained (entries (reasm e)) <= maxEntries (reasm e) * maxMessage (reasm e).
Proof.
  intros Hr Hm He. destruct (reachable_endpoint_ok range rangeMeta e Hr Hm He) as ((HM & Hsz & HE & Ht & Hall) & Hmeta).
  split_and!; [apply Hmeta|done|]. pose proof (retained_le _ _ Hall). nia.
Qed.

(** ** Witnesses *)

Definition sample_endpoint : Endpoint := NewEndpoint 4 0.

Lemma sample_fresh : fresh sample_buffer.
Proof. split; [apply sample_buffer_ok|done]. Qed.

Lemma sample_count :
  (FragmentBlock tt sevens (Some (NewGateway tt None)) 42 (sample_block 0)
    (0, replicate 63 (Some sample_buffer))).1 = Ok (3, None).
Proof. vm_compute. reflexivity. Qed.


Lemma Parse_total_witness :
  (Parse map_to_list map_to_list 1 (replicate 1028 1) 0 (sample_endpoint, [])).1 <> Panic /\
  (Parse map_to_list map_to_list 1 (replicate 1028 1) 0 (sample_endpoint, [])).1 = Err ErrGatewayPayload.
Proof.
  split; [|vm_compute; reflexivity].
  apply Parse_total. apply bytes_ok_check. vm_compute. reflexivity.
Defined.

