(* ===== verification/SSU2Ack.v ===== *)
(** SSU2 acknowledgements, [src/dataplane/internal/transport/ssu2/ack.go]: the
    bounded tracker of received packet numbers and the compact wire form of its
    ranges.

    The tracker's array and count are the list of its first [count] ranges; the
    slots past the count are never read. *)

From S2P Require Import Prelude.

Definition MaxACKRanges : Z := 64.
Definition maxU32 : Z := 2 ^ 32 - 1.

Record ACKRange := mkRange { Start : Z; End_ : Z }.

(** ** The tracker *)

(** [merge] of the range at the head of the list with its successor. *)
Definition merge (r : ACKRange) (rest : list ACKRange) : list ACKRange :=
  match rest with
  | n :: rest' =>
      if negb (End_ n =? maxU32) && (Start r <=? u32 (End_ n + 1))
      then mkRange (if Start n <? Start r then Start n else Start r) (End_ r) :: rest'
      else r :: rest
  | [] => [r]
  end.

(** The loop of [ObserveNew] from one range on; [count] is the tracker's. *)
Fixpoint observeFrom (count : Z) (ranges : list ACKRange) (packet : Z) : bool * list ACKRange :=
  match ranges with
  | [] => if count <? MaxACKRanges then (true, [mkRange packet packet]) else (false, [])
  | r :: rest =>
      if (Start r <=? packet) && (packet <=? End_ r) then (false, ranges)
      else if negb (End_ r =? maxU32) && (packet =? u32 (End_ r + 1))
      then (true, merge (mkRange (Start r) packet) rest)
      else if negb (packet =? maxU32) && (u32 (packet + 1) =? Start r)
      then (true, merge (mkRange packet (End_ r)) rest)
      else if packet >? End_ r
      then (true, mkRange packet packet :: (if count =? MaxACKRanges then removelast ranges else ranges))
      else let (new, rest') := observeFrom count rest packet in (new, r :: rest')
  end.

Definition ObserveNew (packet : Z) (a : list ACKRange) : bool * list ACKRange :=
  observeFrom (len a) a packet.

Definition Observe (packet : Z) (a : list ACKRange) : list ACKRange := (ObserveNew packet a).2.

(** [RangesInto] a slice of capacity [cap]. *)
Definition RangesInto (cap : Z) (a : list ACKRange) : list ACKRange := sub 0 (Z.min cap (len a)) a.

(** ** The wire form *)

Fixpoint validFrom (previous : option ACKRange) (ranges : list ACKRange) : bool :=
  match ranges with
  | [] => true
  | current :: rest =>
      if Start current >? End_ current then false
      else if match previous with Some p => End_ current >=? Start p | None => false end then false
      else validFrom (Some current) rest
  end.

Definition validACKRanges (ranges : list ACKRange) : bool := validFrom None ranges.

(** [for gap > 255 && pairs < MaxACKRanges]; called with [64 - pairs] as fuel. *)
Fixpoint gapLoop (fuel : nat) (dst : bytes) (below gap pairs : Z) : bytes * Z * Z * Z :=
  match fuel with
  | O => (dst, below, gap, pairs)
  | S fuel =>
      if (gap >? 255) && (pairs <? MaxACKRanges)
      then gapLoop fuel (dst ++ [255; 0]) (u32 (below - 255)) (u64 (gap - 255)) (pairs + 1)
      else (dst, below, gap, pairs)
  end.

(** [for pairs < MaxACKRanges]: every iteration adds a pair, so 64 rounds of
    fuel reach the loop's own exit. *)
Fixpoint pairLoop (fuel : nat) (ranges : list ACKRange) (dst : bytes)
    (below index currentStart currentEnd pairs : Z) : res bytes :=
  match fuel with
  | O => Ok dst
  | S fuel =>
      if negb (pairs <? MaxACKRanges) then Ok dst
      else if index >=? len ranges then Ok dst
      else
        let? (currentStart, currentEnd) :=
          (if (currentEnd <? currentStart) || (currentEnd >=? below) then
             let? r := Prelude.index ranges index in Ok (Start r, End_ r)
           else Ok (currentStart, currentEnd)) in
        fail_if currentEnd >=? below with ErrACK ;;
        let gap := u64 (below - currentEnd - 1) in
        let '(dst, below, gap, pairs) := gapLoop (Z.to_nat (MaxACKRanges - pairs)) dst below gap pairs in
        if pairs =? MaxACKRanges then Ok dst
        else
          let count := Z.min (u64 (currentEnd - currentStart + 1)) 255 in
          let dst := dst ++ [u8 gap; u8 count] in
          let below := u32 (currentEnd - u32 count + 1) in
          if below >? currentStart
          then pairLoop fuel ranges dst below index currentStart (u32 (below - 1)) (pairs + 1)
          else pairLoop fuel ranges dst below (index + 1) currentStart currentEnd (pairs + 1)
  end.

Definition MarshalACKRanges (dst : bytes) (ranges : list ACKRange) : res bytes :=
  fail_if (len ranges =? 0) || negb (validACKRanges ranges) with ErrACK ;;
  let? first := Prelude.index ranges 0 in
  let firstCount := Z.min (u64 (End_ first - Start first + 1)) 256 in
  let dst := dst ++ be_bytes 4 (End_ first) ++ [u8 (firstCount - 1)] in
  let below := u32 (End_ first - u32 firstCount + 1) in
  if below >? Start first
  then pairLoop 64 ranges dst below 0 (Start first) (u32 (below - 1)) 0
  else pairLoop 64 ranges dst below 1 (Start first) (End_ first) 0.

(** The loop of [ParseACKRanges] over the pairs; [cap] is [cap(dst)]. *)
Fixpoint parsePairs (cap : Z) (data : bytes) (dst : list ACKRange) (below : Z)
  : res (list ACKRange * Z) :=
  match data with
  | nack :: ack :: rest =>
      fail_if (nack =? 0) && (ack =? 0) with ErrACK ;;
      fail_if nack >? below with ErrACK ;;
      if ack =? 0 then parsePairs cap rest dst (u32 (below - nack))
      else
        fail_if nack =? below with ErrACK ;;
        let end_ := u32 (below - nack - 1) in
        fail_if (u32 (ack - 1) >? end_) || (len dst =? cap) with ErrACK ;;
        let start := u32 (end_ - u32 (ack - 1)) in
        parsePairs cap rest (dst ++ [mkRange start end_]) start
  | [_] => Panic
  | [] => Ok (dst, below)
  end.

Definition ParseACKRanges (data : bytes) (cap : Z) : res (list ACKRange) :=
  fail_if (len data <? 5) || negb (Z.rem (len data - 5) 2 =? 0) with ErrACK ;;
  let? b := slice data 0 4 in
  let? through := be_uint 4 b in
  let? firstCount := Prelude.index data 4 in
  fail_if firstCount >? through with ErrACK ;;
  fail_if cap =? 0 with ErrACK ;;
  let? rest := slice_from data 5 in
  let? (dst, _) := parsePairs cap rest [mkRange (u32 (through - firstCount)) through] (u32 (through - firstCount)) in
  Ok dst.

(** ** Ranges as sets of packet numbers *)

Definition covered (ranges : list ACKRange) (p : Z) : Prop :=
  Exists (fun r => Start r <= p <= End_ r) ranges.

Definition range_ok (r : ACKRange) : Prop := 0 <= Start r <= End_ r /\ End_ r < 2 ^ 32.

(** Descending, and with a packet missing between any two ranges. *)
Fixpoint canonical (ranges : list ACKRange) : Prop :=
  match ranges with
  | [] => True
  | r :: rest => range_ok r /\ Forall (fun n => End_ n + 1 < Start r) rest /\ canonical rest
  end.

Lemma covered_cons r rs p : covered (r :: rs) p <-> Start r <= p <= End_ r \/ covered rs p.
Proof. unfold covered. by rewrite Exists_cons. Qed.

Lemma covered_nil p : covered [] p <-> False.
Proof. unfold covered. by rewrite Exists_nil. Qed.

Lemma covered_app rs rs' p : covered (rs ++ rs') p <-> covered rs p \/ covered rs' p.
Proof. unfold covered. by rewrite Exists_app. Qed.

Lemma canonical_ok rs : canonical rs -> Forall range_ok rs.
Proof. induction rs as [|r rs IH]; [constructor|]. intros (? & _ & ?). constructor; auto. Qed.

Lemma below_iff rs s :
  Forall range_ok rs ->
  Forall (fun n => End_ n + 1 < s) rs <-> (forall q, covered rs q -> q + 1 < s).
Proof.
  intros Hok. induction Hok as [|r rs Hr Hrs IH].
  - split; [|constructor]. intros _ q Hq. by apply covered_nil in Hq.
  - rewrite Forall_cons, IH. split.
    + intros [Hs Hall] q [Hq|Hq]%covered_cons; [lia|auto].
    + intros Hall. split; [apply (Hall (End_ r)); apply covered_cons; unfold range_ok in Hr; lia|].
      intros q Hq. apply Hall, covered_cons. by right.
Qed.
(** ** The tracker is a bounded set *)

Lemma canonical_cons r rs :
  canonical (r :: rs) <-> range_ok r /\ canonical rs /\ forall q, covered rs q -> q + 1 < Start r.
Proof.
  cbn [canonical]. split; intros (H1 & H2 & H3).
  - split_and!; [done|done|]. apply below_iff; [by apply canonical_ok|done].
  - split_and!; [done| |done]. apply below_iff; [by apply canonical_ok|done].
Qed.

Lemma merge_spec r rs :
  range_ok r -> canonical rs -> (forall q, covered rs q -> q < Start r) ->
  canonical (merge r rs) /\ (forall q, covered (merge r rs) q <-> covered (r :: rs) q) /\
  len (merge r rs) <= 1 + len rs.
Proof.
  intros Hr Hc Hlow. unfold merge. destruct rs as [|n rs].
  - split_and!; [by apply canonical_cons; split_and!; [| |intros q ?%covered_nil]|done|done].
  - apply canonical_cons in Hc as (Hn & Hc & Hgap). unfold range_ok, maxU32, u32 in *.
    assert (End_ n < Start r) by (apply (Hlow (End_ n)), covered_cons; lia).
    rewrite (Z.mod_small (End_ n + 1)) by lia.
    destruct (negb (End_ n =? 2 ^ 32 - 1) && (Start r <=? End_ n + 1)) eqn:E.
    + replace (if Start n <? Start r then Start n else Start r) with (Start n)
        by (destruct (Start n <? Start r) eqn:?; lia).
      split_and!; [|intros q; rewrite !covered_cons; cbn [Start End_]; destruct (decide (Start r <= q)); intuition lia|len_lia].
      apply canonical_cons. unfold range_ok. cbn [Start End_]. split_and!; lia || done.
    + split_and!; [|done|len_lia]. apply canonical_cons. split; [exact Hr|]. split.
      * apply canonical_cons. by split_and!.
      * intros q Hq. pose proof Hq as [Hq'|Hq']%covered_cons; [lia|]. specialize (Hgap q Hq'). lia.
Qed.

Lemma canonical_removelast rs : canonical rs -> canonical (removelast rs).
Proof.
  induction rs as [|r rs IH]; [done|]. intros (Hr & Hall & Hc). destruct rs as [|r' rs]; [done|].
  change (removelast (r :: r' :: rs)) with (r :: removelast (r' :: rs)).
  split_and!; [apply Hr..| |by apply IH]. clear IH Hc.
  revert Hall. generalize (r' :: rs). intros l Hall. induction l as [|x l IH]; [done|].
  apply Forall_cons in Hall as [Hx Hall]. destruct l as [|y l]; [constructor|].
  change (removelast (x :: y :: l)) with (x :: removelast (y :: l)). constructor; auto.
Qed.

Lemma covered_removelast rs q : covered (removelast rs) q -> covered rs q.
Proof.
  induction rs as [|r rs IH]; [done|]. destruct rs as [|r' rs]; [by intros ?%covered_nil|].
  change (removelast (r :: r' :: rs)) with (r :: removelast (r' :: rs)).
  rewrite !(covered_cons r). tauto.
Qed.

Lemma len_removelast {A} (l : list A) : len (removelast l) = Z.max 0 (len l - 1).
Proof.
  induction l as [|x l IH]; [done|]. destruct l as [|y l]; [done|].
  change (removelast (x :: y :: l)) with (x :: removelast (y :: l)). rewrite !len_cons in *. len_pos. lia.
Qed.

(** A packet next to a range, and one so far below all ranges that it would need
    a range of its own at the end. *)
Definition adjacent (rs : list ACKRange) (p : Z) : Prop := covered rs (p - 1) \/ covered rs (p + 1).
Definition beneath (rs : list ACKRange) (p : Z) : Prop := forall q, covered rs q -> p + 1 < q.

(** What observing [p] does: [kept] is what survives of the ranges. *)
Definition observed (full : bool) (rs : list ACKRange) (p : Z) (out : bool * list ACKRange) : Prop :=
  canonical out.2 /\
  if out.1 then
    ~ covered rs p /\ ~ (full = true /\ beneath rs p) /\
    exists kept, (adjacent rs p /\ kept = rs \/ ~ adjacent rs p /\ kept = if full then removelast rs else rs) /\
      forall q, covered out.2 q <-> q = p \/ covered kept q
  else out.2 = rs /\ (covered rs p \/ full = true /\ beneath rs p).

Lemma extend_spec full r r' rs p :
  canonical (r :: rs) -> range_ok r' ->
  (forall q, Start r' <= q <= End_ r' <-> q = p \/ Start r <= q <= End_ r) ->
  ~ Start r <= p <= End_ r -> p = End_ r + 1 \/ p = Start r - 1 -> (forall q, covered rs q -> q < Start r' /\ q <> p) ->
  observed full (r :: rs) p (true, merge r' rs).
Proof.
  intros (Hr & Hc & Hgap)%canonical_cons Hr' Heq Hout Hadj Hlow. unfold range_ok in Hr.
  destruct (merge_spec r' rs) as (Hm & Hcov & _); [done|done|intros q Hq; by apply Hlow|].
  split; [done|]. cbn [fst snd]. split.
  - rewrite covered_cons. intros [?|Hq]; [done|]. by apply Hlow in Hq as [_ ?].
  - split.
    + intros [_ Hb]. specialize (Hb (Start r)). rewrite covered_cons in Hb. destruct Hadj; [|specialize (Hb ltac:(lia))]; lia.
    + exists (r :: rs). split; [left; split; [|done]; unfold adjacent; rewrite !covered_cons; destruct Hadj; lia|].
      intros q. rewrite Hcov, !covered_cons, Heq. tauto.
Qed.

Lemma insert_spec count rs p :
  canonical rs -> rs <> [] -> 0 <= p < 2 ^ 32 -> (forall q, covered rs q -> q + 1 < p) ->
  observed (count =? 64) rs p
    (true, mkRange p p :: (if count =? MaxACKRanges then removelast rs else rs)).
Proof.
  intros Hc Hne Hp Hlow. unfold MaxACKRanges. set (kept := if count =? 64 then removelast rs else rs).
  assert (Hsub : forall q, covered kept q -> covered rs q)
    by (subst kept; destruct (count =? 64); [apply covered_removelast|done]).
  split; cbn [fst snd].
  - apply canonical_cons. unfold range_ok. cbn [Start End_]. split; [lia|]. split; [|auto].
    subst kept. destruct (count =? 64); [by apply canonical_removelast|done].
  - split; [intros Hq; specialize (Hlow p Hq); lia|]. split.
    + intros [_ Hb]. destruct rs as [|r rs]; [done|]. apply canonical_cons in Hc as (Hr & _). unfold range_ok in Hr.
      assert (Hs : covered (r :: rs) (Start r)) by (apply covered_cons; lia). specialize (Hb _ Hs). specialize (Hlow _ Hs). lia.
    + exists kept. split; [right; split; [|done]; intros [Hq|Hq]; apply Hlow in Hq; lia|].
      intros q. rewrite covered_cons. cbn [Start End_]. intuition lia.
Qed.

Lemma observeFrom_spec count rs p :
  canonical rs -> 0 <= p < 2 ^ 32 -> count <= 64 ->
  observed (count =? 64) rs p (observeFrom count rs p).
Proof.
  intros Hc Hp Hcount. induction rs as [|r rs IH].
  - cbn [observeFrom]. unfold MaxACKRanges, observed. destruct (count <? 64) eqn:E; cbn [fst snd].
    + split; [apply canonical_cons; unfold range_ok; cbn [Start End_]; split; [lia|]; split; [done|by intros q ?%covered_nil]|].
      assert (Hfull : (count =? 64) = false) by lia. rewrite Hfull. split; [by intros ?%covered_nil|]. split; [by intros [? _]|]. exists [].
      split; [right; split; [by intros [?%covered_nil|?%covered_nil]|done]|]. intros q. rewrite covered_cons. cbn [Start End_]. intuition lia.
    + split; [done|]. split; [done|]. right. split; [lia|]. by intros q ?%covered_nil.
  - pose proof Hc as (Hr & Hc' & Hgap)%canonical_cons. specialize (IH Hc').
    unfold range_ok in Hr. cbn [observeFrom]. unfold maxU32, u32.
    destruct ((Start r <=? p) && (p <=? End_ r)) eqn:E1.
    { split; [done|]. split; [done|]. left. apply covered_cons. lia. }
    destruct (negb (End_ r =? 2 ^ 32 - 1) && (p =? (End_ r + 1) mod 2 ^ 32)) eqn:E2.
    { assert (p = End_ r + 1) as -> by (rewrite Z.mod_small in E2; lia).
      apply extend_spec; cbn [Start End_]; [done|unfold range_ok; cbn; lia|lia|lia|lia|].
      intros q Hq. specialize (Hgap q Hq). lia. }
    destruct (negb (p =? 2 ^ 32 - 1) && ((p + 1) mod 2 ^ 32 =? Start r)) eqn:E3.
    { assert (Start r = p + 1) as Hs by (rewrite Z.mod_small in E3; lia).
      apply extend_spec; cbn [Start End_]; [done|unfold range_ok; cbn; lia|lia|lia|lia|].
      intros q Hq. specialize (Hgap q Hq). lia. }
    assert (p <> End_ r + 1).
    { destruct (decide (End_ r + 1 = 2 ^ 32)); [lia|]. rewrite Z.mod_small in E2 by lia. lia. }
    destruct (p >? End_ r) eqn:E4.
    { apply insert_spec; [done|done|done|].
      intros q [Hq|Hq]%covered_cons; [|specialize (Hgap q Hq)]; lia. }
    destruct (observeFrom count rs p) as [new rs'] eqn:Eo. unfold observed in *. cbn [fst snd] in *.
    assert (p + 1 < Start r).
    { destruct (decide (p + 1 = 2 ^ 32)); [lia|]. rewrite Z.mod_small in E3 by lia. lia. }
    assert (Hadj : adjacent (r :: rs) p <-> adjacent rs p) by (unfold adjacent; rewrite !covered_cons; intuition lia).
    assert (Hbelow : beneath (r :: rs) p <-> beneath rs p).
    { unfold beneath. split; intros Hb q; [intros Hq; apply Hb, covered_cons; by right|]. intros [Hq|Hq]%covered_cons; [lia|auto]. }
    destruct IH as [Hcan IH]. destruct new.
    + destruct IH as (Hnot & Hreach & kept & Hk & Hcov). rewrite Hbelow.
      assert (Hsub : forall q, covered kept q -> covered rs q).
      { destruct Hk as [[_ ->]|[_ ->]]; [done|]. destruct (count =? 64); [apply covered_removelast|done]. }
      split; [apply canonical_cons; split; [done|]; split; [done|]; intros q [->|Hq]%Hcov; [lia|]; by apply Hgap, Hsub|].
      split; [rewrite covered_cons; intros [?|?]; [lia|done]|]. split; [done|]. exists (r :: kept). split.
      * rewrite Hadj. destruct Hk as [[? ->]|[? ->]]; [by left|right]. split; [done|]. destruct (count =? 64); [|done].
        destruct rs as [|r' rs]; [|done]. exfalso. apply Hreach. split; [done|]. by intros q ?%covered_nil.
      * intros q. rewrite !covered_cons, Hcov. tauto.
    + destruct IH as (-> & IH). split; [done|]. split; [done|]. rewrite !covered_cons, Hbelow. tauto.
Qed.

Lemma len_merge r rs : len (merge r rs) <= 1 + len rs.
Proof. unfold merge. destruct rs as [|n rs]; [done|]. destruct (_ && _); len_lia. Qed.

Lemma observeFrom_len count rs p :
  count <= 64 -> len (observeFrom count rs p).2 <= len rs + (if count =? 64 then 0 else 1).
Proof.
  intros Hc. induction rs as [|r rs IH]; cbn [observeFrom]; unfold MaxACKRanges.
  - destruct (count <? 64) eqn:E, (count =? 64) eqn:E'; cbn [snd]; rewrite ?len_cons; change (@len ACKRange []) with 0; lia.
  - destruct (_ && _); [destruct (count =? 64); cbn [snd]; lia|].
    destruct (_ && _).
    { cbn [snd]. pose proof (len_merge (mkRange (Start r) p) rs). rewrite len_cons. destruct (count =? 64); lia. }
    destruct (_ && _).
    { cbn [snd]. pose proof (len_merge (mkRange p (End_ r)) rs). rewrite len_cons. destruct (count =? 64); lia. }
    destruct (_ >? _).
    { cbn [snd]. rewrite len_cons. destruct (count =? 64); [rewrite len_removelast|]; rewrite len_cons; len_pos; lia. }
    destruct (observeFrom count rs p). cbn [snd] in *. rewrite !len_cons. lia.
Qed.

Lemma ObserveNew_ok p a :
  canonical a -> len a <= 64 -> 0 <= p < 2 ^ 32 ->
  observed (len a =? 64) a p (ObserveNew p a) /\ len (ObserveNew p a).2 <= 64.
Proof.
  intros Hc Hl Hp. split; [by apply observeFrom_spec|].
  pose proof (observeFrom_len (len a) a p Hl) as Hlen. unfold ObserveNew.
  destruct (len a =? 64) eqn:E; lia.
Qed.
(** ** Encoding and decoding ranges *)

(** Ranges of 32-bit packet numbers. *)
Definition ranges_u32 (rs : list ACKRange) : Prop := Forall (fun r => 0 <= Start r /\ End_ r < 2 ^ 32) rs.

(** Descending and disjoint, as [validACKRanges] checks. *)
Fixpoint descending (rs : list ACKRange) : Prop :=
  match rs with
  | [] => True
  | r :: rest => Start r <= End_ r /\ (forall p, covered rest p -> p < Start r) /\ descending rest
  end.

Lemma validFrom_iff rs : forall prev,
  validFrom prev rs = true <->
  descending rs /\ match prev with Some p => forall q, covered rs q -> q < Start p | None => True end.
Proof.
  induction rs as [|r rs IH]; intros prev; cbn [validFrom descending].
  - split; [intros _; split; [done|]; destruct prev; [by intros q ?%covered_nil|done]|done].
  - rewrite Z.gtb_ltb. destruct (End_ r <? Start r) eqn:E1.
    { split; [done|]. intros [[? _] _]. lia. }
    destruct prev as [p|].
    + rewrite Z.geb_leb. destruct (Start p <=? End_ r) eqn:E2.
      * split; [done|]. intros [_ H]. specialize (H (End_ r)). rewrite covered_cons in H. lia.
      * rewrite IH. split.
        -- intros [Hd Hlow]. split_and!; [lia|done|done|]. intros q [Hq|Hq]%covered_cons; [lia|].
           specialize (Hlow q Hq). lia.
        -- intros [(? & ? & ?) _]. done.
    + rewrite IH. split; [intros [? ?]; split_and!; done || lia|]. intros [(? & ? & ?) _]. done.
Qed.

Lemma descending_drop rs : forall n r,
  descending rs -> rs !! n = Some r ->
  Start r <= End_ r /\ (forall p, covered (drop (S n) rs) p -> p < Start r).
Proof.
  induction rs as [|r0 rs IH]; intros n r Hd Hn; [done|]. destruct Hd as (H1 & H2 & H3).
  destruct n as [|n]; cbn in Hn; simplify_eq; [done|].
  by apply IH.
Qed.

Lemma covered_drop rs : forall n r p,
  descending rs -> rs !! n = Some r -> (covered rs p /\ p <= End_ r) <->
  (Start r <= p <= End_ r \/ covered (drop (S n) rs) p).
Proof.
  induction rs as [|r0 rs IH]; intros n r p Hd Hn; [done|]. destruct Hd as (H1 & H2 & H3).
  destruct n as [|n]; cbn [lookup list_lookup] in Hn; simplify_eq.
  - cbn [drop]. rewrite drop_0, covered_cons. split; [tauto|]. intros [?|Hp]; [split; [by left|lia]|].
    split; [by right|]. specialize (H2 p Hp). lia.
  - change (drop (S (S n)) (r0 :: rs)) with (drop (S n) rs). rewrite <- (IH n r p H3 Hn), covered_cons.
    assert (End_ r < Start r0); [|intuition lia].
    apply (H2 (End_ r)). destruct (descending_drop rs n r H3 Hn) as [Hr _].
    apply (IH n r (End_ r) H3 Hn). left. lia.
Qed.

(** Nothing lies between two successive ranges. *)
Lemma covered_below rs n r p :
  descending rs -> rs !! n = Some r -> covered rs p -> p < Start r -> covered (drop (S n) rs) p.
Proof.
  intros Hd Hn Hp Hlt. destruct (descending_drop rs n r Hd Hn) as [Hr _].
  destruct (proj1 (covered_drop rs n r p Hd Hn)) as [?|?]; [split; [done|lia]|lia|done].
Qed.

Fixpoint flat (ps : list (Z * Z)) : bytes :=
  match ps with [] => [] | (n, a) :: ps => n :: a :: flat ps end.

Lemma flat_app ps qs : flat (ps ++ qs) = flat ps ++ flat qs.
Proof. induction ps as [|[n a] ps IH]; [done|]. cbn [flat app]. by rewrite IH. Qed.

Lemma len_flat ps : len (flat ps) = 2 * len ps.
Proof. induction ps as [|[n a] ps IH]; [done|]. cbn [flat]. rewrite !len_cons. lia. Qed.

Lemma parsePairs_app cap ps l : forall dst below,
  parsePairs cap (flat ps ++ l) dst below =
  (let? (dst, below) := parsePairs cap (flat ps) dst below in parsePairs cap l dst below).
Proof.
  induction ps as [|[n a] ps IH]; intros dst below; [done|]. cbn [flat app parsePairs].
  destruct (_ && _); [done|]. destruct (_ >? _); [done|]. destruct (a =? 0); [apply IH|].
  destruct (_ =? _); [done|]. destruct (_ || _); [done|]. apply IH.
Qed.

Lemma parsePairs_grows cap ps : forall dst below R b,
  parsePairs cap (flat ps) dst below = Ok (R, b) -> len dst <= len R.
Proof.
  induction ps as [|[n a] ps IH]; intros dst below R b Hparse; cbn [flat parsePairs] in *; [by simplify_eq|].
  destruct (_ && _); [done|]. destruct (_ >? _); [done|]. destruct (a =? 0); [by eapply IH|].
  destruct (_ =? _); [done|]. destruct (_ || _); [done|]. apply IH in Hparse. rewrite len_app in Hparse. len_pos. lia.
Qed.

(** The capacity only decides whether the ranges fit. *)
Lemma parsePairs_cap big cap ps : forall dst below R b,
  parsePairs big (flat ps) dst below = Ok (R, b) -> len dst <= cap ->
  parsePairs cap (flat ps) dst below = if len R <=? cap then Ok (R, b) else Err ErrACK.
Proof.
  induction ps as [|[n a] ps IH]; intros dst below R b Hparse Hcap; cbn [flat parsePairs] in *.
  { simplify_eq. by zbool. }
  destruct (_ && _); [done|]. destruct (_ >? _); [done|]. destruct (a =? 0); [by apply IH|].
  destruct (_ =? below); [done|]. destruct (u32 (a - 1) >? _); [done|]. cbn [orb] in *. destruct (len dst =? big); [done|].
  destruct (len dst =? cap) eqn:E; [|apply IH; [done|len_lia]].
  apply parsePairs_grows in Hparse. rewrite len_app, len_cons in Hparse. replace (len R <=? cap) with false; [done|].
  symmetry. apply Z.leb_gt. apply Z.eqb_eq in E. len_pos. lia.
Qed.

Section Emit.
Context (rs : list ACKRange) (dst0 : bytes) (R0 : list ACKRange) (below0 : Z).

(** The pairs written so far: they parse, down to [below], to exactly the
    packets of [rs] from [below] on. *)
Definition emitted (dst : bytes) (below pairs : Z) : Prop :=
  exists ps R, dst = dst0 ++ flat ps /\ len ps = pairs /\ Forall (fun p => is_byte p.1 /\ is_byte p.2) ps /\
    parsePairs 65 (flat ps) R0 below0 = Ok (R, below) /\ len R <= 1 + pairs /\
    0 <= below < 2 ^ 32 /\ forall p, covered R p <-> covered rs p /\ below <= p.

Lemma emitted_gap dst below pairs :
  emitted dst below pairs -> 255 <= below -> (forall p, covered rs p -> below - 255 <= p -> below <= p) ->
  emitted (dst ++ [255; 0]) (below - 255) (pairs + 1).
Proof.
  intros (ps & R & -> & Hn & Hby & Hparse & Hlen & Hb & Hcov) Hge Hgap. exists (ps ++ [(255, 0)]), R.
  rewrite flat_app, parsePairs_app, Hparse. cbn [bind flat parsePairs]. zbool. cbn [andb].
  split_and!; [by rewrite app_assoc|len_lia| | |lia|lia|lia|].
  - apply Forall_app. split; [done|]. repeat constructor; cbn; lia.
  - unfold u32. by rewrite Z.mod_small by lia.
  - intros p. rewrite Hcov. split; intros [Hp ?]; (split; [done|]); [lia|auto].
Qed.

Lemma emitted_ack dst below pairs gap count :
  emitted dst below pairs -> pairs < 64 -> 0 <= gap <= 255 -> 1 <= count <= 255 ->
  let ce := below - gap - 1 in
  count <= ce + 1 ->
  (forall p, ce - count < p < below -> covered rs p <-> p <= ce) ->
  emitted (dst ++ [u8 gap; u8 count]) (ce - count + 1) (pairs + 1).
Proof.
  intros (ps & R & -> & Hn & Hby & Hparse & Hlen & Hb & Hcov) Hpairs Hgap Hcount ce Hce Hset.
  unfold u8. rewrite !Z.mod_small by lia.
  exists (ps ++ [(gap, count)]), (R ++ [mkRange (ce - count + 1) ce]).
  rewrite flat_app, parsePairs_app, Hparse. cbn [bind flat parsePairs]. unfold u32. rewrite !Z.mod_small by lia.
  zbool. rewrite andb_false_r. fold ce. replace (ce - (count - 1)) with (ce - count + 1) by lia.
  split_and!; [by rewrite app_assoc|len_lia| |done|len_lia|lia|lia|].
  - apply Forall_app. split; [done|]. repeat constructor; cbn; lia.
  - intros p. rewrite covered_app, covered_cons, covered_nil, Hcov. cbn [Start End_].
    destruct (decide (below <= p)); [|destruct (decide (ce - count < p)) as [Hp|]].
    + split; [intros [[? ?]|[?|[]]]; (split; [done || lia|lia])|]. intros [? ?]. by left.
    + specialize (Hset p ltac:(lia)). split.
      * intros [[? ?]|[?|[]]]; [lia|]. split; [apply Hset|]; lia.
      * intros [?%Hset ?]. right. left. lia.
    + split; [intros [[? ?]|[?|[]]]; lia|lia].
Qed.

Lemma gapLoop_spec ce fuel : forall dst below gap pairs,
  emitted dst below pairs -> 0 <= ce -> gap = below - ce - 1 -> 0 <= gap ->
  (forall p, covered rs p -> p <= ce \/ below <= p) ->
  0 <= pairs -> Z.of_nat fuel = 64 - pairs ->
  let '(dst', below', gap', pairs') := gapLoop fuel dst below gap pairs in
  emitted dst' below' pairs' /\ gap' = below' - ce - 1 /\ 0 <= gap' /\ below' <= below /\
  (forall p, covered rs p -> p <= ce \/ below' <= p) /\ pairs <= pairs' <= 64 /\ (pairs' = 64 \/ gap' <= 255).
Proof.
  induction fuel as [|fuel IH]; intros dst below gap pairs He Hce Hgap Hpos Hset Hp Hfuel; cbn [gapLoop].
  - split_and!; try done; lia.
  - unfold MaxACKRanges. assert (Hb : 0 <= below < 2 ^ 32) by (destruct He as (? & ? & ? & ? & ? & ? & ? & ? & _); done).
    destruct ((gap >? 255) && (pairs <? 64)) eqn:E.
    + unfold u32, u64. rewrite (Z.mod_small (below - 255)), (Z.mod_small (gap - 255)) by lia.
      assert (He' : emitted (dst ++ [255; 0]) (below - 255) (pairs + 1)).
      { apply emitted_gap; [done|lia|]. intros p Hc Hge. destruct (Hset p Hc); lia. }
      specialize (IH _ (below - 255) (gap - 255) (pairs + 1) He' Hce ltac:(lia) ltac:(lia)).
      destruct (gapLoop fuel _ _ _ _) as [[[dst' below'] gap'] pairs'].
      destruct IH as (H1 & H2 & H3 & H4 & H5 & H6 & H7); [|lia|lia|].
      { intros p Hc. destruct (Hset p Hc); [by left|]. right. lia. }
      split_and!; try done; lia.
    + split_and!; try done; lia.
Qed.

(** What is left to encode below [below]: the part [s..e] of the range at
    [index], then the ranges after it. *)
Definition todo (below index cs ce : Z) : Prop :=
  0 <= index <= len rs /\
  (index = len rs -> forall p, covered rs p -> below <= p) /\
  forall r, rs !! Z.to_nat index = Some r ->
    let '(s, e) := if (ce <? cs) || (ce >=? below) then (Start r, End_ r) else (cs, ce) in
    s = Start r /\ s <= e < below /\ e <= End_ r /\ forall p, e < p -> covered rs p -> below <= p.

Lemma todo_next index r cs ce :
  descending rs -> 0 <= index -> rs !! Z.to_nat index = Some r -> Start r <= ce ->
  todo (Start r) (index + 1) cs ce.
Proof.
  intros Hd Hidx Hr Hce. pose proof (lookup_lt_Some _ _ _ Hr). split_and!; [lia|unfold len; lia| |].
  - intros Hlast p Hc. destruct (decide (Start r <= p)); [done|].
    pose proof (covered_below rs (Z.to_nat index) r p Hd Hr Hc ltac:(lia)) as Hrest.
    rewrite drop_ge in Hrest by (unfold len in Hlast; lia). by apply covered_nil in Hrest.
  - intros r' Hr'. rewrite Z.geb_leb, (proj2 (Z.leb_le _ _)), orb_true_r by lia.
    replace (Z.to_nat (index + 1)) with (S (Z.to_nat index)) in Hr' by lia.
    destruct (descending_drop rs _ r' Hd Hr') as [Hr1 Hr2].
    destruct (descending_drop rs _ r Hd Hr) as [_ Hr4]. rewrite (drop_S _ r' _ Hr') in Hr4.
    split_and!; [done|done|apply Hr4, covered_cons; lia|lia|].
    intros p Hpp Hc. destruct (decide (Start r <= p)); [done|].
    pose proof (covered_below rs (Z.to_nat index) r p Hd Hr Hc ltac:(lia)) as Hrest.
    rewrite (drop_S _ r' _ Hr') in Hrest. apply covered_cons in Hrest as [?|Hrest]; [lia|].
    specialize (Hr2 p Hrest). lia.
Qed.

Lemma pairLoop_spec fuel : forall dst below index cs ce pairs,
  descending rs -> ranges_u32 rs -> emitted dst below pairs -> todo below index cs ce ->
  0 <= pairs <= 64 -> 64 - pairs <= Z.of_nat fuel ->
  exists dst' below' pairs', pairLoop fuel rs dst below index cs ce pairs = Ok dst' /\
    emitted dst' below' pairs' /\ pairs' <= 64 /\ (pairs' = 64 \/ forall p, covered rs p -> below' <= p).
Proof.
  induction fuel as [|fuel IH]; intros dst below index cs ce pairs Hd Hu He Ht Hp Hf; cbn [pairLoop].
  { exists dst, below, pairs. split_and!; try done; [lia|left; lia]. }
  unfold MaxACKRanges at 1. destruct (negb (pairs <? 64)) eqn:Efull.
  { exists dst, below, pairs. split_and!; try done; [lia|left; lia]. }
  destruct Ht as (Hidx & Hend & Hcur). rewrite Z.geb_leb. destruct (len rs <=? index) eqn:Eidx.
  { exists dst, below, pairs. split_and!; try done; [lia|]. right. apply Hend. lia. }
  destruct (lookup_lt_is_Some_2 rs (Z.to_nat index)) as [r Hr]; [unfold len in *; lia|].
  specialize (Hcur r Hr). set (reload := (ce <? cs) || (ce >=? below)) in *.
  assert (exists s e, (if reload then (Start r, End_ r) else (cs, ce)) = (s, e) /\
    (if reload then (let? r := Prelude.index rs index in Ok (Start r, End_ r)) else Ok (cs, ce)) = Ok (s, e))
    as (s & e & Hse & Hload).
  { destruct reload; [exists (Start r), (End_ r)|by exists cs, ce]. split; [done|].
    unfold Prelude.index. zbool. by rewrite Hr. }
  rewrite Hse in Hcur. destruct Hcur as (Hs & Hle & HeE & Hgapset).
  pose proof (Forall_lookup_1 _ _ _ _ Hu Hr) as [Hu0 Hu1].
  rewrite Hload. cbn [bind]. zbool. clear Hload Hse reload.
  assert (Hb : 0 <= below < 2 ^ 32) by (destruct He as (? & ? & ? & ? & ? & ? & ? & ? & _); done).
  unfold u64 at 1. rewrite (Z.mod_small (below - e - 1)) by lia.
  pose proof (gapLoop_spec e (Z.to_nat (MaxACKRanges - pairs)) dst below (below - e - 1) pairs He) as Hg.
  destruct (gapLoop _ _ _ _ _) as [[[dst1 below1] gap1] pairs1].
  destruct Hg as (He1 & Hgap1 & Hg0 & Hble & Hset1 & Hp1 & Hdone); [lia|lia|lia| |lia|unfold MaxACKRanges; lia|].
  { intros p Hc. destruct (decide (e < p)); [right; by apply Hgapset|left; lia]. }
  unfold MaxACKRanges. destruct (pairs1 =? 64) eqn:E64.
  { exists dst1, below1, pairs1. split_and!; try done; [lia|left; lia]. }
  unfold u64. rewrite (Z.mod_small (e - s + 1)) by lia. set (count := Z.min (e - s + 1) 255).
  unfold u32. rewrite (Z.mod_small count), (Z.mod_small (e - count + 1)) by lia.
  assert (He2 : emitted (dst1 ++ [u8 gap1; u8 count]) (e - count + 1) (pairs1 + 1)).
  { replace (e - count + 1) with (below1 - gap1 - 1 - count + 1) by lia.
    apply emitted_ack; [done|lia|lia|lia|lia|]. intros p Hpr. split; [intros Hc; destruct (Hset1 p Hc); lia|].
    intros. apply Exists_exists. exists r. split; [by eapply list_elem_of_lookup_2|lia]. }
  destruct (s <? e - count + 1) eqn:Emore.
  - rewrite Z.mod_small by lia. apply IH; try done; [|lia|lia].
    split_and!; [lia|lia|lia|]. intros r' Hr'. rewrite Hr in Hr'. simplify_eq. zbool.
    split_and!; [done|lia..|]. intros p Hpp _. lia.
  - replace (e - count + 1) with (Start r) in * by lia.
    apply IH; try done; [|lia|lia]. apply todo_next; done || lia.
Qed.
End Emit.

Lemma ParseACKRanges_bytes cap through fc ps R below :
  0 <= fc <= through -> fc < 256 -> through < 2 ^ 32 -> 0 < cap ->
  parsePairs 65 (flat ps) [mkRange (through - fc) through] (through - fc) = Ok (R, below) ->
  ParseACKRanges (be_bytes 4 through ++ [fc] ++ flat ps) cap = if len R <=? cap then Ok R else Err ErrACK.
Proof.
  intros Hfc H256 Ht Hcap Hparse. unfold ParseACKRanges. pose proof (len_flat ps) as Hl.
  replace (Z.rem (len (be_bytes 4 through ++ [fc] ++ flat ps) - 5) 2) with 0.
  2:{ len_simpl. rewrite Hl. replace (Z.of_nat 4 + (1 + 0 + 2 * len ps) - 5) with (0 + len ps * 2) by lia.
      rewrite Z.rem_add by lia. done. }
  go_eval. unfold u32. rewrite Z.mod_small by lia. rewrite (parsePairs_cap 65 cap _ _ _ _ _ Hparse) by len_lia.
  by destruct (len R <=? cap).
Qed.

(** A body for [rs]: what it decodes to, by the receiver's capacity. *)
Definition body_for (rs : list ACKRange) (body : bytes) : Prop :=
  exists acked cut,
    (forall cap, 0 < cap -> ParseACKRanges body cap = if len acked <=? cap then Ok acked else Err ErrACK) /\
    (forall p, covered acked p <-> covered rs p /\ cut <= p) /\
    len body <= 5 + 2 * 64 /\ 2 * len acked <= len body - 3 /\
    (len body = 5 + 2 * 64 \/ forall p, covered rs p -> cut <= p).

Lemma marshal_body rs dst :
  rs <> [] -> validACKRanges rs = true -> ranges_u32 rs ->
  exists body, MarshalACKRanges dst rs = Ok (dst ++ body) /\ body_for rs body.
Proof.
  intros Hne Hv Hu. destruct rs as [|first rs0]; [done|]. set (rs := first :: rs0) in *.
  pose proof (proj1 (validFrom_iff rs None) Hv) as [Hd _].
  pose proof Hu as [[Hu0 Hu1] _]%Forall_cons. pose proof Hd as (Hse & Hlow & _).
  unfold MarshalACKRanges. rewrite Hv. change (Prelude.index rs 0) with (Ok first).
  replace (len rs =? 0) with false by (subst rs; rewrite len_cons; len_pos; lia).
  cbn [orb negb bind]. unfold u64, u32. rewrite (Z.mod_small (End_ first - Start first + 1)) by lia.
  set (fc := Z.min (End_ first - Start first + 1) 256).
  rewrite (Z.mod_small fc), (Z.mod_small (End_ first - fc + 1)) by lia.
  unfold u8. rewrite (Z.mod_small (fc - 1)) by lia.
  set (below := End_ first - fc + 1). set (dst1 := dst ++ be_bytes 4 (End_ first) ++ [fc - 1]).
  assert (He : emitted rs dst1 [mkRange below (End_ first)] below dst1 below 0).
  { exists [], [mkRange below (End_ first)]. cbn [flat]. rewrite app_nil_r. split_and!; try done; try lia.
    intros p. unfold rs. rewrite covered_cons, covered_nil, covered_cons. cbn [Start End_].
    split; [intros [?|[]]; split; [left|]; lia|]. intros [[?|Hp] ?]; [left; lia|]. specialize (Hlow p Hp). lia. }
  assert (Hfin : forall index cs ce, todo rs below index cs ce ->
    exists body, pairLoop 64 rs dst1 below index cs ce 0 = Ok (dst ++ body) /\ body_for rs body).
  { intros index cs ce Ht.
    destruct (pairLoop_spec rs dst1 [mkRange below (End_ first)] below 64 dst1 below index cs ce 0)
      as (dst' & below' & pairs' & -> & Hem & Hp64 & Hdone); [done|done|done|done|lia|lia|].
    destruct Hem as (ps & R & -> & Hn & _ & Hparse & HR & _ & Hcov).
    exists (be_bytes 4 (End_ first) ++ [fc - 1] ++ flat ps).
    split; [unfold dst1; by rewrite <- !app_assoc|]. exists R, below'. split_and!.
    - intros cap Hcap. eapply (ParseACKRanges_bytes cap _ _ _ _ below'); [lia..|].
      replace (End_ first - (fc - 1)) with below by lia. exact Hparse.
    - done.
    - len_simpl. rewrite len_flat. lia.
    - len_simpl. rewrite len_flat. lia.
    - len_simpl. rewrite len_flat. destruct Hdone; [left; lia|by right]. }
  rewrite Z.gtb_ltb. destruct (Start first <? below) eqn:E.
  - rewrite Z.mod_small by lia. apply Hfin. split_and!; [lia|apply len_nonneg|intros Hz; subst rs; rewrite len_cons in Hz; len_pos; lia|].
    intros r Hr. change (Some first = Some r) in Hr. injection Hr as <-. zbool. split_and!; [done|lia..|]. intros p Hp _. lia.
  - apply Hfin. replace below with (Start first) by lia. apply (todo_next rs 0 first); [done|lia|done|lia].
Qed.

(** *** Decoding untrusted acknowledgements *)

Lemma descending_snoc rs r below :
  descending rs -> (forall p, covered rs p -> below <= p) -> Start r <= End_ r < below ->
  descending (rs ++ [r]).
Proof.
  induction rs as [|r0 rs IH]; intros Hd Hlow Hr.
  - cbn. split_and!; [lia|by intros p ?%covered_nil|done].
  - destruct Hd as (H1 & H2 & H3). change ((r0 :: rs) ++ [r]) with (r0 :: (rs ++ [r])).
    split_and!; [done| |].
    + intros p [Hp|Hp]%covered_app; [auto|]. apply covered_cons in Hp as [Hp|Hp%covered_nil]; [|done].
      assert (below <= Start r0) by (apply Hlow, covered_cons; lia). lia.
    + apply IH; [done| |done]. intros p Hp. apply Hlow, covered_cons. by right.
Qed.

(** What the parser's output satisfies at every step. *)
Definition parsed_ok (cap below : Z) (rs : list ACKRange) : Prop :=
  descending rs /\ ranges_u32 rs /\ len rs <= cap /\ (forall p, covered rs p -> below <= p) /\ 0 <= below < 2 ^ 32.

Lemma parsePairs_sound cap (n : nat) : forall data dst below,
  bytes_ok data -> len data = 2 * Z.of_nat n -> parsed_ok cap below dst ->
  match parsePairs cap data dst below with
  | Ok (rs, below') => parsed_ok cap below' rs
  | Err e => e = ErrACK
  | Panic => False
  end.
Proof.
  induction n as [|n IH]; intros data dst below Hb Hl Hok.
  { apply len_zero_nil in Hl as ->. done. }
  destruct data as [|nack [|ack rest]].
  { change (0 = 2 * Z.of_nat (S n)) in Hl. lia. }
  { change (1 = 2 * Z.of_nat (S n)) in Hl. lia. }
  rewrite !len_cons in Hl.
  pose proof Hok as (Hd & Hu & Hc & Hlow & Hbelow).
  apply Forall_cons in Hb as [Hn Hb]. apply Forall_cons in Hb as [Ha Hb]. unfold is_byte in *.
  cbn [parsePairs]. destruct (_ && _); [done|]. destruct (nack >? below) eqn:E1; [done|].
  unfold u32. destruct (ack =? 0) eqn:E2.
  - apply IH; [done|lia|]. split_and!; try done; rewrite ?Z.mod_small by lia; [|lia..].
    intros p Hp. specialize (Hlow p Hp). lia.
  - destruct (nack =? below) eqn:E3; [done|]. rewrite !Z.mod_small by lia.
    destruct ((ack - 1 >? below - nack - 1) || (len dst =? cap)) eqn:E4; [done|].
    rewrite Z.mod_small by lia. apply IH; [done|lia|]. split_and!; [|apply Forall_app; split; [done|]| | |lia|lia].
    + eapply (descending_snoc _ _ below); [done|done|]. cbn [Start End_]. lia.
    + repeat constructor; cbn [Start End_]; lia.
    + len_lia.
    + intros p [Hp|Hp]%covered_app; [specialize (Hlow p Hp); lia|].
      apply covered_cons in Hp as [Hp|Hp%covered_nil]; [|done]. cbn [Start End_] in Hp. lia.
Qed.

(** ** Properties *)

(** C16: [ObserveNew] keeps an exact, canonical set of at most 64 ranges.  It
    reports a packet new exactly when the packet is in no retained range, unless
    all 64 ranges are in use and the packet would need another one below them.
    A new packet is the only one added; it displaces the lowest range when it
    needs a range of its own and all 64 are in use, and nothing otherwise.  A
    packet that is not new leaves the tracker as it was. *)
Theorem ObserveNew_exact p a :
  canonical a -> len a <= 64 -> 0 <= p < 2 ^ 32 ->
  let (new, a') := ObserveNew p a in
  canonical a' /\ len a' <= 64 /\
  (new = true <-> ~ covered a p /\ ~ (len a = 64 /\ beneath a p)) /\
  (new = true -> adjacent a p \/ len a < 64 -> forall q, covered a' q <-> q = p \/ covered a q) /\
  (new = true -> ~ adjacent a p -> len a = 64 -> forall q, covered a' q <-> q = p \/ covered (removelast a) q) /\
  (new = false -> a' = a).
Proof.
  intros Hc Hl Hp. destruct (ObserveNew_ok p a Hc Hl Hp) as [[Hcan H] Hlen].
  destruct (ObserveNew p a) as [new a']. cbn [fst snd] in *. split; [done|]. split; [done|].
  assert (Hfull : (len a =? 64) = true <-> len a = 64) by apply Z.eqb_eq. destruct new.
  - destruct H as (Hnot & Hreach & kept & Hk & Hcov). split; [tauto|]. split; [|split; [|done]].
    + intros _ Hroom. destruct Hk as [[_ ->]|[Hno ->]]; [done|]. destruct Hroom as [|Hroom]; [done|].
      by rewrite (proj2 (Z.eqb_neq (len a) 64)) in Hcov by lia.
    + intros _ Hno H64. destruct Hk as [[? _]|[_ ->]]; [done|]. by rewrite H64 in Hcov.
  - destruct H as (-> & H). split; [split; [done|tauto]|done].
Qed.

(** The packet between two ranges joins them. *)
Lemma ObserveNew_exact_witness :
  let a := [mkRange 10 12; mkRange 5 8] in
  (ObserveNew 9 a).1 = true /\ canonical (ObserveNew 9 a).2 /\ forall q, covered (ObserveNew 9 a).2 q <-> q = 9 \/ covered a q.
Proof.
  pose proof (ObserveNew_exact 9 [mkRange 10 12; mkRange 5 8]) as H.
  destruct H as (Hcan & _ & _ & Hcov & _); [cbn; unfold range_ok; cbn; repeat (constructor || lia)|vm_compute; congruence|lia|].
  split; [reflexivity|]. split; [exact Hcan|]. apply Hcov; [reflexivity|right; vm_compute; reflexivity].
Defined.

(** C17: an acknowledgement never claims a packet that was not received.
    Marshalling any valid ranges succeeds; a peer with room for [cap] ranges
    either decodes exactly the received packets from some cut-off up, or refuses
    the body because it holds more than [cap] ranges.  A body below the maximum
    of 64 pairs is complete (no packet is cut off) and is decoded with the
    [MaxACKRanges] = 64 ranges every receiver keeps. *)
Theorem ack_roundtrip rs dst :
  rs <> [] -> validACKRanges rs = true -> ranges_u32 rs ->
  exists body acked cut,
    MarshalACKRanges dst rs = Ok (dst ++ body) /\
    (forall cap, 0 < cap -> ParseACKRanges body cap = if len acked <=? cap then Ok acked else Err ErrACK) /\
    (forall p, covered acked p <-> covered rs p /\ cut <= p) /\
    len body <= 5 + 2 * MaxACKRanges /\
    (len body < 5 + 2 * MaxACKRanges ->
      ParseACKRanges body MaxACKRanges = Ok acked /\ forall p, covered rs p -> cut <= p).
Proof.
  intros Hne Hv Hu. destruct (marshal_body rs dst Hne Hv Hu) as (body & Hm & acked & cut & Hparse & Hcov & Hlen & Hfit & Hcut).
  exists body, acked, cut. split_and!; [done..|]. unfold MaxACKRanges. intros Hlt. rewrite Hparse by lia. zbool.
  split; [done|]. destruct Hcut; [lia|done].
Qed.

Lemma ack_roundtrip_witness :
  let rs := [mkRange 1000 2000; mkRange 3 7] in
  exists body acked, MarshalACKRanges [9] rs = Ok ([9] ++ body) /\ ParseACKRanges body MaxACKRanges = Ok acked /\
    forall p, covered acked p <-> covered rs p.
Proof.
  destruct (ack_roundtrip [mkRange 1000 2000; mkRange 3 7] [9]) as (body & acked & cut & Hm & _ & Hcov & _ & Hall).
  - discriminate.
  - reflexivity.
  - repeat constructor; cbn; lia.
  - exists body, acked. split; [exact Hm|]. vm_compute in Hm. injection Hm as <-.
    destruct Hall as [Hp Hc]; [vm_compute; reflexivity|]. split; [exact Hp|].
    intros p. rewrite Hcov. split; [by intros [? _]|]. intros Hpp. split; [done|]. by apply Hc.
Defined.

(** the 64 ranges a receiver keeps room for are one too few for what the
    encoder emits.  From 16,576 packets received without a gap on, the body has
    the first range and 64 more, and decoding it into [MaxACKRanges] ranges
    fails, so the peer rejects every acknowledgement. *)
Theorem ack_limit_mismatch :
  exists body, MarshalACKRanges [] [mkRange 0 16575] = Ok body /\
    ParseACKRanges body MaxACKRanges = Err ErrACK /\
    exists acked, ParseACKRanges body (MaxACKRanges + 1) = Ok acked /\ len acked = MaxACKRanges + 1.
Proof.
  eexists. split; [vm_compute; reflexivity|]. split; [vm_compute; reflexivity|].
  eexists. split; vm_compute; reflexivity.
Qed.

(** [ParseACKRanges] on arbitrary bytes returns, and what it accepts is a
    descending, disjoint list of at most [cap] ranges of 32-bit packet numbers. *)
Theorem ParseACKRanges_sound data cap :
  bytes_ok data -> 0 < cap ->
  match ParseACKRanges data cap with
  | Ok rs => validACKRanges rs = true /\ ranges_u32 rs /\ len rs <= cap
  | Err e => e = ErrACK
  | Panic => False
  end.
Proof.
  intros Hb Hcap. unfold ParseACKRanges. destruct (_ || _) eqn:E; [done|].
  apply orb_false_elim in E as [E1 E2]. apply negb_false_iff, Z.eqb_eq in E2.
  rewrite Z.rem_mod_nonneg in E2 by lia.
  repeat go_step. set (through := be_val (sub 0 4 data)).
  assert (0 <= through < 2 ^ 32) as Hthr by (split; [by apply be_val_sub_nonneg|by apply (be_val_sub_lt data 0 4)]).
  go_index. cbn [bind]. destruct (x >? through) eqn:E3; [done|]. destruct (cap =? 0); [done|]. repeat go_step.
  assert (len data - 5 = 2 * Z.of_nat (Z.to_nat ((len data - 5) / 2))) as Hlen.
  { pose proof (Z.div_mod (len data - 5) 2 ltac:(lia)). pose proof (Z.div_pos (len data - 5) 2). lia. }
  unfold u32. rewrite !Z.mod_small by lia.
  assert (parsed_ok cap (through - x) [mkRange (through - x) through]) as Hinit.
  { split_and!; try lia; [cbn; split_and!; [lia|by intros p ?%covered_nil|done]|apply Forall_singleton; cbn; lia|len_lia|].
    intros p [Hp|Hp%covered_nil]%covered_cons; [cbn in Hp; lia|done]. }
  pose proof (parsePairs_sound cap (Z.to_nat ((len data - 5) / 2)) (sub 5 (len data) data)
    _ _ (bytes_ok_sub _ _ _ Hb) ltac:(rewrite len_sub by lia; lia) Hinit) as Hs.
  destruct (parsePairs _ _ _ _) as [[rs below]|e|] eqn:Ep; cbn [bind]; [|done|done].
  destruct Hs as (Hd & Hu & Hc & _). split_and!; [by apply validFrom_iff|done|done].
Qed.

(** eviction forgets: a packet number that was acknowledged is reported new
    again once its range made room and two of the newer ranges have merged. *)
Theorem replay_after_eviction :
  let later := (fun k => 2 + 2 * Z.of_nat k) <$> seq 0 64 in
  let a := fold_left (fun a p => Observe p a) (0 :: later ++ [3]) [] in
  (ObserveNew 0 []).1 = true /\ (ObserveNew 0 a).1 = true.
Proof. vm_compute. done. Qed.
