(* ===== verification/Chacha.v ===== *)
(** The ChaCha20-Poly1305 layer, [src/cryptography/chacha.go].

    The primitives come from [golang.org/x/crypto] and are parameters: the
    keystream of [chacha20], the authenticator of [poly1305] and the combined
    AEAD of [chacha20poly1305].  [Primitives] collects them and
    [PrimitivesLaws] states what the code relies on. *)

From S2P Require Import Prelude.

(** [keystream key nonce block n]: [n] bytes of keystream from block [block];
    [mac key msg]: the one-time authenticator; [aead_seal]/[aead_open] on key,
    nonce, text and additional data. *)
Class Primitives := {
  keystream : bytes -> bytes -> Z -> Z -> bytes;
  mac : bytes -> bytes -> bytes;
  aead_seal : bytes -> bytes -> bytes -> bytes -> bytes;
  aead_open : bytes -> bytes -> bytes -> bytes -> option bytes }.

Class PrimitivesLaws (P : Primitives) : Prop := {
  len_keystream k n b m : 0 <= m -> len (keystream k n b m) = m;
  bytes_ok_keystream k n b m : bytes_ok (keystream k n b m);
  len_mac k m : len (mac k m) = 16;
  len_aead_seal k n p ad : len (aead_seal k n p ad) = len p + 16;
  aead_open_seal k n p ad : aead_open k n (aead_seal k n p ad) ad = Some p }.

Definition ChaChaKeySize : Z := 32.
Definition ChaChaNonceSize : Z := 12.
Definition ChaChaTagSize : Z := 16.

Section Chacha.
Context `{P : Primitives}.

(** ** A retained cipher *)

Record ChaCha20Poly1305 := mkCipher { ckey : bytes; creleased : bool }.

Definition NewChaCha20Poly1305 (key : bytes) : res ChaCha20Poly1305 :=
  fail_if negb (len key =? ChaChaKeySize) with ErrKeyLength ;;
  Ok (mkCipher key false).

(** [CopyKey]: [dst] after the copy. *)
Definition CopyKey (c : ChaCha20Poly1305) (dst : bytes) : res bytes :=
  fail_if creleased c with ErrSensitiveReleased ;;
  fail_if len dst <? ChaChaKeySize with ErrDestination ;;
  write dst 0 (ckey c).

Definition ReleaseSensitive (c : ChaCha20Poly1305) : ChaCha20Poly1305 :=
  if creleased c then c else mkCipher (make_bytes 32) true.

(** [SealTo]: [dst] after the call; the result is its first
    [len(plaintext)+16] bytes. *)
Definition SealTo (c : ChaCha20Poly1305) (dst nonce plaintext ad : bytes) : res bytes :=
  fail_if creleased c with ErrSensitiveReleased ;;
  fail_if negb (len nonce =? ChaChaNonceSize) with ErrNonceLength ;;
  fail_if len dst <? len plaintext + ChaChaTagSize with ErrDestination ;;
  write dst 0 (aead_seal (ckey c) nonce plaintext ad).

(** [OpenTo]: the plaintext, which is also the start of [dst] after the call. *)
Definition OpenTo (c : ChaCha20Poly1305) (dst nonce ciphertext ad : bytes) : res bytes :=
  fail_if creleased c with ErrSensitiveReleased ;;
  fail_if negb (len nonce =? ChaChaNonceSize) with ErrNonceLength ;;
  fail_if (len ciphertext <? ChaChaTagSize) || (len dst <? len ciphertext - ChaChaTagSize)
    with ErrDestination ;;
  match aead_open (ckey c) nonce ciphertext ad with
  | Some plain => Ok plain
  | None => Err ErrAuthentication
  end.

(** ** One-off sealing *)

Definition xor (a b : bytes) : bytes := zip_with Z.lxor a b.

Definition pad16 (l : bytes) : bytes :=
  let remainder := Z.land (len l) 15 in
  if negb (remainder =? 0) then make_bytes (16 - remainder) else [].

Definition poly1305Tag (key ad ciphertext : bytes) : bytes :=
  mac key (ad ++ pad16 ad ++ ciphertext ++ pad16 ciphertext ++
           le_bytes 8 (len ad) ++ le_bytes 8 (len ciphertext)).

(** [dst] after the call. *)
Definition SealChaCha20Poly1305To (dst key nonce plaintext ad : bytes) : res bytes :=
  fail_if negb (len key =? ChaChaKeySize) with ErrKeyLength ;;
  fail_if negb (len nonce =? ChaChaNonceSize) with ErrNonceLength ;;
  fail_if len dst <? len plaintext + ChaChaTagSize with ErrDestination ;;
  let polyKey := xor (make_bytes 32) (keystream key nonce 0 32) in
  let ciphertext := xor plaintext (keystream key nonce 1 (len plaintext)) in
  let? dst := write dst 0 ciphertext in
  let tag := poly1305Tag polyKey ad ciphertext in
  copy_at dst (len plaintext) tag.

(** The plaintext, written to the start of [dst]. *)
Definition OpenChaCha20Poly1305To (dst key nonce ciphertext ad : bytes) : res bytes :=
  fail_if negb (len key =? ChaChaKeySize) with ErrKeyLength ;;
  fail_if negb (len nonce =? ChaChaNonceSize) with ErrNonceLength ;;
  fail_if (len ciphertext <? ChaChaTagSize) || (len dst <? len ciphertext - ChaChaTagSize)
    with ErrDestination ;;
  let? body := slice ciphertext 0 (len ciphertext - ChaChaTagSize) in
  let polyKey := xor (make_bytes 32) (keystream key nonce 0 32) in
  let expected := poly1305Tag polyKey ad body in
  let? tag := slice_from ciphertext (len body) in
  fail_if negb (bytes_eqb expected tag) with ErrAuthentication ;;
  Ok (xor body (keystream key nonce 1 (len body))).

(** ** Header-protection streams *)

(** A [chacha20.Cipher] before its first use: key, nonce and block counter. *)
Record Stream := mkStream { skey : bytes; snonce : bytes; scounter : Z }.

Definition NewChaCha20Stream (key nonce : bytes) : res Stream :=
  fail_if negb (len key =? 32) with ErrKeyLength ;;
  fail_if negb (len nonce =? 12) with ErrNonceLength ;;
  Ok (mkStream key nonce 1).

(** The first [XORKeyStream(src, src)] of a stream: what [src] becomes. *)
Definition XORKeyStream (s : Stream) (src : bytes) : bytes :=
  xor src (keystream (skey s) (snonce s) (scounter s) (len src)).

(** ** Sealing and opening *)

Lemma len_xor a b : len a = len b -> len (xor a b) = len a.
Proof. intros H. unfold xor, len in *. rewrite length_zip_with. lia. Qed.

Lemma xor_comm a b : xor a b = xor b a.
Proof.
  unfold xor. revert b. induction a as [|x a IH]; intros [|y b]; cbn [zip_with]; [done..|]. by rewrite Z.lxor_comm, IH.
Qed.

Lemma xor_assoc a b c : xor (xor a b) c = xor a (xor b c).
Proof.
  unfold xor. revert b c. induction a as [|x a IH]; intros [|y b] [|z c]; cbn [zip_with]; [done..|]. by rewrite Z.lxor_assoc, IH.
Qed.

Lemma xor_xor a b : len a = len b -> xor (xor a b) b = a.
Proof.
  unfold xor. revert b. induction a as [|x a IH]; intros [|y b] H; cbn [zip_with]; try done.
  rewrite !len_cons in H. f_equal; [|apply IH; lia].
  rewrite Z.lxor_assoc, Z.lxor_nilpotent. apply Z.lxor_0_r.
Qed.

Context {L : PrimitivesLaws P}.

Lemma SealTo_ok c dst nonce p ad :
  creleased c = false -> len nonce = 12 -> len p + 16 <= len dst ->
  SealTo c dst nonce p ad = Ok (over (aead_seal (ckey c) nonce p ad) dst).
Proof.
  intros Hr Hn Hd. unfold SealTo, ChaChaNonceSize, ChaChaTagSize. rewrite Hr. zbool.
  rewrite (over_nil dst) at 1. rewrite write_over; [done|done|]. rewrite len_aead_seal. len_lia.
Qed.

Lemma OpenTo_ok c dst nonce p ad :
  creleased c = false -> len nonce = 12 -> len p <= len dst ->
  OpenTo c dst nonce (aead_seal (ckey c) nonce p ad) ad = Ok p.
Proof.
  intros Hr Hn Hd. unfold OpenTo, ChaChaNonceSize, ChaChaTagSize. rewrite Hr, len_aead_seal.
  pose proof (len_nonneg p). zbool. by rewrite aead_open_seal.
Qed.

(** What the one-off construction writes, and that it opens it. *)
Lemma oneoff_ok key nonce p ad : len key = 32 -> len nonce = 12 ->
  exists ct, len ct = len p + 16 /\
    (forall dst, len p + 16 <= len dst -> SealChaCha20Poly1305To dst key nonce p ad = Ok (over ct dst)) /\
    (forall dst, len p <= len dst -> OpenChaCha20Poly1305To dst key nonce ct ad = Ok p).
Proof.
  intros Hk Hn. pose proof (len_nonneg p) as Hp.
  unfold SealChaCha20Poly1305To, OpenChaCha20Poly1305To, ChaChaKeySize, ChaChaNonceSize, ChaChaTagSize.
  set (ks := keystream key nonce 1 (len p)). assert (Hks : len ks = len p) by (apply len_keystream; lia).
  assert (Hct : len (xor p ks) = len p) by (by apply len_xor).
  set (tag := poly1305Tag _ _ (xor p ks)). assert (Htag : len tag = 16) by apply len_mac.
  exists (xor p ks ++ tag). split; [len_lia|]. split; intros dst Hd.
  - zbool. write_run dst. done.
  - rewrite len_app, Hct, Htag. zbool. rewrite slice_ok by len_lia. cbn [bind]. sub_norm. rewrite Hct.
    fold ks. fold tag. rewrite slice_from_ok by len_lia. cbn [bind]. sub_norm.
    unfold bytes_eqb. rewrite bool_decide_true by done. cbn [negb]. by rewrite xor_xor.
Qed.

(** the one-off construction opens what it sealed.  Sealing fills the first
    [len(plaintext) + 16] bytes of the destination and nothing else, and opening
    those bytes with the same key, nonce and additional data returns the
    plaintext. *)
Theorem oneoff_roundtrip dst dst' key nonce p ad :
  len key = 32 -> len nonce = 12 -> len p + 16 <= len dst -> len p <= len dst' ->
  exists out, SealChaCha20Poly1305To dst key nonce p ad = Ok out /\
    sub (len p + 16) (len dst) out = sub (len p + 16) (len dst) dst /\
    OpenChaCha20Poly1305To dst' key nonce (sub 0 (len p + 16) out) ad = Ok p.
Proof.
  intros Hk Hn Hd Hd'. destruct (oneoff_ok key nonce p ad Hk Hn) as (ct & Hct & Hseal & Hopen).
  exists (over ct dst). split; [by apply Hseal|]. split; [apply over_suffix; lia|].
  replace (sub 0 (len p + 16) (over ct dst)) with ct by (unfold over; by rewrite sub_app_exact).
  by apply Hopen.
Qed.
End Chacha.

(** ** A concrete instance

    Not a cipher: it shows that the laws can hold. *)

Definition demo : Primitives := {|
  keystream k n b m := replicate (Z.to_nat m) 90;
  mac k m := replicate 16 (u8 (fold_left Z.add m 0));
  aead_seal k n p ad := p ++ replicate 16 (u8 (be_val n));
  aead_open k n c ad :=
    if bytes_eqb (sub (len c - 16) (len c) c) (replicate 16 (u8 (be_val n)))
    then Some (sub 0 (len c - 16) c) else None |}.

Lemma demo_laws : PrimitivesLaws demo.
Proof.
  constructor; cbn [keystream mac aead_seal aead_open demo]; intros.
  - len_lia.
  - apply Forall_replicate. unfold is_byte. lia.
  - done.
  - rewrite len_app. done.
  - rewrite len_app. change (len (replicate 16 (u8 (be_val n)))) with 16.
    replace (len p + 16 - 16) with (len p) by lia. sub_norm.
    unfold bytes_eqb. rewrite bool_decide_true; [done|].
    replace (len p - len p) with 0 by lia. apply sub_all.
    change (len (replicate 16 (u8 (be_val n)))) with 16. lia.
Qed.

