(* ===== verification/NTCP2.v ===== *)
(** The NTCP2 data phase, [src/dataplane/internal/transport/ntcp2/frame.go] and
    [io.go]: SipHash length masking, the directional frame cipher, block
    iteration, and framing over a byte stream. *)

From S2P Require Import Prelude Wire Chacha.

Definition FrameLengthLen : Z := 2.
Definition FrameTagLen : Z := ChaChaTagSize.
Definition MinEncryptedFrame : Z := FrameTagLen.
Definition MaxEncryptedFrame : Z := Z.shiftl 1 16 - 1.
Definition MaxPlaintextFrame : Z := MaxEncryptedFrame - FrameTagLen.
Definition BlockHeaderLen : Z := 3.
Definition BlockDateTime : Z := 0.
Definition BlockTermination : Z := 4.
Definition BlockPadding : Z := 254.

(** ** SipHash-2-4 *)

Definition rotl64 (x k : Z) : Z := Z.lor (u64 (Z.shiftl x k)) (Z.shiftr x (64 - k)).

Definition sipRound (v : Z * Z * Z * Z) : Z * Z * Z * Z :=
  let '(v0, v1, v2, v3) := v in
  let v0 := u64 (v0 + v1) in
  let v1 := rotl64 v1 13 in
  let v1 := Z.lxor v1 v0 in
  let v0 := rotl64 v0 32 in
  let v2 := u64 (v2 + v3) in
  let v3 := rotl64 v3 16 in
  let v3 := Z.lxor v3 v2 in
  let v0 := u64 (v0 + v3) in
  let v3 := rotl64 v3 21 in
  let v3 := Z.lxor v3 v0 in
  let v2 := u64 (v2 + v1) in
  let v1 := rotl64 v1 17 in
  let v1 := Z.lxor v1 v2 in
  let v2 := rotl64 v2 32 in
  (v0, v1, v2, v3).

Definition sipHash24 (k0 k1 message : Z) : Z :=
  let v0 := Z.lxor 0x736f6d6570736575 k0 in
  let v1 := Z.lxor 0x646f72616e646f6d k1 in
  let v2 := Z.lxor 0x6c7967656e657261 k0 in
  let v3 := Z.lxor 0x7465646279746573 k1 in
  let v3 := Z.lxor v3 message in
  let '(v0, v1, v2, v3) := sipRound (sipRound (v0, v1, v2, v3)) in
  let v0 := Z.lxor v0 message in
  let tail := u64 (Z.shiftl 8 56) in
  let v3 := Z.lxor v3 tail in
  let '(v0, v1, v2, v3) := sipRound (sipRound (v0, v1, v2, v3)) in
  let v0 := Z.lxor v0 tail in
  let v2 := Z.lxor v2 0xff in
  let '(v0, v1, v2, v3) := sipRound (sipRound (sipRound (sipRound (v0, v1, v2, v3)))) in
  Z.lxor (Z.lxor (Z.lxor v0 v1) v2) v3.

(** The published vector for an eight-byte message. *)
Example sipHash24_vector :
  sipHash24 0x0706050403020100 0x0f0e0d0c0b0a0908 0x0706050403020100 = 0x93f5f5799a932462.
Proof. vm_compute. reflexivity. Qed.

Record SipState := mkSip { k0 : Z; k1 : Z; iv : Z }.

Definition NewSipState (key iv : bytes) : res SipState :=
  fail_if negb (len key =? 16) || negb (len iv =? 8) with ErrFrameLength ;;
  let? a := slice key 0 8 in
  let? a := le_uint 8 a in
  let? b := slice_from key 8 in
  let? b := le_uint 8 b in
  let? c := le_uint 8 iv in
  Ok (mkSip a b c).

Definition nextMask (s : SipState) : Z * SipState :=
  let iv := sipHash24 (k0 s) (k1 s) (iv s) in
  (u16 iv, mkSip (k0 s) (k1 s) iv).

(** ** One direction of a session *)

Section Direction.
Context `{P : Primitives}.

(** The nonce buffer is rebuilt from [nonce] before every use; its first four
    bytes stay zero.  [None] is a nil cipher. *)
Record Direction := mkDirection {
  cipher : option ChaCha20Poly1305; sip : SipState; nonce : Z; released : bool }.

Definition NewDirection (chachaKey sipKey sipIV : bytes) : res Direction :=
  let? cipher := NewChaCha20Poly1305 chachaKey in
  let? sip := NewSipState sipKey sipIV in
  Ok (mkDirection (Some cipher) sip 0 false).

Definition ReleaseDirection (d : Direction) : Direction :=
  if released d then d else mkDirection None (mkSip 0 0 0) 0 true.

Definition nonceBuf (n : Z) : bytes := make_bytes 4 ++ le_bytes 8 n.

Definition set_sip (s : SipState) (d : Direction) : Direction :=
  mkDirection (cipher d) s (nonce d) (released d).
Definition bump (d : Direction) : Direction :=
  mkDirection (cipher d) (sip d) (u64 (nonce d + 1)) (released d).

(** The methods of a nil cipher return [ErrSensitiveReleased]. *)
Definition cipherSeal (c : option ChaCha20Poly1305) (dst n p : bytes) : res bytes :=
  match c with None => Err ErrSensitiveReleased | Some c => SealTo c dst n p [] end.
Definition cipherOpen (c : option ChaCha20Poly1305) (dst n ct : bytes) : res bytes :=
  match c with None => Err ErrSensitiveReleased | Some c => OpenTo c dst n ct [] end.

(** [SealTo]: [dst] after the call and the length of the frame in it. *)
Definition DirectionSealTo (dst plaintext : bytes) : go Direction (bytes * Z) :=
  let! d := get in
  if released d then fail ErrSensitiveReleased
  else if len plaintext >? MaxPlaintextFrame then fail ErrFrameTooLarge
  else if nonce d >=? 2 ^ 64 - 1 - 1 then fail ErrNonceExhausted
  else
    let frameLen := len plaintext + FrameTagLen in
    if len dst <? FrameLengthLen + frameLen then fail ErrShortBuffer
    else
      let! region := lift (slice dst FrameLengthLen (FrameLengthLen + frameLen)) in
      let! region := lift (cipherSeal (cipher d) region (nonceBuf (nonce d)) plaintext) in
      let! dst := lift (write dst FrameLengthLen region) in
      let (mask, sip') := nextMask (sip d) in
      let! _ := put (set_sip sip' d) in
      let! dst := lift (write dst 0 (be_bytes 2 (Z.lxor (u16 frameLen) mask))) in
      let! _ := put (bump (set_sip sip' d)) in
      ret (dst, FrameLengthLen + frameLen).

Definition DirectionOpenTo (dst input : bytes) : go Direction bytes :=
  let! d := get in
  if released d then fail ErrSensitiveReleased
  else if len input <? FrameLengthLen then fail ErrShortBuffer
  else
    let! b := lift (slice input 0 FrameLengthLen) in
    let! v := lift (be_uint 2 b) in
    let (mask, sip') := nextMask (sip d) in
    let! _ := put (set_sip sip' d) in
    let frameLen := Z.lxor v mask in
    if (frameLen <? MinEncryptedFrame) || (frameLen >? MaxEncryptedFrame) then fail ErrFrameLength
    else if negb (len input - FrameLengthLen =? frameLen) then fail ErrShortBuffer
    else if nonce d >=? 2 ^ 64 - 1 - 1 then fail ErrNonceExhausted
    else
      let! ct := lift (slice_from input FrameLengthLen) in
      let! plain := lift (cipherOpen (cipher d) dst (nonceBuf (nonce d)) ct) in
      let! _ := put (bump (set_sip sip' d)) in
      ret plain.

(** ** Framing over a byte stream *)

(** [io.ReadFull] on a connection: [None] when the stream ends early. *)
Definition readFull (n : Z) (stream : bytes) : option bytes * bytes :=
  if n <=? len stream then (Some (sub 0 n stream), sub n (len stream) stream) else (None, []).

(** [ReadFrame]; the state is the direction and the unread stream.  Acquiring
    the temporary buffer never fails for a frame length. *)
Definition ReadFrame (dst : bytes) : go (Direction * bytes) bytes :=
  fun s =>
    let (d, stream) := s in
    match readFull FrameLengthLen stream with
    | (None, stream) => (Err ErrRead, (d, stream))
    | (Some header, stream) =>
        let (mask, sip') := nextMask (sip d) in
        let d := set_sip sip' d in
        match header with
        | [h0; h1] =>
            let frameLen := Z.lxor (Z.lor (u16 (Z.shiftl h0 8)) h1) mask in
            if (frameLen <? MinEncryptedFrame) || (frameLen >? MaxEncryptedFrame)
            then (Err ErrFrameLength, (d, stream))
            else if len dst <? frameLen - FrameTagLen then (Err ErrShortBuffer, (d, stream))
            else if nonce d >=? 2 ^ 64 - 1 - 1 then (Err ErrNonceExhausted, (d, stream))
            else
              match readFull frameLen stream with
              | (None, stream) => (Err ErrRead, (d, stream))
              | (Some encrypted, stream) =>
                  match cipherOpen (cipher d) dst (nonceBuf (nonce d)) encrypted with
                  | Ok plaintext => (Ok plaintext, (bump d, stream))
                  | Err e => (Err e, (d, stream))
                  | Panic => (Panic, (d, stream))
                  end
              end
        | _ => (Panic, (d, stream))
        end
    end.

(** [WriteFrame] to a connection that takes every byte: the frame appended to
    the stream.  The pooled buffer has exactly the frame's length. *)
Definition WriteFrame (plaintext : bytes) : go (Direction * bytes) unit :=
  fun s =>
    let (d, stream) := s in
    if len plaintext >? MaxPlaintextFrame then (Err ErrFrameTooLarge, s)
    else
      let frame := make_bytes (FrameLengthLen + (len plaintext + FrameTagLen)) in
      match DirectionSealTo frame plaintext d with
      | (Ok (encoded, _), d) => (Ok tt, (d, stream ++ encoded))
      | (Err e, d) => (Err e, (d, stream))
      | (Panic, d) => (Panic, (d, stream))
      end.
End Direction.

(** ** Blocks *)

Record Block := mkBlock { BType : Z; BData : bytes }.

Record BlockIterator := mkIterator { rest : bytes; terminated : bool; padded : bool }.

Definition NewBlockIterator (plaintext : bytes) : BlockIterator := mkIterator plaintext false false.

Definition NextBlock : go BlockIterator (option Block) :=
  let! it := get in
  if len (rest it) =? 0 then ret None
  else
    let! kind := lift (index (rest it) 0) in
    if padded it || (terminated it && negb (kind =? BlockPadding)) then fail ErrBlockOrder
    else if len (rest it) <? BlockHeaderLen then fail ErrShortBuffer
    else
      let! b := lift (slice (rest it) 1 3) in
      let! n := lift (be_uint 2 b) in
      if n >? len (rest it) - BlockHeaderLen then fail ErrBlockLength
      else
        let! data := lift (slice (rest it) BlockHeaderLen (BlockHeaderLen + n)) in
        let! rest' := lift (slice_from (rest it) (BlockHeaderLen + n)) in
        let it' := mkIterator rest' (terminated it || (kind =? BlockTermination))
                     (padded it || (kind =? BlockPadding)) in
        let! _ := put it' in
        if padded it' && negb (len rest' =? 0) then fail ErrBlockOrder
        else if terminated it' && negb (len rest' =? 0) then
          let! first := lift (index rest' 0) in
          if negb (first =? BlockPadding) then fail ErrBlockOrder else ret (Some (mkBlock kind data))
        else ret (Some (mkBlock kind data)).

(** The loop of [ValidateBlocks]; every block takes at least three bytes, so
    the length of the plaintext bounds the iterations. *)
Fixpoint validateLoop (fuel : nat) (it : BlockIterator) : res unit :=
  match fuel with
  | O => Panic
  | S fuel =>
      match NextBlock it with
      | (Panic, _) => Panic
      | (Err e, _) => Err e
      | (Ok None, _) => Ok tt
      | (Ok (Some block), it) =>
          if (BType block =? BlockDateTime) && negb (len (BData block) =? 4) then Err ErrBlockLength
          else validateLoop fuel it
      end
  end.

Definition ValidateBlocks (plaintext : bytes) : res unit :=
  validateLoop (S (length plaintext)) (NewBlockIterator plaintext).
Section Lockstep.
Context `{P : Primitives} {L : PrimitivesLaws P}.

(** A live direction: the key is there and the nonce within range. *)
Definition live (d : Direction) : Prop :=
  released d = false /\ (exists c, cipher d = Some c /\ creleased c = false) /\ 0 <= nonce d < 2 ^ 64 - 2.

(** The direction after one frame. *)
Definition next (d : Direction) : Direction := bump (set_sip (nextMask (sip d)).2 d).

(** The frame of [p] in state [d]. *)
Definition frame (d : Direction) (p : bytes) : bytes :=
  be_bytes 2 (Z.lxor (len p + 16) (nextMask (sip d)).1) ++
  match cipher d with Some c => aead_seal (ckey c) (nonceBuf (nonce d)) p [] | None => [] end.

Lemma len_nonceBuf n : len (nonceBuf n) = 12.
Proof. unfold nonceBuf. len_lia. Qed.

Lemma mask_bound s : 0 <= (nextMask s).1 < 2 ^ 16.
Proof. unfold nextMask, u16. cbn [fst]. apply Z.mod_pos_bound. lia. Qed.

Lemma len_sealed_frame d p : live d -> len (frame d p) = len p + 18.
Proof.
  intros (_ & (c & Hc & _) & _). unfold frame. rewrite Hc, len_app, len_aead_seal, len_be_bytes. lia.
Qed.

Ltac ntcp2_consts :=
  unfold FrameLengthLen, FrameTagLen, MinEncryptedFrame, MaxPlaintextFrame, MaxEncryptedFrame, FrameTagLen, ChaChaTagSize;
  change (Z.shiftl 1 16 - 1) with 65535.

Lemma seal_frame d dst p :
  live d -> len p <= MaxPlaintextFrame -> len p + 18 <= len dst ->
  DirectionSealTo dst p d = (Ok (over (frame d p) dst, len p + 18), next d).
Proof.
  intros Hlive Hp Hd. pose proof (len_sealed_frame d p Hlive) as Hfl. destruct Hlive as (Hr & (c & Hc & Hcr) & Hn).
  unfold DirectionSealTo. revert Hp. ntcp2_consts. intros Hp. go_unfold. rewrite Hr. zbool.
  pose proof (len_nonneg p). rewrite slice_ok by lia. unfold cipherSeal. rewrite Hc.
  rewrite SealTo_ok by (done || apply len_nonceBuf || len_lia).
  pose proof (mask_bound (sip d)) as Hm. unfold next, frame in *. rewrite Hc in *.
  destruct (nextMask (sip d)) as [mask sip']. cbn [fst snd] in *.
  set (ct := aead_seal (ckey c) (nonceBuf (nonce d)) p []) in *.
  assert (Hct : len ct = len p + 16) by apply len_aead_seal.
  unfold over at 1. rewrite len_sub, (sub_empty _ (len ct)), app_nil_r by lia.
  unfold u16. rewrite Z.mod_small by lia.
  rewrite <- (sub_split_at dst 2) at 1 by lia. rewrite write_app by len_lia.
  rewrite write_prefix by len_lia. replace (2 + (len p + 16)) with (len p + 18) by lia.
  unfold over. rewrite <- app_assoc. len_simpl. rewrite sub_sub by lia. repeat f_equal; lia.
Qed.

Lemma open_frame d dst p :
  live d -> len p <= MaxPlaintextFrame -> len p <= len dst ->
  DirectionOpenTo dst (frame d p) d = (Ok p, next d).
Proof.
  intros Hlive Hp Hd. pose proof (len_sealed_frame d p Hlive) as Hfl. destruct Hlive as (Hr & (c & Hc & Hcr) & Hn).
  unfold DirectionOpenTo. revert Hp. ntcp2_consts. intros Hp. go_unfold. rewrite Hr.
  pose proof (mask_bound (sip d)) as Hm. unfold next, frame in *. rewrite Hc in *.
  destruct (nextMask (sip d)) as [mask sip']. cbn [fst snd] in *.
  set (ct := aead_seal (ckey c) (nonceBuf (nonce d)) p []) in *.
  assert (Hct : len ct = len p + 16) by apply len_aead_seal. pose proof (len_nonneg p).
  pose proof (lxor_bound (len p + 16) mask 16 ltac:(lia) ltac:(lia) Hm) as Hx.
  go_eval. rewrite lxor_cancel. go_eval. unfold cipherOpen. subst ct. rewrite OpenTo_ok by (done || apply len_nonceBuf).
  done.
Qed.

Lemma be2_bytes v : 0 <= v < 2 ^ 16 ->
  exists h0 h1, be_bytes 2 v = [h0; h1] /\ Z.lor (u16 (Z.shiftl h0 8)) h1 = v.
Proof.
  intros Hv. pose proof (len_be_bytes 2 v) as Hl. pose proof (bytes_ok_be 2 v) as Hok.
  pose proof (be_val_small 2 v ltac:(lia)) as Hval.
  destruct (be_bytes 2 v) as [|h0 [|h1 [|h2 l]]]; [done|done| |rewrite !len_cons in Hl; len_pos; lia].
  exists h0, h1. split; [done|].
  apply Forall_cons in Hok as [H0 Hok]. apply Forall_cons in Hok as [H1 _]. unfold is_byte in *.
  rewrite !be_val_cons in Hval. change (len [h1]) with 1 in Hval. change (len []) with 0 in Hval.
  change (be_val []) with 0 in Hval. unfold u16. rewrite Z.mod_small.
  - rewrite lor_shiftl by lia. lia.
  - rewrite Z.shiftl_mul_pow2 by lia. lia.
Qed.

Lemma read_frame d dst p rest :
  live d -> len p <= MaxPlaintextFrame -> len p <= len dst ->
  ReadFrame dst (d, frame d p ++ rest) = (Ok p, (next d, rest)).
Proof.
  intros Hlive Hp Hd. pose proof (len_sealed_frame d p Hlive) as Hfl. destruct Hlive as (Hr & (c & Hc & Hcr) & Hn).
  unfold ReadFrame, readFull. revert Hp. ntcp2_consts. intros Hp.
  pose proof (mask_bound (sip d)) as Hm. unfold next, frame in *. rewrite Hc in *.
  destruct (nextMask (sip d)) as [mask sip']. cbn [fst snd] in *.
  set (ct := aead_seal (ckey c) (nonceBuf (nonce d)) p []) in *.
  assert (Hct : len ct = len p + 16) by apply len_aead_seal. pose proof (len_nonneg p).
  pose proof (lxor_bound (len p + 16) mask 16 ltac:(lia) ltac:(lia) Hm) as Hx.
  set (v := Z.lxor (len p + 16) mask) in *. rewrite <- app_assoc. zbool. sub_norm.
  destruct (be2_bytes v) as (h0 & h1 & Hbe & Hv); [lia|]. rewrite Hbe, Hv. subst v. rewrite lxor_cancel.
  cbn [nonce set_sip cipher]. zbool. sub_norm. rewrite Hc. unfold cipherOpen. subst ct.
  rewrite OpenTo_ok by (done || apply len_nonceBuf). done.
Qed.

Lemma next_live d : live d -> nonce d + 1 < 2 ^ 64 - 2 -> live (next d).
Proof.
  intros (Hr & Hc & Hn) Hlt. unfold live, next, bump, set_sip. cbn [released cipher nonce].
  unfold u64. rewrite Z.mod_small by lia. split_and!; [done|done|lia|lia].
Qed.

Lemma nonce_next d : live d -> nonce (next d) = nonce d + 1.
Proof. intros (_ & _ & Hn). unfold next, bump, set_sip, u64. cbn [nonce]. apply Z.mod_small. lia. Qed.

(** Writing and reading a list of frames. *)
Fixpoint writeAll (ps : list bytes) : go (Direction * bytes) unit :=
  match ps with [] => ret tt | p :: ps => let! _ := WriteFrame p in writeAll ps end.

Fixpoint readAll (dst : bytes) (n : nat) : go (Direction * bytes) (list bytes) :=
  match n with
  | O => ret []
  | S n => let! p := ReadFrame dst in let! ps := readAll dst n in ret (p :: ps)
  end.

Lemma write_frame d p stream :
  live d -> len p <= MaxPlaintextFrame ->
  WriteFrame p (d, stream) = (Ok tt, (next d, stream ++ frame d p)).
Proof.
  intros Hlive Hp. unfold WriteFrame. zbool. pose proof (len_nonneg p).
  rewrite seal_frame; [|done|done|unfold FrameLengthLen, FrameTagLen, ChaChaTagSize; len_lia].
  pose proof (len_sealed_frame d p Hlive). do 4 f_equal. unfold over.
  rewrite sub_empty, app_nil_r; [done|]. unfold FrameLengthLen, FrameTagLen, ChaChaTagSize. len_lia.
Qed.

(** Writer and reader in lockstep over a list of frames. *)
Lemma stream_ok ps d dst stream rest :
  live d -> Forall (fun p => len p <= MaxPlaintextFrame) ps -> MaxPlaintextFrame <= len dst ->
  nonce d + len ps < 2 ^ 64 - 2 ->
  exists d' frames,
    writeAll ps (d, stream) = (Ok tt, (d', stream ++ frames)) /\
    readAll dst (length ps) (d, frames ++ rest) = (Ok ps, (d', rest)).
Proof.
  revert d stream. induction ps as [|p ps IH]; intros d stream Hlive Hall Hdst Hn.
  { exists d, []. rewrite app_nil_r. done. }
  apply Forall_cons in Hall as [Hp Hall]. rewrite len_cons in Hn. len_pos.
  destruct (IH (next d) (stream ++ frame d p)) as (d' & frames & Hw & Hr);
    [apply next_live; [done|lia]|done|done|rewrite nonce_next by done; lia|].
  exists d', (frame d p ++ frames). cbn [writeAll readAll length]. unfold gbind.
  rewrite write_frame by done. rewrite Hw, <- !app_assoc, read_frame by (done || lia). rewrite Hr. done.
Qed.

(** an NTCP2 session is a reliable sequence of frames.  A sender and a
    receiver that leave the handshake in the same state stay in lockstep: every
    plaintext of legal size written to the stream is read back, in order, with
    nothing left over, and both ends reach the same cipher, mask and nonce
    state, until the nonces run out. *)
Theorem session_stream ps d dst stream rest :
  live d -> Forall (fun p => len p <= MaxPlaintextFrame) ps -> MaxPlaintextFrame <= len dst ->
  nonce d + len ps < 2 ^ 64 - 2 ->
  exists d' frames,
    writeAll ps (d, stream) = (Ok tt, (d', stream ++ frames)) /\
    readAll dst (length ps) (d, frames ++ rest) = (Ok ps, (d', rest)).
Proof. apply stream_ok. Qed.

(** ** Nonces *)

(** What is done with the sending direction of a session. *)
Inductive sending := Seal (dst plaintext : bytes) | Release.

(** A history of them, in any order and with any outcome: the plaintexts that
    were sealed, with their frames, and the direction after it. *)
Fixpoint sendAll (ops : list sending) (d : Direction) : list (bytes * bytes) * Direction :=
  match ops with
  | [] => ([], d)
  | Release :: ops => sendAll ops (ReleaseDirection d)
  | Seal dst p :: ops =>
      match DirectionSealTo dst p d with
      | (Ok (out, n), d') => let (frames, last) := sendAll ops d' in ((p, sub 0 n out) :: frames, last)
      | (_, d') => sendAll ops d'
      end
  end.

(** A frame whose ciphertext, behind the length, is [p] sealed under [n]. *)
Definition sealed_under (key n : bytes) (pf : bytes * bytes) : Prop :=
  drop 2 pf.2 = aead_seal key n pf.1 [].

(** A call that succeeds leaves the frame of the state it started from. *)
Lemma seal_inv d dst p c out n d' :
  cipher d = Some c -> 0 <= nonce d -> DirectionSealTo dst p d = (Ok (out, n), d') ->
  live d /\ d' = next d /\ sub 0 n out = frame d p.
Proof.
  intros Hc Hn Hs.
  assert (live d /\ len p <= MaxPlaintextFrame /\ len p + 18 <= len dst) as (Hlive & Hp & Hd).
  { revert Hs. unfold DirectionSealTo, FrameLengthLen, FrameTagLen, ChaChaTagSize. go_unfold. unfold live.
    destruct (released d); [done|]. destruct (_ >? MaxPlaintextFrame) eqn:E1; [done|].
    destruct (nonce d >=? 2 ^ 64 - 1 - 1) eqn:E2; [done|]. destruct (_ <? _) eqn:E3; [done|].
    destruct (slice _ _ _); [|done..]. unfold cipherSeal, SealTo. rewrite Hc. destruct (creleased c) eqn:Er; [done|].
    intros _. split_and!; try done; try lia. by exists c. }
  rewrite seal_frame in Hs by done. injection Hs as <- <- <-. split; [done|]. split; [done|].
  rewrite <- (len_sealed_frame d p Hlive). unfold over. by apply sub_app_exact.
Qed.

(** One that fails leaves the key and the nonce. *)
Lemma seal_fails d dst p r d' :
  DirectionSealTo dst p d = (r, d') -> (forall x, r <> Ok x) ->
  cipher d' = cipher d /\ nonce d' = nonce d /\ released d' = released d.
Proof.
  unfold DirectionSealTo. go_unfold. intros Hs Hr. revert Hs.
  destruct (released d) eqn:E; [by intros [= <- <-]|]. destruct (_ >? MaxPlaintextFrame); [by intros [= <- <-]|].
  destruct (nonce d >=? 2 ^ 64 - 1 - 1); [by intros [= <- <-]|]. destruct (_ <? _); [by intros [= <- <-]|].
  destruct (slice _ _ _); [|by intros [= <- <-]..]. destruct (cipherSeal _ _ _ _); [|by intros [= <- <-]..].
  destruct (write _ _ _); [|by intros [= <- <-]..]. destruct (nextMask (sip d)).
  destruct (write _ _ _); intros [= <- <-]; [by destruct (Hr _ eq_refl)|done..].
Qed.

Lemma sendAll_released ops : forall d, released d = true -> (sendAll ops d).1 = [].
Proof.
  induction ops as [|[dst p|] ops IH]; intros d Hr; [done| |].
  - cbn [sendAll]. replace (DirectionSealTo dst p d) with (@Err (bytes * Z) ErrSensitiveReleased, d); [by apply IH|].
    unfold DirectionSealTo. go_unfold. by rewrite Hr.
  - cbn [sendAll]. unfold ReleaseDirection. rewrite Hr. by apply IH.
Qed.

Lemma sendAll_nonces ops c : forall d,
  cipher d = Some c -> 0 <= nonce d ->
  let frames := (sendAll ops d).1 in
  (frames = [] \/ nonce d + len frames <= 2 ^ 64 - 2) /\
  Forall2 (sealed_under (ckey c)) (nonceBuf <$> seqZ (nonce d) (len frames)) frames.
Proof.
  induction ops as [|[dst p|] ops IH]; intros d Hc Hn; cbn [sendAll]; [by split; [left|constructor]| |].
  - destruct (DirectionSealTo dst p d) as [[[out n]|e|] d'] eqn:E.
    + destruct (seal_inv d dst p c out n d' Hc Hn E) as (Hlive & -> & ->).
      pose proof (nonce_next d Hlive) as Hnn. pose proof Hlive as (_ & _ & Hb).
      specialize (IH (next d)). rewrite Hnn in IH. destruct IH as [Hlim Hall]; [done|lia|].
      destruct (sendAll ops (next d)) as [fs last]. cbn [fst snd] in *. rewrite len_cons.
      split; [right; destruct Hlim as [->|]; [change (len (@nil (bytes * bytes))) with 0|]; lia|].
      rewrite seqZ_cons by (len_pos; lia). replace (Z.succ (nonce d)) with (nonce d + 1) by lia.
      replace (Z.pred (1 + len fs)) with (len fs) by lia. cbn [fmap list_fmap]. constructor; [|done].
      unfold sealed_under, frame. cbn [fst snd]. rewrite Hc. apply drop_app_length'.
      pose proof (len_be_bytes 2 (Z.lxor (len p + 16) (nextMask (sip d)).1)). unfold len in *. lia.
    + destruct (seal_fails _ _ _ _ _ E) as (Hc' & Hn' & _); [done|]. rewrite <- Hn'. apply IH; congruence || lia.
    + destruct (seal_fails _ _ _ _ _ E) as (Hc' & Hn' & _); [done|]. rewrite <- Hn'. apply IH; congruence || lia.
  - unfold ReleaseDirection. destruct (released d); [by apply IH|].
    rewrite sendAll_released by done. by split; [left|constructor].
Qed.

Lemma nonceBuf_inj a b : 0 <= a < 2 ^ 64 -> 0 <= b < 2 ^ 64 -> nonceBuf a = nonceBuf b -> a = b.
Proof.
  intros Ha Hb H. unfold nonceBuf in H. apply app_inv_head in H.
  rewrite <- (le_val_small 8 a), <- (le_val_small 8 b) by lia. by rewrite H.
Qed.

(** C18: no nonce is used twice under a direction's key.  Whatever is sealed and
    whenever the direction is released, the ciphertext of the k-th frame it
    emits is the AEAD's of its plaintext under the k-th of a list of pairwise
    different 96-bit nonces. *)
Theorem nonces_never_repeat ops c d :
  cipher d = Some c -> 0 <= nonce d ->
  let frames := (sendAll ops d).1 in
  let nonces := nonceBuf <$> seqZ (nonce d) (len frames) in
  NoDup nonces /\ Forall (fun n => len n = ChaChaNonceSize) nonces /\ Forall2 (sealed_under (ckey c)) nonces frames.
Proof.
  intros Hc Hn. destruct (sendAll_nonces ops c d Hc Hn) as [Hlim Hall]. cbv zeta in *.
  set (frames := (sendAll ops d).1) in *. split; [|split; [|done]].
  - destruct Hlim as [->|Hlim]; [constructor|]. apply NoDup_fmap_2_strong; [|apply NoDup_seqZ].
    intros x y Hx%elem_of_seqZ Hy%elem_of_seqZ. apply nonceBuf_inj; lia.
  - apply Forall_fmap, Forall_forall. intros n _. apply len_nonceBuf.
Qed.
End Lockstep.

(** ** The block grammar *)

Definition block_wire (b : Block) : bytes := [BType b] ++ be_bytes 2 (len (BData b)) ++ BData b.
Definition wires (bs : list Block) : bytes := concat (block_wire <$> bs).

Definition block_ok (b : Block) : Prop := is_byte (BType b) /\ len (BData b) < 2 ^ 16 /\ bytes_ok (BData b).

(** Padding comes last; after a termination block only padding may follow. *)
Fixpoint ordered (term : bool) (bs : list Block) : bool :=
  match bs with
  | [] => true
  | b :: bs =>
      if BType b =? BlockPadding then match bs with [] => true | _ => false end
      else negb term && ordered (BType b =? BlockTermination) bs
  end.

Definition datetime_ok (b : Block) : Prop := BType b = BlockDateTime -> len (BData b) = 4.

Definition grammar (term : bool) (plaintext : bytes) : Prop :=
  exists bs, plaintext = wires bs /\ Forall (fun b => block_ok b /\ datetime_ok b) bs /\ ordered term bs = true.

Lemma NextBlock_wire b bs term :
  block_ok b -> ordered term (b :: bs) = true ->
  NextBlock (mkIterator (wires (b :: bs)) term false) =
    (Ok (Some b), mkIterator (wires bs) (term || (BType b =? BlockTermination)) (BType b =? BlockPadding)).
Proof.
  intros (Ht & Hd & _) Hord. change (wires (b :: bs)) with (block_wire b ++ wires bs).
  destruct b as [kind data]. unfold block_wire. cbn [BType BData] in *. len_pos.
  unfold NextBlock. go_unfold. cbn [rest terminated padded]. rewrite <- !app_assoc.
  unfold BlockHeaderLen. go_eval. cbn [orb].
  replace (len ([kind] ++ be_bytes 2 (len data) ++ data ++ wires bs) - (3 + len data)) with (len (wires bs))
    by len_lia.
  cbn [ordered BType] in Hord. unfold BlockPadding, BlockTermination in *. destruct (kind =? 254) eqn:E1.
  - destruct bs; [|done]. change (len (wires [])) with 0. cbn [Z.eqb negb]. rewrite !andb_false_r.
    by destruct term, (kind =? 4).
  - apply andb_prop in Hord as [Hterm Hord]. destruct term; [done|]. cbn [andb orb negb].
    destruct (kind =? 4) eqn:E2; [|done]. destruct bs as [|[k' d'] bs]; [done|].
    cbn [ordered BType] in Hord. unfold BlockPadding in Hord. destruct (k' =? 254) eqn:E3; [|done].
    change (wires (mkBlock k' d' :: bs)) with ((block_wire (mkBlock k' d')) ++ wires bs).
    unfold block_wire. cbn [BType BData]. len_pos. zbool. change (index (([k'] ++ be_bytes 2 (len d') ++ d') ++ wires bs) 0) with (Ok k').
    cbv iota beta. by rewrite E3.
Qed.

Ltac nb_finish :=
  match goal with
  | Hok : bytes_ok ?l, Hb : 0 <= ?x < 256, Hx : index ?l 0 = Ok ?x |- _ =>
      unfold block_ok, block_wire, is_byte; cbn [BType BData];
      split_and!; try done; try len_lia; try (by apply bytes_ok_sub);
      try (intros; apply len_zero_nil; len_lia);
      try (rewrite <- (index_one l 0 1 x Hx) by lia; len_simpl;
           match goal with |- context [be_bytes 2 ?e] =>
             match e with context [be_val ?s] => replace e with (be_val s) by lia end end;
           rewrite <- ?app_assoc; sub_join; symmetry; apply sub_all; lia)
  end.

Lemma NextBlock_sound l term b it :
  bytes_ok l -> NextBlock (mkIterator l term false) = (Ok (Some b), it) ->
  block_ok b /\ l = block_wire b ++ rest it /\ terminated it = (term || (BType b =? BlockTermination)) /\
  padded it = (BType b =? BlockPadding) /\ (term = true -> BType b = BlockPadding) /\
  (padded it = true -> rest it = []).
Proof.
  intros Hok. unfold NextBlock, BlockHeaderLen. go_unfold. cbn [rest terminated padded orb].
  go_run; intros; simplify_eq; cbn [BType BData rest terminated padded] in *; be_uppers.
  all: nb_finish.
  all: intros ->; unfold BlockPadding in *; lia.
Qed.

Lemma NextBlock_returns it : bytes_ok (rest it) -> (NextBlock it).1 <> Panic.
Proof.
  intros Hok. destruct it as [l term pad]. unfold NextBlock, BlockHeaderLen. go_unfold.
  cbn [rest terminated padded] in *. go_run; done.
Qed.

Lemma wires_nil bs : wires bs = [] -> bs = [].
Proof. by destruct bs. Qed.

Lemma validate_complete bs : forall fuel term,
  Forall (fun b => block_ok b /\ datetime_ok b) bs -> ordered term bs = true -> (length bs < fuel)%nat ->
  forall pad, (pad = true -> bs = []) -> validateLoop fuel (mkIterator (wires bs) term pad) = Ok tt.
Proof.
  induction bs as [|b bs IH]; intros [|fuel] term Hall Hord Hf pad Hpad; cbn [length] in Hf; try lia; [done|].
  destruct pad; [by specialize (Hpad eq_refl)|].
  apply Forall_cons in Hall as [[Hb Hdt] Hall]. cbn [validateLoop]. rewrite NextBlock_wire by done.
  replace ((BType b =? BlockDateTime) && negb (len (BData b) =? 4)) with false.
  2:{ destruct (Z.eqb_spec (BType b) BlockDateTime) as [E|]; [|done]. by rewrite (Hdt E). }
  cbn [ordered] in Hord. destruct (BType b =? BlockPadding).
  - destruct bs; [|done]. apply IH; done || lia.
  - apply andb_prop in Hord as [Ht Hord]. destruct term; [done|]. apply IH; done || lia.
Qed.

Lemma validate_sound fuel : forall l term pad,
  bytes_ok l -> (pad = true -> l = []) -> validateLoop fuel (mkIterator l term pad) = Ok tt -> grammar term l.
Proof.
  induction fuel as [|fuel IH]; intros l term pad Hok Hpad Hv; [done|].
  destruct pad.
  { rewrite Hpad by done. exists []. done. }
  cbn [validateLoop] in Hv. destruct (NextBlock (mkIterator l term false)) as [[[b|]| |] it] eqn:E; try done.
  - destruct (NextBlock_sound l term b it Hok E) as (Hb & -> & Ht & Hp & Hterm & Hlast).
    destruct (_ && _) eqn:Hdt; [done|]. destruct it as [l' t' p']. cbn [rest terminated padded] in *. subst t' p'.
    apply bytes_ok_app in Hok as [_ Hok'].
    destruct (IH l' _ _ Hok' Hlast Hv) as (bs & -> & Hall & Hord).
    exists (b :: bs). split; [done|]. split.
    + constructor; [|done]. split; [done|]. intros Ed. rewrite Ed in Hdt. cbn in Hdt. lia.
    + cbn [ordered]. destruct (BType b =? BlockPadding) eqn:Epad.
      * specialize (Hlast eq_refl). by apply wires_nil in Hlast as ->.
      * destruct term; [specialize (Hterm eq_refl); lia|]. done.
  - revert E. unfold NextBlock. go_unfold. cbn [rest terminated padded orb]. unfold BlockHeaderLen.
    go_run; intros; simplify_eq. exists []. split; [|done]. apply len_zero_nil. lia.
Qed.

Lemma length_le_blocks bs : (length bs <= length (wires bs))%nat.
Proof.
  induction bs as [|b bs IH]; [done|]. change (wires (b :: bs)) with (block_wire b ++ wires bs).
  unfold block_wire. rewrite !length_app. cbn [length]. lia.
Qed.

Lemma validate_returns fuel : forall it,
  bytes_ok (rest it) -> len (rest it) < Z.of_nat fuel -> validateLoop fuel it <> Panic.
Proof.
  induction fuel as [|fuel IH]; intros it Hok Hf; [len_pos; lia|]. cbn [validateLoop].
  pose proof (NextBlock_returns it Hok) as Hr. destruct (NextBlock it) as [[[b|]| |] it'] eqn:E; try done.
  destruct (_ && _); [done|].
  assert (padded it = false) as Hp.
  { destruct it as [l t [|]]; [|done]. revert E. unfold NextBlock. go_unfold. cbn [rest terminated padded orb].
    go_run; intros; simplify_eq. }
  destruct it as [l t p]. cbn [padded] in Hp. subst p. cbn [rest] in *.
  destruct (NextBlock_sound l t b it' Hok E) as (_ & -> & _). apply bytes_ok_app in Hok as [_ Hok'].
  apply IH; [done|]. revert Hf. unfold block_wire. len_simpl. len_pos. lia.
Qed.

(** [ValidateBlocks] decides the block grammar of a frame, on any input and
    without panicking: it accepts a plaintext exactly when it is a sequence of
    complete blocks in which padding comes last, only padding follows a
    termination, and every DateTime block has four bytes. *)
Theorem ValidateBlocks_exact plaintext :
  bytes_ok plaintext ->
  ValidateBlocks plaintext <> Panic /\ (ValidateBlocks plaintext = Ok tt <-> grammar false plaintext).
Proof.
  intros Hok. unfold ValidateBlocks, NewBlockIterator. split.
  - apply validate_returns; [done|]. cbn [rest]. unfold len. lia.
  - split; [by apply validate_sound|]. intros (bs & -> & Hall & Hord). apply validate_complete; try done.
    pose proof (length_le_blocks bs). lia.
Qed.

Definition sample_direction : Direction :=
  mkDirection (Some (mkCipher (make_bytes 32) false)) (mkSip 1 2 3) 0 false.

Lemma sample_live : live sample_direction.
Proof. split_and!; [done|by exists (mkCipher (make_bytes 32) false)|cbn; lia|cbn; lia]. Qed.

(** Two frames, a refused one between them, and one after the release. *)
Lemma nonces_never_repeat_witness :
  let ops := [Seal (make_bytes 20) [1]; Seal [] [2]; Seal (make_bytes 20) [1]; Release; Seal (make_bytes 20) [1]] in
  exists f1 f2, (sendAll (P := demo) ops sample_direction).1 = [([1], f1); ([1], f2)] /\
    Forall2 (sealed_under (P := demo) (make_bytes 32)) [nonceBuf 0; nonceBuf 1] [([1], f1); ([1], f2)].
Proof.
  pose proof (nonces_never_repeat (P := demo) (L := demo_laws)
    [Seal (make_bytes 20) [1]; Seal [] [2]; Seal (make_bytes 20) [1]; Release; Seal (make_bytes 20) [1]]
    (mkCipher (make_bytes 32) false) sample_direction) as H.
  destruct H as (_ & _ & H); [reflexivity|cbn; lia|].
  do 2 eexists. split; [vm_compute; reflexivity|]. exact H.
Defined.
