(* ===== verification/Noise.v ===== *)
(** The Noise symmetric state of the NTCP2 and SSU2 handshakes,
    [src/dataplane/internal/transport/noise/state.go], with the parts of Go's
    [crypto/hmac] and [crypto/ecdh] the handshakes call.

    HMAC-SHA256 is executable; X25519 is a parameter of [crypto/ecdh] with the
    law the handshakes rely on, that both sides compute the same secret. *)

From S2P Require Import Prelude Sha256 Wire Chacha NTCP2.
From Stdlib Require Strings.String Strings.Ascii.
Import String.StringSyntax.

(** The bytes of a Go string constant. *)
Definition str (s : String.string) : bytes :=
  (fun c => Z.of_N (Ascii.N_of_ascii c)) <$> String.list_ascii_of_string s.
Arguments str s%_string_scope.

(** ** crypto/hmac *)

(** HMAC with SHA-256 (RFC 2104): the key is hashed when it is longer than a
    block and padded with zeros to it. *)
Definition hmacKey (key : bytes) : bytes :=
  let key := if len key >? 64 then Sha256.Sum256 key else key in
  key ++ make_bytes (64 - len key).

Definition hmacSHA256 (key message : bytes) : bytes :=
  let key := hmacKey key in
  let inner := Sha256.Sum256 (xor key (replicate 64 0x36) ++ message) in
  Sha256.Sum256 (xor key (replicate 64 0x5c) ++ inner).

Lemma len_hmac key message : len (hmacSHA256 key message) = 32.
Proof. apply Sha256.len_Sum256. Qed.

Lemma bytes_ok_hmac key message : bytes_ok (hmacSHA256 key message).
Proof. apply Sha256.bytes_ok_Sum256. Qed.

(** RFC 4231, test case 2: key Jefe, data "what do ya want for nothing?". *)
Example hmac_vector :
  be_val (hmacSHA256 [74; 101; 102; 101]
    [119; 104; 97; 116; 32; 100; 111; 32; 121; 97; 32; 119; 97; 110; 116; 32; 102; 111; 114; 32;
     110; 111; 116; 104; 105; 110; 103; 63]) =
  0x5bdcc146bf60754e6a042426089575c75a003f089d2739839dec58b964ec3843.
Proof. vm_compute. reflexivity. Qed.

(** ** crypto/ecdh

    A key is its 32 bytes.  [publicOf] is [PublicKey().Bytes()]; [sharedWith]
    is [ECDH], [None] when it returns an error (the all-zero result). *)
Class Curve := {
  publicOf : bytes -> bytes;
  sharedWith : bytes -> bytes -> option bytes }.

Class CurveLaws (C : Curve) : Prop := {
  len_publicOf k : len k = 32 -> len (publicOf k) = 32;
  bytes_ok_publicOf k : bytes_ok (publicOf k);
  shared_agree a b : len a = 32 -> len b = 32 -> sharedWith a (publicOf b) = sharedWith b (publicOf a);
  len_shared a b s : len a = 32 -> len b = 32 -> sharedWith a b = Some s -> len s = 32 }.

(** [NewPrivateKey] and [NewPublicKey] accept 32 bytes. *)
Definition NewPrivateKey (key : bytes) : res bytes :=
  fail_if negb (len key =? 32) with ErrECDH ;; Ok key.
Definition NewPublicKey (key : bytes) : res bytes :=
  fail_if negb (len key =? 32) with ErrECDH ;; Ok key.
Definition ecdh `{C : Curve} (private public : bytes) : res bytes :=
  match sharedWith private public with Some s => Ok s | None => Err ErrECDH end.

(** ** The symmetric state *)

Section Noise.
Context `{P : Primitives}.

(** A nil [cipher] is [None]; the methods are called on a non-nil state. *)
Record SymmetricState := mkState {
  chainingKey : bytes; hash : bytes; scipher : option ChaCha20Poly1305;
  hasKey : bool; snonce : Z; sreleased : bool }.

Definition Initialize (protocolName : bytes) : SymmetricState :=
  let h := if len protocolName <=? 32 then protocolName ++ make_bytes (32 - len protocolName)
           else Sha256.Sum256 protocolName in
  mkState h h None false 0 false.

Definition Hash (s : SymmetricState) : bytes := if sreleased s then make_bytes 32 else hash s.
Definition ChainingKey (s : SymmetricState) : bytes := if sreleased s then make_bytes 32 else chainingKey s.

Definition kdf2 (key input : bytes) : bytes * bytes :=
  let temporary := hmacSHA256 key input in
  let first := hmacSHA256 temporary [1] in
  let second := hmacSHA256 temporary (first ++ [2]) in
  (first, second).

Definition putNonce (value : Z) : bytes := make_bytes 4 ++ le_bytes 8 value.

Definition set_hash (h : bytes) (s : SymmetricState) : SymmetricState :=
  mkState (chainingKey s) h (scipher s) (hasKey s) (snonce s) (sreleased s).
Definition set_nonce (n : Z) (s : SymmetricState) : SymmetricState :=
  mkState (chainingKey s) (hash s) (scipher s) (hasKey s) n (sreleased s).

Definition MixHash (data : bytes) : go SymmetricState unit :=
  let! s := get in
  if sreleased s then fail ErrSensitiveReleased
  else put (set_hash (Sha256.Sum256 (hash s ++ data)) s).

Definition MixKey (input : bytes) : go SymmetricState unit :=
  let! s := get in
  if sreleased s then fail ErrSensitiveReleased
  else
    let (chain, key) := kdf2 (chainingKey s) input in
    let! next := lift (NewChaCha20Poly1305 key) in
    put (mkState chain (hash s) (Some next) true 0 (sreleased s)).

(** [EncryptAndHash]: [dst] after the call and the length of the ciphertext. *)
Definition EncryptAndHash (dst plaintext : bytes) : go SymmetricState (bytes * Z) :=
  let! s := get in
  if sreleased s then fail ErrSensitiveReleased
  else if negb (hasKey s) then
    if len dst <? len plaintext then fail ErrShortBuffer
    else
      let! dst := lift (copy_at dst 0 plaintext) in
      let! _ := MixHash plaintext in
      ret (dst, len plaintext)
  else if snonce s >=? 2 ^ 64 - 1 - 1 then fail Noise_ErrNonceExhausted
  else
    match scipher s with
    | None => fail ErrSensitiveReleased
    | Some c =>
        let! dst := lift (SealTo c dst (putNonce (snonce s)) plaintext (hash s)) in
        let! ciphertext := lift (slice dst 0 (len plaintext + ChaChaTagSize)) in
        let! _ := MixHash ciphertext in
        let! s := get in
        let! _ := put (set_nonce (u64 (snonce s + 1)) s) in
        ret (dst, len ciphertext)
    end.

(** The plaintext, written to the start of [dst]. *)
Definition DecryptAndHash (dst ciphertext : bytes) : go SymmetricState bytes :=
  let! s := get in
  if sreleased s then fail ErrSensitiveReleased
  else if negb (hasKey s) then
    if len dst <? len ciphertext then fail ErrShortBuffer
    else
      let! _ := MixHash ciphertext in
      ret ciphertext
  else if snonce s >=? 2 ^ 64 - 1 - 1 then fail Noise_ErrNonceExhausted
  else
    match scipher s with
    | None => fail ErrSensitiveReleased
    | Some c =>
        let! plaintext := lift (OpenTo c dst (putNonce (snonce s)) ciphertext (hash s)) in
        let! _ := MixHash ciphertext in
        let! s := get in
        let! _ := put (set_nonce (u64 (snonce s + 1)) s) in
        ret plaintext
    end.

Definition ReleaseState (s : SymmetricState) : SymmetricState :=
  if sreleased s then s else mkState (make_bytes 32) (make_bytes 32) None false 0 true.

Definition Split : go SymmetricState (ChaCha20Poly1305 * ChaCha20Poly1305) :=
  let! s := get in
  if sreleased s then fail ErrSensitiveReleased
  else
    let (firstKey, secondKey) := kdf2 (chainingKey s) [] in
    let! first := lift (NewChaCha20Poly1305 firstKey) in
    let! second := lift (NewChaCha20Poly1305 secondKey) in
    let! _ := put (ReleaseState s) in
    ret (first, second).
End Noise.

(** ** The two sides stay in step *)

Section Agreement.
Context `{P : Primitives} {L : PrimitivesLaws P}.

(** A state that has a key and nonces left. *)
Definition keyed (s : SymmetricState) (c : ChaCha20Poly1305) : Prop :=
  sreleased s = false /\ hasKey s = true /\ scipher s = Some c /\ creleased c = false /\ 0 <= snonce s < 2 ^ 64 - 2.

(** The state after a message [data], a key [input] and a sealed text [ct]. *)
Definition mixed (data : bytes) (s : SymmetricState) : SymmetricState :=
  set_hash (Sha256.Sum256 (hash s ++ data)) s.
Definition rekeyed (input : bytes) (s : SymmetricState) : SymmetricState :=
  let (chain, key) := kdf2 (chainingKey s) input in mkState chain (hash s) (Some (mkCipher key false)) true 0 (sreleased s).
Definition sealed (s : SymmetricState) (c : ChaCha20Poly1305) (p : bytes) : bytes :=
  aead_seal (ckey c) (putNonce (snonce s)) p (hash s).
Definition after (ct : bytes) (s : SymmetricState) : SymmetricState := set_nonce (snonce s + 1) (mixed ct s).

Lemma len_kdf2 key input : len (kdf2 key input).1 = 32 /\ len (kdf2 key input).2 = 32.
Proof. split; apply len_hmac. Qed.

Lemma MixHash_ok data s : sreleased s = false -> MixHash data s = (Ok tt, mixed data s).
Proof. intros H. unfold MixHash. go_unfold. by rewrite H. Qed.

Lemma MixKey_ok input s : sreleased s = false -> MixKey input s = (Ok tt, rekeyed input s).
Proof.
  intros H. unfold MixKey, rekeyed. go_unfold. rewrite H. destruct (kdf2 _ _) as [chain key] eqn:E.
  unfold NewChaCha20Poly1305. destruct (len_kdf2 (chainingKey s) input) as [_ Hk]. rewrite E in Hk. cbn [snd] in Hk.
  unfold ChaChaKeySize. rewrite Hk. done.
Qed.

Lemma rekeyed_keyed input s : sreleased s = false -> exists c, keyed (rekeyed input s) c /\ len (ckey c) = 32.
Proof.
  intros H. unfold rekeyed. destruct (kdf2 _ _) as [chain key] eqn:E. exists (mkCipher key false).
  destruct (len_kdf2 (chainingKey s) input) as [_ Hk]. rewrite E in Hk. cbn [snd] in Hk.
  split; [|done]. unfold keyed. cbn [sreleased hasKey scipher creleased snonce]. split_and!; (done || lia).
Qed.

Lemma len_putNonce n : len (putNonce n) = 12.
Proof. unfold putNonce. len_lia. Qed.

Lemma len_sealed s c p : len (sealed s c p) = len p + 16.
Proof. apply len_aead_seal. Qed.

Lemma EncryptAndHash_ok s c dst p : keyed s c -> len p + 16 <= len dst ->
  EncryptAndHash dst p s = (Ok (over (sealed s c p) dst, len p + 16), after (sealed s c p) s).
Proof.
  intros (Hr & Hk & Hc & Hcr & Hn) Hd. unfold EncryptAndHash. go_unfold. rewrite Hr, Hk, Hc. cbn [negb].
  replace (snonce s >=? 2 ^ 64 - 1 - 1) with false by lia.
  rewrite SealTo_ok by (done || apply len_putNonce). fold (sealed s c p). pose proof (len_sealed s c p) as Hl.
  unfold ChaChaTagSize. pose proof (len_nonneg p).
  rewrite slice_ok by (rewrite ?len_over; lia). 
  replace (sub 0 (len p + 16) (over (sealed s c p) dst)) with (sealed s c p) by (unfold over; by rewrite sub_app_exact).
  rewrite Hl.
  unfold MixHash. go_unfold. rewrite Hr. unfold after, mixed, u64, set_nonce, set_hash. cbn [snonce hash chainingKey scipher hasKey sreleased].
  rewrite Z.mod_small by lia. done.
Qed.

Lemma DecryptAndHash_ok s c dst p : keyed s c -> len p <= len dst ->
  DecryptAndHash dst (sealed s c p) s = (Ok p, after (sealed s c p) s).
Proof.
  intros (Hr & Hk & Hc & Hcr & Hn) Hd. unfold DecryptAndHash. go_unfold. rewrite Hr, Hk, Hc. cbn [negb].
  replace (snonce s >=? 2 ^ 64 - 1 - 1) with false by lia. unfold sealed at 1.
  rewrite OpenTo_ok by (done || apply len_putNonce). unfold MixHash. go_unfold. rewrite Hr.
  unfold after, mixed, u64, set_nonce, set_hash. cbn [snonce hash chainingKey scipher hasKey sreleased].
  rewrite Z.mod_small by lia. done.
Qed.

Lemma after_keyed s c ct : keyed s c -> snonce s < 2 ^ 64 - 3 -> keyed (after ct s) c.
Proof. intros (? & ? & ? & ? & ?) ?. unfold keyed, after, mixed. cbn. split_and!; (done || lia). Qed.

Lemma mixed_keyed s c data : keyed s c -> keyed (mixed data s) c.
Proof. intros H. exact H. Qed.
End Agreement.
