(* ===== verification/SSU2Blocks.v ===== *)
(** SSU2 payload blocks, [src/dataplane/internal/transport/ssu2]: the block
    iterator ([block.go]), the relay-tag, token and path blocks
    ([extensions.go]), peer tests ([peertest.go]), relay introductions
    ([introduction.go]) and the payload grammars of the handshake and
    out-of-session packets ([handshake.go], [token.go]).

    [netip.Addr] is modelled as the standard library documents it: no address,
    an IPv4 address, or an IPv6 address with its zone. *)

From S2P Require Import Prelude Wire.

Definition Version : Z := 2.

Definition BlockDateTime : Z := 0.
Definition BlockOptions : Z := 1.
Definition BlockRouterInfo : Z := 2.
Definition BlockI2NP : Z := 3.
Definition BlockFirstFragment : Z := 4.
Definition BlockFollowOnFragment : Z := 5.
Definition BlockTermination : Z := 6.
Definition BlockRelayRequest : Z := 7.
Definition BlockRelayResponse : Z := 8.
Definition BlockRelayIntro : Z := 9.
Definition BlockPeerTest : Z := 10.
Definition BlockAddress : Z := 13.
Definition BlockRelayTagRequest : Z := 15.
Definition BlockRelayTag : Z := 16.
Definition BlockNewToken : Z := 17.
Definition BlockPathChallenge : Z := 18.
Definition BlockPathResponse : Z := 19.
Definition BlockPadding : Z := 254.

(** ** Addresses: [net/netip] *)

Inductive Addr :=
| NoAddr
| Addr4 (b : bytes)
| Addr6 (b zone : bytes).

#[global] Instance Addr_eq_dec : EqDecision Addr.
Proof. solve_decision. Defined.

Record AddrPort := mkAddrPort { APAddr : Addr; APPort : Z }.

Definition zeroAddrPort : AddrPort := mkAddrPort NoAddr 0.

Definition AddrFromSlice (b : bytes) : option Addr :=
  if len b =? 4 then Some (Addr4 b) else if len b =? 16 then Some (Addr6 b []) else None.

Definition Is4 (a : Addr) : bool := match a with Addr4 _ => true | _ => false end.
Definition Is6 (a : Addr) : bool := match a with Addr6 _ _ => true | _ => false end.
Definition IsValid (a : AddrPort) : bool := negb (bool_decide (APAddr a = NoAddr)).

Definition mappedPrefix : bytes := make_bytes 10 ++ [255; 255].

Definition Is4In6 (a : Addr) : bool :=
  match a with Addr6 b _ => bytes_eqb (sub 0 12 b) mappedPrefix | _ => false end.

Definition IsUnspecified (a : Addr) : bool :=
  bool_decide (a = Addr4 (make_bytes 4)) || bool_decide (a = Addr6 (make_bytes 16) []).

Definition As4 (a : Addr) : res bytes :=
  match a with
  | NoAddr => Panic
  | Addr4 b => Ok b
  | Addr6 b _ => if Is4In6 a then Ok (sub 12 16 b) else Panic
  end.

Definition As16 (a : Addr) : bytes :=
  match a with
  | NoAddr => make_bytes 16
  | Addr4 b => mappedPrefix ++ b
  | Addr6 b _ => b
  end.

(** ** Relay endpoints *)

Definition validRelayEndpoint (endpoint : AddrPort) : bool :=
  let address := APAddr endpoint in
  IsValid endpoint && negb (APPort endpoint =? 0) && negb (IsUnspecified address)
  && negb (Is4In6 address) && (Is4 address || Is6 address).

Definition appendRelayEndpoint (dst : bytes) (endpoint : AddrPort) : res bytes :=
  fail_if negb (validRelayEndpoint endpoint) with ErrIntroduction ;;
  let dst := dst ++ be_bytes 2 (APPort endpoint) in
  let address := APAddr endpoint in
  if Is4 address then let? v4 := As4 address in Ok (dst ++ v4) else Ok (dst ++ As16 address).

Definition parseRelayEndpoint (data : bytes) : res AddrPort :=
  fail_if negb (len data =? 6) && negb (len data =? 18) with ErrIntroduction ;;
  let? b := slice data 0 2 in
  let? port := be_uint 2 b in
  let? rest := slice_from data 2 in
  match AddrFromSlice rest with
  | None => Err ErrIntroduction
  | Some address =>
      fail_if (port =? 0) || IsUnspecified address || Is4In6 address with ErrIntroduction ;;
      Ok (mkAddrPort address port)
  end.

(** [MarshalBlock] of [handshake.go]. *)
Definition MarshalBlock (dst : bytes) (kind : Z) (data : bytes) : res bytes :=
  fail_if len data >? 65535 with ErrPacketLength ;;
  let start := len dst in
  let dst := dst ++ make_bytes (3 + len data) in
  let? dst := write dst start [kind] in
  let? dst := write dst (start + 1) (be_bytes 2 (u16 (len data))) in
  copy_at dst (start + 3) data.

(** ** Relay tags, tokens and path probes: [extensions.go] *)

Record RelayTagRequest := mkRelayTagRequest {}.
Record RelayTag := mkRelayTag { RTTag : Z; RTExpiration : Z }.
Record NewToken := mkNewToken { NTToken : Z; NTExpiration : Z }.
Record PathChallenge := mkPathChallenge { PCData : bytes }.
Record PathResponse := mkPathResponse { PRData : bytes }.

Definition MarshalRelayTagRequestBlock (dst : bytes) (_ : RelayTagRequest) : res bytes :=
  MarshalBlock dst BlockRelayTagRequest [].

Definition ParseRelayTagRequestBlock (data : bytes) : res RelayTagRequest :=
  fail_if negb (len data =? 0) with ErrExtensionBlock ;;
  Ok mkRelayTagRequest.

Definition MarshalRelayTagBlock (dst : bytes) (relay : RelayTag) : res bytes :=
  fail_if (RTTag relay =? 0) || (RTExpiration relay =? 0) with ErrExtensionBlock ;;
  let? data := write (make_bytes 8) 0 (be_bytes 4 (RTTag relay)) in
  let? data := write data 4 (be_bytes 4 (RTExpiration relay)) in
  MarshalBlock dst BlockRelayTag data.

Definition ParseRelayTagBlock (data : bytes) : res RelayTag :=
  fail_if negb (len data =? 8) with ErrExtensionBlock ;;
  let? a := slice data 0 4 in
  let? tag := be_uint 4 a in
  let? b := slice_from data 4 in
  let? expiration := be_uint 4 b in
  fail_if (tag =? 0) || (expiration =? 0) with ErrExtensionBlock ;;
  Ok (mkRelayTag tag expiration).

Definition MarshalNewTokenBlock (dst : bytes) (token : NewToken) : res bytes :=
  fail_if (NTToken token =? 0) || (NTExpiration token =? 0) with ErrExtensionBlock ;;
  let? data := write (make_bytes 12) 0 (be_bytes 8 (NTToken token)) in
  let? data := write data 8 (be_bytes 4 (NTExpiration token)) in
  MarshalBlock dst BlockNewToken data.

Definition ParseNewTokenBlock (data : bytes) : res NewToken :=
  fail_if negb (len data =? 12) with ErrExtensionBlock ;;
  let? a := slice data 0 8 in
  let? token := be_uint 8 a in
  let? b := slice_from data 8 in
  let? expiration := be_uint 4 b in
  fail_if (token =? 0) || (expiration =? 0) with ErrExtensionBlock ;;
  Ok (mkNewToken token expiration).

Definition MarshalPathChallengeBlock (dst : bytes) (challenge : PathChallenge) : res bytes :=
  MarshalBlock dst BlockPathChallenge (PCData challenge).

Definition ParsePathChallengeBlock (data : bytes) : res PathChallenge :=
  fail_if negb (len data =? 8) with ErrExtensionBlock ;;
  let? d := copy_at (make_bytes 8) 0 data in
  Ok (mkPathChallenge d).

Definition MarshalPathResponseBlock (dst : bytes) (response : PathResponse) : res bytes :=
  MarshalBlock dst BlockPathResponse (PRData response).

Definition ParsePathResponseBlock (data : bytes) : res PathResponse :=
  fail_if negb (len data =? 8) with ErrExtensionBlock ;;
  let? d := copy_at (make_bytes 8) 0 data in
  Ok (mkPathResponse d).

(** ** Peer tests: [peertest.go] *)

Record PeerTestBlock := mkPeerTest {
  PTMessage : Z; PTCode : Z; PTNonce : Z; PTTimestamp : Z; PTAddress : AddrPort;
  PTHash : bytes; PTHasHash : bool; PTSignature : bytes }.

(** [^x] of a [uint64] is [2^64 - 1 - x]. *)
Definition PeerTestConnectionIDs (nonce : Z) : Z * Z :=
  let destinationID := Z.lor (u64 (Z.shiftl nonce 32)) nonce in
  (destinationID, 2 ^ 64 - 1 - destinationID).

Definition validPeerTestCode (message code : Z) : bool :=
  (code =? 0) || (message =? 3) || (message =? 4).

(** ["PeerTestValidate"] *)
Definition peerTestPrologue : bytes :=
  [80; 101; 101; 114; 84; 101; 115; 116; 86; 97; 108; 105; 100; 97; 116; 101].

Definition PeerTestSignatureInput (dst bobHash aliceHash : bytes) (test : PeerTestBlock) : res bytes :=
  fail_if (PTMessage test <? 1) || (PTMessage test >? 4)
    || negb (validPeerTestCode (PTMessage test) (PTCode test)) || negb (len bobHash =? 32) with ErrPeerTest ;;
  fail_if ((PTMessage test =? 3) || (PTMessage test =? 4)) && negb (len aliceHash =? 32) with ErrPeerTest ;;
  match appendRelayEndpoint [] (PTAddress test) with
  | Panic => Panic
  | Err _ => Err ErrPeerTest
  | Ok endpoint =>
      let dst := dst ++ peerTestPrologue in
      let dst := dst ++ bobHash in
      let dst := if (PTMessage test =? 3) || (PTMessage test =? 4) then dst ++ aliceHash else dst in
      let? fixed := write (make_bytes 10) 0 [Version] in
      let? fixed := write fixed 1 (be_bytes 4 (PTNonce test)) in
      let? fixed := write fixed 5 (be_bytes 4 (PTTimestamp test)) in
      let? fixed := write fixed 9 [u8 (len endpoint)] in
      let dst := dst ++ fixed in
      Ok (dst ++ endpoint)
  end.

Definition MarshalPeerTestBlock (dst : bytes) (test : PeerTestBlock) : res bytes :=
  fail_if (PTMessage test <? 1) || (PTMessage test >? 7)
    || negb (validPeerTestCode (PTMessage test) (PTCode test)) || negb (validRelayEndpoint (PTAddress test))
    with ErrPeerTest ;;
  fail_if (PTMessage test <=? 4) && (len (PTSignature test) =? 0) with ErrPeerTest ;;
  let ip := APAddr (PTAddress test) in
  let? address := if Is4 ip then As4 ip else Ok (As16 ip) in
  let dataLen := 3 + 1 + 4 + 4 + 1 + 2 + len address + len (PTSignature test) in
  let? dataLen :=
    if (PTMessage test =? 2) || (PTMessage test =? 4) then
      fail_if negb (PTHasHash test) with ErrPeerTest ;;
      Ok (dataLen + len (PTHash test))
    else
      fail_if PTHasHash test with ErrPeerTest ;;
      Ok dataLen in
  let data := make_bytes dataLen in
  let? data := write data 0 [PTMessage test] in
  let? data := write data 1 [PTCode test] in
  let offset := 3 in
  let? (data, offset) :=
    if PTHasHash test then
      let? data := copy_at data offset (PTHash test) in Ok (data, offset + len (PTHash test))
    else Ok (data, offset) in
  let? data := write data offset [Version] in
  let? data := write data (offset + 1) (be_bytes 4 (PTNonce test)) in
  let? data := write data (offset + 5) (be_bytes 4 (PTTimestamp test)) in
  let? data := write data (offset + 9) [u8 (2 + len address)] in
  let? data := write data (offset + 10) (be_bytes 2 (APPort (PTAddress test))) in
  let? data := copy_at data (offset + 12) address in
  let offset := offset + (12 + len address) in
  let? data := copy_at data offset (PTSignature test) in
  MarshalBlock dst BlockPeerTest data.

Definition ParsePeerTestBlock (data : bytes) : res PeerTestBlock :=
  fail_if len data <? 15 with ErrPeerTest ;;
  let? message := index data 0 in
  let? code := index data 1 in
  let? reserved := index data 2 in
  fail_if (message <? 1) || (message >? 7) || negb (reserved =? 0) || negb (validPeerTestCode message code)
    with ErrPeerTest ;;
  let offset := 3 in
  let? (hash, hasHash, offset) :=
    if (message =? 2) || (message =? 4) then
      fail_if len data <? offset + 32 + 12 with ErrPeerTest ;;
      let? h := slice data offset (offset + 32) in
      let? hash := copy_at (make_bytes 32) 0 h in
      Ok (hash, true, offset + 32)
    else Ok (make_bytes 32, false, offset) in
  fail_if len data <? offset + 12 with ErrPeerTest ;;
  let? version := index data offset in
  fail_if negb (version =? Version) with ErrPeerTest ;;
  let? b := slice data (offset + 1) (offset + 5) in
  let? nonce := be_uint 4 b in
  let? b := slice data (offset + 5) (offset + 9) in
  let? timestamp := be_uint 4 b in
  let? addressSize := index data (offset + 9) in
  fail_if (negb (addressSize =? 6) && negb (addressSize =? 18)) || (len data <? offset + 10 + addressSize)
    with ErrPeerTest ;;
  let? b := slice data (offset + 10) (offset + 12) in
  let? port := be_uint 2 b in
  let? a := slice data (offset + 12) (offset + 10 + addressSize) in
  match AddrFromSlice a with
  | None => Err ErrPeerTest
  | Some address =>
      fail_if (port =? 0) || IsUnspecified address || Is4In6 address with ErrPeerTest ;;
      let offset := offset + (10 + addressSize) in
      let? signature := slice_from data offset in
      fail_if (message <=? 4) && (len signature =? 0) with ErrPeerTest ;;
      Ok (mkPeerTest message code nonce timestamp (mkAddrPort address port) hash hasHash signature)
  end.

(** ** Relay introductions: [introduction.go] *)

Record RelayRequest := mkRelayRequest {
  RRNonce : Z; RRRelayTag : Z; RRTimestamp : Z; RREndpoint : AddrPort; RRSignature : bytes }.

Record RelayIntro := mkRelayIntro { RIAliceHash : bytes; RIRequest : RelayRequest }.

Record RelayResponse := mkRelayResponse {
  RPCode : Z; RPNonce : Z; RPTimestamp : Z; RPEndpoint : AddrPort; RPSignature : bytes;
  RPToken : Z; RPHasToken : bool }.

Definition RelayConnectionIDs (nonce : Z) : Z * Z :=
  let destinationID := Z.lor (u64 (Z.shiftl nonce 32)) nonce in
  (destinationID, 2 ^ 64 - 1 - destinationID).

(** ["RelayRequestData"] and ["RelayAgreementOK"] *)
Definition relayRequestPrologue : bytes :=
  [82; 101; 108; 97; 121; 82; 101; 113; 117; 101; 115; 116; 68; 97; 116; 97].
Definition relayResponsePrologue : bytes :=
  [82; 101; 108; 97; 121; 65; 103; 114; 101; 101; 109; 101; 110; 116; 79; 75].

Definition appendRelayRequestUnsigned (dst : bytes) (request : RelayRequest) : res bytes :=
  let? endpoint := appendRelayEndpoint [] (RREndpoint request) in
  let? fixed := write (make_bytes 14) 0 (be_bytes 4 (RRNonce request)) in
  let? fixed := write fixed 4 (be_bytes 4 (RRRelayTag request)) in
  let? fixed := write fixed 8 (be_bytes 4 (RRTimestamp request)) in
  let? fixed := write fixed 12 [Version] in
  let? fixed := write fixed 13 [u8 (len endpoint)] in
  let dst := dst ++ fixed in
  Ok (dst ++ endpoint).

Definition parseRelayRequest (data : bytes) : res RelayRequest :=
  fail_if len data <? 14 + 6 + 1 with ErrIntroduction ;;
  let? version := index data 12 in
  fail_if negb (version =? Version) with ErrIntroduction ;;
  let? endpointSize := index data 13 in
  fail_if negb (endpointSize =? 6) && negb (endpointSize =? 18) || (len data <? 14 + endpointSize + 1)
    with ErrIntroduction ;;
  let? b := slice data 14 (14 + endpointSize) in
  let? endpoint := parseRelayEndpoint b in
  let? b := slice data 0 4 in
  let? nonce := be_uint 4 b in
  let? b := slice data 4 8 in
  let? tag := be_uint 4 b in
  let? b := slice data 8 12 in
  let? timestamp := be_uint 4 b in
  let? signature := slice_from data (14 + endpointSize) in
  Ok (mkRelayRequest nonce tag timestamp endpoint signature).

Definition MarshalRelayRequestBlock (dst : bytes) (request : RelayRequest) : res bytes :=
  fail_if len (RRSignature request) =? 0 with ErrIntroduction ;;
  let? unsigned := appendRelayRequestUnsigned (make_bytes 1) request in
  let data := unsigned ++ RRSignature request in
  MarshalBlock dst BlockRelayRequest data.

Definition ParseRelayRequestBlock (data : bytes) : res RelayRequest :=
  fail_if len data <? 1 with ErrIntroduction ;;
  let? flag := index data 0 in
  fail_if negb (flag =? 0) with ErrIntroduction ;;
  let? rest := slice_from data 1 in
  parseRelayRequest rest.

Definition RelayRequestSignatureInput (dst bobHash charlieHash : bytes) (request : RelayRequest) : res bytes :=
  fail_if negb (len bobHash =? 32) || negb (len charlieHash =? 32) with ErrIntroduction ;;
  let dst := dst ++ relayRequestPrologue in
  let dst := dst ++ bobHash in
  let dst := dst ++ charlieHash in
  appendRelayRequestUnsigned dst request.

Definition MarshalRelayIntroBlock (dst : bytes) (intro : RelayIntro) : res bytes :=
  fail_if len (RRSignature (RIRequest intro)) =? 0 with ErrIntroduction ;;
  let? data := copy_at (make_bytes 33) 1 (RIAliceHash intro) in
  let? unsigned := appendRelayRequestUnsigned data (RIRequest intro) in
  let data := unsigned ++ RRSignature (RIRequest intro) in
  MarshalBlock dst BlockRelayIntro data.

Definition ParseRelayIntroBlock (data : bytes) : res RelayIntro :=
  fail_if len data <? 33 with ErrIntroduction ;;
  let? flag := index data 0 in
  fail_if negb (flag =? 0) with ErrIntroduction ;;
  let? h := slice data 1 33 in
  let? hash := copy_at (make_bytes 32) 0 h in
  let? rest := slice_from data 33 in
  let? request := parseRelayRequest rest in
  Ok (mkRelayIntro hash request).

Definition validRelayResponseFields (response : RelayResponse) : bool :=
  if RPCode response =? 0 then RPHasToken response && validRelayEndpoint (RPEndpoint response)
  else negb (RPHasToken response) && negb (IsValid (RPEndpoint response)).

Definition validRelayResponse (response : RelayResponse) : bool :=
  negb (len (RPSignature response) =? 0) && validRelayResponseFields response.

Definition appendRelayResponseUnsigned (dst : bytes) (response : RelayResponse) : res bytes :=
  let? endpoint := if RPCode response =? 0 then appendRelayEndpoint [] (RPEndpoint response) else Ok [] in
  let? fixed := write (make_bytes 10) 0 (be_bytes 4 (RPNonce response)) in
  let? fixed := write fixed 4 (be_bytes 4 (RPTimestamp response)) in
  let? fixed := write fixed 8 [Version] in
  let? fixed := write fixed 9 [u8 (len endpoint)] in
  let dst := dst ++ fixed in
  Ok (dst ++ endpoint).

Definition MarshalRelayResponseBlock (dst : bytes) (response : RelayResponse) : res bytes :=
  fail_if negb (validRelayResponse response) with ErrIntroduction ;;
  let? data := write (make_bytes 2) 1 [RPCode response] in
  let? unsigned := appendRelayResponseUnsigned data response in
  let data := unsigned ++ RPSignature response in
  let data := if RPHasToken response then data ++ be_bytes 8 (RPToken response) else data in
  MarshalBlock dst BlockRelayResponse data.

Definition ParseRelayResponseBlock (data : bytes) : res RelayResponse :=
  fail_if len data <? 13 with ErrIntroduction ;;
  let? flag := index data 0 in
  fail_if negb (flag =? 0) with ErrIntroduction ;;
  let? code := index data 1 in
  let? b := slice data 2 6 in
  let? nonce := be_uint 4 b in
  let? b := slice data 6 10 in
  let? timestamp := be_uint 4 b in
  let? version := index data 10 in
  fail_if negb (version =? Version) with ErrIntroduction ;;
  let? endpointSize := index data 11 in
  let? response :=
    if code =? 0 then
      fail_if negb (endpointSize =? 6) && negb (endpointSize =? 18) || (len data <? 12 + endpointSize + 1 + 8)
        with ErrIntroduction ;;
      let? b := slice data 12 (12 + endpointSize) in
      let? endpoint := parseRelayEndpoint b in
      let end_ := len data - 8 in
      let? signature := slice data (12 + endpointSize) end_ in
      let? b := slice_from data end_ in
      let? token := be_uint 8 b in
      Ok (mkRelayResponse code nonce timestamp endpoint signature token true)
    else
      fail_if negb (endpointSize =? 0) || (len data <? 13) with ErrIntroduction ;;
      let? signature := slice_from data 12 in
      Ok (mkRelayResponse code nonce timestamp zeroAddrPort signature 0 false) in
  fail_if negb (validRelayResponse response) with ErrIntroduction ;;
  Ok response.

Definition RelayResponseSignatureInput (dst bobHash : bytes) (response : RelayResponse) : res bytes :=
  fail_if negb (len bobHash =? 32) || negb (validRelayResponseFields response) with ErrIntroduction ;;
  let dst := dst ++ relayResponsePrologue in
  let dst := dst ++ bobHash in
  appendRelayResponseUnsigned dst response.

(** ** The block iterator: [block.go] *)

Record Block := mkBlock { BType : Z; BData : bytes }.

Record BlockIterator := mkIterator { rest : bytes; terminated : bool; padded : bool }.

Definition NewBlockIterator (payload : bytes) : BlockIterator := mkIterator payload false false.

(** Only the error of a parser matters to [validateBlock]. *)
Definition check {A} (m : res A) : res unit := let? _ := m in Ok tt.

Definition validateBlock (block : Block) : res unit :=
  let data := BData block in
  let kind := BType block in
  if kind =? BlockDateTime then fail_if negb (len data =? 4) with ErrPacketLength ;; Ok tt
  else if kind =? BlockOptions then fail_if len data <? 12 with ErrPacketLength ;; Ok tt
  else if kind =? BlockRouterInfo then
    fail_if len data <? 2 with ErrPacketLength ;;
    let? d0 := index data 0 in
    let? d1 := index data 1 in
    fail_if negb (Z.land d0 252 =? 0) || negb (d1 =? 1) with ErrPacketLength ;; Ok tt
  else if kind =? BlockI2NP then fail_if len data <? 9 with ErrPacketLength ;; Ok tt
  else if kind =? BlockFirstFragment then fail_if len data <=? 9 with ErrPacketLength ;; Ok tt
  else if kind =? BlockFollowOnFragment then
    fail_if len data <=? 5 with ErrPacketLength ;;
    let? d0 := index data 0 in
    fail_if Z.shiftr d0 1 =? 0 with ErrPacketLength ;; Ok tt
  else if kind =? BlockTermination then fail_if len data <? 9 with ErrPacketLength ;; Ok tt
  else if kind =? BlockAddress then
    fail_if negb (len data =? 6) && negb (len data =? 18) with ErrPacketLength ;; Ok tt
  else if kind =? BlockRelayRequest then check (ParseRelayRequestBlock data)
  else if kind =? BlockRelayResponse then check (ParseRelayResponseBlock data)
  else if kind =? BlockRelayIntro then check (ParseRelayIntroBlock data)
  else if kind =? BlockPeerTest then check (ParsePeerTestBlock data)
  else if kind =? BlockRelayTagRequest then check (ParseRelayTagRequestBlock data)
  else if kind =? BlockRelayTag then check (ParseRelayTagBlock data)
  else if kind =? BlockNewToken then check (ParseNewTokenBlock data)
  else if kind =? BlockPathChallenge then check (ParsePathChallengeBlock data)
  else if kind =? BlockPathResponse then check (ParsePathResponseBlock data)
  else Ok tt.

Definition NextBlock : go BlockIterator (option Block) :=
  let! it := get in
  if len (rest it) =? 0 then ret None
  else
    let! kind := lift (index (rest it) 0) in
    if padded it || (terminated it && negb (kind =? BlockPadding)) then fail ErrPacketLength
    else if len (rest it) <? 3 then fail ErrShortBuffer
    else
      let! b := lift (slice (rest it) 1 3) in
      let! n := lift (be_uint 2 b) in
      if n >? len (rest it) - 3 then fail ErrShortBuffer
      else
        let! data := lift (slice (rest it) 3 (3 + n)) in
        let block := mkBlock kind data in
        let! rest' := lift (slice_from (rest it) (3 + n)) in
        let! _ := put (mkIterator rest' (terminated it) (padded it)) in
        let! _ := lift (validateBlock block) in
        let padded' := padded it || (kind =? BlockPadding) in
        let terminated' := terminated it || (kind =? BlockTermination) in
        let! _ := put (mkIterator rest' terminated' padded') in
        if padded' && negb (len rest' =? 0) then fail ErrPacketLength
        else ret (Some block).

(** ** Payload grammars

    Each validator is the loop
    [for { block, ok, err := iterator.Next(); if err != nil { return false };
           if !ok { return done }; switch block.Type { ... } }];
    [scan] is that loop over the body of the switch, which either rejects or
    updates the flags [s].  Each block takes at least three bytes, so the length
    of the payload bounds the iterations. *)

Fixpoint scan {S} (step : S -> Block -> option S) (fuel : nat) (it : BlockIterator) (s : S) : res (option S) :=
  match fuel with
  | O => Panic
  | Datatypes.S fuel =>
      match NextBlock it with
      | (Panic, _) => Panic
      | (Err _, _) => Ok None
      | (Ok None, _) => Ok (Some s)
      | (Ok (Some block), it) =>
          match step s block with
          | None => Ok None
          | Some s => scan step fuel it s
          end
      end
  end.

Definition scanPayload {S} (step : S -> Block -> option S) (s : S) (accept : S -> bool) (payload : bytes) : res bool :=
  let? final := scan step (Datatypes.S (length payload)) (NewBlockIterator payload) s in
  Ok (match final with Some s => accept s | None => false end).

Definition handshakeStep (dateTime : bool) (block : Block) : option bool :=
  if BType block =? BlockDateTime then if dateTime then None else Some true else Some dateTime.

Definition validHandshakePayload (payload : bytes) : res bool :=
  if len payload <? 8 then Ok false
  else scanPayload handshakeStep false (fun dateTime => dateTime) payload.

Definition confirmedStep (_ : unit) (block : Block) : option unit :=
  if negb (BType block =? BlockOptions) && negb (BType block =? BlockI2NP) && negb (BType block =? BlockPadding)
  then None else Some tt.

Definition validConfirmedPayload (payload : bytes) : res bool :=
  match NextBlock (NewBlockIterator payload) with
  | (Panic, _) => Panic
  | (Err _, _) | (Ok None, _) => Ok false
  | (Ok (Some block), it) =>
      if negb (BType block =? BlockRouterInfo) then Ok false
      else
        let? final := scan confirmedStep (S (length payload)) it tt in
        Ok (match final with Some _ => true | None => false end)
  end.

Definition peerTestStep (s : bool * bool) (block : Block) : option (bool * bool) :=
  let '(hasDateTime, hasPeerTest) := s in
  if BType block =? BlockDateTime then if hasDateTime : bool then None else Some (true, hasPeerTest)
  else if BType block =? BlockPeerTest then
    if hasPeerTest : bool then None
    else match ParsePeerTestBlock (BData block) with Ok _ => Some (hasDateTime, true) | _ => None end
  else if BType block =? BlockPadding then Some s
  else None.

Definition holePunchStep (s : bool * bool * bool) (block : Block) : option (bool * bool * bool) :=
  let '(dateTime, address, response) := s in
  if BType block =? BlockDateTime then if dateTime : bool then None else Some (true, address, response)
  else if BType block =? BlockAddress then if address : bool then None else Some (dateTime, true, response)
  else if BType block =? BlockRelayResponse then
    if response : bool then None
    else match ParseRelayResponseBlock (BData block) with Ok _ => Some (dateTime, address, true) | _ => None end
  else if BType block =? BlockPadding then Some s
  else None.

Definition validHolePunchPayload (payload : bytes) : res bool :=
  scanPayload holePunchStep (false, false, false) (fun '(dateTime, address, response) => dateTime && address && response) payload.

(** The packet types are those of [packet.go]. *)
Definition PeerTest : Z := 7.
Definition Retry : Z := 9.
Definition TokenRequest : Z := 10.
Definition HolePunch : Z := 11.

Definition validOutOfSessionPayload (kind : Z) (payload : bytes) : res bool :=
  if kind =? PeerTest then
    scanPayload peerTestStep (false, false) (fun '(hasDateTime, hasPeerTest) => hasDateTime && hasPeerTest) payload
  else if kind =? HolePunch then validHolePunchPayload payload
  else validHandshakePayload payload.

(** ** The wire format

    What the codecs are to implement, written from the protocol: the bytes of an
    endpoint and of the body of each block, and which values have one. *)

Definition addr_bytes (a : Addr) : bytes :=
  match a with NoAddr => [] | Addr4 b => b | Addr6 b _ => b end.

Definition addr_ok (a : Addr) : Prop :=
  match a with
  | NoAddr => False
  | Addr4 b => len b = 4 /\ bytes_ok b /\ b <> make_bytes 4
  | Addr6 b zone => len b = 16 /\ bytes_ok b /\ zone = [] /\ b <> make_bytes 16 /\ sub 0 12 b <> mappedPrefix
  end.

Definition endpoint_bytes (e : AddrPort) : bytes := be_bytes 2 (APPort e) ++ addr_bytes (APAddr e).
Definition endpoint_ok (e : AddrPort) : Prop := 0 < APPort e < 2 ^ 16 /\ addr_ok (APAddr e).

Lemma len_addr_bytes a : addr_ok a -> len (addr_bytes a) = 4 \/ len (addr_bytes a) = 16.
Proof. destruct a; cbn; [done|tauto|tauto]. Qed.

Lemma address_exact b a :
  bytes_ok b ->
  AddrFromSlice b = Some a /\ IsUnspecified a = false /\ Is4In6 a = false <-> addr_ok a /\ b = addr_bytes a.
Proof.
  intros Hb. unfold AddrFromSlice, IsUnspecified, Is4In6, bytes_eqb. split.
  - intros (Ha & Hu & Hm). destruct (Z.eqb_spec (len b) 4); [|destruct (Z.eqb_spec (len b) 16); [|done]];
      simplify_eq; cbn; split_and!; try done; apply orb_false_iff in Hu as [H1 H2];
      apply bool_decide_eq_false in H1, H2, Hm || apply bool_decide_eq_false in H1, H2; naive_solver.
  - intros [Ha ->]. destruct a as [|c|c z]; cbn in *; [done| |].
    + destruct Ha as (-> & _ & Hz). cbn. split_and!; [done| |done].
      rewrite !bool_decide_eq_false_2; naive_solver.
    + destruct Ha as (-> & _ & -> & Hz & Hm). cbn. split_and!; [done| |by apply bool_decide_eq_false].
      rewrite !bool_decide_eq_false_2; naive_solver.
Qed.

Lemma validRelayEndpoint_ok e : endpoint_ok e -> validRelayEndpoint e = true.
Proof.
  intros [Hp Ha]. destruct e as [a p]. cbn [APAddr APPort] in *. unfold validRelayEndpoint. cbn [APAddr APPort].
  assert (bytes_ok (addr_bytes a)) as Hb by (destruct a; cbn in *; naive_solver).
  destruct (proj2 (address_exact (addr_bytes a) a Hb) (conj Ha eq_refl)) as (_ & -> & ->).
  zbool. unfold IsValid. cbn [APAddr]. by destruct a.
Qed.

Lemma appendRelayEndpoint_ok dst e : endpoint_ok e -> appendRelayEndpoint dst e = Ok (dst ++ endpoint_bytes e).
Proof.
  intros He. unfold appendRelayEndpoint. rewrite validRelayEndpoint_ok by done. cbn [negb].
  destruct He as [_ Ha]. unfold endpoint_bytes. destruct (APAddr e); [done| |]; cbn; by rewrite <- app_assoc.
Qed.

Lemma len_endpoint e : endpoint_ok e -> len (endpoint_bytes e) = 6 \/ len (endpoint_bytes e) = 18.
Proof.
  intros [_ Ha]. unfold endpoint_bytes. pose proof (len_addr_bytes _ Ha). rewrite len_app, len_be_bytes. lia.
Qed.

Lemma parseRelayEndpoint_exact data e :
  bytes_ok data -> parseRelayEndpoint data = Ok e <-> endpoint_ok e /\ data = endpoint_bytes e.
Proof.
  intros Hok. unfold parseRelayEndpoint. split.
  - intros H. revert H. go_run; try done. destruct (AddrFromSlice _) as [a|] eqn:Ea; [|done].
    go_if; [done|]. intros [= <-]. be_uppers.
    assert (addr_ok a /\ sub 2 (len data) data = addr_bytes a) as [Ha Hab].
    { apply address_exact; [by apply bytes_ok_sub|]. repeat rewrite orb_false_iff in *. tauto. }
    unfold endpoint_ok, endpoint_bytes. cbn [APAddr APPort]. split_and!; [lia|lia|done|].
    rewrite <- Hab. sub_join. symmetry. by apply sub_all.
  - intros [He ->]. pose proof (len_endpoint e He) as Hl. destruct e as [a p]. destruct He as [Hp Ha].
    unfold endpoint_bytes in *. cbn [APAddr APPort] in *. apply bytes_ok_app in Hok as [_ Hok].
    destruct (proj2 (address_exact (addr_bytes a) a Hok) (conj Ha eq_refl)) as (Hs & Hu & Hm).
    replace (negb _ && negb _) with false by (rewrite len_app in *; len_lia || lia).
    go_eval. rewrite Hs, Hu, Hm. by zbool.
Qed.

(** Every block whose body has a codec of its own. *)
Inductive Extension :=
| XRelayRequest (r : RelayRequest)
| XRelayResponse (r : RelayResponse)
| XRelayIntro (i : RelayIntro)
| XPeerTest (t : PeerTestBlock)
| XRelayTagRequest (r : RelayTagRequest)
| XRelayTag (r : RelayTag)
| XNewToken (t : NewToken)
| XPathChallenge (c : PathChallenge)
| XPathResponse (r : PathResponse).

Definition extension_kind (x : Extension) : Z :=
  match x with
  | XRelayRequest _ => BlockRelayRequest | XRelayResponse _ => BlockRelayResponse
  | XRelayIntro _ => BlockRelayIntro | XPeerTest _ => BlockPeerTest
  | XRelayTagRequest _ => BlockRelayTagRequest | XRelayTag _ => BlockRelayTag
  | XNewToken _ => BlockNewToken | XPathChallenge _ => BlockPathChallenge
  | XPathResponse _ => BlockPathResponse
  end.

Definition request_body (r : RelayRequest) : bytes :=
  be_bytes 4 (RRNonce r) ++ be_bytes 4 (RRRelayTag r) ++ be_bytes 4 (RRTimestamp r) ++ [2] ++
  [len (endpoint_bytes (RREndpoint r))] ++ endpoint_bytes (RREndpoint r) ++ RRSignature r.

Definition response_body (r : RelayResponse) : bytes :=
  [0] ++ [RPCode r] ++ be_bytes 4 (RPNonce r) ++ be_bytes 4 (RPTimestamp r) ++ [2] ++
  (if RPCode r =? 0
   then [len (endpoint_bytes (RPEndpoint r))] ++ endpoint_bytes (RPEndpoint r) ++ RPSignature r ++ be_bytes 8 (RPToken r)
   else [0] ++ RPSignature r).

Definition peertest_body (t : PeerTestBlock) : bytes :=
  [PTMessage t] ++ [PTCode t] ++ [0] ++ (if PTHasHash t then PTHash t else []) ++ [2] ++
  be_bytes 4 (PTNonce t) ++ be_bytes 4 (PTTimestamp t) ++ [len (endpoint_bytes (PTAddress t))] ++
  endpoint_bytes (PTAddress t) ++ PTSignature t.

Definition extension_body (x : Extension) : bytes :=
  match x with
  | XRelayRequest r => [0] ++ request_body r
  | XRelayResponse r => response_body r
  | XRelayIntro i => [0] ++ RIAliceHash i ++ request_body (RIRequest i)
  | XPeerTest t => peertest_body t
  | XRelayTagRequest _ => []
  | XRelayTag r => be_bytes 4 (RTTag r) ++ be_bytes 4 (RTExpiration r)
  | XNewToken t => be_bytes 8 (NTToken t) ++ be_bytes 4 (NTExpiration t)
  | XPathChallenge c => PCData c
  | XPathResponse r => PRData r
  end.

Definition is_u32 (z : Z) : Prop := 0 <= z < 2 ^ 32.
Definition is_u64 (z : Z) : Prop := 0 <= z < 2 ^ 64.
Definition hash_ok (h : bytes) : Prop := len h = 32 /\ bytes_ok h.
Definition signature_ok (s : bytes) : Prop := s <> [] /\ bytes_ok s.

Definition request_ok (r : RelayRequest) : Prop :=
  is_u32 (RRNonce r) /\ is_u32 (RRRelayTag r) /\ is_u32 (RRTimestamp r) /\
  endpoint_ok (RREndpoint r) /\ signature_ok (RRSignature r).

(** An acceptance carries an endpoint and a token, a rejection neither. *)
Definition response_ok (r : RelayResponse) : Prop :=
  is_byte (RPCode r) /\ is_u32 (RPNonce r) /\ is_u32 (RPTimestamp r) /\ signature_ok (RPSignature r) /\
  if RPCode r =? 0 then endpoint_ok (RPEndpoint r) /\ is_u64 (RPToken r) /\ RPHasToken r = true
  else RPEndpoint r = zeroAddrPort /\ RPToken r = 0 /\ RPHasToken r = false.

(** Messages 2 and 4 carry a hash, messages 1 to 4 a signature, and only
    Charlie's answers 3 and 4 a rejection code. *)
Definition peertest_ok (t : PeerTestBlock) : Prop :=
  1 <= PTMessage t <= 7 /\ is_byte (PTCode t) /\ (PTCode t = 0 \/ PTMessage t = 3 \/ PTMessage t = 4) /\
  is_u32 (PTNonce t) /\ is_u32 (PTTimestamp t) /\ endpoint_ok (PTAddress t) /\
  PTHasHash t = (PTMessage t =? 2) || (PTMessage t =? 4) /\
  (if PTHasHash t then hash_ok (PTHash t) else PTHash t = make_bytes 32) /\
  bytes_ok (PTSignature t) /\ (PTMessage t <= 4 -> PTSignature t <> []).

Definition extension_ok (x : Extension) : Prop :=
  match x with
  | XRelayRequest r => request_ok r
  | XRelayResponse r => response_ok r
  | XRelayIntro i => hash_ok (RIAliceHash i) /\ request_ok (RIRequest i)
  | XPeerTest t => peertest_ok t
  | XRelayTagRequest _ => True
  | XRelayTag r => 0 < RTTag r < 2 ^ 32 /\ 0 < RTExpiration r < 2 ^ 32
  | XNewToken t => 0 < NTToken t < 2 ^ 64 /\ 0 < NTExpiration t < 2 ^ 32
  | XPathChallenge c => len (PCData c) = 8 /\ bytes_ok (PCData c)
  | XPathResponse r => len (PRData r) = 8 /\ bytes_ok (PRData r)
  end.

(** The code's encoder and decoder for each of them. *)
Definition MarshalExtension (dst : bytes) (x : Extension) : res bytes :=
  match x with
  | XRelayRequest r => MarshalRelayRequestBlock dst r
  | XRelayResponse r => MarshalRelayResponseBlock dst r
  | XRelayIntro i => MarshalRelayIntroBlock dst i
  | XPeerTest t => MarshalPeerTestBlock dst t
  | XRelayTagRequest r => MarshalRelayTagRequestBlock dst r
  | XRelayTag r => MarshalRelayTagBlock dst r
  | XNewToken t => MarshalNewTokenBlock dst t
  | XPathChallenge c => MarshalPathChallengeBlock dst c
  | XPathResponse r => MarshalPathResponseBlock dst r
  end.

Definition parse_as {A} (f : A -> Extension) (m : res A) : res Extension := let? x := m in Ok (f x).

Definition ParseExtension (kind : Z) (data : bytes) : option (res Extension) :=
  if kind =? BlockRelayRequest then Some (parse_as XRelayRequest (ParseRelayRequestBlock data))
  else if kind =? BlockRelayResponse then Some (parse_as XRelayResponse (ParseRelayResponseBlock data))
  else if kind =? BlockRelayIntro then Some (parse_as XRelayIntro (ParseRelayIntroBlock data))
  else if kind =? BlockPeerTest then Some (parse_as XPeerTest (ParsePeerTestBlock data))
  else if kind =? BlockRelayTagRequest then Some (parse_as XRelayTagRequest (ParseRelayTagRequestBlock data))
  else if kind =? BlockRelayTag then Some (parse_as XRelayTag (ParseRelayTagBlock data))
  else if kind =? BlockNewToken then Some (parse_as XNewToken (ParseNewTokenBlock data))
  else if kind =? BlockPathChallenge then Some (parse_as XPathChallenge (ParsePathChallengeBlock data))
  else if kind =? BlockPathResponse then Some (parse_as XPathResponse (ParsePathResponseBlock data))
  else None.

(** ** Encoding *)

Lemma MarshalBlock_ok dst kind data :
  len data <= 65535 -> MarshalBlock dst kind data = Ok (dst ++ [kind] ++ be_bytes 2 (len data) ++ data).
Proof.
  intros Hl. unfold MarshalBlock. zbool. pose proof (len_nonneg data).
  replace (make_bytes (3 + len data)) with (make_bytes 1 ++ make_bytes 2 ++ make_bytes (len data)).
  2:{ unfold make_bytes. rewrite <- !replicate_add. f_equal. lia. }
  rewrite write_middle by len_lia. cbn [bind]. rewrite (app_assoc dst [kind]), write_middle by len_lia. cbn [bind].
  rewrite (app_assoc (dst ++ [kind])), copy_at_app by len_lia. rewrite <- !app_assoc. sub_norm.
  rewrite app_nil_r. unfold u16. by rewrite Z.mod_small by lia.
Qed.

(** A buffer filled to its end holds what was written. *)
Lemma over_full {A} (acc dst : list A) : len acc = len dst -> over acc dst = acc.
Proof. intros. unfold over. by rewrite sub_empty, app_nil_r by lia. Qed.

(** Leaving zero bytes of a fresh buffer untouched is writing zeros. *)
Lemma over_make_zero acc n k :
  0 <= k -> len acc + k <= n -> over acc (make_bytes n) = over (acc ++ make_bytes k) (make_bytes n).
Proof.
  intros Hk Hn. unfold over. len_simpl. len_pos. rewrite <- app_assoc. f_equal.
  replace (make_bytes n) with (make_bytes (len acc) ++ make_bytes k ++ make_bytes (n - len acc - k)).
  2:{ unfold make_bytes. rewrite <- !replicate_add. f_equal. lia. }
  rewrite !Z.max_r by lia. rewrite !sub_app_r by len_lia. sub_norm. done.
Qed.

Lemma appendRelayRequestUnsigned_ok dst r :
  endpoint_ok (RREndpoint r) ->
  exists out, appendRelayRequestUnsigned dst r = Ok out /\ out ++ RRSignature r = dst ++ request_body r.
Proof.
  intros He. unfold appendRelayRequestUnsigned. rewrite appendRelayEndpoint_ok by done. cbn [bind app].
  pose proof (len_endpoint _ He).
  eexists. split; [write_run (make_bytes 14); done|].
  rewrite over_full by len_lia. unfold request_body, u8, Version. rewrite Z.mod_small by lia.
  cbn [app]. by rewrite <- !app_assoc.
Qed.

Lemma appendRelayResponseUnsigned_ok dst r :
  (RPCode r = 0 -> endpoint_ok (RPEndpoint r)) ->
  let e := if RPCode r =? 0 then endpoint_bytes (RPEndpoint r) else [] in
  appendRelayResponseUnsigned dst r =
    Ok (dst ++ be_bytes 4 (RPNonce r) ++ be_bytes 4 (RPTimestamp r) ++ [2] ++ [len e] ++ e).
Proof.
  intros He e. unfold appendRelayResponseUnsigned.
  replace (if RPCode r =? 0 then appendRelayEndpoint [] (RPEndpoint r) else Ok []) with (Ok e).
  2:{ subst e. destruct (Z.eqb_spec (RPCode r) 0); [|done]. by rewrite appendRelayEndpoint_ok by auto. }
  assert (0 <= len e < 256).
  { subst e. destruct (Z.eqb_spec (RPCode r) 0) as [E|]; [|done]. pose proof (len_endpoint _ (He E)). lia. }
  cbn [bind]. write_run (make_bytes 10). rewrite over_full by len_lia. unfold u8, Version.
  rewrite Z.mod_small by lia. cbn [app]. by rewrite <- !app_assoc.
Qed.

Lemma signature_nonempty s : signature_ok s -> (len s =? 0) = false.
Proof.
  intros [Hs _]. apply Z.eqb_neq. intros Hl. by apply len_zero_nil in Hl.
Qed.

Lemma marshal_peertest dst t :
  peertest_ok t -> len (peertest_body t) <= 65535 ->
  MarshalPeerTestBlock dst t = MarshalBlock dst BlockPeerTest (peertest_body t).
Proof.
  destruct t as [m c n ts [a p] h hh s]. unfold peertest_ok, peertest_body, MarshalPeerTestBlock.
  cbn [PTMessage PTCode PTNonce PTTimestamp PTAddress PTHash PTHasHash PTSignature].
  intros (Hm & Hc & Hcode & Hn & Hts & He & Hhh & Hh & Hs & Hsig) Hl.
  rewrite validRelayEndpoint_ok by done.
  replace (validPeerTestCode m c) with true by (unfold validPeerTestCode; lia).
  zbool. replace ((m <=? 4) && (len s =? 0)) with false.
  2:{ destruct (Z.leb_spec m 4); [|done]. destruct (Z.eqb_spec (len s) 0) as [E|]; [|done].
      apply len_zero_nil in E. naive_solver. }
  destruct He as [Hp Ha]. cbn [APAddr APPort] in *.
  replace (if Is4 a then As4 a else Ok (As16 a)) with (Ok (addr_bytes a)) by (by destruct a).
  cbn [bind APAddr APPort]. unfold endpoint_bytes in *. cbn [APAddr APPort] in *.
  pose proof (len_addr_bytes a Ha) as Hla. rewrite <- Hhh. len_pos.
  destruct hh; cbn [bind negb];
    [ destruct Hh as [Hh _]; write_run (make_bytes (3 + 1 + 4 + 4 + 1 + 2 + len (addr_bytes a) + len s + len h))
    | write_run (make_bytes (3 + 1 + 4 + 4 + 1 + 2 + len (addr_bytes a) + len s)) ];
    rewrite (over_make_zero _ _ 1) by len_lia;
    repeat first [ progress cbn [bind] | rewrite write_over by len_lia | rewrite copy_at_over by len_lia ];
    rewrite over_full by len_lia; cbn [app]; f_equal; unfold u8, Version; rewrite Z.mod_small by lia;
    rewrite <- !app_assoc; len_simpl; done.
Qed.

Lemma marshal_response dst r :
  response_ok r -> MarshalRelayResponseBlock dst r = MarshalBlock dst BlockRelayResponse (response_body r).
Proof.
  destruct r as [c n ts e s tok ht]. unfold response_ok, MarshalRelayResponseBlock, response_body.
  intros (Hc & Hn & Hts & Hs & Hrest). cbn [RPCode RPNonce RPTimestamp RPEndpoint RPSignature RPToken RPHasToken] in *.
  unfold validRelayResponse, validRelayResponseFields.
  cbn [RPCode RPEndpoint RPSignature RPHasToken]. rewrite signature_nonempty by done.
  change (write (make_bytes 2) 1 [c]) with (Ok [0; c]). cbn [bind].
  rewrite appendRelayResponseUnsigned_ok.
  2:{ cbn [RPCode RPEndpoint]. intros ->. cbn in Hrest. tauto. }
  cbn [RPCode RPNonce RPTimestamp RPEndpoint bind]. destruct (Z.eqb_spec c 0) as [->|Hne].
  - destruct Hrest as (He & _ & ->). rewrite validRelayEndpoint_ok by done. cbn [negb andb]. f_equal.
    cbn [app]. by rewrite <- !app_assoc.
  - destruct Hrest as (-> & _ & ->). change (IsValid zeroAddrPort) with false. cbn [negb andb].
    done.
Qed.

Lemma marshal_extension dst x :
  extension_ok x -> len (extension_body x) <= 65535 ->
  MarshalExtension dst x =
    Ok (dst ++ [extension_kind x] ++ be_bytes 2 (len (extension_body x)) ++ extension_body x).
Proof.
  intros Hx Hl. rewrite <- MarshalBlock_ok by done.
  destruct x; cbn [MarshalExtension extension_kind extension_body extension_ok] in *.
  - unfold MarshalRelayRequestBlock. rewrite signature_nonempty by apply Hx.
    destruct (appendRelayRequestUnsigned_ok (make_bytes 1) r) as (out & -> & Ho); [apply Hx|].
    cbn [bind]. by rewrite Ho.
  - by apply marshal_response.
  - destruct Hx as [[Hh _] Hx]. unfold MarshalRelayIntroBlock. rewrite signature_nonempty by apply Hx.
    change (make_bytes 33) with ([0] ++ make_bytes 32). rewrite copy_at_app by len_lia. cbn [bind].
    rewrite Hh, (sub_empty (make_bytes 32)), app_nil_r by len_lia.
    destruct (appendRelayRequestUnsigned_ok ([0] ++ RIAliceHash i) (RIRequest i)) as (out & -> & Ho); [apply Hx|].
    cbn [bind]. by rewrite Ho, <- app_assoc.
  - by apply marshal_peertest.
  - done.
  - unfold MarshalRelayTagBlock. zbool. write_run (make_bytes 8). by rewrite over_full by len_lia.
  - unfold MarshalNewTokenBlock. zbool. write_run (make_bytes 12). by rewrite over_full by len_lia.
  - done.
  - done.
Qed.

(** ** Decoding *)

Lemma copy_full (dst data : bytes) : len data = len dst -> copy_at dst 0 data = Ok data.
Proof.
  intros H. rewrite (over_nil dst) at 1. rewrite copy_at_over by len_lia. cbn [app]. by rewrite over_full.
Qed.

Lemma parse_relaytag_exact data r :
  bytes_ok data -> ParseRelayTagBlock data = Ok r <-> extension_ok (XRelayTag r) /\ data = extension_body (XRelayTag r).
Proof.
  intros Hok. unfold ParseRelayTagBlock. cbn [extension_ok extension_body]. split.
  - go_run; try done. assert (len data = 8) as Hd by lia. rewrite Hd in *.
    intros [= <-]. cbn [RTTag RTExpiration]. be_uppers. split_and!; try lia. sub_join. symmetry. by apply sub_all.
  - intros [(Ht & He) ->]. destruct r as [t e]. cbn [RTTag RTExpiration] in *. go_eval. done.
Qed.

Lemma parse_newtoken_exact data r :
  bytes_ok data -> ParseNewTokenBlock data = Ok r <-> extension_ok (XNewToken r) /\ data = extension_body (XNewToken r).
Proof.
  intros Hok. unfold ParseNewTokenBlock. cbn [extension_ok extension_body]. split.
  - go_run; try done. assert (len data = 12) as Hd by lia. rewrite Hd in *.
    intros [= <-]. cbn [NTToken NTExpiration]. be_uppers. split_and!; try lia. sub_join. symmetry. by apply sub_all.
  - intros [(Ht & He) ->]. destruct r as [t e]. cbn [NTToken NTExpiration] in *. go_eval. done.
Qed.

Lemma parse_pathchallenge_exact data r :
  bytes_ok data ->
  ParsePathChallengeBlock data = Ok r <-> extension_ok (XPathChallenge r) /\ data = extension_body (XPathChallenge r).
Proof.
  intros Hok. unfold ParsePathChallengeBlock. cbn [extension_ok extension_body]. split.
  - go_if; [done|]. rewrite copy_full by len_lia. intros [= <-]. cbn. split_and!; done || lia.
  - intros [[Hl _] ->]. zbool. rewrite copy_full by done. by destruct r.
Qed.

Lemma parse_pathresponse_exact data r :
  bytes_ok data ->
  ParsePathResponseBlock data = Ok r <-> extension_ok (XPathResponse r) /\ data = extension_body (XPathResponse r).
Proof.
  intros Hok. unfold ParsePathResponseBlock. cbn [extension_ok extension_body]. split.
  - go_if; [done|]. rewrite copy_full by len_lia. intros [= <-]. cbn. split_and!; done || lia.
  - intros [[Hl _] ->]. zbool. rewrite copy_full by done. by destruct r.
Qed.

Lemma signature_ok_len s : bytes_ok s -> 0 < len s -> signature_ok s.
Proof. intros Hb Hl. split; [|done]. by intros ->. Qed.

Lemma signature_len s : signature_ok s -> 0 < len s.
Proof. intros Hs. pose proof (signature_nonempty s Hs). len_pos. lia. Qed.

Lemma parse_request_exact data r :
  bytes_ok data -> parseRelayRequest data = Ok r <-> request_ok r /\ data = request_body r.
Proof.
  intros Hok. unfold parseRelayRequest. split.
  - repeat first [progress be_bounds | go_step | go_index | (go_if; [done|])].
    destruct (parseRelayEndpoint _) as [e| |] eqn:Ep; [|done|done].
    apply parseRelayEndpoint_exact in Ep as [He Hed]; [|by apply bytes_ok_sub].
    repeat go_step. intros [= <-]. be_uppers. unfold request_ok, request_body.
    cbn [RRNonce RRRelayTag RRTimestamp RREndpoint RRSignature]. rewrite <- Hed. unfold Version in *.
    split_and!; try done; try (unfold is_u32; lia); [apply signature_ok_len; [by apply bytes_ok_sub|len_lia]|].
    replace 2 with x by lia. len_simpl. replace (14 + x0 - 14) with x0 by lia.
    index_join. sub_join. symmetry. by apply sub_all.
  - intros [(Hn & Ht & Hts & He & Hs) ->]. destruct r as [n t ts e s].
    cbn [RRNonce RRRelayTag RRTimestamp RREndpoint RRSignature] in *. unfold request_body in *.
    cbn [RRNonce RRRelayTag RRTimestamp RREndpoint RRSignature] in *.
    pose proof (len_endpoint e He). pose proof (signature_len s Hs). unfold is_u32 in *.
    assert (bytes_ok (endpoint_bytes e)) by (rewrite !bytes_ok_app in Hok; tauto).
    set (eb := endpoint_bytes e) in *. go_eval.
    replace (negb (len eb =? 6) && negb (len eb =? 18)) with false by lia. go_eval.
    rewrite (proj2 (parseRelayEndpoint_exact eb e ltac:(done))) by done. go_eval. done.
Qed.

Lemma parse_relayrequest_exact data r :
  bytes_ok data ->
  ParseRelayRequestBlock data = Ok r <-> extension_ok (XRelayRequest r) /\ data = extension_body (XRelayRequest r).
Proof.
  intros Hok. unfold ParseRelayRequestBlock. cbn [extension_ok extension_body]. split.
  - repeat first [go_step | go_index | (go_if; [done|])].
    intros [Hr Hd]%parse_request_exact; [|by apply bytes_ok_sub]. split; [done|].
    rewrite <- Hd. replace 0 with x by lia. index_join. sub_join. symmetry. by apply sub_all.
  - intros [Hr ->]. len_pos. go_eval. apply parse_request_exact; [|done].
    by apply bytes_ok_app in Hok as [_ ?].
Qed.

Lemma parse_relayintro_exact data i :
  bytes_ok data ->
  ParseRelayIntroBlock data = Ok i <-> extension_ok (XRelayIntro i) /\ data = extension_body (XRelayIntro i).
Proof.
  intros Hok. unfold ParseRelayIntroBlock. cbn [extension_ok extension_body]. split.
  - repeat first [go_step | go_index | (go_if; [done|])]. rewrite copy_full by len_lia. cbn [bind].
    destruct (parseRelayRequest _) as [r| |] eqn:Er; [|done|done]. intros [= <-].
    apply parse_request_exact in Er as [Hr Hd]; [|by apply bytes_ok_sub].
    cbn [RIAliceHash RIRequest]. split_and!; [split; [len_lia|by apply bytes_ok_sub]|done|].
    rewrite <- Hd. replace 0 with x by lia. index_join. sub_join. symmetry. by apply sub_all.
  - intros [[[Hh Hhb] Hr] ->]. destruct i as [h r]. cbn [RIAliceHash RIRequest] in *. len_pos. go_eval.
    rewrite copy_full by len_lia. go_eval. rewrite !bytes_ok_app in Hok. destruct Hok as (_ & _ & Hok).
    by rewrite (proj2 (parse_request_exact (request_body r) r Hok)).
Qed.

Lemma response_cases data r :
  bytes_ok data -> ParseRelayResponseBlock data = Ok r -> response_ok r /\ data = response_body r.
Proof.
  intros Hok. unfold ParseRelayResponseBlock, Version.
  repeat first [progress be_bounds | go_step | go_index | (go_if; [done|]) ].
  destruct (Z.eqb_spec x0 0) as [->|Hne].
  - repeat first [progress be_bounds | go_step | (go_if; [done|])].
    destruct (parseRelayEndpoint _) as [e| |] eqn:Ep; [|done|done].
    apply parseRelayEndpoint_exact in Ep as [He Hed]; [|by apply bytes_ok_sub].
    repeat first [progress be_bounds | go_step]. go_if; [done|]. intros [= <-]. be_uppers.
    unfold response_ok, response_body.
    cbn [RPCode RPNonce RPTimestamp RPEndpoint RPSignature RPToken RPHasToken Z.eqb]. rewrite <- Hed.
    split_and!; try done; try (unfold is_u32, is_u64, is_byte; lia); [apply signature_ok_len; [by apply bytes_ok_sub|len_lia]| |].
    + unfold is_u64. replace (len data - (len data - 8)) with 8 in * by lia. lia.
    + replace [2] with [x1] by (f_equal; lia). replace [0] with [x] at 1 by (f_equal; lia). len_simpl.
      replace (12 + x2 - 12) with x2 by lia.
      index_join. sub_join. symmetry. by apply sub_all.
  - repeat first [go_step | (go_if; [done|])]. intros [= <-]. be_uppers.
    unfold response_ok, response_body.
    cbn [RPCode RPNonce RPTimestamp RPEndpoint RPSignature RPToken RPHasToken].
    rewrite (proj2 (Z.eqb_neq x0 0)) by done.
    split_and!; try done; try (unfold is_u32, is_byte; lia); [apply signature_ok_len; [by apply bytes_ok_sub|len_lia]|].
    replace [2] with [x1] by (f_equal; lia). replace [0] with [x] at 1 by (f_equal; lia).
    replace [0] with [x2] by (f_equal; lia). index_join. sub_join. symmetry. by apply sub_all.
Qed.

Lemma parse_relayresponse_exact data r :
  bytes_ok data ->
  ParseRelayResponseBlock data = Ok r <-> extension_ok (XRelayResponse r) /\ data = extension_body (XRelayResponse r).
Proof.
  intros Hok. cbn [extension_ok extension_body]. split; [by apply response_cases|].
  intros [(Hc & Hn & Hts & Hs & Hrest) ->]. pose proof (signature_len _ Hs). revert Hok.
  destruct r as [c n ts e s tok ht]. unfold ParseRelayResponseBlock, response_body, Version.
  cbn [RPCode RPNonce RPTimestamp RPEndpoint RPSignature RPToken RPHasToken] in *. unfold is_u32, is_u64 in *.
  intros Hok. destruct (Z.eqb_spec c 0) as [->|Hne].
  - destruct Hrest as (He & Htok & ->). pose proof (len_endpoint e He).
    assert (bytes_ok (endpoint_bytes e)) by (rewrite !bytes_ok_app in Hok; tauto).
    pose proof (validRelayEndpoint_ok e He) as Hv. set (eb := endpoint_bytes e) in *. go_eval.
    replace (negb (len eb =? 6) && negb (len eb =? 18)) with false by lia. go_eval.
    rewrite (proj2 (parseRelayEndpoint_exact eb e ltac:(done))) by done. go_eval.
    unfold validRelayResponse, validRelayResponseFields. cbn [RPSignature RPCode RPHasToken RPEndpoint].
    rewrite signature_nonempty by done. cbn. by rewrite Hv.
  - destruct Hrest as (-> & -> & ->). go_eval.
    unfold validRelayResponse, validRelayResponseFields. cbn [RPSignature RPCode RPHasToken RPEndpoint].
    rewrite signature_nonempty by done. zbool. done.
Qed.

Lemma signature_phase m s : bytes_ok s -> (m <=? 4) && (len s =? 0) = false <-> (m <= 4 -> s <> []).
Proof.
  intros Hs. split.
  - intros H Hm ->. change (len (@nil Z)) with 0 in H. lia.
  - intros H. destruct (Z.leb_spec m 4) as [Hm|]; [|done]. cbn. apply Z.eqb_neq. intros Hl.
    apply len_zero_nil in Hl. by apply H.
Qed.

(** The part of a parsed peer test after the address. *)
Ltac peertest_sound :=
  repeat first [progress be_bounds | go_step | go_index | (go_if; [done|])];
  match goal with |- context [AddrFromSlice ?s] => destruct (AddrFromSlice s) as [a|] eqn:Ea; [|done] end;
  repeat first [go_step | (go_if; [done|])]; intros [= <-]; be_uppers.

Ltac peertest_finish :=
  lazymatch goal with
  | Ea : AddrFromSlice ?s = Some ?a, Hok : bytes_ok ?data, Hver : negb (?v =? 2) = false, Hres : context [negb (?r =? 0)] |- _ =>
      let Ha := fresh in let Hab := fresh in
      assert (addr_ok a /\ s = addr_bytes a) as [Ha Hab]
        by (apply address_exact; [by apply bytes_ok_sub|repeat rewrite orb_false_iff in *; tauto]);
      unfold peertest_ok, peertest_body, endpoint_ok, endpoint_bytes, hash_ok, is_u32, is_byte, validPeerTestCode in *;
      cbn [PTMessage PTCode PTNonce PTTimestamp PTAddress PTHash PTHasHash PTSignature APAddr APPort] in *;
      rewrite <- Hab;
      split_and!; try done; try lia; try len_lia; try (by apply bytes_ok_sub);
      [ intros ? Hnil; apply (f_equal len) in Hnil; revert Hnil; len_simpl; lia
      | replace [2] with [v] by (f_equal; lia); replace [0] with [r] by (f_equal; lia); len_simpl;
        match goal with
        | H : index data ?i = Ok ?x3, _ : context [negb (?x3 =? 6)] |- context [[?n]] => replace [n] with [x3] by (f_equal; lia)
        end;
        rewrite <- ?app_assoc, ?app_nil_l; index_join; sub_join; symmetry; by apply sub_all ]
  end.

Lemma peertest_sound data t :
  bytes_ok data -> ParsePeerTestBlock data = Ok t -> peertest_ok t /\ data = peertest_body t.
Proof.
  intros Hok. unfold ParsePeerTestBlock, Version.
  repeat first [go_step | go_index | (go_if; [done|])].
  destruct ((x =? 2) || (x =? 4)) eqn:Ehash.
  - go_if; [done|]. repeat go_step. rewrite copy_full by len_lia. peertest_sound. peertest_finish.
  - peertest_sound. peertest_finish.
Qed.

Lemma parse_peertest_exact data t :
  bytes_ok data -> ParsePeerTestBlock data = Ok t <-> extension_ok (XPeerTest t) /\ data = extension_body (XPeerTest t).
Proof.
  intros Hok. cbn [extension_ok extension_body]. split; [by apply peertest_sound|].
  intros [(Hm & Hc & Hcode & Hn & Hts & He & Hhh & Hh & Hs & Hsig) ->]. revert Hok.
  destruct t as [m c n ts [a p] h hh s]. unfold ParsePeerTestBlock, peertest_body, Version.
  cbn [PTMessage PTCode PTNonce PTTimestamp PTAddress PTHash PTHasHash PTSignature] in *.
  unfold is_u32, endpoint_ok, endpoint_bytes in *. cbn [APAddr APPort] in *. destruct He as [Hp Ha].
  intros Hok. assert (bytes_ok (addr_bytes a)) as Hab by (rewrite !bytes_ok_app in Hok; tauto).
  destruct (proj2 (address_exact (addr_bytes a) a Hab) (conj Ha eq_refl)) as (Hfrom & Hu & Hi).
  apply (signature_phase m s Hs) in Hsig. clear Hok. pose proof (len_addr_bytes a Ha) as Hla.
  set (ab := addr_bytes a) in *. assert (validPeerTestCode m c = true) as Hv by (unfold validPeerTestCode; lia).
  len_pos. destruct Hla as [Hla|Hla], hh; first [subst h | destruct Hh as [Hh ?]];
    rewrite <- ?app_assoc, ?app_nil_l; go_eval; rewrite Hv, <- ?Hhh; go_eval;
    try (rewrite copy_full by len_lia); go_eval; rewrite Hfrom, Hu, Hi; go_eval.
  all: try done.
  all: match goal with |- context [if ?b then Err ErrPeerTest else _] => replace b with false; [done|] end.
  all: rewrite <- Hsig; do 2 f_equal; len_lia.
Qed.

Lemma parse_relaytagrequest_exact data r :
  ParseRelayTagRequestBlock data = Ok r <->
  extension_ok (XRelayTagRequest r) /\ data = extension_body (XRelayTagRequest r).
Proof.
  unfold ParseRelayTagRequestBlock. cbn [extension_ok extension_body]. split.
  - go_if; [done|]. intros _. split; [done|]. apply len_zero_nil. lia.
  - intros [_ ->]. by destruct r.
Qed.

Lemma parse_as_exact {A} (f : A -> Extension) (m : res A) data x :
  (forall a, m = Ok a <-> extension_ok (f a) /\ data = extension_body (f a)) ->
  Some (parse_as f m) = Some (Ok x) <-> exists a, x = f a /\ extension_ok x /\ data = extension_body x.
Proof.
  intros H. unfold parse_as, bind. split.
  - destruct m as [a| |]; [|done|done]. intros [= <-]. exists a. split; [done|]. by apply H.
  - intros (a & -> & Ha). by rewrite (proj2 (H a) Ha).
Qed.

Lemma ParseExtension_exact kind data x :
  bytes_ok data ->
  ParseExtension kind data = Some (Ok x) <->
    kind = extension_kind x /\ extension_ok x /\ data = extension_body x.
Proof.
  intros Hok. unfold ParseExtension.
  repeat match goal with |- context [if ?k =? ?c then _ else _] => destruct (Z.eqb_spec k c); [subst|] end.
  all: try (rewrite parse_as_exact by auto using parse_relayrequest_exact, parse_relayresponse_exact,
    parse_relayintro_exact, parse_peertest_exact, parse_relaytagrequest_exact, parse_relaytag_exact,
    parse_newtoken_exact, parse_pathchallenge_exact, parse_pathresponse_exact; split;
    [by intros (a & -> & Hx) | by intros (Hk & Hx); destruct x; try discriminate Hk; eexists]).
  split; [done|]. intros (Hk & _). by destruct x.
Qed.

(** C30: the nine structured SSU2 blocks (relay requests, responses and
    introductions, peer tests, relay tags, tokens and path probes) have exact
    codecs.  A parser accepts a body exactly when it is the wire form of a
    well-formed value of its type, and returns that value; encoding a
    well-formed value appends exactly the block header and that wire form. *)
Theorem extension_exact kind data x dst :
  bytes_ok data -> len data <= 65535 ->
  (ParseExtension kind data = Some (Ok x) <->
     kind = extension_kind x /\ extension_ok x /\ data = extension_body x) /\
  (extension_ok x -> data = extension_body x ->
     MarshalExtension dst x = Ok (dst ++ [extension_kind x] ++ be_bytes 2 (len data) ++ data)).
Proof.
  intros Hok Hl. split; [by apply ParseExtension_exact|]. by intros Hx ->; apply marshal_extension.
Qed.

Definition sample_request : RelayRequest :=
  mkRelayRequest 5 6 7 (mkAddrPort (Addr4 [192; 0; 2; 1]) 9000) [1; 2; 3].

Lemma sample_request_ok : request_ok sample_request.
Proof.
  unfold request_ok, is_u32, endpoint_ok, signature_ok. cbn.
  split_and!; try lia; try done; apply bytes_ok_check; reflexivity.
Qed.

Lemma extension_exact_witness :
  ParseExtension BlockRelayRequest (extension_body (XRelayRequest sample_request)) = Some (Ok (XRelayRequest sample_request)).
Proof.
  apply (extension_exact BlockRelayRequest (extension_body (XRelayRequest sample_request)) (XRelayRequest sample_request) []).
  - apply bytes_ok_check. vm_compute. reflexivity.
  - vm_compute. congruence.
  - split_and!; [done|apply sample_request_ok|done].
Defined.

(** ** Blocks *)

Definition is_extension (kind : Z) : Prop :=
  kind ∈ [BlockRelayRequest; BlockRelayResponse; BlockRelayIntro; BlockPeerTest; BlockRelayTagRequest;
          BlockRelayTag; BlockNewToken; BlockPathChallenge; BlockPathResponse].

(** What the protocol asks of a block's data, by its type. *)
Definition block_shape (b : Block) : Prop :=
  let n := len (BData b) in
  (BType b = BlockDateTime -> n = 4) /\ (BType b = BlockOptions -> 12 <= n) /\
  (BType b = BlockRouterInfo -> exists flag info, BData b = flag :: 1 :: info /\ flag < 4) /\
  (BType b = BlockI2NP -> 9 <= n) /\ (BType b = BlockFirstFragment -> 10 <= n) /\
  (BType b = BlockFollowOnFragment -> exists fragment data, BData b = fragment :: data /\ 2 <= fragment /\ 5 <= len data) /\
  (BType b = BlockTermination -> 9 <= n) /\ (BType b = BlockAddress -> n = 6 \/ n = 18) /\
  (is_extension (BType b) -> exists x, BType b = extension_kind x /\ extension_ok x /\ BData b = extension_body x).

Lemma ParseRelayRequestBlock_safe data : bytes_ok data -> safe (ParseRelayRequestBlock data).
Proof. intros Hok. unfold ParseRelayRequestBlock, parseRelayRequest, parseRelayEndpoint, AddrFromSlice. go_safe. Qed.

Lemma ParseRelayIntroBlock_safe data : bytes_ok data -> safe (ParseRelayIntroBlock data).
Proof.
  intros Hok. unfold ParseRelayIntroBlock, parseRelayRequest, parseRelayEndpoint, AddrFromSlice, safe.
  repeat first [ progress be_bounds | go_step | go_index | rewrite copy_full by len_lia | go_if ]; done.
Qed.

Lemma ParseRelayResponseBlock_safe data : bytes_ok data -> safe (ParseRelayResponseBlock data).
Proof. intros Hok. unfold ParseRelayResponseBlock, parseRelayEndpoint, AddrFromSlice. go_safe. Qed.

Lemma ParsePeerTestBlock_safe data : bytes_ok data -> safe (ParsePeerTestBlock data).
Proof.
  intros Hok. unfold ParsePeerTestBlock, AddrFromSlice, safe.
  repeat first [ progress be_bounds | go_step | go_index | rewrite copy_full by len_lia | go_if ]; done.
Qed.

Lemma check_Ok {A} (m : res A) : check m = Ok tt <-> exists a, m = Ok a.
Proof. destruct m; cbn; split; try done; [by eexists|by intros (? & ?)..]. Qed.

Lemma check_parse_as {A} (f : A -> Extension) (m : res A) : check (parse_as f m) = check m.
Proof. by destruct m. Qed.

Lemma ParseExtension_cases kind data :
  match ParseExtension kind data with
  | Some m => is_extension kind /\ validateBlock (mkBlock kind data) = check m
  | None => ~ is_extension kind
  end.
Proof.
  unfold ParseExtension.
  repeat match goal with |- context [if ?k =? ?c then _ else _] => destruct (Z.eqb_spec k c); [subst|] end.
  all: try (rewrite check_parse_as; split; [|done]).
  all: unfold is_extension; rewrite !elem_of_cons, elem_of_nil; tauto.
Qed.

Lemma land_252 d : 0 <= d < 256 -> Z.land d 252 = 0 <-> d < 4.
Proof.
  intros Hd. pose proof (exhaust (fun d => Bool.eqb (Z.land d 252 =? 0) (d <? 4)) 256 eq_refl d Hd) as H.
  apply Bool.eqb_prop in H. destruct (Z.eqb_spec (Z.land d 252) 0), (Z.ltb_spec d 4); split; done || lia.
Qed.

Lemma shiftr_1 d : 0 <= d < 256 -> Z.shiftr d 1 = 0 <-> d < 2.
Proof.
  intros Hd. pose proof (exhaust (fun d => Bool.eqb (Z.shiftr d 1 =? 0) (d <? 2)) 256 eq_refl d Hd) as H.
  apply Bool.eqb_prop in H. destruct (Z.eqb_spec (Z.shiftr d 1) 0), (Z.ltb_spec d 2); split; done || lia.
Qed.

Lemma routerinfo_exact d :
  bytes_ok d -> validateBlock (mkBlock BlockRouterInfo d) = Ok tt <->
  exists flag info, d = flag :: 1 :: info /\ flag < 4.
Proof.
  intros Hok. change (validateBlock (mkBlock BlockRouterInfo d)) with
    (fail_if len d <? 2 with ErrPacketLength ;; let? d0 := index d 0 in let? d1 := index d 1 in
     fail_if negb (Z.land d0 252 =? 0) || negb (d1 =? 1) with ErrPacketLength ;; Ok tt).
  destruct d as [|f [|g info]].
  1,2: split; [done|]; intros (? & ? & [=] & _).
  rewrite !len_cons. zbool. rewrite !index_cons_0. cbn [bind].
  change (index (f :: g :: info) 1) with (Ok g). cbn [bind].
  assert (0 <= f < 256) as Hf by (by apply Forall_inv in Hok).
  pose proof (land_252 f Hf). go_if; split; try done.
  - intros (? & ? & [= <- -> <-] & Hlt). lia.
  - intros _. exists f, info. split; [do 2 f_equal; lia|lia].
Qed.

Lemma followon_exact d :
  bytes_ok d -> validateBlock (mkBlock BlockFollowOnFragment d) = Ok tt <->
  exists fragment data, d = fragment :: data /\ 2 <= fragment /\ 5 <= len data.
Proof.
  intros Hok. change (validateBlock (mkBlock BlockFollowOnFragment d)) with
    (fail_if len d <=? 5 with ErrPacketLength ;; let? d0 := index d 0 in
     fail_if Z.shiftr d0 1 =? 0 with ErrPacketLength ;; Ok tt).
  destruct d as [|f data].
  { split; [done|]. intros (? & ? & [=] & _). }
  rewrite !len_cons, !index_cons_0. cbn [bind].
  assert (0 <= f < 256) as Hf by (by apply Forall_inv in Hok).
  pose proof (shiftr_1 f Hf). destruct (Z.leb_spec (1 + len data) 5); [split; [done|]|].
  { intros (? & ? & [= <- <-] & ?). lia. }
  go_if; split; try done.
  - intros (? & ? & [= <- <-] & Hlt). lia.
  - intros _. exists f, data. split_and!; [done|lia|lia].
Qed.

Lemma shape_extension x : extension_ok x -> block_shape (mkBlock (extension_kind x) (extension_body x)).
Proof. intros Hx. unfold block_shape. cbn [BType BData]. destruct x; split_and!; try done; intros _; by eexists. Qed.

Lemma validateBlock_exact b : bytes_ok (BData b) -> validateBlock b = Ok tt <-> block_shape b.
Proof.
  destruct b as [k d]. cbn [BData]. intros Hok. pose proof (ParseExtension_cases k d) as Hc.
  destruct (ParseExtension k d) as [m|] eqn:E.
  - destruct Hc as [Hk ->]. rewrite check_Ok. split.
    + intros (x & ->). apply ParseExtension_exact in E as (-> & Hx & ->); [|done]. by apply shape_extension.
    + intros (_ & _ & _ & _ & _ & _ & _ & _ & Hx). destruct (Hx Hk) as (x & Hk' & Hxok & Hd). exists x.
      cut (Some m = Some (Ok x)); [by intros [= ->]|]. rewrite <- E. by apply ParseExtension_exact.
  - destruct (decide (k = BlockRouterInfo)) as [->|Hri].
    { rewrite routerinfo_exact by done. unfold block_shape. cbn [BType BData]. split; [|tauto].
      intros H. split_and!; try done. }
    destruct (decide (k = BlockFollowOnFragment)) as [->|Hfo].
    { rewrite followon_exact by done. unfold block_shape. cbn [BType BData]. split; [|tauto].
      intros H. split_and!; try done. }
    unfold validateBlock, block_shape. cbn [BType BData].
    repeat match goal with |- context [if k =? ?c then _ else _] => destruct (Z.eqb_spec k c); [subst k|] end.
    all: try (exfalso; apply Hc; unfold is_extension; rewrite !elem_of_cons; tauto).
    all: try done.
    all: try (go_if; (split; [first [done | intros _; split_and!; intros ?; first [done | lia]] | intros H; first [done | naive_solver lia]])).
Qed.

Lemma small_parsers_safe data :
  safe (ParseRelayTagRequestBlock data) /\ safe (ParseRelayTagBlock data) /\ safe (ParseNewTokenBlock data) /\
  safe (ParsePathChallengeBlock data) /\ safe (ParsePathResponseBlock data).
Proof.
  unfold safe, ParseRelayTagRequestBlock, ParseRelayTagBlock, ParseNewTokenBlock, ParsePathChallengeBlock, ParsePathResponseBlock.
  split_and!; repeat first [go_step | rewrite copy_full by len_lia | go_if]; done.
Qed.

Lemma check_safe {A} (m : res A) : safe m -> safe (check m).
Proof. by destruct m. Qed.

Lemma validateBlock_safe b : bytes_ok (BData b) -> safe (validateBlock b).
Proof.
  destruct b as [k d]. cbn [BData]. intros Hok. unfold validateBlock. cbn [BType BData].
  destruct (small_parsers_safe d) as (? & ? & ? & ? & ?).
  repeat match goal with |- safe (if k =? ?c then _ else _) => destruct (k =? c) end.
  all: auto using check_safe, ParseRelayRequestBlock_safe, ParseRelayIntroBlock_safe,
    ParseRelayResponseBlock_safe, ParsePeerTestBlock_safe.
  all: go_safe.
Qed.

(** ** The grammar of a payload *)

Definition block_wire (b : Block) : bytes := [BType b] ++ be_bytes 2 (len (BData b)) ++ BData b.
Definition wires (bs : list Block) : bytes := concat (block_wire <$> bs).

Definition block_ok (b : Block) : Prop :=
  is_byte (BType b) /\ len (BData b) < 2 ^ 16 /\ bytes_ok (BData b) /\ block_shape b.

(** Padding comes last; after a termination block only padding may follow. *)
Fixpoint ordered (term : bool) (bs : list Block) : bool :=
  match bs with
  | [] => true
  | b :: bs =>
      if BType b =? BlockPadding then match bs with [] => true | _ => false end
      else negb term && ordered (BType b =? BlockTermination) bs
  end.

(** [payload] is the blocks [bs]. *)
Definition consists_of (term : bool) (payload : bytes) (bs : list Block) : Prop :=
  payload = wires bs /\ Forall block_ok bs /\ ordered term bs = true.

Lemma next_wire b bs term :
  block_ok b -> ordered term (b :: bs) = true ->
  NextBlock (mkIterator (wires (b :: bs)) term false) =
    (Ok (Some b), mkIterator (wires bs) (term || (BType b =? BlockTermination)) (BType b =? BlockPadding)).
Proof.
  intros (Ht & Hd & Hb & Hshape) Hord. change (wires (b :: bs)) with (block_wire b ++ wires bs).
  apply validateBlock_exact in Hshape; [|done].
  destruct b as [kind data]. unfold block_wire. cbn [BType BData] in *. len_pos.
  unfold NextBlock. go_unfold. cbn [rest terminated padded orb]. rewrite <- !app_assoc.
  cbn [ordered BType] in Hord.
  assert (term && negb (kind =? BlockPadding) = false) as Hterm.
  { destruct (kind =? BlockPadding); [apply andb_false_r|]. by destruct term. }
  go_eval. rewrite Hterm. go_eval. rewrite Hshape.
  replace (len ([kind] ++ be_bytes 2 (len data) ++ data ++ wires bs) - (3 + len data)) with (len (wires bs)) by len_lia.
  destruct (kind =? BlockPadding); [|done]. by destruct bs.
Qed.

Lemma next_sound l term b it :
  bytes_ok l -> NextBlock (mkIterator l term false) = (Ok (Some b), it) ->
  block_ok b /\ l = block_wire b ++ rest it /\ terminated it = (term || (BType b =? BlockTermination)) /\
  padded it = (BType b =? BlockPadding) /\ (term = true -> BType b = BlockPadding) /\
  (padded it = true -> rest it = []).
Proof.
  intros Hok. unfold NextBlock. go_unfold. cbn [rest terminated padded orb].
  repeat first [ progress be_bounds | go_step | go_index | (go_if; [done|]) ].
  destruct (validateBlock _) as [[]| |] eqn:Hv; [|done|done]. apply validateBlock_exact in Hv; [|by apply bytes_ok_sub].
  go_if; [done|]. intros [= <- <-]. cbn [BType BData rest terminated padded] in *. be_uppers.
  unfold block_ok, block_wire, is_byte. cbn [BType BData].
  split_and!; try done; try len_lia; try (by apply bytes_ok_sub).
  - len_simpl. match goal with |- context [be_bytes 2 ?e] => replace e with (be_val (sub 1 3 l)) by lia end.
    index_join. rewrite <- !app_assoc. sub_join. symmetry. apply sub_all. lia.
  - intros ->. destruct (Z.eqb_spec x BlockPadding); [done|]. done.
  - intros Hp. apply len_zero_nil. rewrite Hp in *. len_simpl. cbn in *. lia.
Qed.

Lemma next_returns it : bytes_ok (rest it) -> (NextBlock it).1 <> Panic.
Proof.
  intros Hok. destruct it as [l term pad]. unfold NextBlock. go_unfold. cbn [rest terminated padded] in *.
  repeat first [ progress be_bounds | go_step | go_index | (go_if; [done|]) ].
  pose proof (validateBlock_safe (mkBlock x (sub 3 (3 + be_val (sub 1 3 l)) l)) (bytes_ok_sub _ _ _ Hok)) as Hs.
  unfold safe in Hs. destruct (validateBlock _); [|done|done]. by go_if.
Qed.

Lemma next_done l term pad it :
  (pad = true -> l = []) -> bytes_ok l -> NextBlock (mkIterator l term pad) = (Ok None, it) -> l = [].
Proof.
  intros Hp Hok. unfold NextBlock. go_unfold. cbn [rest terminated padded].
  destruct (Z.eqb_spec (len l) 0) as [E|]; [intros _; by apply len_zero_nil|].
  repeat first [ progress be_bounds | go_step | go_index | (go_if; [done|]) ].
  destruct (validateBlock _); [|done|done]. by go_if.
Qed.

(** The body of a validator over a list of blocks. *)
Fixpoint steps {S} (step : S -> Block -> option S) (s : S) (bs : list Block) : option S :=
  match bs with
  | [] => Some s
  | b :: bs => match step s b with None => None | Some s => steps step s bs end
  end.

Lemma no_wires bs : wires bs = [] -> bs = [].
Proof. by destruct bs. Qed.

Lemma consists_nil term bs : consists_of term [] bs -> bs = [].
Proof. intros (Hw & _). by apply no_wires. Qed.

Section Scan.
Context {S : Type} (step : S -> Block -> option S).

Lemma scan_complete bs : forall fuel term pad s s',
  Forall block_ok bs -> ordered term bs = true -> (pad = true -> bs = []) -> (length bs < fuel)%nat ->
  steps step s bs = Some s' -> scan step fuel (mkIterator (wires bs) term pad) s = Ok (Some s').
Proof.
  induction bs as [|b bs IH]; intros [|fuel] term pad s s' Hall Hord Hpad Hf Hs; cbn [length] in Hf; try lia.
  { cbn in Hs |- *. by simplify_eq. }
  destruct pad; [by specialize (Hpad eq_refl)|]. apply Forall_cons in Hall as [Hb Hall].
  cbn [scan]. rewrite next_wire by done. cbn [steps] in Hs. destruct (step s b) as [s1|]; [|done].
  cbn [ordered] in Hord. destruct (BType b =? BlockPadding).
  - destruct bs; [|done]. apply IH; done || lia.
  - apply andb_prop in Hord as [Ht Hord]. destruct term; [done|]. apply IH; done || lia.
Qed.

Lemma scan_sound fuel : forall l term pad s s',
  bytes_ok l -> (pad = true -> l = []) -> scan step fuel (mkIterator l term pad) s = Ok (Some s') ->
  exists bs, consists_of term l bs /\ steps step s bs = Some s'.
Proof.
  induction fuel as [|fuel IH]; intros l term pad s s' Hok Hpad Hv; [done|].
  cbn [scan] in Hv. destruct (NextBlock (mkIterator l term pad)) as [[[b|]| |] it] eqn:E; try done.
  - destruct pad; [rewrite Hpad in E by done; done|].
    destruct (next_sound l term b it Hok E) as (Hb & -> & Ht & Hp & Hterm & Hlast).
    destruct (step s b) as [s1|] eqn:Es; [|done]. destruct it as [l' t' p']. cbn [rest terminated padded] in *. subst t' p'.
    apply bytes_ok_app in Hok as [_ Hok'].
    destruct (IH l' _ _ _ _ Hok' Hlast Hv) as (bs & (-> & Hall & Hord) & Hs).
    exists (b :: bs). split; [split_and!|]; [done|by constructor| |cbn [steps]; by rewrite Es].
    cbn [ordered]. destruct (BType b =? BlockPadding) eqn:Epad.
    + specialize (Hlast eq_refl). by apply no_wires in Hlast as ->.
    + destruct term; [specialize (Hterm eq_refl); lia|]. done.
  - apply next_done in E as ->; [|done|done]. simplify_eq. by exists [].
Qed.

Lemma scan_returns fuel : forall it s,
  bytes_ok (rest it) -> (padded it = true -> rest it = []) -> len (rest it) < Z.of_nat fuel ->
  scan step fuel it s <> Panic.
Proof.
  induction fuel as [|fuel IH]; intros [l term pad] s Hok Hpad Hf; cbn [rest padded] in *; [len_pos; lia|].
  cbn [scan]. pose proof (next_returns (mkIterator l term pad) Hok) as Hr.
  destruct (NextBlock (mkIterator l term pad)) as [[[b|]| |] it'] eqn:E; try done.
  destruct (step s b); [|done]. destruct pad; [rewrite Hpad in E by done; done|].
  destruct (next_sound l term b it' Hok E) as (_ & -> & _ & _ & _ & Hlast). apply bytes_ok_app in Hok as [_ Hok'].
  apply IH; [done|done|]. revert Hf. unfold block_wire. len_simpl. len_pos. lia.
Qed.

Lemma scan_no_error fuel : forall it s e, scan step fuel it s <> Err e.
Proof.
  induction fuel as [|fuel IH]; intros it s e; cbn [scan]; [done|].
  destruct (NextBlock it) as [[[b|]| |] it']; try done. destruct (step s b); [apply IH|done].
Qed.

Lemma length_wires bs : (length bs <= length (wires bs))%nat.
Proof.
  induction bs as [|b bs IH]; [done|]. change (wires (b :: bs)) with (block_wire b ++ wires bs).
  unfold block_wire. rewrite !length_app. cbn [length]. lia.
Qed.

(** A validator decides whether the payload is a sequence of blocks that its
    body accepts. *)
Lemma scanPayload_exact s accept payload :
  bytes_ok payload ->
  exists r, scanPayload step s accept payload = Ok r /\
    (r = true <-> exists bs s', consists_of false payload bs /\ steps step s bs = Some s' /\ accept s' = true).
Proof.
  intros Hok. unfold scanPayload, NewBlockIterator.
  pose proof (scan_returns (Datatypes.S (length payload)) (mkIterator payload false false) s Hok) as Hr.
  destruct (scan _ _ _ s) as [o| |] eqn:E; [| |exfalso; apply Hr; cbn; unfold len; done || lia].
  2:{ by apply scan_no_error in E. }
  cbn [bind]. eexists. split; [done|]. split.
  - destruct o as [s'|]; [|done]. intros Ha. apply scan_sound in E as (bs & Hc & Hs); [|done|done]. by exists bs, s'.
  - intros (bs & s' & (-> & Hall & Hord) & Hs & Ha).
    rewrite (scan_complete bs _ false false s s') in E; try done; [by simplify_eq|].
    pose proof (length_wires bs). lia.
Qed.
End Scan.

(** A validator returns, and accepts exactly the payloads of a grammar. *)
Definition decides (m : res bool) (P : Prop) : Prop := exists r, m = Ok r /\ (r = true <-> P).

Definition count (kind : Z) (bs : list Block) : Z := len (filter (fun b => BType b = kind) bs).

Definition only (kinds : list Z) (bs : list Block) : Prop := Forall (fun b => BType b ∈ kinds) bs.

Definition flag (b : bool) : Z := if b then 1 else 0.

Lemma count_cons kind b bs : count kind (b :: bs) = (if BType b =? kind then 1 else 0) + count kind bs.
Proof.
  unfold count. destruct (Z.eqb_spec (BType b) kind).
  - by rewrite filter_cons_True, len_cons.
  - by rewrite filter_cons_False.
Qed.

Lemma count_nil kind : count kind [] = 0.
Proof. done. Qed.

Lemma count_nonneg kind bs : 0 <= count kind bs.
Proof. apply len_nonneg. Qed.

Lemma flag_inj a b : flag a + 0 = flag b <-> a = b.
Proof. destruct a, b; cbn; split; done || lia. Qed.

Lemma handshake_steps bs : forall dt dt',
  steps handshakeStep dt bs = Some dt' <-> flag dt + count BlockDateTime bs = flag dt'.
Proof.
  induction bs as [|b bs IH]; intros dt dt'; cbn [steps].
  - rewrite count_nil, flag_inj. split; congruence.
  - rewrite count_cons. unfold handshakeStep at 1. pose proof (count_nonneg BlockDateTime bs).
    destruct (BType b =? BlockDateTime).
    + destruct dt; [|rewrite IH; cbn [flag]; split; intros; lia]. split; [done|]. destruct dt'; cbn [flag]; lia.
    + rewrite IH. split; intros; lia.
Qed.

(** A valid block of a structured type parses. *)
Lemma peertest_parses b : block_ok b -> BType b = BlockPeerTest -> exists t, ParsePeerTestBlock (BData b) = Ok t.
Proof.
  intros (_ & _ & Hok & Hs) Hk. destruct Hs as (_ & _ & _ & _ & _ & _ & _ & _ & Hx).
  destruct Hx as (x & Hkx & Hxok & Hd); [rewrite Hk; unfold is_extension; rewrite !elem_of_cons; tauto|].
  destruct x; cbn in Hkx; rewrite Hk in Hkx; try done. exists t. by apply parse_peertest_exact.
Qed.

Lemma response_parses b : block_ok b -> BType b = BlockRelayResponse -> exists r, ParseRelayResponseBlock (BData b) = Ok r.
Proof.
  intros (_ & _ & Hok & Hs) Hk. destruct Hs as (_ & _ & _ & _ & _ & _ & _ & _ & Hx).
  destruct Hx as (x & Hkx & Hxok & Hd); [rewrite Hk; unfold is_extension; rewrite !elem_of_cons; tauto|].
  destruct x; cbn in Hkx; rewrite Hk in Hkx; try done. exists r. by apply parse_relayresponse_exact.
Qed.

Lemma only_cons kinds b bs : only kinds (b :: bs) <-> BType b ∈ kinds /\ only kinds bs.
Proof. unfold only. by rewrite Forall_cons. Qed.

Lemma only_nil kinds : only kinds [].
Proof. constructor. Qed.

Definition peer_test_blocks : list Z := [BlockDateTime; BlockPeerTest; BlockPadding].

Lemma peertest_steps bs : forall dt pt dt' pt',
  Forall block_ok bs ->
  steps peerTestStep (dt, pt) bs = Some (dt', pt') <->
    only peer_test_blocks bs /\ flag dt + count BlockDateTime bs = flag dt' /\ flag pt + count BlockPeerTest bs = flag pt'.
Proof.
  induction bs as [|b bs IH]; intros dt pt dt' pt' Hall; cbn [steps].
  - rewrite !count_nil, !flag_inj. pose proof (only_nil peer_test_blocks). split; [intros [= <- <-]|intros (_ & -> & ->)]; done.
  - apply Forall_cons in Hall as [Hb Hall]. rewrite !count_cons, only_cons.
    pose proof (count_nonneg BlockDateTime bs). pose proof (count_nonneg BlockPeerTest bs).
    unfold peer_test_blocks at 1. rewrite !elem_of_cons, elem_of_nil. unfold peerTestStep at 1.
    destruct (Z.eqb_spec (BType b) BlockDateTime) as [->|H1]; [|destruct (Z.eqb_spec (BType b) BlockPeerTest) as [E|H2]].
    + destruct dt; [|rewrite IH by done; cbn; split; intros; destruct_and!; split_and!; done || lia || tauto].
      split; [done|]. destruct dt'; cbn; lia.
    + destruct pt; [split; [done|]; destruct pt'; cbn; lia|]. destruct (peertest_parses b Hb E) as (t & ->).
      rewrite IH by done. cbn [flag]. split; intros; destruct_and!; split_and!; done || lia || tauto.
    + destruct (Z.eqb_spec (BType b) BlockPadding).
      * rewrite IH by done. split; intros; destruct_and!; split_and!; done || lia || tauto.
      * split; [done|]. tauto.
Qed.

Definition hole_punch_blocks : list Z := [BlockDateTime; BlockAddress; BlockRelayResponse; BlockPadding].

Ltac steps_tac := split; intros; destruct_and?; split_and?; done || lia || tauto.

Lemma holepunch_steps bs : forall dt ad rs dt' ad' rs',
  Forall block_ok bs ->
  steps holePunchStep (dt, ad, rs) bs = Some (dt', ad', rs') <->
    only hole_punch_blocks bs /\ flag dt + count BlockDateTime bs = flag dt' /\
    flag ad + count BlockAddress bs = flag ad' /\ flag rs + count BlockRelayResponse bs = flag rs'.
Proof.
  induction bs as [|b bs IH]; intros dt ad rs dt' ad' rs' Hall; cbn [steps].
  - rewrite !count_nil, !flag_inj. pose proof (only_nil hole_punch_blocks).
    split; [intros [= <- <- <-]|intros (_ & -> & -> & ->)]; done.
  - apply Forall_cons in Hall as [Hb Hall]. rewrite !count_cons, only_cons.
    pose proof (count_nonneg BlockDateTime bs). pose proof (count_nonneg BlockAddress bs).
    pose proof (count_nonneg BlockRelayResponse bs).
    unfold hole_punch_blocks at 1. rewrite !elem_of_cons, elem_of_nil. unfold holePunchStep at 1.
    destruct (Z.eqb_spec (BType b) BlockDateTime) as [->|?];
      [|destruct (Z.eqb_spec (BType b) BlockAddress) as [->|?];
        [|destruct (Z.eqb_spec (BType b) BlockRelayResponse) as [E|?];
          [|destruct (Z.eqb_spec (BType b) BlockPadding); [|split; [done|tauto]]]]].
    + destruct dt; [split; [done|]; destruct dt'; cbn; lia|]. rewrite IH by done. cbn. steps_tac.
    + destruct ad; [split; [done|]; destruct ad'; cbn; lia|]. rewrite IH by done. cbn. steps_tac.
    + destruct rs; [split; [done|]; destruct rs'; cbn; lia|]. destruct (response_parses b Hb E) as (r & ->).
      rewrite IH by done. cbn [flag]. steps_tac.
    + rewrite IH by done. steps_tac.
Qed.

Definition confirmed_blocks : list Z := [BlockOptions; BlockI2NP; BlockPadding].

Lemma confirmed_steps bs : (exists u, steps confirmedStep tt bs = Some u) <-> only confirmed_blocks bs.
Proof.
  induction bs as [|b bs IH]; cbn [steps].
  - split; [intros _; apply only_nil|by eexists].
  - rewrite only_cons. unfold confirmed_blocks at 1. rewrite !elem_of_cons, elem_of_nil. unfold confirmedStep at 1.
    destruct (negb _ && _ && _) eqn:E.
    + split; [by intros (? & ?)|]. intros ([Hk|[Hk|[Hk|[]]]] & _); by rewrite Hk in E.
    + rewrite IH. split; [|tauto]. intros H. split; [|done].
      destruct (Z.eqb_spec (BType b) BlockOptions); [tauto|]. destruct (Z.eqb_spec (BType b) BlockI2NP); [tauto|].
      destruct (Z.eqb_spec (BType b) BlockPadding); [tauto|done].
Qed.

Lemma handshake_grammar payload :
  bytes_ok payload ->
  decides (validHandshakePayload payload)
    (8 <= len payload /\ exists bs, consists_of false payload bs /\ count BlockDateTime bs = 1).
Proof.
  intros Hok. unfold validHandshakePayload. destruct (Z.ltb_spec (len payload) 8).
  { exists false. split; [done|]. split; [done|lia]. }
  destruct (scanPayload_exact handshakeStep false (fun b => b) payload Hok) as (r & -> & Hr).
  exists r. split; [done|]. rewrite Hr. split.
  - intros (bs & s' & Hc & Hs & ->). split; [lia|]. exists bs. split; [done|]. by apply handshake_steps in Hs.
  - intros (_ & bs & Hc & Hn). exists bs, true. split_and!; [done| |done]. by apply handshake_steps.
Qed.

Lemma peertest_grammar payload :
  bytes_ok payload ->
  decides (validOutOfSessionPayload PeerTest payload)
    (exists bs, consists_of false payload bs /\ only peer_test_blocks bs /\
       count BlockDateTime bs = 1 /\ count BlockPeerTest bs = 1).
Proof.
  intros Hok. change (validOutOfSessionPayload PeerTest payload) with
    (scanPayload peerTestStep (false, false) (fun '(a, b) => a && b) payload).
  destruct (scanPayload_exact peerTestStep (false, false) (fun '(a, b) => a && b) payload Hok) as (r & -> & Hr).
  exists r. split; [done|]. rewrite Hr. split.
  - intros (bs & [a b] & Hc & Hs & Hab). apply andb_prop in Hab as [-> ->]. exists bs. split; [done|].
    apply peertest_steps in Hs; [done|apply Hc].
  - intros (bs & Hc & Hrest). exists bs, (true, true). split_and!; [done| |done]. apply peertest_steps; [apply Hc|done].
Qed.

Lemma holepunch_grammar payload :
  bytes_ok payload ->
  decides (validHolePunchPayload payload)
    (exists bs, consists_of false payload bs /\ only hole_punch_blocks bs /\
       count BlockDateTime bs = 1 /\ count BlockAddress bs = 1 /\ count BlockRelayResponse bs = 1).
Proof.
  intros Hok. unfold validHolePunchPayload.
  match goal with |- decides (scanPayload ?st ?s ?acc _) _ =>
    destruct (scanPayload_exact st s acc payload Hok) as (r & -> & Hr) end.
  exists r. split; [done|]. rewrite Hr. split.
  - intros (bs & [[a b] c] & Hc & Hs & Hab). apply andb_prop in Hab as [[-> ->]%andb_prop ->]. exists bs. split; [done|].
    apply holepunch_steps in Hs; [done|apply Hc].
  - intros (bs & Hc & Hrest). exists bs, (true, true, true). split_and!; [done| |done].
    apply holepunch_steps; [apply Hc|done].
Qed.

Lemma confirmed_grammar payload :
  bytes_ok payload ->
  decides (validConfirmedPayload payload)
    (exists b bs, consists_of false payload (b :: bs) /\ BType b = BlockRouterInfo /\ only confirmed_blocks bs).
Proof.
  intros Hok. unfold validConfirmedPayload, NewBlockIterator.
  pose proof (next_returns (mkIterator payload false false) Hok) as Hr.
  destruct (NextBlock (mkIterator payload false false)) as [[[b|]| |] it] eqn:E; [| | |done].
  2:{ exists false. split; [done|]. split; [done|]. intros (b & bs & Hc & _).
      apply next_done in E as ->; [|done|done]. by apply consists_nil in Hc. }
  2:{ exists false. split; [done|]. split; [done|]. intros (b & bs & (-> & Hall & Hord) & _).
      apply Forall_cons in Hall as [Hb _]. by rewrite next_wire in E. }
  destruct (next_sound payload false b it Hok E) as (Hb & -> & Ht & Hp & _ & Hlast).
  destruct (Z.eqb_spec (BType b) BlockRouterInfo) as [Hk|Hk]; cbn [negb].
  2:{ exists false. split; [done|]. split; [done|]. intros (b' & bs & (Hw & Hall & Hord) & Hk' & _).
      apply Forall_cons in Hall as [Hb' _]. rewrite Hw, next_wire in E by done. by simplify_eq. }
  destruct it as [l t p]. cbn [rest terminated padded] in *. rewrite Hk in Ht, Hp. cbn in Ht, Hp. subst t p.
  pose proof Hok as [_ Hok']%bytes_ok_app. set (fuel := S (length (block_wire b ++ l))).
  pose proof (scan_returns confirmedStep fuel (mkIterator l false false) tt Hok') as Hret.
  destruct (scan confirmedStep fuel (mkIterator l false false) tt) as [o| |] eqn:Es.
  2:{ by apply scan_no_error in Es. }
  2:{ exfalso. apply Hret; [done| |done]. subst fuel. cbn [rest]. rewrite length_app. unfold len. lia. }
  cbn [bind]. eexists. split; [done|]. split.
  - destruct o as [u|]; [|done]. intros _. apply scan_sound in Es as (bs & (-> & Hall & Hord) & Hs); [|done|done].
    exists b, bs. unfold consists_of. split_and!; [done|by constructor| |done|apply confirmed_steps; by exists u].
    cbn [ordered]. by rewrite Hk.
  - intros (b' & bs & (Hw & Hall & Hord) & Hk' & Ho). apply Forall_cons in Hall as [Hb' Hall].
    rewrite Hw, next_wire in E by done. injection E as -> <- _ _.
    apply confirmed_steps in Ho as (u & Hs). cbn [ordered] in Hord. rewrite Hk in Hord. cbn in Hord.
    rewrite (scan_complete confirmedStep bs fuel false false tt u) in Es; try done; [by simplify_eq|].
    pose proof (length_wires bs). subst fuel. rewrite length_app. lia.
Qed.

(** C29: the payload grammars of the handshake, Peer Test, Hole Punch and
    Session Confirmed packets.  On any payload each validator returns, and it
    accepts exactly the concatenations of well-formed blocks, with padding last
    and nothing but padding after a termination, that have: for a handshake or
    token packet, at least eight bytes and one DateTime; for a peer test, one
    DateTime, one PeerTest and at most padding besides; for a hole punch, one
    DateTime, one Address, one RelayResponse and at most padding besides; for a
    session confirmation, a RouterInfo followed only by options, messages and
    padding. *)
Theorem payload_grammars payload :
  bytes_ok payload ->
  decides (validHandshakePayload payload)
    (8 <= len payload /\ exists bs, consists_of false payload bs /\ count BlockDateTime bs = 1) /\
  decides (validOutOfSessionPayload PeerTest payload)
    (exists bs, consists_of false payload bs /\ only peer_test_blocks bs /\
       count BlockDateTime bs = 1 /\ count BlockPeerTest bs = 1) /\
  decides (validOutOfSessionPayload HolePunch payload)
    (exists bs, consists_of false payload bs /\ only hole_punch_blocks bs /\
       count BlockDateTime bs = 1 /\ count BlockAddress bs = 1 /\ count BlockRelayResponse bs = 1) /\
  decides (validConfirmedPayload payload)
    (exists b bs, consists_of false payload (b :: bs) /\ BType b = BlockRouterInfo /\ only confirmed_blocks bs).
Proof.
  intros Hok. split_and!.
  - by apply handshake_grammar.
  - by apply peertest_grammar.
  - by apply holepunch_grammar.
  - by apply confirmed_grammar.
Qed.

Lemma payload_grammars_witness :
  8 <= len [0; 0; 4; 1; 2; 3; 4; 254; 0; 1; 0] /\
  exists bs, consists_of false [0; 0; 4; 1; 2; 3; 4; 254; 0; 1; 0] bs /\ count BlockDateTime bs = 1.
Proof.
  destruct (payload_grammars [0; 0; 4; 1; 2; 3; 4; 254; 0; 1; 0]) as ((r & Hr & Hiff) & _).
  - apply bytes_ok_check. reflexivity.
  - apply Hiff. assert (Ok r = Ok true) as [= ->]; [|reflexivity]. rewrite <- Hr. vm_compute. reflexivity.
Defined.
