(* ===== verification/SSU2Packet.v ===== *)
(** SSU2 packets, [src/dataplane/internal/transport/ssu2]: long and short
    headers, header protection and the data-phase cipher ([packet.go]), the
    out-of-session packets ([token.go]) and path validation ([path.go]).

    The AEAD and the ChaCha20 keystream are those of [Chacha].  A [DataCipher]'s
    nonce buffer is scratch space that every call overwrites before use, so the
    nonce is a local of the call here. *)

From S2P Require Import Prelude Wire Chacha SSU2Blocks.

Definition ShortHeaderLen : Z := 16.
Definition LongHeaderLen : Z := 32.
Definition MinPacketLen : Z := 40.
Definition MaxIPv4PacketLen : Z := 1472.
Definition PacketTagLen : Z := ChaChaTagSize.

Definition SessionRequest : Z := 0.
Definition SessionCreated : Z := 1.
Definition SessionConfirmed : Z := 2.
Definition Data : Z := 6.

(** ** Headers *)

Record LongHeader := mkLong {
  LDestinationID : Z; LPacketNumber : Z; LType : Z; LVersion : Z; LNetworkID : Z; LFlags : Z;
  LSourceID : Z; LToken : Z }.

Definition ParseLongHeader (src : bytes) (expectedNetwork : Z) : res LongHeader :=
  fail_if len src <? LongHeaderLen with ErrShortBuffer ;;
  let? b := slice src 0 8 in
  let? destinationID := be_uint 8 b in
  let? b := slice src 8 12 in
  let? packetNumber := be_uint 4 b in
  let? kind := index src 12 in
  let? version := index src 13 in
  let? networkID := index src 14 in
  let? flags := index src 15 in
  let? b := slice src 16 24 in
  let? sourceID := be_uint 8 b in
  let? b := slice src 24 32 in
  let? token := be_uint 8 b in
  let header := mkLong destinationID packetNumber kind version networkID flags sourceID token in
  fail_if negb (version =? Version) || negb (networkID =? expectedNetwork) || negb (flags =? 0) with ErrNetwork ;;
  if bool_decide (kind ∈ [SessionRequest; SessionCreated; PeerTest; Retry; TokenRequest; HolePunch])
  then Ok header else Err ErrPacketType.

(** [LongHeader.MarshalTo]: [dst] after the call. *)
Definition MarshalLongTo (h : LongHeader) (dst : bytes) : res bytes :=
  fail_if len dst <? LongHeaderLen with ErrShortBuffer ;;
  fail_if negb (LVersion h =? Version) || negb (LFlags h =? 0) with ErrNetwork ;;
  let? dst := write dst 0 (be_bytes 8 (LDestinationID h)) in
  let? dst := write dst 8 (be_bytes 4 (LPacketNumber h)) in
  let? dst := write dst 12 [LType h] in
  let? dst := write dst 13 [LVersion h] in
  let? dst := write dst 14 [LNetworkID h] in
  let? dst := write dst 15 [LFlags h] in
  let? dst := write dst 16 (be_bytes 8 (LSourceID h)) in
  write dst 24 (be_bytes 8 (LToken h)).

Record ShortHeader := mkShort {
  SDestinationID : Z; SPacketNumber : Z; SType : Z; SFragment : Z; SFlags : Z }.

Definition ParseShortHeader (src : bytes) : res ShortHeader :=
  fail_if len src <? ShortHeaderLen with ErrShortBuffer ;;
  let? b := slice src 0 8 in
  let? destinationID := be_uint 8 b in
  let? b := slice src 8 12 in
  let? packetNumber := be_uint 4 b in
  let? kind := index src 12 in
  let? fragment := index src 13 in
  let? b := slice src 14 16 in
  let? flags := be_uint 2 b in
  let header := mkShort destinationID packetNumber kind fragment flags in
  if kind =? SessionConfirmed then
    fail_if negb (packetNumber =? 0) || (Z.shiftr fragment 4 =? 15) || (Z.land fragment 15 =? 0) || negb (flags =? 0)
      with ErrPacketType ;;
    Ok header
  else if kind =? Data then
    fail_if negb (Z.land fragment 254 =? 0) || negb (flags =? 0) with ErrPacketType ;;
    Ok header
  else Err ErrPacketType.

(** [ShortHeader.MarshalTo]: [dst] after the call. *)
Definition MarshalShortTo (h : ShortHeader) (dst : bytes) : res bytes :=
  fail_if len dst <? ShortHeaderLen with ErrShortBuffer ;;
  let? dst := write dst 0 (be_bytes 8 (SDestinationID h)) in
  let? dst := write dst 8 (be_bytes 4 (SPacketNumber h)) in
  let? dst := write dst 12 [SType h] in
  let? dst := write dst 13 [SFragment h] in
  write dst 14 (be_bytes 2 (SFlags h)).

Definition SameConnectionID (left right : Z) : bool :=
  (i32 (Z.shiftr left 32) =? i32 (Z.shiftr right 32)) && (i32 left =? i32 right).

(** ** Header protection *)

Section Packets.
Context `{P : Primitives}.

(** [chacha20.NewUnauthenticatedCipher] with a 12-byte nonce. *)
Definition NewUnauthenticatedCipher (key nonce : bytes) : res Stream :=
  fail_if negb (len key =? 32) with ErrKeyLength ;;
  fail_if negb (len nonce =? 12) with ErrNonceLength ;;
  Ok (mkStream key nonce 0).

Definition SetCounter (s : Stream) (counter : Z) : Stream := mkStream (skey s) (snonce s) counter.

(** [dst] after the call; the loop XORs its first eight bytes. *)
Definition xorHeaderMask (dst key nonce : bytes) : res bytes :=
  let? stream := NewUnauthenticatedCipher key nonce in
  let stream := SetCounter stream 1 in
  let mask := XORKeyStream stream (make_bytes 8) in
  let? head := slice dst 0 8 in
  write dst 0 (xor head mask).

(** [packet] after the call. *)
Definition ProtectHeader (packet headerKey1 headerKey2 : bytes) (extra : Z) : res bytes :=
  fail_if negb (len headerKey1 =? ChaChaKeySize) || negb (len headerKey2 =? ChaChaKeySize)
    || (len packet <? MinPacketLen) || (len packet >? MaxIPv4PacketLen) with ErrHeaderProtection ;;
  fail_if negb (extra =? 0) && (negb (extra =? 16) && negb (extra =? 48)) with ErrHeaderProtection ;;
  fail_if len packet <? ShortHeaderLen + extra with ErrHeaderProtection ;;
  let? head := slice packet 0 8 in
  let? nonce := slice packet (len packet - 24) (len packet - 12) in
  let? head := xorHeaderMask head headerKey1 nonce in
  let? packet := write packet 0 head in
  let? head := slice packet 8 16 in
  let? nonce := slice_from packet (len packet - 12) in
  let? head := xorHeaderMask head headerKey2 nonce in
  let? packet := write packet 8 head in
  if negb (extra =? 0) then
    let? stream := NewUnauthenticatedCipher headerKey2 (make_bytes 12) in
    let stream := SetCounter stream 1 in
    let? tail := slice packet 16 (16 + extra) in
    write packet 16 (XORKeyStream stream tail)
  else Ok packet.

(** [extension] after the call. *)
Definition maskHeaderExtension (extension introKey : bytes) : res bytes :=
  fail_if negb (len extension =? 16) with ErrHandshake ;;
  let? stream := NewChaCha20Stream introKey (make_bytes 12) in
  Ok (XORKeyStream stream extension).

(** The AEAD nonce of a packet number. *)
Definition packetNonce (packetNumber : Z) : bytes := make_bytes 4 ++ le_bytes 8 packetNumber.

(** ** The data phase *)

Record DataCipher := mkDataCipher {
  aead : option ChaCha20Poly1305; headerKey1 : bytes; headerKey2 : bytes; released : bool }.

Definition NewDataCipher (dataKey key1 key2 : bytes) : res DataCipher :=
  let? a := NewChaCha20Poly1305 dataKey in
  fail_if negb (len key1 =? ChaChaKeySize) || negb (len key2 =? ChaChaKeySize) with ErrKeyLength ;;
  Ok (mkDataCipher (Some a) key1 key2 false).

Definition ReleaseDataCipher (c : DataCipher) : DataCipher :=
  if released c then c
  else mkDataCipher None (make_bytes 32) (make_bytes 32) true.

(** [dst] after the call and the length of the packet at its start. *)
Definition SealDataTo (c : DataCipher) (dst : bytes) (header : ShortHeader) (plaintext : bytes) : res (bytes * Z) :=
  fail_if released c with ErrSensitiveReleased ;;
  fail_if negb (SType header =? Data) || negb (Z.land (SFragment header) 254 =? 0) || negb (SFlags header =? 0)
    || (len plaintext <? 8) with ErrPacketLength ;;
  let total := ShortHeaderLen + len plaintext + PacketTagLen in
  fail_if total >? MaxIPv4PacketLen with ErrPacketLength ;;
  fail_if len dst <? total with ErrShortBuffer ;;
  let? h := slice dst 0 ShortHeaderLen in
  let? h := MarshalShortTo header h in
  let? dst := write dst 0 h in
  let nonce := packetNonce (SPacketNumber header) in
  let? body := slice dst ShortHeaderLen total in
  let? ad := slice dst 0 ShortHeaderLen in
  let? body := match aead c with Some a => SealTo a body nonce plaintext ad | None => Err ErrSensitiveReleased end in
  let? dst := write dst ShortHeaderLen body in
  let? packet := slice dst 0 total in
  let? packet := ProtectHeader packet (headerKey1 c) (headerKey2 c) 0 in
  let? dst := write dst 0 packet in
  Ok (dst, total).

(** The packet buffer is unprotected in place; the plaintext goes to [dst]. *)
Definition OpenDataTo (c : DataCipher) (dst : bytes) : go bytes (ShortHeader * bytes) :=
  if released c then fail ErrSensitiveReleased
  else
    let! packet := get in
    if (len packet <? MinPacketLen) || (len packet >? MaxIPv4PacketLen) then fail ErrPacketLength
    else
      let! packet := lift (ProtectHeader packet (headerKey1 c) (headerKey2 c) 0) in
      let! _ := put packet in
      let! h := lift (slice packet 0 ShortHeaderLen) in
      let! header := lift (ParseShortHeader h) in
      let nonce := packetNonce (SPacketNumber header) in
      let! body := lift (slice_from packet ShortHeaderLen) in
      let! plain := lift (match aead c with
                          | Some a => OpenTo a dst nonce body h
                          | None => Err ErrSensitiveReleased
                          end) in
      ret (header, plain).

(** ** Out-of-session packets: [token.go] *)

(** The packet: the first [total] bytes of [dst] after the call. *)
Definition buildOutOfSession (dst introKey : bytes) (header : LongHeader) (payload : bytes) : res bytes :=
  fail_if negb (len introKey =? ChaChaKeySize) || (LDestinationID header =? 0) || (LSourceID header =? 0)
    || SameConnectionID (LDestinationID header) (LSourceID header) with ErrHandshake ;;
  let? valid := validOutOfSessionPayload (LType header) payload in
  fail_if negb valid with ErrHandshake ;;
  fail_if negb (bool_decide (LType header ∈ [TokenRequest; Retry; PeerTest; HolePunch])) with ErrPacketType ;;
  let total := LongHeaderLen + len payload + PacketTagLen in
  fail_if (total <? MinPacketLen) || (total >? MaxIPv4PacketLen) with ErrPacketLength ;;
  fail_if len dst <? total with ErrShortBuffer ;;
  let? h := slice dst 0 LongHeaderLen in
  let? h := MarshalLongTo header h in
  let? dst := write dst 0 h in
  let nonce := packetNonce (LPacketNumber header) in
  let? aead := NewChaCha20Poly1305 introKey in
  let? body := slice dst LongHeaderLen total in
  let? ad := slice dst 0 LongHeaderLen in
  let? body := SealTo aead body nonce payload ad in
  let? dst := write dst LongHeaderLen body in
  let? extension := slice dst 16 LongHeaderLen in
  let? extension := maskHeaderExtension extension introKey in
  let? dst := write dst 16 extension in
  let? packet := slice dst 0 total in
  let? packet := ProtectHeader packet introKey introKey 0 in
  let? dst := write dst 0 packet in
  slice dst 0 total.

(** The call consumes the packet buffer: it unmasks and decrypts in place. *)
Definition parseOutOfSession (packet introKey : bytes) (expected networkID : Z) : res (LongHeader * bytes) :=
  fail_if (len packet <? LongHeaderLen + PacketTagLen + 8) || (len packet >? MaxIPv4PacketLen)
    || negb (len introKey =? ChaChaKeySize) with ErrHandshake ;;
  let? packet := ProtectHeader packet introKey introKey 0 in
  let? extension := slice packet 16 LongHeaderLen in
  let? extension := maskHeaderExtension extension introKey in
  let? packet := write packet 16 extension in
  let? h := slice packet 0 LongHeaderLen in
  match ParseLongHeader h networkID with
  | Panic => Panic
  | Err _ => Err ErrHandshake
  | Ok header =>
      fail_if (negb (expected =? 0) && negb (LType header =? expected)) || (LDestinationID header =? 0)
        || (LSourceID header =? 0) with ErrHandshake ;;
      fail_if negb (bool_decide (LType header ∈ [TokenRequest; Retry; PeerTest; HolePunch])) with ErrHandshake ;;
      let nonce := packetNonce (LPacketNumber header) in
      let? aead := NewChaCha20Poly1305 introKey in
      let? plaintext := slice packet LongHeaderLen (len packet - PacketTagLen) in
      let? body := slice_from packet LongHeaderLen in
      match OpenTo aead plaintext nonce body h with
      | Panic => Panic
      | Err _ => Err ErrHandshake
      | Ok plain =>
          let? valid := validOutOfSessionPayload (LType header) plain in
          fail_if negb valid with ErrHandshake ;;
          Ok (header, plain)
      end
  end.

Definition BuildTokenRequest (dst introKey : bytes) (destinationID sourceID packetNumber : Z) (payload : bytes) (networkID : Z) : res bytes :=
  buildOutOfSession dst introKey (mkLong destinationID packetNumber TokenRequest Version networkID 0 sourceID 0) payload.

Definition ParseTokenRequest (packet introKey : bytes) (networkID : Z) : res (LongHeader * bytes) :=
  parseOutOfSession packet introKey TokenRequest networkID.

Definition ParseOutOfSession (packet introKey : bytes) (networkID : Z) : res (LongHeader * bytes) :=
  parseOutOfSession packet introKey 0 networkID.

Definition BuildRetry (dst introKey : bytes) (destinationID sourceID token packetNumber : Z) (payload : bytes) (networkID : Z) : res bytes :=
  buildOutOfSession dst introKey (mkLong destinationID packetNumber Retry Version networkID 0 sourceID token) payload.

Definition ParseRetry (packet introKey : bytes) (networkID : Z) : res (LongHeader * bytes) :=
  parseOutOfSession packet introKey Retry networkID.

Definition BuildPeerTest (dst introKey : bytes) (destinationID sourceID packetNumber : Z) (payload : bytes) (networkID : Z) : res bytes :=
  buildOutOfSession dst introKey (mkLong destinationID packetNumber PeerTest Version networkID 0 sourceID 0) payload.

Definition ParsePeerTest (packet introKey : bytes) (networkID : Z) : res (LongHeader * bytes) :=
  parseOutOfSession packet introKey PeerTest networkID.

Definition BuildHolePunch (dst introKey : bytes) (destinationID sourceID token packetNumber : Z) (payload : bytes) (networkID : Z) : res bytes :=
  buildOutOfSession dst introKey (mkLong destinationID packetNumber HolePunch Version networkID 0 sourceID token) payload.

Definition ParseHolePunch (packet introKey : bytes) (networkID : Z) : res (LongHeader * bytes) :=
  parseOutOfSession packet introKey HolePunch networkID.
End Packets.

(** ** Path validation: [path.go] *)

Module Path.
Record PathValidator := mkPath { challenge : bytes; length_ : Z; deadline : Z; active : bool }.

(** The zero value, with its 16-byte array. *)
Definition zero : PathValidator := mkPath (make_bytes 16) 0 0 false.

Definition Begin (c : bytes) (d : Z) : go PathValidator bool :=
  let! p := get in
  if (len c <? 8) || (len c >? len (challenge p)) then ret false
  else
    let! buffer := lift (copy_at (challenge p) 0 c) in
    let! _ := put (mkPath buffer (u8 (len c)) d true) in
    ret true.

Definition Validate (response : bytes) (now : Z) : go PathValidator bool :=
  let! p := get in
  if negb (active p) || (now >? deadline p) || negb (len response =? length_ p) then ret false
  else
    let! expected := lift (slice (challenge p) 0 (length_ p)) in
    let valid := bytes_eqb expected response in
    if valid then
      let! _ := put (mkPath (challenge p) (length_ p) (deadline p) false) in ret valid
    else ret valid.

Definition Expired (now : Z) : go PathValidator bool :=
  let! p := get in
  if active p && (now >? deadline p) then
    let! _ := put (mkPath (challenge p) (length_ p) (deadline p) false) in ret true
  else ret false.
End Path.

(** ** Wire forms of the headers *)

Definition long_wire (h : LongHeader) : bytes :=
  be_bytes 8 (LDestinationID h) ++ be_bytes 4 (LPacketNumber h) ++ [LType h] ++ [LVersion h] ++ [LNetworkID h] ++
  [LFlags h] ++ be_bytes 8 (LSourceID h) ++ be_bytes 8 (LToken h).

Definition long_kinds : list Z := [SessionRequest; SessionCreated; PeerTest; Retry; TokenRequest; HolePunch].

Definition long_ok (network : Z) (h : LongHeader) : Prop :=
  is_u64 (LDestinationID h) /\ is_u32 (LPacketNumber h) /\ LType h ∈ long_kinds /\ LVersion h = 2 /\
  LNetworkID h = network /\ LFlags h = 0 /\ is_u64 (LSourceID h) /\ is_u64 (LToken h).

Definition short_wire (h : ShortHeader) : bytes :=
  be_bytes 8 (SDestinationID h) ++ be_bytes 4 (SPacketNumber h) ++ [SType h] ++ [SFragment h] ++ be_bytes 2 (SFlags h).

(** A data header: only the immediate-acknowledgement bit may be set. *)
Definition data_header (h : ShortHeader) : Prop :=
  is_u64 (SDestinationID h) /\ is_u32 (SPacketNumber h) /\ SType h = Data /\
  (SFragment h = 0 \/ SFragment h = 1) /\ SFlags h = 0.

Lemma len_long_wire h : len (long_wire h) = 32.
Proof. unfold long_wire. len_lia. Qed.

Lemma len_short_wire h : len (short_wire h) = 16.
Proof. unfold short_wire. len_lia. Qed.

Lemma MarshalLongTo_ok h dst :
  LVersion h = 2 -> LFlags h = 0 -> 32 <= len dst -> MarshalLongTo h dst = Ok (over (long_wire h) dst).
Proof.
  intros Hv Hf Hd. unfold MarshalLongTo, LongHeaderLen, Version. zbool. write_run dst.
  cbn [app]. unfold long_wire. by rewrite <- !app_assoc.
Qed.

Lemma MarshalShortTo_ok h dst : 16 <= len dst -> MarshalShortTo h dst = Ok (over (short_wire h) dst).
Proof.
  intros Hd. unfold MarshalShortTo, ShortHeaderLen. zbool. write_run dst.
  cbn [app]. unfold short_wire. by rewrite <- !app_assoc.
Qed.

(** Names a big-endian field and keeps only its length and value. *)
Ltac be_abstract v :=
  match goal with |- context [be_bytes ?n v] =>
    let b := fresh "b" in let Hl := fresh "Hl" in let Hv := fresh "Hv" in
    pose proof (len_be_bytes n v) as Hl; pose proof (be_val_small n v ltac:(lia)) as Hv;
    set (b := be_bytes n v) in *; clearbody b
  end.

Lemma ParseLongHeader_ok network h : long_ok network h -> ParseLongHeader (long_wire h) network = Ok h.
Proof.
  destruct h as [d n k v net f s t]. unfold long_ok, long_wire, ParseLongHeader, LongHeaderLen, Version, is_u32, is_u64.
  cbn [LDestinationID LPacketNumber LType LVersion LNetworkID LFlags LSourceID LToken].
  intros (Hd & Hn & Hk & Hv & Hnet & Hf & Hs & Ht).
  be_abstract d. be_abstract n. be_abstract s. be_abstract t.
  go_eval. rewrite bool_decide_eq_true_2 by exact Hk. congruence.
Qed.

Lemma ParseLongHeader_sound network src h :
  bytes_ok src -> ParseLongHeader src network = Ok h -> long_ok network h /\ sub 0 32 src = long_wire h.
Proof.
  intros Hok. unfold ParseLongHeader, LongHeaderLen, Version.
  repeat first [progress be_bounds | go_step | go_index | (go_if; [done|])].
  destruct (bool_decide _) eqn:Ek; [|done]. apply bool_decide_eq_true in Ek. intros [= <-]. be_uppers.
  unfold long_ok, long_wire, is_u64, is_u32.
  cbn [LDestinationID LPacketNumber LType LVersion LNetworkID LFlags LSourceID LToken].
  split_and!; try done; try lia. index_join. by sub_join.
Qed.

Lemma land_254 f : f = 0 \/ f = 1 -> Z.land f 254 = 0.
Proof. by intros [-> | ->]. Qed.

Lemma ParseShortHeader_data h : data_header h -> ParseShortHeader (short_wire h) = Ok h.
Proof.
  destruct h as [d n k f fl]. unfold data_header, short_wire, ParseShortHeader, ShortHeaderLen, is_u32, is_u64.
  cbn [SDestinationID SPacketNumber SType SFragment SFlags].
  intros (Hd & Hn & -> & Hf & ->). go_eval. rewrite land_254 by done. done.
Qed.

Lemma SameConnectionID_eq a b : is_u64 a -> is_u64 b -> SameConnectionID a b = (a =? b).
Proof.
  unfold is_u64, SameConnectionID, i32. intros Ha Hb. rewrite !Z.shiftr_div_pow2 by lia.
  pose proof (Z.div_mod a (2 ^ 32) ltac:(lia)). pose proof (Z.div_mod b (2 ^ 32) ltac:(lia)).
  pose proof (Z.mod_pos_bound a (2 ^ 32) ltac:(lia)). pose proof (Z.mod_pos_bound b (2 ^ 32) ltac:(lia)).
  assert (0 <= a / 2 ^ 32 < 2 ^ 32) by (split; [apply Z.div_pos|apply Z.div_lt_upper_bound]; lia).
  assert (0 <= b / 2 ^ 32 < 2 ^ 32) by (split; [apply Z.div_pos|apply Z.div_lt_upper_bound]; lia).
  destruct (Z.eqb_spec a b) as [->|Hne]; [by rewrite !Z.eqb_refl|].
  apply andb_false_iff. rewrite !Z.eqb_neq.
  destruct (decide (a / 2 ^ 32 = b / 2 ^ 32)) as [E|E]; [right|left].
  - intros Hm. apply Hne. assert ((a + 2 ^ 31) mod 2 ^ 32 = (b + 2 ^ 31) mod 2 ^ 32) as Hmm by lia.
    assert (a mod 2 ^ 32 = b mod 2 ^ 32); [|nia].
    replace a with (a + 2 ^ 31 - 2 ^ 31) by lia. replace b with (b + 2 ^ 31 - 2 ^ 31) by lia.
    by rewrite Zminus_mod, Hmm, <- Zminus_mod.
  - intros Hm. apply E.
    assert ((a / 2 ^ 32 + 2 ^ 31) mod 2 ^ 32 = (b / 2 ^ 32 + 2 ^ 31) mod 2 ^ 32) as Hmm by lia.
    rewrite <- (Z.mod_small (a / 2 ^ 32) (2 ^ 32)), <- (Z.mod_small (b / 2 ^ 32) (2 ^ 32)) by lia.
    replace (a / 2 ^ 32) with (a / 2 ^ 32 + 2 ^ 31 - 2 ^ 31) by lia.
    replace (b / 2 ^ 32) with (b / 2 ^ 32 + 2 ^ 31 - 2 ^ 31) by lia.
    by rewrite Zminus_mod, Hmm, <- Zminus_mod.
Qed.

(** ** Header protection is its own inverse *)

Section Protection.
Context `{P : Primitives} {L : PrimitivesLaws P}.

(** The mask of eight header bytes. *)
Definition mask (key nonce : bytes) : bytes := xor (make_bytes 8) (keystream key nonce 1 8).

Lemma len_mask key nonce : len (mask key nonce) = 8.
Proof. unfold mask. rewrite len_xor; [done|]. by rewrite len_keystream. Qed.

Lemma len_xor_mask x key nonce : len x = 8 -> len (xor x (mask key nonce)) = 8.
Proof. intros Hx. rewrite len_xor; [done|]. by rewrite len_mask. Qed.

Lemma xorHeaderMask_ok dst key nonce :
  len dst = 8 -> len key = 32 -> len nonce = 12 -> xorHeaderMask dst key nonce = Ok (xor dst (mask key nonce)).
Proof.
  intros Hd Hk Hn. unfold xorHeaderMask, NewUnauthenticatedCipher. zbool. cbn [bind SetCounter skey snonce].
  rewrite slice_ok by lia. cbn [bind]. rewrite sub_all by done.
  change (XORKeyStream _ (make_bytes 8)) with (mask key nonce).
  pose proof (len_xor_mask dst key nonce Hd) as Hx. rewrite (over_nil dst) at 1.
  rewrite write_over by len_lia. cbn [app]. by rewrite over_full by lia.
Qed.

(** The keystream of the long-header tail. *)
Definition tail_stream (key : bytes) (n : Z) : bytes := keystream key (make_bytes 12) 1 n.

Lemma len_tail_stream key n : 0 <= n -> len (tail_stream key n) = n.
Proof. apply len_keystream. Qed.

Definition protected (k1 k2 a b d e : bytes) : bytes :=
  xor a (mask k1 (sub (len e - 24) (len e - 12) e)) ++ xor b (mask k2 (sub (len e - 12) (len e) e)) ++
  xor d (tail_stream k2 (len d)) ++ e.

Lemma len_protected k1 k2 a b d e :
  len a = 8 -> len b = 8 -> len (protected k1 k2 a b d e) = len (a ++ b ++ d ++ e).
Proof.
  intros Ha Hb. unfold protected. rewrite !len_app, !len_xor; rewrite ?len_mask, ?len_tail_stream by len_lia; lia.
Qed.

Lemma ProtectHeader_ok k1 k2 a b d e :
  len k1 = 32 -> len k2 = 32 -> len a = 8 -> len b = 8 -> len d ∈ [0; 16; 48] -> 24 <= len e ->
  len (a ++ b ++ d ++ e) <= 1472 ->
  ProtectHeader (a ++ b ++ d ++ e) k1 k2 (len d) = Ok (protected k1 k2 a b d e).
Proof.
  intros Hk1 Hk2 Ha Hb Hd He Hmax. unfold ProtectHeader, ChaChaKeySize, MinPacketLen, MaxIPv4PacketLen, ShortHeaderLen.
  set (l := a ++ b ++ d ++ e) in *. assert (len l = 16 + len d + len e) as Hl by (subst l; len_lia).
  len_pos. zbool.
  assert (negb (len d =? 0) && (negb (len d =? 16) && negb (len d =? 48)) = false) as ->.
  { rewrite !elem_of_cons, elem_of_nil in Hd. destruct Hd as [->|[->|[->|[]]]]; done. }
  zbool. rewrite !slice_ok by lia. cbn [bind]. replace (sub 0 8 l) with a by (subst l; by sub_norm).
  replace (sub (len l - 24) (len l - 12) l) with (sub (len e - 24) (len e - 12) e)
    by (rewrite Hl; subst l; rewrite !sub_app_r by lia; f_equal; lia).
  rewrite xorHeaderMask_ok by len_lia. cbn [bind]. subst l. clear Hl.
  rewrite write_prefix by (rewrite len_xor_mask; lia). cbn [bind].
  set (a' := xor a _). assert (len a' = 8) as Ha' by (by apply len_xor_mask).
  set (l := a' ++ b ++ d ++ e). assert (len l = 16 + len d + len e) as Hl' by (subst l; len_lia).
  rewrite !slice_ok, slice_from_ok by lia. cbn [bind]. replace (sub 8 16 l) with b by (subst l; by sub_norm).
  replace (sub (len l - 12) (len l) l) with (sub (len e - 12) (len e) e)
    by (rewrite Hl'; subst l; rewrite !sub_app_r by lia; f_equal; lia).
  rewrite xorHeaderMask_ok by len_lia. cbn [bind]. subst l.
  rewrite write_middle by (rewrite ?len_xor_mask; lia). cbn [bind].
  set (b' := xor b _). assert (len b' = 8) as Hb' by (by apply len_xor_mask).
  unfold protected. fold a' b'. destruct (Z.eqb_spec (len d) 0) as [E|E]; cbn [negb].
  { apply len_zero_nil in E as ->. done. }
  unfold NewUnauthenticatedCipher, SetCounter. zbool. cbn [bind skey snonce].
  rewrite slice_ok by len_lia. cbn [bind]. replace (sub 16 (16 + len d) (a' ++ b' ++ d ++ e)) with d by (by sub_norm).
  unfold XORKeyStream, tail_stream. cbn [skey snonce scounter].
  rewrite (app_assoc a' b'), write_middle, <- app_assoc; [done|len_lia|].
  rewrite len_xor; [done|]. by rewrite len_keystream.
Qed.

Lemma xor_mask_twice x key nonce : len x = 8 -> xor (xor x (mask key nonce)) (mask key nonce) = x.
Proof. intros. apply xor_xor. by rewrite len_mask. Qed.

(** Splitting a packet at the protected fields. *)
Lemma packet_split (packet : bytes) extra :
  0 <= extra -> 16 + extra <= len packet ->
  packet = sub 0 8 packet ++ sub 8 16 packet ++ sub 16 (16 + extra) packet ++ sub (16 + extra) (len packet) packet.
Proof. intros. sub_join. symmetry. by apply sub_all. Qed.

Lemma protect_twice k1 k2 a b d e :
  len k1 = 32 -> len k2 = 32 -> len a = 8 -> len b = 8 -> len d ∈ [0; 16; 48] -> 24 <= len e ->
  len (a ++ b ++ d ++ e) <= 1472 ->
  ProtectHeader (protected k1 k2 a b d e) k1 k2 (len d) = Ok (a ++ b ++ d ++ e).
Proof.
  intros Hk1 Hk2 Ha Hb Hd He Hmax. pose proof (len_nonneg d) as Hd0.
  assert (len (xor d (tail_stream k2 (len d))) = len d) as Hxd by (rewrite len_xor; by rewrite ?len_tail_stream).
  pose proof (len_protected k1 k2 a b d e Ha Hb) as Hlen. unfold protected in *.
  rewrite <- Hxd at 2. rewrite ProtectHeader_ok; rewrite ?Hlen, ?Hxd; try done; [|by apply len_xor_mask..].
  unfold protected. rewrite Hxd, !xor_mask_twice by done. f_equal. rewrite xor_xor; [done|]. by rewrite len_tail_stream.
Qed.

(** header protection is its own inverse and touches nothing but the header.
    On any packet that leaves the 24 nonce bytes at its end outside the
    protected fields, [ProtectHeader] succeeds, changes at most the first
    [16 + extra] bytes, and a second application restores the packet. *)
Theorem ProtectHeader_involutive packet k1 k2 extra :
  len k1 = 32 -> len k2 = 32 -> extra ∈ [0; 16; 48] -> 16 + extra + 24 <= len packet <= 1472 ->
  exists out, ProtectHeader packet k1 k2 extra = Ok out /\ len out = len packet /\
    sub (16 + extra) (len packet) out = sub (16 + extra) (len packet) packet /\
    ProtectHeader out k1 k2 extra = Ok packet.
Proof.
  intros Hk1 Hk2 He Hl. assert (0 <= extra) as H0.
  { rewrite !elem_of_cons, elem_of_nil in He. lia. }
  pose proof (packet_split packet extra H0 ltac:(lia)) as Hp.
  set (a := sub 0 8 packet) in *. set (b := sub 8 16 packet) in *. set (d := sub 16 (16 + extra) packet) in *.
  set (e := sub (16 + extra) (len packet) packet) in *.
  assert (len a = 8 /\ len b = 8 /\ len d = extra /\ len e = len packet - 16 - extra) as (Ha & Hb & Hd & Hle)
    by (subst a b d e; split_and!; len_lia).
  clearbody a b d e. subst packet extra. pose proof (len_protected k1 k2 a b d e Ha Hb) as Hlen.
  exists (protected k1 k2 a b d e). split_and!; [apply ProtectHeader_ok; done || lia|done| |apply protect_twice; done || lia].
  unfold protected. assert (len (xor d (tail_stream k2 (len d))) = len d) by (rewrite len_xor; by rewrite ?len_tail_stream).
  rewrite !app_assoc. rewrite !(sub_app_r _ e) by (rewrite !len_app, ?len_xor_mask by done; lia).
  rewrite !len_app, !len_xor_mask by done. rewrite H.
  replace (16 + len d - (8 + 8 + len d)) with 0 by lia. apply sub_all. lia.
Qed.
End Protection.

(** ** Sealing and opening packets *)

Section Sealing.
Context `{P : Primitives} {L : PrimitivesLaws P}.

Lemma len_packetNonce n : len (packetNonce n) = 12.
Proof. unfold packetNonce. len_lia. Qed.

(** A header of 16 bytes before [body], protected without extension. *)
Lemma protect_header16 k1 k2 (h body : bytes) :
  len k1 = 32 -> len k2 = 32 -> len h = 16 -> 24 <= len body -> len h + len body <= 1472 ->
  exists h', ProtectHeader (h ++ body) k1 k2 0 = Ok (h' ++ body) /\ len h' = 16 /\
    ProtectHeader (h' ++ body) k1 k2 0 = Ok (h ++ body).
Proof.
  intros Hk1 Hk2 Hh Hb Hmax.
  pose proof (ProtectHeader_ok k1 k2 (sub 0 8 h) (sub 8 16 h) [] body) as Hp.
  pose proof (protect_twice k1 k2 (sub 0 8 h) (sub 8 16 h) [] body) as Hp2.
  assert (sub 0 8 h ++ sub 8 16 h ++ [] ++ body = h ++ body) as E
    by (rewrite app_nil_l, app_assoc; f_equal; rewrite sub_app_split by lia; by apply sub_all).
  rewrite E in Hp, Hp2.
  change (len (@nil Z)) with 0 in Hp, Hp2. unfold protected in Hp, Hp2. change (xor [] _) with (@nil Z) in Hp, Hp2.
  rewrite app_assoc in Hp, Hp2. cbn [app] in Hp, Hp2.
  eexists. split_and!; [apply Hp; try len_lia; set_solver| |apply Hp2; try len_lia; set_solver].
  rewrite len_app, !len_xor_mask by len_lia. lia.
Qed.

Definition cipher_ok (c : DataCipher) : Prop :=
  released c = false /\ len (headerKey1 c) = 32 /\ len (headerKey2 c) = 32 /\
  exists a, aead c = Some a /\ creleased a = false.

Lemma NewDataCipher_ok dk k1 k2 c : NewDataCipher dk k1 k2 = Ok c -> cipher_ok c.
Proof.
  unfold NewDataCipher, NewChaCha20Poly1305, ChaChaKeySize. go_if; [done|]. cbn [bind]. go_if; [done|].
  intros [= <-]. unfold cipher_ok. cbn. split_and!; try done; try lia. eexists. done.
Qed.

(** [buf] filled from its start, in two steps. *)
Lemma write_over_over (x y buf : bytes) :
  len x + len y <= len buf -> write (over x buf) (len x) y = Ok (over (x ++ y) buf).
Proof. intros. by rewrite write_over by lia. Qed.

Lemma over_prefix (x buf : bytes) n : n = len x -> sub 0 n (over x buf) = x.
Proof. intros ->. unfold over. by rewrite sub_app_exact. Qed.

Lemma over_rewrite (x y buf : bytes) : len x = len y -> len x <= len buf -> write (over x buf) 0 y = Ok (over y buf).
Proof. intros Hl Hb. unfold over. rewrite write_prefix by lia. by rewrite Hl. Qed.

(** C19: the data phase is transparent.  A data packet sealed under a freshly
    built cipher occupies exactly the header, plaintext and tag bytes at the
    start of the destination, and the receiver that built the same cipher reads
    the header and the plaintext back, unprotecting the packet in place. *)
Theorem data_roundtrip dk k1 k2 c dst dst' h p :
  NewDataCipher dk k1 k2 = Ok c -> data_header h -> 8 <= len p -> len p + 32 <= 1472 ->
  len p + 32 <= len dst -> len p <= len dst' ->
  exists packet body, SealDataTo c dst h p = Ok (over packet dst, len p + 32) /\ len packet = len p + 32 /\
    OpenDataTo c dst' packet = (Ok (h, p), short_wire h ++ body).
Proof.
  intros Hc Hh Hp8 Hpmax Hd Hd'. apply NewDataCipher_ok in Hc as (Hr & Hk1 & Hk2 & a & Ha & Har).
  pose proof (len_short_wire h) as Hw. pose proof (len_packetNonce (SPacketNumber h)) as Hn.
  set (ct := aead_seal (ckey a) (packetNonce (SPacketNumber h)) p (short_wire h)).
  assert (len ct = len p + 16) as Hct by apply len_aead_seal.
  destruct (protect_header16 (headerKey1 c) (headerKey2 c) (short_wire h) ct) as (h' & Hprot & Hh' & Hunprot); try lia.
  exists (h' ++ ct), ct. split_and!; [|len_lia|].
  - unfold SealDataTo, ShortHeaderLen, PacketTagLen, ChaChaTagSize, MaxIPv4PacketLen. rewrite Hr, Ha.
    pose proof Hh as (_ & _ & Ht & Hf & Hfl). rewrite Ht, Hfl, land_254 by done. cbn [Z.eqb]. zbool.
    change (Data =? Data) with true. cbn [negb orb]. zbool.
    rewrite slice_ok by lia. cbn [bind]. rewrite MarshalShortTo_ok by len_lia. cbn [bind].
    rewrite over_full by len_lia. rewrite (over_nil dst) at 1. rewrite write_over by len_lia. cbn [bind app].
    rewrite !slice_ok by (rewrite ?len_over; len_lia). cbn [bind]. rewrite over_prefix by lia.
    set (room := sub 16 _ _). assert (len room = len p + 16) as Hroom by (subst room; rewrite len_sub; rewrite ?len_over; len_lia).
    rewrite SealTo_ok by (done || lia). fold ct. cbn [bind]. rewrite (over_full ct room) by lia.
    rewrite <- Hw at 1. rewrite write_over_over by lia. cbn [bind].
    rewrite !slice_ok by (rewrite ?len_over; len_lia). cbn [bind]. rewrite over_prefix by len_lia.
    rewrite Hprot. cbn [bind]. rewrite over_rewrite by len_lia. cbn [bind]. do 2 f_equal. lia.
  - unfold OpenDataTo. go_unfold. rewrite Hr. unfold MinPacketLen, MaxIPv4PacketLen, ShortHeaderLen. zbool.
    rewrite Hunprot, slice_ok by len_lia. rewrite sub_app_exact by lia. rewrite ParseShortHeader_data by done.
    rewrite slice_from_ok by len_lia. rewrite Ha. sub_norm. unfold ct.
    by rewrite OpenTo_ok.
Qed.

Lemma maskHeaderExtension_ok ext key :
  len ext = 16 -> len key = 32 ->
  exists ext', maskHeaderExtension ext key = Ok ext' /\ len ext' = 16 /\ maskHeaderExtension ext' key = Ok ext.
Proof.
  intros He Hk. unfold maskHeaderExtension, NewChaCha20Stream. zbool. cbn [bind].
  unfold XORKeyStream. cbn [skey snonce scounter]. set (ks := keystream key (make_bytes 12) 1 (len ext)).
  assert (len ks = len ext) as Hks by (apply len_keystream; lia).
  assert (len (xor ext ks) = 16) as Hx by (rewrite len_xor; lia).
  exists (xor ext ks). split_and!; [done|done|]. zbool. rewrite Hx, <- He. fold ks. by rewrite xor_xor.
Qed.

Definition out_of_session_kinds : list Z := [TokenRequest; Retry; PeerTest; HolePunch].

(** A header the builders produce. *)
Definition session_header_ok (network : Z) (h : LongHeader) : Prop :=
  is_u64 (LDestinationID h) /\ is_u32 (LPacketNumber h) /\ LType h ∈ out_of_session_kinds /\ LVersion h = 2 /\
  LNetworkID h = network /\ LFlags h = 0 /\ is_u64 (LSourceID h) /\ is_u64 (LToken h) /\
  LDestinationID h <> 0 /\ LSourceID h <> 0 /\ LDestinationID h <> LSourceID h.

Lemma session_header_long network h : session_header_ok network h -> long_ok network h.
Proof.
  intros (Hd & Hn & Hk & Hv & Hnet & Hf & Hs & Ht & _). unfold long_ok. split_and!; try done.
  revert Hk. unfold out_of_session_kinds, long_kinds. rewrite !elem_of_cons, !elem_of_nil. tauto.
Qed.

(** The packet [buildOutOfSession] writes, and how it unmasks. *)
Lemma out_of_session_packet key h ct :
  len key = 32 -> 24 <= len ct -> 32 + len ct <= 1472 ->
  exists h' ext ext',
    long_wire h = h' ++ ext /\ len h' = 16 /\ len ext = 16 /\ len ext' = 16 /\
    maskHeaderExtension ext key = Ok ext' /\ maskHeaderExtension ext' key = Ok ext /\
    exists h'', len h'' = 16 /\ ProtectHeader (h' ++ ext' ++ ct) key key 0 = Ok (h'' ++ ext' ++ ct) /\
      ProtectHeader (h'' ++ ext' ++ ct) key key 0 = Ok (h' ++ ext' ++ ct).
Proof.
  intros Hk Hct Hmax. pose proof (len_long_wire h) as Hw.
  exists (sub 0 16 (long_wire h)), (sub 16 32 (long_wire h)).
  destruct (maskHeaderExtension_ok (sub 16 32 (long_wire h)) key) as (ext' & Hm & He & Hm'); [len_lia|done|].
  exists ext'. split; [rewrite sub_app_split by lia; symmetry; by apply sub_all|].
  do 5 (split; [done || len_lia|]).
  destruct (protect_header16 key key (sub 0 16 (long_wire h)) (ext' ++ ct)) as (h'' & H1 & H2 & H3); try len_lia.
  by exists h''.
Qed.

Lemma build_out_of_session dst key h payload network :
  len key = 32 -> session_header_ok network h -> validOutOfSessionPayload (LType h) payload = Ok true ->
  8 <= len payload -> len payload + 48 <= 1472 -> len payload + 48 <= len dst ->
  exists h' ext ext' h'',
    let ct := aead_seal key (packetNonce (LPacketNumber h)) payload (long_wire h) in
    long_wire h = h' ++ ext /\ len h' = 16 /\ len ext = 16 /\ len ext' = 16 /\ len h'' = 16 /\
    maskHeaderExtension ext' key = Ok ext /\
    ProtectHeader (h'' ++ ext' ++ ct) key key 0 = Ok (h' ++ ext' ++ ct) /\
    buildOutOfSession dst key h payload = Ok (h'' ++ ext' ++ ct).
Proof.
  intros Hk Hh Hvalid H8 Hmax Hd. pose proof (len_long_wire h) as Hw. pose proof (len_packetNonce (LPacketNumber h)) as Hn.
  set (ct := aead_seal key (packetNonce (LPacketNumber h)) payload (long_wire h)).
  assert (len ct = len payload + 16) as Hct by apply len_aead_seal.
  destruct (out_of_session_packet key h ct) as (h' & ext & ext' & Hsplit & H1 & H2 & H3 & Hm & Hm' & h'' & H4 & Hp & Hp'); try lia.
  exists h', ext, ext', h''. split_and!; try done.
  pose proof Hh as (Hdu & _ & Hkind & Hv & _ & Hf & Hsu & _ & Hd0 & Hs0 & Hne).
  unfold buildOutOfSession, ChaChaKeySize. rewrite SameConnectionID_eq by done. zbool. rewrite Hvalid. cbn [bind negb].
  rewrite bool_decide_eq_true_2 by done. cbn [negb].
  unfold LongHeaderLen, PacketTagLen, ChaChaTagSize, MinPacketLen, MaxIPv4PacketLen. zbool.
  rewrite slice_ok by lia. cbn [bind]. rewrite MarshalLongTo_ok by len_lia. cbn [bind].
  rewrite over_full by len_lia. rewrite (over_nil dst) at 1. rewrite write_over by len_lia. cbn [bind app].
  unfold NewChaCha20Poly1305, ChaChaKeySize. zbool. cbn [bind].
  rewrite !slice_ok by (rewrite ?len_over; len_lia). cbn [bind]. rewrite over_prefix by lia.
  set (room := sub 32 _ _). assert (len room = len payload + 16) as Hroom by (subst room; rewrite len_sub; rewrite ?len_over; len_lia).
  rewrite SealTo_ok by (done || lia). cbn [ckey]. fold ct. cbn [bind]. rewrite (over_full ct room) by lia.
  rewrite <- Hw at 1. rewrite write_over_over by lia. cbn [bind].
  rewrite slice_ok by (rewrite ?len_over; len_lia). cbn [bind].
  replace (sub 16 32 (over (long_wire h ++ ct) dst)) with ext
    by (unfold over; rewrite Hsplit, <- !app_assoc; by sub_norm).
  rewrite Hm. cbn [bind]. rewrite Hsplit, <- app_assoc. unfold over at 1. rewrite <- !app_assoc.
  rewrite write_middle by lia. cbn [bind].
  replace (h' ++ ext' ++ ct ++ sub (len (h' ++ ext ++ ct)) (len dst) dst) with (over (h' ++ ext' ++ ct) dst)
    by (unfold over; rewrite <- !app_assoc; do 4 f_equal; len_lia).
  rewrite slice_ok by (rewrite ?len_over; len_lia). cbn [bind]. rewrite over_prefix by len_lia. rewrite Hp. cbn [bind].
  rewrite over_rewrite by len_lia. cbn [bind]. rewrite slice_ok by (rewrite ?len_over; len_lia).
  by rewrite over_prefix by len_lia.
Qed.

Lemma parse_out_of_session key h payload network expected h' ext ext' h'' :
  let ct := aead_seal key (packetNonce (LPacketNumber h)) payload (long_wire h) in
  len key = 32 -> session_header_ok network h -> validOutOfSessionPayload (LType h) payload = Ok true ->
  8 <= len payload -> len payload + 48 <= 1472 ->
  long_wire h = h' ++ ext -> len h' = 16 -> len ext = 16 -> len ext' = 16 -> len h'' = 16 ->
  maskHeaderExtension ext' key = Ok ext -> ProtectHeader (h'' ++ ext' ++ ct) key key 0 = Ok (h' ++ ext' ++ ct) ->
  parseOutOfSession (h'' ++ ext' ++ ct) key expected network =
    if (expected =? 0) || (LType h =? expected) then Ok (h, payload) else Err ErrHandshake.
Proof.
  intros ct Hk Hh Hvalid H8 Hmax Hsplit H1 H2 H3 H4 Hm' Hp'.
  pose proof (len_packetNonce (LPacketNumber h)) as Hn. assert (len ct = len payload + 16) as Hct by apply len_aead_seal.
  pose proof Hh as (_ & _ & Hkind & _ & _ & _ & _ & _ & Hd0 & Hs0 & _).
  unfold parseOutOfSession, ChaChaKeySize, LongHeaderLen, PacketTagLen, ChaChaTagSize, MaxIPv4PacketLen. zbool.
  rewrite Hp'. cbn [bind]. rewrite slice_ok by len_lia. cbn [bind].
  replace (sub 16 32 (h' ++ ext' ++ ct)) with ext' by (by sub_norm). rewrite Hm'. cbn [bind].
  rewrite write_middle by lia. cbn [bind]. rewrite slice_ok by len_lia. cbn [bind].
  rewrite (app_assoc h' ext ct), <- Hsplit, sub_app_exact by (rewrite len_long_wire; done).
  rewrite (ParseLongHeader_ok network h) by (by apply session_header_long). zbool. rewrite !orb_false_r.
  rewrite (Z.eqb_sym expected 0). rewrite <- negb_orb. rewrite (Z.eqb_sym 0 expected).
  destruct ((expected =? 0) || (LType h =? expected)); cbn [negb]; [|done].
  rewrite bool_decide_eq_true_2 by done. cbn [negb]. unfold NewChaCha20Poly1305, ChaChaKeySize. zbool. cbn [bind].
  pose proof (len_long_wire h) as Hw. rewrite slice_ok, slice_from_ok by len_lia. cbn [bind].
  replace (sub 32 (len (long_wire h ++ ct)) (long_wire h ++ ct)) with ct by (by sub_norm).
  set (room := sub 32 _ _). assert (len room = len payload) as Hroom by (subst room; len_lia).
  unfold ct. change key with (ckey (mkCipher key false)) at 2.
  rewrite OpenTo_ok by (done || lia). rewrite Hvalid. done.
Qed.
End Sealing.

(** A DateTime block has seven bytes and any other block at least three. *)
Lemma len_wires_ge kind bs :
  kind <> BlockDateTime -> Forall block_ok bs -> 7 * count BlockDateTime bs + 3 * count kind bs <= len (wires bs).
Proof.
  intros Hk. induction 1 as [|b bs Hb Hall IH]; [done|].
  change (wires (b :: bs)) with (block_wire b ++ wires bs). rewrite !count_cons, len_app.
  destruct Hb as (_ & _ & _ & Hs). destruct Hs as (Hdt & _). unfold block_wire. rewrite !len_app, len_be_bytes.
  change (len [BType b]) with 1. pose proof (len_nonneg (BData b)).
  destruct (Z.eqb_spec (BType b) BlockDateTime) as [E|E]; destruct (Z.eqb_spec (BType b) kind); try congruence;
    try specialize (Hdt E); lia.
Qed.

(** Every accepted out-of-session payload has the eight bytes the parser wants. *)
Lemma valid_payload_min kind payload :
  bytes_ok payload -> kind ∈ out_of_session_kinds -> validOutOfSessionPayload kind payload = Ok true -> 8 <= len payload.
Proof.
  intros Hok Hk Hv. assert (forall P, decides (validOutOfSessionPayload kind payload) P -> P) as Hd.
  { intros Q (r & Hr & HQ). rewrite Hv in Hr. simplify_eq. by apply HQ. }
  unfold out_of_session_kinds in Hk. rewrite !elem_of_cons, elem_of_nil in Hk. destruct Hk as [->|[->|[->|[->|[]]]]].
  - by destruct (Hd _ (handshake_grammar payload Hok)).
  - by destruct (Hd _ (handshake_grammar payload Hok)).
  - destruct (Hd _ (peertest_grammar payload Hok)) as (bs & (-> & Hall & _) & _ & H1 & H2).
    pose proof (len_wires_ge BlockPeerTest bs ltac:(done) Hall). lia.
  - destruct (Hd _ (holepunch_grammar payload Hok)) as (bs & (-> & Hall & _) & _ & H1 & H2 & _).
    pose proof (len_wires_ge BlockAddress bs ltac:(done) Hall). lia.
Qed.

(** ** The out-of-session services *)

Inductive Service :=
| STokenRequest
| SRetry (token : Z)
| SPeerTest
| SHolePunch (token : Z).

Definition service_kind (s : Service) : Z :=
  match s with STokenRequest => TokenRequest | SRetry _ => Retry | SPeerTest => PeerTest | SHolePunch _ => HolePunch end.

Definition service_token (s : Service) : Z :=
  match s with SRetry token | SHolePunch token => token | _ => 0 end.

Section Services.
Context `{P : Primitives} {L : PrimitivesLaws P}.

Definition BuildService (s : Service) (dst key : bytes) (destinationID sourceID packetNumber : Z) (payload : bytes)
    (networkID : Z) : res bytes :=
  match s with
  | STokenRequest => BuildTokenRequest dst key destinationID sourceID packetNumber payload networkID
  | SRetry token => BuildRetry dst key destinationID sourceID token packetNumber payload networkID
  | SPeerTest => BuildPeerTest dst key destinationID sourceID packetNumber payload networkID
  | SHolePunch token => BuildHolePunch dst key destinationID sourceID token packetNumber payload networkID
  end.

Definition ParseService (s : Service) (packet key : bytes) (networkID : Z) : res (LongHeader * bytes) :=
  match s with
  | STokenRequest => ParseTokenRequest packet key networkID
  | SRetry _ => ParseRetry packet key networkID
  | SPeerTest => ParsePeerTest packet key networkID
  | SHolePunch _ => ParseHolePunch packet key networkID
  end.

Lemma BuildService_eq s dst key d src n payload net :
  BuildService s dst key d src n payload net =
  buildOutOfSession dst key (mkLong d n (service_kind s) Version net 0 src (service_token s)) payload.
Proof. by destruct s. Qed.

Lemma ParseService_eq s packet key net : ParseService s packet key net = parseOutOfSession packet key (service_kind s) net.
Proof. by destruct s. Qed.

(** out-of-session packets round trip and are not confused.  A Token
    Request, Retry, Peer Test or Hole Punch built from distinct non-zero
    connection identifiers and a payload of its grammar fits the bytes promised,
    is read back by its own parser and by the generic one as the same header and
    payload, and is refused by the parser of every other service. *)
Theorem out_of_session_roundtrip s dst key d src n payload net :
  len key = 32 -> bytes_ok payload -> validOutOfSessionPayload (service_kind s) payload = Ok true ->
  len payload + 48 <= 1472 -> len payload + 48 <= len dst ->
  is_u64 d -> is_u64 src -> is_u64 (service_token s) -> is_u32 n -> d <> 0 -> src <> 0 -> d <> src ->
  let h := mkLong d n (service_kind s) 2 net 0 src (service_token s) in
  exists packet, BuildService s dst key d src n payload net = Ok packet /\ len packet = len payload + 48 /\
    ParseService s packet key net = Ok (h, payload) /\ ParseOutOfSession packet key net = Ok (h, payload) /\
    forall s', service_kind s' <> service_kind s -> ParseService s' packet key net = Err ErrHandshake.
Proof.
  intros Hk Hok Hv Hmax Hd Hdu Hsu Htu Hnu Hd0 Hs0 Hne h.
  assert (service_kind s ∈ out_of_session_kinds) as Hkind by (destruct s; set_solver).
  assert (session_header_ok net h) as Hh by done.
  pose proof (valid_payload_min _ payload Hok Hkind Hv) as H8.
  destruct (build_out_of_session dst key h payload net Hk Hh Hv H8 Hmax Hd)
    as (h' & ext & ext' & h'' & Hsplit & H1 & H2 & H3 & H4 & Hm & Hp & Hb).
  pose proof (fun e => parse_out_of_session key h payload net e h' ext ext' h''
    Hk Hh Hv H8 Hmax Hsplit H1 H2 H3 H4 Hm Hp) as Hparse. cbn [LType h] in Hparse.
  eexists. rewrite BuildService_eq. change Version with 2. split; [exact Hb|]. split.
  { rewrite !len_app, len_aead_seal. lia. }
  rewrite ParseService_eq. unfold ParseOutOfSession. rewrite !Hparse, Z.eqb_refl, orb_true_r. split_and!; try done.
  intros s' Hs'. rewrite ParseService_eq, Hparse. rewrite (proj2 (Z.eqb_neq (service_kind s) _)) by congruence.
  by destruct s'.
Qed.
End Services.

Lemma data_roundtrip_witness :
  exists packet body,
    SealDataTo (P := demo) (mkDataCipher (Some (mkCipher (make_bytes 32) false)) (make_bytes 32) (make_bytes 32) false)
      (make_bytes 50) (mkShort 3 4 Data 1 0) (make_bytes 8) = Ok (over packet (make_bytes 50), len (make_bytes 8) + 32) /\
    len packet = len (make_bytes 8) + 32 /\
    OpenDataTo (P := demo) (mkDataCipher (Some (mkCipher (make_bytes 32) false)) (make_bytes 32) (make_bytes 32) false)
      (make_bytes 8) packet = (Ok (mkShort 3 4 Data 1 0, make_bytes 8), short_wire (mkShort 3 4 Data 1 0) ++ body).
Proof.
  apply (data_roundtrip (P := demo) (L := demo_laws) (make_bytes 32) (make_bytes 32) (make_bytes 32)).
  2:{ unfold data_header, is_u64, is_u32. cbn. split_and!; try lia; done. }
  all: vm_compute; congruence.
Defined.

(** ** Path validation as a single-use ticket *)

Module PathSpec.
Import Path.

Inductive op :=
| OBegin (challenge : bytes) (deadline : Z)
| OValidate (response : bytes) (now : Z)
| OExpired (now : Z).

Definition run_op (o : op) : go PathValidator bool :=
  match o with
  | OBegin c d => Begin c d
  | OValidate r now => Validate r now
  | OExpired now => Expired now
  end.

(** The contract: at most one outstanding challenge with its deadline. *)
Definition spec_op (o : op) (s : option (bytes * Z)) : bool * option (bytes * Z) :=
  match o, s with
  | OBegin c d, _ => if bool_decide (8 <= len c <= 16) then (true, Some (c, d)) else (false, s)
  | OValidate r now, Some (c, d) => if bool_decide (r = c /\ now <= d) then (true, None) else (false, s)
  | OExpired now, Some (_, d) => if bool_decide (d < now) then (true, None) else (false, s)
  | _, None => (false, None)
  end.

Fixpoint run (ops : list op) (p : PathValidator) : res (list bool) :=
  match ops with
  | [] => Ok []
  | o :: ops => match run_op o p with
                | (Ok b, p) => let? bs := run ops p in Ok (b :: bs)
                | (Err e, _) => Err e
                | (Panic, _) => Panic
                end
  end.

Fixpoint spec_run (ops : list op) (s : option (bytes * Z)) : list bool :=
  match ops with
  | [] => []
  | o :: ops => let '(b, s) := spec_op o s in b :: spec_run ops s
  end.

(** The array holds the challenge at its start; older bytes may follow. *)
Definition abs (p : PathValidator) (s : option (bytes * Z)) : Prop :=
  len (challenge p) = 16 /\
  match s with
  | None => active p = false
  | Some (c, d) => active p = true /\ deadline p = d /\ length_ p = len c /\ 8 <= len c <= 16 /\ sub 0 (len c) (challenge p) = c
  end.

Lemma path_op_refines o p s :
  abs p s -> exists b p', run_op o p = (Ok b, p') /\ (spec_op o s).1 = b /\ abs p' (spec_op o s).2.
Proof.
  intros [Hl Hs]. destruct o as [c d|r now|now]; cbn [run_op spec_op].
  - unfold Begin. go_unfold. destruct (decide (8 <= len c <= 16)) as [Hc|Hc].
    + zbool. rewrite (over_nil (challenge p)). rewrite copy_at_over by len_lia.
      rewrite bool_decide_eq_true_2 by done. cbn [app]. do 2 eexists. split_and!; [done|done|].
      unfold abs. cbn [snd challenge length_ deadline active]. rewrite len_over by lia. unfold u8.
      split_and!; try done; try lia; [by rewrite Z.mod_small by lia|]. by rewrite over_prefix.
    + rewrite bool_decide_eq_false_2 by done. replace ((len c <? 8) || (len c >? len (challenge p))) with true by lia.
      by do 2 eexists.
  - unfold Validate. go_unfold. destruct s as [[c d]|].
    + destruct Hs as (Ha & Hd & Hlen & Hc & Hsub). rewrite Ha, Hd, Hlen. cbn [negb orb].
      destruct (decide (now <= d /\ len r = len c)) as [[Hn Hr]|Hn].
      * zbool. rewrite slice_ok by lia. rewrite Hsub. unfold bytes_eqb. destruct (decide (c = r)) as [->|Hne].
        -- rewrite !bool_decide_eq_true_2 by done. by do 2 eexists.
        -- rewrite !bool_decide_eq_false_2 by naive_solver. do 2 eexists. split_and!; try done.
      * replace ((now >? d) || negb (len r =? len c)) with true by lia.
        rewrite bool_decide_eq_false_2 by (intros [-> ?]; lia). do 2 eexists. split_and!; try done.
    + rewrite Hs. cbn [negb orb]. by do 2 eexists.
  - unfold Expired. go_unfold. destruct s as [[c d]|].
    + destruct Hs as (Ha & Hd & Hlen & Hc & Hsub). rewrite Ha, Hd. cbn [andb].
      destruct (decide (d < now)).
      * zbool. rewrite bool_decide_eq_true_2 by done. by do 2 eexists.
      * zbool. rewrite bool_decide_eq_false_2 by done. do 2 eexists. split_and!; try done.
    + rewrite Hs. cbn [andb]. by do 2 eexists.
Qed.

Lemma path_run_refines ops : forall p s, abs p s -> run ops p = Ok (spec_run ops s).
Proof.
  induction ops as [|o ops IH]; intros p s Ha; [done|]. cbn [run spec_run].
  destruct (path_op_refines o p s Ha) as (b & p' & -> & Hb & Ha'). destruct (spec_op o s) as [b' s'].
  cbn [fst snd] in *. subst b'. by rewrite (IH p' s' Ha').
Qed.

(** C31: a path validator is a single-use ticket.  Over any sequence of
    challenges, responses and expiry checks on a new validator, the answers are
    those of an abstract slot that holds at most one challenge: a response
    counts exactly when it echoes the outstanding challenge no later than its
    deadline, and then the slot is empty; a challenge of unsuitable length is
    refused and leaves the slot alone; a challenge expires once. *)
Theorem path_validator_refines ops : run ops zero = Ok (spec_run ops None).
Proof. apply path_run_refines. done. Qed.
End PathSpec.
