(* ===== verification/KBucket.v ===== *)
(** The Kademlia routing table of the network database,
    [src/controlplane/internal/netdb/kbucket.go].

    A [foundation.Hash] is a list of 32 bytes.  [kBucketSet] methods take the
    set and return it; a Go panic (an index out of range, or the explicit one of
    [bucketIndex]) is [Panic]. *)

From S2P Require Import Prelude.

Definition HashLength : Z := 32.
Definition KademliaB : Z := 4.
Definition kademliaBFactor : Z := Z.shiftl 1 (KademliaB - 1).
Definition kademliaRangeCount : Z := HashLength * 8 * kademliaBFactor.
Definition DefaultBucketCapacity : Z := 24.

Record kBucket := mkBucket { begin : Z; end_ : Z; members : list bytes; lastChanged : Z }.

Record kBucketSet := mkSet { capacity : Z; buckets : list kBucket }.

Definition newKBucketSet (cap : Z) : kBucketSet :=
  mkSet (if cap <=? 4 then DefaultBucketCapacity else cap) [mkBucket 0 (kademliaRangeCount - 1) [] 0].

(** ** Ranges *)

(** [bits.LeadingZeros8] *)
Definition LeadingZeros8 (x : Z) : Z := if x =? 0 then 8 else 7 - Z.log2 x.

(** The loop that counts the leading zero bits of the distance. *)
Fixpoint leadingZeros (local peer : bytes) (leading : Z) : Z :=
  match local, peer with
  | a :: local, b :: peer =>
      let delta := Z.lxor a b in
      if delta =? 0 then leadingZeros local peer (leading + 8)
      else leading + LeadingZeros8 delta
  | _, _ => leading
  end.

(** The loop over the offsets below the highest bit. *)
Fixpoint subrange (offsets : list Z) (local peer : bytes) (leading rangeNumber : Z) : res Z :=
  match offsets with
  | [] => Ok rangeNumber
  | offset :: offsets =>
      let bitFromMSB := leading + offset in
      let? a := index local (bitFromMSB / 8) in
      let? b := index peer (bitFromMSB / 8) in
      let value := Z.land (Z.shiftr (Z.lxor a b) (7 - bitFromMSB mod 8)) 1 in
      subrange offsets local peer leading (Z.lor rangeNumber (Z.shiftl value (KademliaB - 1 - offset)))
  end.

Definition kademliaRange (local peer : bytes) : res Z :=
  let leading := leadingZeros local peer 0 in
  if leading =? HashLength * 8 then Ok (-1)
  else
    let highBit := HashLength * 8 - 1 - leading in
    let rangeNumber := Z.shiftl highBit (KademliaB - 1) in
    if highBit + 1 <? KademliaB then Ok rangeNumber
    else subrange [1; 2; 3] local peer leading rangeNumber.

(** ** Buckets *)

(** The binary search; each round shrinks [high - low], which starts at the
    number of buckets. *)
Fixpoint bucketSearch (fuel : nat) (bs : list kBucket) (rangeNumber low high : Z) : res Z :=
  match fuel with
  | O => Panic
  | S fuel =>
      if low <? high then
        let middle := low + (high - low) / 2 in
        let? bucket := index bs middle in
        if rangeNumber <? begin bucket then bucketSearch fuel bs rangeNumber low middle
        else if rangeNumber >? end_ bucket then bucketSearch fuel bs rangeNumber (middle + 1) high
        else Ok middle
      else Panic
  end.

Definition bucketIndex (s : kBucketSet) (rangeNumber : Z) : res Z :=
  bucketSearch (S (length (buckets s))) (buckets s) rangeNumber 0 (len (buckets s)).

Definition redistribute (cap : Z) (bucket : kBucket) (member : bytes) : kBucket :=
  if (begin bucket =? end_ bucket) && (len (members bucket) >=? cap) then bucket
  else mkBucket (begin bucket) (end_ bucket) (members bucket ++ [member]) (lastChanged bucket).

(** The loop that deals the members of a bucket to its two halves. *)
Fixpoint deal (cap : Z) (local : bytes) (secondStart : Z) (ms : list bytes) (first second : kBucket) : res (kBucket * kBucket) :=
  match ms with
  | [] => Ok (first, second)
  | member :: ms =>
      let? r := kademliaRange local member in
      if r <? secondStart then deal cap local secondStart ms (redistribute cap first member) second
      else deal cap local secondStart ms first (redistribute cap second member)
  end.

(** Where a range is cut. *)
Definition cut (start end_ : Z) : Z :=
  let splitSelected := (KademliaB =? 1) ||
    ((Z.land start (kademliaBFactor - 1) =? 0) && (Z.land (end_ + 1) (kademliaBFactor - 1) =? 0)
     && (end_ >? start + kademliaBFactor)) in
  if splitSelected then end_ + 1 - kademliaBFactor else start + (1 + end_ - start) / 2.

(** The first bucket's range shrinks in each round. *)
Fixpoint split (fuel : nat) (i : Z) (local : bytes) (s : kBucketSet) : res kBucketSet :=
  match fuel with
  | O => Panic
  | S fuel =>
      let? original := index (buckets s) i in
      if (begin original =? end_ original) || (len (members original) <=? capacity s) then Ok s
      else
        let start := begin original in
        let stop := end_ original in
        let secondStart := cut start stop in
        let first := mkBucket (u16 start) (u16 (secondStart - 1)) [] (lastChanged original) in
        let second := mkBucket (u16 secondStart) (u16 stop) [] (lastChanged original) in
        let? (first, second) := deal (capacity s) local secondStart (members original) first second in
        let? before := slice (buckets s) 0 i in
        let? after := slice_from (buckets s) (i + 1) in
        split fuel i local (mkSet (capacity s) (before ++ [first; second] ++ after))
  end.

(** [s.buckets[i] = bucket] *)
Definition setBucket (s : kBucketSet) (i : Z) (bucket : kBucket) : res kBucketSet :=
  let? bs := write (buckets s) i [bucket] in Ok (mkSet (capacity s) bs).

Definition add (local peer : bytes) (now : Z) (s : kBucketSet) : res (bool * kBucketSet) :=
  let? rangeNumber := kademliaRange local peer in
  if rangeNumber <? 0 then Ok (false, s)
  else
    let? i := bucketIndex s rangeNumber in
    let? bucket := index (buckets s) i in
    if bool_decide (peer ∈ members bucket) then
      let? s := setBucket s i (mkBucket (begin bucket) (end_ bucket) (members bucket) now) in Ok (false, s)
    else if (begin bucket =? end_ bucket) && (len (members bucket) >=? capacity s) then Ok (false, s)
    else
      let bucket := mkBucket (begin bucket) (end_ bucket) (members bucket ++ [peer]) now in
      let? s := setBucket s i bucket in
      if negb (begin bucket =? end_ bucket) && (len (members bucket) >? capacity s) then
        let? s := split (S (Z.to_nat (end_ bucket))) i local s in Ok (true, s)
      else Ok (true, s).

(** The first occurrence of [peer], closed up. *)
Fixpoint removeFirst (peer : bytes) (ms : list bytes) : option (list bytes) :=
  match ms with
  | [] => None
  | m :: ms => if bool_decide (m = peer) then Some ms else (m ::.) <$> removeFirst peer ms
  end.

Definition remove (local peer : bytes) (s : kBucketSet) : res (bool * kBucketSet) :=
  let? rangeNumber := kademliaRange local peer in
  if rangeNumber <? 0 then Ok (false, s)
  else
    let? i := bucketIndex s rangeNumber in
    let? bucket := index (buckets s) i in
    match removeFirst peer (members bucket) with
    | None => Ok (false, s)
    | Some ms =>
        let? s := setBucket s i (mkBucket (begin bucket) (end_ bucket) ms (lastChanged bucket)) in Ok (true, s)
    end.

(** ** Ranges and XOR distance *)

Definition hash_ok (h : bytes) : Prop := len h = 32 /\ bytes_ok h.

(** The XOR metric, as the integer the two hashes differ by. *)
Definition distance (a b : bytes) : Z := be_val (zip_with Z.lxor a b).

Lemma zip_lxor_ok a b : bytes_ok a -> bytes_ok b -> bytes_ok (zip_with Z.lxor a b).
Proof.
  intros Ha. revert b. induction Ha as [|x a Hx Ha IH]; intros [|y b] Hb; try constructor.
  - apply Forall_cons in Hb as [Hy _]. unfold is_byte in *. apply (lxor_bound x y 8); lia.
  - apply Forall_cons in Hb as [_ Hb]. by apply IH.
Qed.

Lemma len_zip_with (a b : bytes) : len a = len b -> len (zip_with Z.lxor a b) = len a.
Proof. unfold len. intros. rewrite length_zip_with. lia. Qed.

Lemma log2_add x r n : 0 < x -> 0 <= n -> 0 <= r < 2 ^ n -> Z.log2 (x * 2 ^ n + r) = n + Z.log2 x.
Proof.
  intros Hx Hn Hr. apply Z.log2_unique; [pose proof (Z.log2_nonneg x); lia|].
  pose proof (Z.log2_spec x Hx) as Hs. rewrite Z.pow_succ_r in * by (pose proof (Z.log2_nonneg x); lia).
  rewrite Z.pow_add_r by (try apply Z.log2_nonneg; lia). nia.
Qed.

Lemma pow256 n : 0 <= n -> 256 ^ n = 2 ^ (8 * n).
Proof. intros. change 256 with (2 ^ 8). by rewrite <- Z.pow_mul_r by lia. Qed.

(** The counted zeros are those above the highest bit of the distance. *)
Lemma leadingZeros_eq a : forall b leading,
  bytes_ok a -> bytes_ok b -> len a = len b ->
  leadingZeros a b leading =
    leading + (if distance a b =? 0 then 8 * len a else 8 * len a - 1 - Z.log2 (distance a b)).
Proof.
  unfold distance. induction a as [|x a IH]; intros [|y b] leading Ha Hb Hl; try (by unfold len in Hl; cbn in Hl; lia).
  { cbn. change (be_val []) with 0. cbn. change (len (@nil Z)) with 0. lia. }
  apply Forall_cons in Ha as [Hx Ha]. apply Forall_cons in Hb as [Hy Hb]. rewrite !len_cons in *. unfold is_byte in *.
  cbn [leadingZeros zip_with]. rewrite be_val_cons, len_zip_with by lia.
  pose proof (be_val_bound _ (zip_lxor_ok a b Ha Hb)) as Hv. rewrite len_zip_with in Hv by lia.
  rewrite pow256 in * by apply len_nonneg. pose proof (lxor_bound x y 8 ltac:(lia) Hx Hy) as Hxy. pose proof (len_nonneg a).
  destruct (Z.eqb_spec (Z.lxor x y) 0) as [->|Hne].
  - rewrite IH by (done || lia). rewrite Z.mul_0_l, Z.add_0_l. destruct (_ =? 0); lia.
  - unfold LeadingZeros8. rewrite (proj2 (Z.eqb_neq _ _)) by done.
    assert (0 < Z.lxor x y * 2 ^ (8 * len a)) by (apply Z.mul_pos_pos; lia).
    rewrite (proj2 (Z.eqb_neq (_ + _) 0)) by lia. rewrite log2_add by lia. lia.
Qed.

Lemma index_range {A} (l : list A) i x : index l i = Ok x -> 0 <= i < len l.
Proof.
  unfold index, len. destruct (Z.leb_spec 0 i); [|done]. destruct (l !! Z.to_nat i) eqn:E; [|done].
  apply lookup_lt_Some in E. lia.
Qed.

(** Bit [k] of byte [i] is a bit of the whole number. *)
Lemma be_val_testbit l : forall i k x,
  bytes_ok l -> index l i = Ok x -> 0 <= k < 8 -> Z.testbit (be_val l) (8 * (len l - 1 - i) + k) = Z.testbit x k.
Proof.
  induction l as [|y l IH]; intros i k x Hok Hi Hk.
  { unfold index in Hi. destruct (0 <=? i); [by rewrite lookup_nil in Hi|done]. }
  apply Forall_cons in Hok as [Hy Hok]. pose proof (be_val_bound l Hok) as Hv. rewrite pow256 in Hv by apply len_nonneg.
  pose proof (len_nonneg l). unfold is_byte in Hy. rewrite be_val_cons, pow256, len_cons by done.
  rewrite <- Z.shiftl_mul_pow2 by lia. destruct (decide (i = 0)) as [->|Hi0].
  - rewrite index_cons_0 in Hi. simplify_eq.
    replace (Z.shiftl x (8 * len l) + be_val l) with (Z.lor (Z.shiftl x (8 * len l)) (be_val l))
      by (rewrite lor_shiftl by lia; rewrite Z.shiftl_mul_pow2; lia).
    rewrite Z.lor_spec, Z.shiftl_spec by lia. rewrite (testbit_small (be_val l) (8 * len l)) by lia.
    rewrite orb_false_r. f_equal. lia.
  - pose proof (index_range _ _ _ Hi) as Hpos.
    assert (index l (i - 1) = Ok x) as Hi'.
    { change (y :: l) with ([y] ++ l) in Hi. rewrite index_app_r in Hi; [done|]. change (len [y]) with 1. lia. }
    pose proof (index_range _ _ _ Hi') as Hlt.
    rewrite <- (IH (i - 1) k x Hok Hi' Hk).
    replace (Z.shiftl y (8 * len l) + be_val l) with (Z.lor (Z.shiftl y (8 * len l)) (be_val l))
      by (rewrite lor_shiftl by lia; rewrite Z.shiftl_mul_pow2; lia).
    rewrite Z.lor_spec, Z.shiftl_spec_low by lia. cbn [orb]. f_equal. lia.
Qed.

(** The range of a distance: eight per power of two, the next three bits
    choosing among them. *)
Definition range_of (d : Z) : Z :=
  if d =? 0 then -1
  else 8 * Z.log2 d + (if Z.log2 d <? 3 then 0 else d / 2 ^ (Z.log2 d - 3) - 8).

Lemma index_zip a b i x y :
  index a i = Ok x -> index b i = Ok y -> index (zip_with Z.lxor a b) i = Ok (Z.lxor x y).
Proof.
  unfold index. destruct (0 <=? i); [|done]. rewrite lookup_zip_with.
  destruct (a !! Z.to_nat i); [|done]. destruct (b !! Z.to_nat i); [|done]. intros. by simplify_eq.
Qed.

Lemma land_shiftr_bit x k : 0 <= k -> Z.land (Z.shiftr x k) 1 = Z.b2z (Z.testbit x k).
Proof.
  intros Hk. change 1 with (Z.ones 1). rewrite Z.land_ones by lia. change (2 ^ 1) with 2.
  rewrite <- Z.bit0_mod, Z.shiftr_spec by lia. by rewrite Z.add_0_l.
Qed.

Lemma subrange_step offset offsets a b leading r :
  hash_ok a -> hash_ok b -> 0 <= leading + offset < 256 ->
  subrange (offset :: offsets) a b leading r =
  subrange offsets a b leading (Z.lor r (Z.shiftl (Z.b2z (Z.testbit (distance a b) (255 - leading - offset))) (3 - offset))).
Proof.
  intros [Hla Ha] [Hlb Hb] Ho. cbn [subrange]. set (n := leading + offset) in *.
  pose proof (Z.div_mod n 8 ltac:(lia)) as Hn. pose proof (Z.mod_pos_bound n 8 ltac:(lia)) as Hm.
  destruct (index_ok a (n / 8)) as (x & Hx & _); [lia|]. destruct (index_ok b (n / 8)) as (y & Hy & _); [lia|].
  rewrite Hx, Hy. cbn [bind]. rewrite land_shiftr_bit by lia. change (KademliaB - 1 - offset) with (3 - offset).
  assert (Z.testbit (Z.lxor x y) (7 - n mod 8) = Z.testbit (distance a b) (255 - leading - offset)) as ->; [|done].
  rewrite <- (be_val_testbit (zip_with Z.lxor a b) (n / 8)).
  - unfold distance. f_equal. rewrite len_zip_with by lia. lia.
  - by apply zip_lxor_ok.
  - by apply index_zip.
  - lia.
Qed.

Lemma top_bits d : 0 < d -> 3 <= Z.log2 d ->
  d / 2 ^ (Z.log2 d - 3) - 8 =
  4 * Z.b2z (Z.testbit d (Z.log2 d - 1)) + 2 * Z.b2z (Z.testbit d (Z.log2 d - 2)) + Z.b2z (Z.testbit d (Z.log2 d - 3)).
Proof.
  intros Hd Hh. set (h := Z.log2 d) in *. pose proof (Z.log2_spec d Hd) as Hs. fold h in Hs.
  rewrite Z.pow_succ_r in Hs by lia. set (q := d / 2 ^ (h - 3)).
  assert (2 ^ h = 8 * 2 ^ (h - 3)) as Hp by (rewrite <- (Z.pow_add_r 2 3) by lia; f_equal; lia).
  assert (8 <= q < 16) as Hq.
  { subst q. split; [apply Z.div_le_lower_bound|apply Z.div_lt_upper_bound]; lia. }
  assert (forall j, 0 <= j -> Z.testbit d (h - 3 + j) = Z.testbit q j) as Hb.
  { intros j Hj. subst q. rewrite Z.div_pow2_bits by lia. f_equal. lia. }
  replace (h - 1) with (h - 3 + 2) by lia. replace (h - 2) with (h - 3 + 1) by lia.
  replace (Z.testbit d (h - 3)) with (Z.testbit d (h - 3 + 0)) by (f_equal; lia). rewrite !Hb by lia.
  clearbody q. pose proof (exhaust (fun q => if q <? 8 then true else
    q - 8 =? 4 * Z.b2z (Z.testbit q 2) + 2 * Z.b2z (Z.testbit q 1) + Z.b2z (Z.testbit q 0)) 16 eq_refl q ltac:(lia)) as He.
  cbv beta in He. rewrite (proj2 (Z.ltb_ge q 8)) in He by lia. lia.
Qed.

Lemma kademliaRange_eq a b : hash_ok a -> hash_ok b -> kademliaRange a b = Ok (range_of (distance a b)).
Proof.
  intros Ha Hb. pose proof Ha as [Hla Hba]. pose proof Hb as [Hlb Hbb].
  unfold kademliaRange, range_of, HashLength, KademliaB. rewrite leadingZeros_eq by (done || lia).
  pose proof (be_val_bound _ (zip_lxor_ok a b Hba Hbb)) as Hd. fold (distance a b) in Hd.
  rewrite len_zip_with, Hla, pow256 in Hd by lia. rewrite Hla. set (d := distance a b) in *.
  destruct (Z.eqb_spec d 0) as [|Hne]; [done|].
  pose proof (Z.log2_nonneg d). assert (Z.log2 d < 256) by (apply Z.log2_lt_pow2; lia).
  rewrite (proj2 (Z.eqb_neq _ _)) by lia.
  replace (32 * 8 - 1 - (0 + (8 * 32 - 1 - Z.log2 d))) with (Z.log2 d) by lia.
  change (4 - 1) with 3. rewrite Z.shiftl_mul_pow2 by lia. change (2 ^ 3) with 8.
  destruct (Z.ltb_spec (Z.log2 d + 1) 4) as [Hs|Hs].
  { rewrite (proj2 (Z.ltb_lt _ _)) by lia. f_equal. lia. }
  rewrite (proj2 (Z.ltb_ge (Z.log2 d) 3)) by lia. rewrite top_bits by lia.
  rewrite !subrange_step by (done || lia). fold d. cbn [subrange].
  replace (255 - (0 + (8 * 32 - 1 - Z.log2 d)) - 1) with (Z.log2 d - 1) by lia.
  replace (255 - (0 + (8 * 32 - 1 - Z.log2 d)) - 2) with (Z.log2 d - 2) by lia.
  replace (255 - (0 + (8 * 32 - 1 - Z.log2 d)) - 3) with (Z.log2 d - 3) by lia.
  f_equal. rewrite <- !Z.lor_assoc. replace (Z.log2 d * 8) with (Z.shiftl (Z.log2 d) 3) by (rewrite Z.shiftl_mul_pow2; lia).
  destruct (Z.testbit d (Z.log2 d - 1)), (Z.testbit d (Z.log2 d - 2)), (Z.testbit d (Z.log2 d - 3)); cbn [Z.b2z];
    (rewrite lor_shiftl; [|lia|vm_compute; split; congruence]); rewrite Z.mul_comm; f_equal.
Qed.

(** Closer peers never have a larger range. *)
Lemma range_of_mono d d' : 0 <= d <= d' -> range_of d <= range_of d'.
Proof.
  intros [H0 Hle]. unfold range_of. destruct (Z.eqb_spec d 0) as [->|Hd].
  { destruct (Z.eqb_spec d' 0); [done|]. pose proof (Z.log2_nonneg d'). destruct (Z.ltb_spec (Z.log2 d') 3); [lia|].
    rewrite top_bits by lia. destruct (Z.testbit _ _), (Z.testbit _ _), (Z.testbit _ _); cbn; lia. }
  rewrite (proj2 (Z.eqb_neq d' 0)) by lia. pose proof (Z.log2_nonneg d). pose proof (Z.log2_le_mono d d' ltac:(lia)) as Hlog.
  assert (forall x, 0 < x -> 3 <= Z.log2 x -> 0 <= x / 2 ^ (Z.log2 x - 3) - 8 < 8) as Hb.
  { intros x Hx Hlx. rewrite top_bits by lia. destruct (Z.testbit _ _), (Z.testbit _ _), (Z.testbit _ _); cbn; lia. }
  destruct (Z.ltb_spec (Z.log2 d) 3), (Z.ltb_spec (Z.log2 d') 3); try lia.
  - pose proof (Hb d' ltac:(lia) ltac:(lia)). lia.
  - pose proof (Hb d' ltac:(lia) ltac:(lia)). pose proof (Hb d ltac:(lia) ltac:(lia)).
    destruct (decide (Z.log2 d = Z.log2 d')) as [->|]; [|lia].
    pose proof (Z.div_le_mono d d' (2 ^ (Z.log2 d' - 3)) ltac:(lia) Hle). lia.
Qed.

Lemma range_of_bound d : 0 <= d < 2 ^ 256 -> -1 <= range_of d < 2048.
Proof.
  intros Hd. pose proof (range_of_mono 0 d ltac:(lia)). pose proof (range_of_mono d (2 ^ 256 - 1) ltac:(lia)) as H1.
  change (range_of 0) with (-1) in *. replace (range_of (2 ^ 256 - 1)) with 2047 in H1 by reflexivity. lia.
Qed.

(** ** The table's invariant *)

(** Consecutive ranges from [lo] to the last one. *)
Fixpoint partition (lo : Z) (bs : list kBucket) : Prop :=
  match bs with
  | [] => lo = kademliaRangeCount
  | b :: bs => begin b = lo /\ lo <= end_ b /\ partition (end_ b + 1) bs
  end.

Section Table.
Context (local : bytes) (Hlocal : hash_ok local).

Definition range (peer : bytes) : Z := range_of (distance local peer).

Definition bucket_ok (cap : Z) (b : kBucket) : Prop :=
  Forall (fun m => hash_ok m /\ begin b <= range m <= end_ b) (members b) /\ NoDup (members b) /\
  (begin b = end_ b -> len (members b) <= cap).

Definition set_ok (s : kBucketSet) : Prop :=
  4 < capacity s /\ partition 0 (buckets s) /\ Forall (bucket_ok (capacity s)) (buckets s).

(** All peers of the table. *)
Definition peers (bs : list kBucket) : list bytes := concat (members <$> bs).

Lemma range_eq peer : hash_ok peer -> kademliaRange local peer = Ok (range peer).
Proof. by apply kademliaRange_eq. Qed.

Lemma distance_bound a b : hash_ok a -> hash_ok b -> 0 <= distance a b < 2 ^ 256.
Proof.
  intros [Hla Ha] [Hlb Hb]. pose proof (be_val_bound _ (zip_lxor_ok a b Ha Hb)) as Hd.
  rewrite len_zip_with, Hla, pow256 in Hd by lia. exact Hd.
Qed.

Lemma range_bound peer : hash_ok peer -> -1 <= range peer < 2048.
Proof. intros Hp. by apply range_of_bound, distance_bound. Qed.

Lemma partition_bounds lo bs i b :
  partition lo bs -> bs !! i = Some b -> lo <= begin b <= end_ b /\ end_ b < 2048.
Proof.
  assert (forall bs lo, partition lo bs -> lo <= 2048) as Hle.
  { clear. induction bs as [|b bs IH]; intros lo; cbn; [intros ->; done|]. intros (_ & H & Hp%IH). lia. }
  revert lo i. induction bs as [|c bs IH]; intros lo i Hp Hi; [done|]. destruct Hp as (Hb & He & Hp). pose proof (Hle _ _ Hp).
  destruct i as [|i]; cbn in Hi; simplify_eq; [lia|]. pose proof (IH _ _ Hp Hi). lia.
Qed.

Lemma partition_sorted bs : forall lo i j a b,
  partition lo bs -> (i < j)%nat -> bs !! i = Some a -> bs !! j = Some b -> end_ a < begin b.
Proof.
  induction bs as [|c bs IH]; intros lo i j a b Hp Hij Hi Hj; [done|]. destruct Hp as (_ & _ & Hp).
  destruct j as [|j]; [lia|]. cbn in Hj. destruct i as [|i]; cbn in Hi; simplify_eq.
  - pose proof (partition_bounds _ _ _ _ Hp Hj). lia.
  - apply (IH (end_ c + 1) i j); done || lia.
Qed.

Lemma partition_find bs : forall lo r,
  partition lo bs -> lo <= r < 2048 -> exists i b, bs !! i = Some b /\ begin b <= r <= end_ b.
Proof.
  induction bs as [|b bs IH]; intros lo r Hp Hr.
  { cbn in Hp. unfold kademliaRangeCount in Hp. vm_compute (HashLength * 8 * kademliaBFactor) in Hp. lia. }
  destruct Hp as (Hb & He & Hp). destruct (decide (r <= end_ b)).
  - exists 0%nat, b. split; [done|lia].
  - destruct (IH _ r Hp) as (i & c & Hi & Hc); [lia|]. by exists (S i), c.
Qed.

(** The search interval always contains the bucket looked for. *)
Lemma bucketSearch_ok bs r i b fuel : forall low high,
  partition 0 bs -> bs !! i = Some b -> begin b <= r <= end_ b ->
  0 <= low <= Z.of_nat i -> Z.of_nat i < high <= len bs -> (Z.to_nat (high - low) < fuel)%nat ->
  bucketSearch fuel bs r low high = Ok (Z.of_nat i).
Proof.
  induction fuel as [|fuel IH]; intros low high Hp Hi Hr Hlow Hhigh Hf; [lia|]. cbn [bucketSearch]. zbool.
  set (middle := low + (high - low) / 2).
  assert (low <= middle < high) as Hm.
  { subst middle. pose proof (Z.div_pos (high - low) 2 ltac:(lia) ltac:(lia)).
    pose proof (Z.div_lt_upper_bound (high - low) 2 (high - low) ltac:(lia) ltac:(lia)). lia. }
  clearbody middle. destruct (index_ok bs middle) as (c & Hc & Hl); [lia|]. rewrite Hc. cbn [bind].
  destruct (lt_eq_lt_dec (Z.to_nat middle) i) as [[Hlt|Heq]|Hgt].
  - pose proof (partition_sorted bs 0 _ _ _ _ Hp Hlt Hl Hi). pose proof (partition_bounds _ _ _ _ Hp Hl).
    zbool. apply IH; try done; lia.
  - rewrite Heq in Hl. simplify_eq. zbool. f_equal. lia.
  - pose proof (partition_sorted bs 0 _ _ _ _ Hp Hgt Hi Hl). zbool. apply IH; try done; lia.
Qed.

Lemma bucketIndex_ok s r :
  partition 0 (buckets s) -> 0 <= r < 2048 ->
  exists i b, bucketIndex s r = Ok (Z.of_nat i) /\ buckets s !! i = Some b /\ begin b <= r <= end_ b.
Proof.
  intros Hp Hr. destruct (partition_find _ _ r Hp Hr) as (i & b & Hi & Hb). exists i, b. split_and!; try done; try lia.
  pose proof (lookup_lt_Some _ _ _ Hi). unfold bucketIndex.
  apply (bucketSearch_ok _ r i b); try done; unfold len; lia.
Qed.
End Table.

(** ** Splitting *)

Section Split.
Context (local : bytes) (Hlocal : hash_ok local) (cap : Z) (Hcap : 0 <= cap).

(** What a bucket keeps of the hashes dealt to it. *)
Definition trim (b : kBucket) (ms : list bytes) : list bytes :=
  if begin b =? end_ b then take (Z.to_nat cap) ms else ms.

Definition with_members (b : kBucket) (ms : list bytes) : kBucket := mkBucket (begin b) (end_ b) ms (lastChanged b).

Lemma redistribute_trim b ms m :
  redistribute cap (with_members b (trim b ms)) m = with_members b (trim b (ms ++ [m])).
Proof.
  unfold redistribute, trim, with_members. cbn [begin end_ members lastChanged]. rewrite Z.geb_leb.
  destruct (Z.eqb_spec (begin b) (end_ b)) as [E|E]; cbn [andb]; [|done].
  destruct (Z.leb_spec cap (len (take (Z.to_nat cap) ms))) as [H|H]; unfold len in H; rewrite length_take in H.
  - rewrite take_app_le by lia. done.
  - rewrite (take_ge ms) by lia. rewrite take_ge by (rewrite length_app; cbn; lia). done.
Qed.

Lemma deal_eq c ms : forall f s xs ys,
  Forall hash_ok ms ->
  deal cap local c ms (with_members f (trim f xs)) (with_members s (trim s ys)) =
  Ok (with_members f (trim f (xs ++ filter (fun m => range local m < c) ms)),
      with_members s (trim s (ys ++ filter (fun m => ~ range local m < c) ms))).
Proof.
  induction ms as [|m ms IH]; intros f s xs ys Hok; cbn [deal].
  { by rewrite !app_nil_r. }
  apply Forall_cons in Hok as [Hm Hok]. rewrite (range_eq local Hlocal m Hm). cbn [bind].
  destruct (Z.ltb_spec (range local m) c).
  - rewrite redistribute_trim, IH by done. rewrite filter_cons_True by done. rewrite filter_cons_False by lia.
    by rewrite <- app_assoc.
  - rewrite redistribute_trim, IH by done. rewrite filter_cons_False by lia. rewrite filter_cons_True by lia.
    by rewrite <- app_assoc.
Qed.

Lemma cut_between start stop : start < stop -> start < cut start stop <= stop.
Proof.
  intros H. unfold cut. change kademliaBFactor with 8. destruct (_ || _) eqn:E.
  - change (KademliaB =? 1) with false in E. cbn [orb] in E. lia.
  - pose proof (Z.div_lt_upper_bound (1 + stop - start) 2 (1 + stop - start) ltac:(lia) ltac:(lia)).
    pose proof (Z.div_le_lower_bound (1 + stop - start) 2 1 ltac:(lia) ltac:(lia)). lia.
Qed.

Lemma elem_of_trim b ms m : m ∈ trim b ms -> m ∈ ms.
Proof. unfold trim. destruct (_ =? _); [|done]. intros Hm. by eapply elem_of_take in Hm as (? & ? & _); eapply list_elem_of_lookup_2. Qed.

(** A trimmed half of a bucket is a valid bucket. *)
Lemma half_ok lo hi t ms (Q : bytes -> Prop) `{forall m, Decision (Q m)} :
  NoDup ms -> Forall (fun m => hash_ok m) ms -> (forall m, m ∈ ms -> Q m -> lo <= range local m <= hi) ->
  let b := mkBucket lo hi [] t in
  bucket_ok local cap (with_members b (trim b (filter Q ms))).
Proof.
  intros Hnd Hok Hr b. unfold bucket_ok, with_members. cbn [begin end_ members b]. split_and!.
  - apply Forall_forall. intros m Hm%elem_of_trim. apply list_elem_of_filter in Hm as [HQ Hm].
    rewrite Forall_forall in Hok. auto.
  - unfold trim. pose proof (NoDup_filter Q _ Hnd) as Hf. destruct (_ =? _); [|done].
    rewrite <- (take_drop (Z.to_nat cap)) in Hf. by apply NoDup_app in Hf as [? _].
  - intros E. unfold trim. cbn [begin end_ b]. rewrite (proj2 (Z.eqb_eq _ _) E). unfold len. rewrite length_take. lia.
Qed.

(** A hash dealt to a half is kept, or the half is a full terminal bucket. *)
Lemma half_keeps lo hi t ms m :
  let b := mkBucket lo hi [] t in
  m ∈ ms -> lo <= range local m <= hi ->
  m ∈ trim b ms \/ (lo = hi /\ range local m = lo /\ cap <= len (trim b ms)).
Proof.
  intros b Hm Hr. unfold trim. cbn [begin end_ b]. destruct (Z.eqb_spec lo hi) as [->|]; [|by left].
  destruct (decide (m ∈ take (Z.to_nat cap) ms)); [by left|]. right. split_and!; [done|lia|].
  unfold len. rewrite length_take. destruct (decide (length ms <= Z.to_nat cap)%nat); [|lia].
  rewrite take_ge in * by done. done.
Qed.
End Split.

Section Operations.
Context (local : bytes) (Hlocal : hash_ok local).

(** The peers [ms] are all in [bs], but for those whose terminal range is full. *)
Definition keeps_peers (cap : Z) (ms : list bytes) (bs : list kBucket) : Prop :=
  forall m, m ∈ ms -> m ∈ peers bs \/
    exists b, b ∈ bs /\ begin b = end_ b /\ begin b = range local m /\ cap <= len (members b).

Lemma peers_cons b bs : peers (b :: bs) = members b ++ peers bs.
Proof. done. Qed.

Lemma peers_app bs cs : peers (bs ++ cs) = peers bs ++ peers cs.
Proof. unfold peers. by rewrite fmap_app, concat_app. Qed.

Lemma trim_nil cap b : trim cap b [] = [].
Proof. unfold trim. destruct (_ =? _); [apply take_nil|done]. Qed.

Lemma split_ok cap fuel : forall before original after lo,
  0 <= cap -> partition lo (original :: after) -> 0 <= lo -> bucket_ok local cap original ->
  (Z.to_nat (end_ original - begin original) < fuel)%nat ->
  exists new,
    split fuel (len before) local (mkSet cap (before ++ original :: after)) = Ok (mkSet cap (before ++ new ++ after)) /\
    partition lo (new ++ after) /\ Forall (bucket_ok local cap) new /\
    (forall m, m ∈ peers new -> m ∈ members original) /\ keeps_peers cap (members original) new /\
    (begin original = end_ original -> new = [original]).
Proof.
  induction fuel as [|fuel IH]; intros before original after lo Hcap Hp Hlo Hok Hf; [lia|]. cbn [split buckets capacity].
  rewrite index_app_r, Z.sub_diag, index_cons_0 by lia. cbn [bind].
  destruct ((begin original =? end_ original) || (len (members original) <=? cap)) eqn:Estop.
  { exists [original]. split_and!; [done|done|by constructor| | |].
    - intros m. rewrite peers_cons, app_nil_r. done.
    - intros m Hm. left. by rewrite peers_cons, app_nil_r.
    - done. }
  apply orb_false_iff in Estop as [Hne Hbig]. pose proof (partition_bounds lo _ 0 _ Hp eq_refl) as Hbd.
  set (c := cut (begin original) (end_ original)).
  pose proof (cut_between (begin original) (end_ original) ltac:(lia)) as Hc. fold c in Hc.
  unfold u16. rewrite !Z.mod_small by lia.
  destruct Hok as (Hall & Hnd & _). assert (Forall hash_ok (members original)) as Hh by (eapply Forall_impl; [done|naive_solver]).
  assert (forall m, m ∈ members original -> begin original <= range local m <= end_ original) as Hrange.
  { intros m Hm. rewrite Forall_forall in Hall. apply Hall in Hm. naive_solver. }
  set (f := mkBucket (begin original) (c - 1) [] (lastChanged original)).
  set (g := mkBucket c (end_ original) [] (lastChanged original)).
  set (fm := filter (fun m => range local m < c) (members original)).
  set (gm := filter (fun m => ~ range local m < c) (members original)).
  assert (deal cap local c (members original) f g = Ok (with_members f (trim cap f fm), with_members g (trim cap g gm))) as ->.
  { pose proof (deal_eq local Hlocal cap Hcap c (members original) f g [] [] Hh) as Hd. cbn [app] in Hd.
    rewrite !trim_nil in Hd. exact Hd. }
  cbn [bind]. rewrite slice_ok, slice_from_ok by len_lia. cbn [bind]. rewrite sub_app_exact by done.
  replace (sub (len before + 1) (len (before ++ original :: after)) (before ++ original :: after)) with after
    by (rewrite sub_app_r, sub_cons_r by lia; symmetry; replace (len before + 1 - len before - 1) with 0 by lia;
        apply sub_all; len_lia).
  set (f' := with_members f (trim cap f fm)). set (g' := with_members g (trim cap g gm)).
  assert (bucket_ok local cap f') as Hf'.
  { apply half_ok; try done. intros m Hm%Hrange ?. lia. }
  assert (bucket_ok local cap g') as Hg'.
  { apply half_ok; try done. intros m Hm%Hrange ?. lia. }
  destruct Hp as (Hlo' & _ & Hp).
  destruct (IH before f' (g' :: after) lo) as (new & Hsplit & Hpart & Hnew & Hsub & Hkeep & Hterm); try done.
  { cbn. split_and!; try done; try lia. }
  { cbn [end_ begin f' f with_members]. lia. }
  exists (new ++ [g']). cbn [app]. rewrite Hsplit, <- app_assoc. split_and!; [done|done|apply Forall_app; split; [done|by constructor]| | |lia].
  - intros m. rewrite peers_app, elem_of_app, peers_cons, app_nil_r. intros [Hm%Hsub|Hm];
      cbn [members f' g' with_members] in Hm; apply elem_of_trim in Hm; by apply list_elem_of_filter in Hm as [_ ?].
  - intros m Hm. pose proof (Hrange m Hm) as Hr. rewrite peers_app, elem_of_app, peers_cons, app_nil_r.
    destruct (decide (range local m < c)) as [Hlt|Hge].
    + assert (m ∈ fm) as Hfm by (by apply list_elem_of_filter).
      destruct (half_keeps local cap (begin original) (c - 1) (lastChanged original) fm m Hfm) as [Hin|(E & Er & Hl)]; [lia| |].
      * destruct (Hkeep m Hin) as [?|(b & Hb & ?)]; [tauto|]. right. exists b. rewrite elem_of_app. tauto.
      * right. exists f'. split_and!; [|done|done|done].
        rewrite Hterm by done. set_solver.
    + assert (m ∈ gm) as Hgm by (by apply list_elem_of_filter).
      destruct (half_keeps local cap c (end_ original) (lastChanged original) gm m Hgm) as [Hin|(E & Er & Hl)]; [lia| |].
      * tauto.
      * right. exists g'. split_and!; [|done|done|done]. apply elem_of_app. right. set_solver.
Qed.
End Operations.

(** ** Adding and removing peers *)

Section Membership.
Context (local : bytes) (Hlocal : hash_ok local).

Lemma partition_replace before b after : forall lo,
  partition lo (before ++ b :: after) ->
  lo <= begin b /\ partition (begin b) (b :: after) /\ forall new, partition (begin b) new -> partition lo (before ++ new).
Proof.
  induction before as [|a before IH]; intros lo Hp; cbn [app] in Hp.
  - pose proof Hp as (Hb & _). subst lo. by split_and!.
  - destruct Hp as (Ha & Hle & Hp). destruct (IH _ Hp) as (Hlo & Hb & Hnew). split_and!; [lia|done|].
    intros new Hn. cbn. split_and!; try done. by apply Hnew.
Qed.

Lemma elem_of_peers m bs : m ∈ peers bs <-> exists b, b ∈ bs /\ m ∈ members b.
Proof.
  unfold peers. rewrite list_elem_of_In, in_concat. split.
  - intros (ms & Hms & Hm). apply list_elem_of_In, list_elem_of_fmap in Hms as (b & -> & Hb).
    exists b. split; [done|]. by apply list_elem_of_In.
  - intros (b & Hb & Hm). exists (members b). split; [|by apply list_elem_of_In].
    apply list_elem_of_In, list_elem_of_fmap. by exists b.
Qed.

(** A peer of the table is in the bucket of its range. *)
Lemma peer_bucket cap bs i b m :
  partition 0 bs -> Forall (bucket_ok local cap) bs -> bs !! i = Some b -> begin b <= range local m <= end_ b ->
  m ∈ peers bs -> m ∈ members b.
Proof.
  intros Hp Hok Hi Hr (c & Hc & Hm)%elem_of_peers. apply list_elem_of_lookup in Hc as (j & Hj).
  assert (begin c <= range local m <= end_ c) as Hrc.
  { rewrite Forall_lookup in Hok. destruct (Hok _ _ Hj) as (Hall & _). rewrite Forall_forall in Hall. by apply Hall. }
  destruct (lt_eq_lt_dec i j) as [[Hlt|<-]|Hgt].
  - pose proof (partition_sorted _ _ _ _ _ _ Hp Hlt Hi Hj). lia.
  - by simplify_eq.
  - pose proof (partition_sorted _ _ _ _ _ _ Hp Hgt Hj Hi). lia.
Qed.

(** Where a hash other than the local one belongs. *)
Lemma find_bucket s peer :
  set_ok local s -> hash_ok peer -> 0 <= range local peer ->
  exists i before b after,
    bucketIndex s (range local peer) = Ok i /\ buckets s = before ++ b :: after /\ len before = i /\
    index (buckets s) i = Ok b /\ begin b <= range local peer <= end_ b /\ bucket_ok local (capacity s) b /\
    (peer ∈ peers (buckets s) -> peer ∈ members b) /\
    (forall c, setBucket s i c = Ok (mkSet (capacity s) (before ++ c :: after))).
Proof.
  intros (Hcap & Hp & Hok) Hpeer Hr. pose proof (range_bound local Hlocal peer Hpeer) as Hrb.
  destruct (bucketIndex_ok s (range local peer) Hp) as (i & b & Hi & Hlook & Hb); [lia|].
  exists (Z.of_nat i), (take i (buckets s)), b, (drop (S i) (buckets s)).
  pose proof (take_drop_middle _ _ _ Hlook) as Hsplit. pose proof (lookup_lt_Some _ _ _ Hlook) as Hlt.
  assert (len (take i (buckets s)) = Z.of_nat i) as Hlen by (unfold len; rewrite length_take; lia).
  assert (bucket_ok local (capacity s) b) as Hbok by (rewrite Forall_lookup in Hok; by eapply Hok).
  split_and!; try done; try lia; try apply Hbok.
  - unfold index. zbool. rewrite Nat2Z.id. by rewrite Hlook.
  - by apply (peer_bucket (capacity s) (buckets s) i b).
  - intros c. unfold setBucket. rewrite <- Hsplit at 1. change (b :: drop (S i) (buckets s)) with ([b] ++ drop (S i) (buckets s)).
    rewrite write_middle by (rewrite ?Hlen; done). done.
Qed.
End Membership.

Section Steps.
Context (local : bytes) (Hlocal : hash_ok local).

Definition full_at (s : kBucketSet) (r : Z) : Prop :=
  exists b, b ∈ buckets s /\ begin b = end_ b /\ begin b = r /\ capacity s <= len (members b).

Lemma set_ok_replace s before b after c now_bs :
  set_ok local s -> buckets s = before ++ b :: after -> now_bs = before ++ c :: after ->
  begin c = begin b -> end_ c = end_ b -> bucket_ok local (capacity s) c -> set_ok local (mkSet (capacity s) now_bs).
Proof.
  intros (Hcap & Hp & Hok) Hb -> Hbeg Hend Hc. rewrite Hb in Hp, Hok. unfold set_ok. cbn [capacity buckets].
  destruct (partition_replace _ _ _ _ Hp) as (_ & (_ & Hle & Hafter) & Hnew). split_and!; [done| |].
  - apply Hnew. cbn. rewrite Hbeg, Hend. done.
  - apply Forall_app in Hok as [H1 H2]. apply Forall_cons in H2 as [_ H2]. apply Forall_app. split; [done|by constructor].
Qed.

Lemma add_member b peer now cap :
  bucket_ok local cap b -> hash_ok peer -> begin b <= range local peer <= end_ b -> peer ∉ members b ->
  (begin b = end_ b -> len (members b) < cap) ->
  bucket_ok local cap (mkBucket (begin b) (end_ b) (members b ++ [peer]) now).
Proof.
  intros (Hall & Hnd & Hl) Hpeer Hr Hnot Hroom. unfold bucket_ok. cbn [begin end_ members]. split_and!.
  - apply Forall_app. split; [done|by apply Forall_singleton].
  - apply NoDup_app. split_and!; [done|set_solver|apply NoDup_singleton].
  - intros E. rewrite len_app. change (len [peer]) with 1. specialize (Hroom E). lia.
Qed.

(** What [add] does: nothing for the local hash, a known peer or a full terminal
    range; otherwise the peer joins, and whoever is missing afterwards has a
    full terminal range. *)
Lemma add_ok s peer now :
  set_ok local s -> hash_ok peer ->
  exists ok s', add local peer now s = Ok (ok, s') /\ set_ok local s' /\ capacity s' = capacity s /\
    (if (ok : bool)
    then (peer ∉ peers (buckets s)) /\ (forall m, m ∈ peers (buckets s') -> m = peer \/ m ∈ peers (buckets s)) /\
         keeps_peers local (capacity s) (peer :: peers (buckets s)) (buckets s')
    else peers (buckets s') = peers (buckets s) /\
         (range local peer < 0 \/ peer ∈ peers (buckets s) \/ full_at s (range local peer))).
Proof.
  intros Hs Hpeer. unfold add. rewrite (range_eq local Hlocal peer Hpeer). cbn [bind].
  destruct (Z.ltb_spec (range local peer) 0) as [Hneg|Hpos].
  { exists false, s. by split_and!; [..|left]. }
  destruct (find_bucket local Hlocal s peer Hs Hpeer Hpos) as (i & before & b & after & -> & Hb & Hlen & Hi & Hr & Hbok & Hin & Hset).
  cbn [bind]. rewrite Hi. cbn [bind]. pose proof Hs as (Hcap & Hp & Hall).
  destruct (bool_decide (peer ∈ members b)) eqn:Ein.
  { apply bool_decide_eq_true in Ein. rewrite Hset. cbn [bind]. do 2 eexists. split; [done|]. cbn [buckets capacity].
    split_and!; [by eapply set_ok_replace|done| |].
    - by rewrite Hb, !peers_app, !peers_cons.
    - right; left. rewrite Hb, peers_app, peers_cons. set_solver. }
  apply bool_decide_eq_false in Ein. destruct ((begin b =? end_ b) && (len (members b) >=? capacity s)) eqn:Efull.
  { exists false, s. split_and!; try done. right; right. exists b. split_and!; try lia. rewrite Hb. set_solver. }
  cbn [begin end_ members]. rewrite Hset. cbn [bind capacity].
  set (c := mkBucket (begin b) (end_ b) (members b ++ [peer]) now).
  assert (bucket_ok local (capacity s) c) as Hc by (apply add_member; try done; lia).
  assert (set_ok local (mkSet (capacity s) (before ++ c :: after))) as Hs1 by (by eapply set_ok_replace).
  assert (peer ∉ peers (buckets s)) as Hnew by tauto.
  destruct (negb (begin b =? end_ b) && (len (members b ++ [peer]) >? capacity s)) eqn:Esplit.
  - pose proof Hs1 as (_ & Hp1 & Hall1). cbn [buckets capacity] in Hp1, Hall1.
    destruct (partition_replace _ _ _ _ Hp1) as (Hlo & Hcp & Hrepl).
    destruct (split_ok local Hlocal (capacity s) (S (Z.to_nat (end_ b))) before c after (begin b))
      as (new & Hsplit & Hpart & Hnewok & Hsub & Hkeep & _); try done; try lia.
    { pose proof (partition_bounds _ _ 0 _ Hcp eq_refl) as Hbd. change (begin c) with (begin b) in *. change (end_ c) with (end_ b) in *. lia. }
    rewrite <- Hlen. rewrite Hsplit. cbn [bind]. do 2 eexists. split; [done|]. cbn [buckets capacity]. split_and!; try done.
    + split_and!; [done|by apply Hrepl|]. apply Forall_app in Hall1 as [H1 [_ H2]%Forall_cons]. cbn [buckets capacity].
      rewrite !Forall_app. done.
    + intros m. rewrite Hb, !peers_app, peers_cons, !elem_of_app. intros [?|[Hm%Hsub|?]]; [tauto| |tauto].
      cbn [members c] in Hm. rewrite elem_of_app, list_elem_of_singleton in Hm. tauto.
    + intros m. rewrite Hb, peers_app, peers_cons, elem_of_cons, !elem_of_app, !peers_app, !elem_of_app. intros Hm.
      destruct (decide (m ∈ members c)) as [Hmc|Hmc].
      * destruct (Hkeep m Hmc) as [?|(d & Hd & ?)]; [tauto|]. right. exists d. split; [|done]. rewrite !elem_of_app. tauto.
      * cbn [members c] in Hmc. rewrite elem_of_app, list_elem_of_singleton in Hmc. tauto.
  - do 2 eexists. split; [done|]. cbn [buckets capacity]. split_and!; try done.
    + intros m. rewrite Hb, !peers_app, !peers_cons. cbn [members c]. rewrite !elem_of_app, list_elem_of_singleton. tauto.
    + intros m. rewrite Hb, !peers_app, !peers_cons. cbn [members c]. rewrite elem_of_cons, !elem_of_app, list_elem_of_singleton.
      tauto.
Qed.

Lemma removeFirst_spec peer ms :
  NoDup ms ->
  match removeFirst peer ms with
  | None => peer ∉ ms
  | Some ms' => peer ∈ ms /\ NoDup ms' /\ (forall m, m ∈ ms' <-> m ∈ ms /\ m <> peer) /\ (len ms' <= len ms)
  end.
Proof.
  induction ms as [|x ms IH]; intros Hnd; cbn [removeFirst]; [set_solver|]. apply NoDup_cons in Hnd as [Hx Hnd].
  destruct (bool_decide (x = peer)) eqn:E.
  - apply bool_decide_eq_true in E as ->. rewrite len_cons. split_and!; [set_solver|done|set_solver|lia].
  - apply bool_decide_eq_false in E. specialize (IH Hnd). destruct (removeFirst peer ms) as [ms'|]; cbn; [|set_solver].
    destruct IH as (H1 & H2 & H3 & H4). rewrite !len_cons. split_and!; [set_solver| | |lia].
    + apply NoDup_cons. split; [|done]. rewrite H3. tauto.
    + intros m. rewrite !elem_of_cons, H3. split; [|naive_solver]. intros [->|[]]; tauto.
Qed.

(** Peers are never in range -1. *)
Lemma peers_positive s m : set_ok local s -> m ∈ peers (buckets s) -> 0 <= range local m.
Proof.
  intros (_ & Hp & Hok) (b & Hb & Hm)%elem_of_peers. apply list_elem_of_lookup in Hb as (i & Hi).
  pose proof (partition_bounds _ _ _ _ Hp Hi). rewrite Forall_lookup in Hok. destruct (Hok _ _ Hi) as (Hall & _).
  rewrite Forall_forall in Hall. destruct (Hall m Hm). lia.
Qed.

(** [remove] takes out the peer and nothing else. *)
Lemma remove_ok s peer :
  set_ok local s -> hash_ok peer ->
  exists ok s', remove local peer s = Ok (ok, s') /\ set_ok local s' /\ capacity s' = capacity s /\
    (ok = true <-> peer ∈ peers (buckets s)) /\
    (forall m, m ∈ peers (buckets s') <-> m ∈ peers (buckets s) /\ m <> peer).
Proof.
  intros Hs Hpeer. unfold remove. rewrite (range_eq local Hlocal peer Hpeer). cbn [bind].
  destruct (Z.ltb_spec (range local peer) 0) as [Hneg|Hpos].
  { exists false, s. pose proof (peers_positive s peer Hs) as Hno. assert (peer ∉ peers (buckets s)) by (intros H%Hno; lia).
    split_and!; try done. intros m. split; [|tauto]. intros Hm. split; [done|]. by intros ->. }
  destruct (find_bucket local Hlocal s peer Hs Hpeer Hpos) as (i & before & b & after & -> & Hb & Hlen & Hi & Hr & Hbok & Hin & Hset).
  cbn [bind]. rewrite Hi. cbn [bind]. pose proof Hbok as (Hall & Hnd & Hl).
  pose proof (removeFirst_spec peer (members b) Hnd) as Hrem. destruct (removeFirst peer (members b)) as [ms|].
  - destruct Hrem as (H1 & H2 & H3 & H4). rewrite Hset. cbn [bind]. do 2 eexists. split; [done|]. cbn [buckets capacity].
    assert ((peer ∉ peers before) /\ (peer ∉ peers after)) as [Hnb Hna].
    { pose proof Hs as (_ & Hp & Hok). rewrite Hb in Hp, Hok.
      assert (forall c j, (before ++ b :: after) !! j = Some c -> peer ∈ members c -> j = length before) as Huniq.
      { intros c j Hj Hm. rewrite Forall_lookup in Hok. destruct (Hok _ _ Hj) as (Hc & _). rewrite Forall_forall in Hc.
        destruct (Hc peer Hm) as [_ Hrc]. assert ((before ++ b :: after) !! length before = Some b) as Hbl
          by (rewrite lookup_app_r, Nat.sub_diag by lia; done).
        destruct (lt_eq_lt_dec j (length before)) as [[Hlt|]|Hgt]; [|done|].
        - pose proof (partition_sorted _ _ _ _ _ _ Hp Hlt Hj Hbl). lia.
        - pose proof (partition_sorted _ _ _ _ _ _ Hp Hgt Hbl Hj). lia. }
      split; intros (c & Hc & Hm)%elem_of_peers; apply list_elem_of_lookup in Hc as (j & Hj).
      - pose proof (lookup_lt_Some _ _ _ Hj). assert (j = length before); [|lia]. apply (Huniq c j); [|done].
        by rewrite lookup_app_l.
      - assert (S (length before) + j = length before)%nat; [|lia]. apply (Huniq c); [|done].
        rewrite lookup_app_r by lia. replace (S (length before) + j - length before)%nat with (S j) by lia. done. }
    split_and!.
    + eapply set_ok_replace; try done. split_and!; cbn [begin end_ members]; [|done|intros E; specialize (Hl E); lia].
      apply Forall_forall. intros m Hm%H3. rewrite Forall_forall in Hall. apply Hall. tauto.
    + done.
    + split; [|done]. intros _. rewrite Hb, peers_app, peers_cons, !elem_of_app. tauto.
    + intros m. rewrite Hb, !peers_app, !peers_cons. cbn [members]. rewrite !elem_of_app, H3.
      destruct (decide (m = peer)) as [->|]; tauto.
  - exists false, s. assert (peer ∉ peers (buckets s)) by tauto. split_and!; try done.
    intros m. split; [|tauto]. intros Hm. split; [done|]. by intros ->.
Qed.
End Steps.

(** ** The routing table *)

Lemma distance_zero a : forall b, bytes_ok a -> bytes_ok b -> len a = len b -> distance a b = 0 -> a = b.
Proof.
  unfold distance. induction a as [|x a IH]; intros [|y b] Ha Hb Hl Hd; try (by unfold len in Hl; cbn in Hl; lia); [done|].
  apply Forall_cons in Ha as [Hx Ha]. apply Forall_cons in Hb as [Hy Hb]. rewrite !len_cons in Hl. unfold is_byte in *.
  cbn [zip_with] in Hd. rewrite be_val_cons, len_zip_with, pow256 in Hd by (lia || apply len_nonneg).
  pose proof (be_val_bound _ (zip_lxor_ok a b Ha Hb)) as Hv. pose proof (lxor_bound x y 8 ltac:(lia) Hx Hy).
  assert (0 < 2 ^ (8 * len a)) by (apply Z.pow_pos_nonneg; len_pos; lia).
  assert (Z.lxor x y = 0) as Hxy by nia. apply Z.lxor_eq in Hxy as ->. f_equal. apply IH; try done; nia.
Qed.

Lemma range_negative local peer : hash_ok local -> hash_ok peer -> range local peer < 0 -> peer = local.
Proof.
  intros [Hl Hlok] [Hp Hpok] Hneg. symmetry. apply distance_zero; try done; [lia|].
  pose proof (distance_bound local peer (conj Hl Hlok) (conj Hp Hpok)) as Hd. unfold range, range_of in Hneg.
  destruct (Z.eqb_spec (distance local peer) 0); [done|]. pose proof (Z.log2_nonneg (distance local peer)).
  destruct (Z.ltb_spec (Z.log2 (distance local peer)) 3); [lia|]. rewrite top_bits in Hneg by lia.
  destruct (Z.testbit _ _), (Z.testbit _ _), (Z.testbit _ _); cbn in Hneg; lia.
Qed.

(** Any use of a table. *)
Inductive table_step (local : bytes) : kBucketSet -> kBucketSet -> Prop :=
| step_add peer now s ok s' : hash_ok peer -> add local peer now s = Ok (ok, s') -> table_step local s s'
| step_remove peer s ok s' : hash_ok peer -> remove local peer s = Ok (ok, s') -> table_step local s s'.

Lemma new_set_ok local cap : set_ok local (newKBucketSet cap).
Proof.
  unfold set_ok, newKBucketSet. cbn [capacity buckets]. split_and!.
  - destruct (Z.leb_spec cap 4); [done|lia].
  - vm_compute. split_and!; congruence.
  - apply Forall_singleton. split_and!; [done|apply NoDup_nil_2|]. cbn. intros _. destruct (Z.leb_spec cap 4); [done|].
    change (len (@nil bytes)) with 0. lia.
Qed.

Lemma reachable_set_ok local cap s :
  hash_ok local -> rtc (table_step local) (newKBucketSet cap) s -> set_ok local s.
Proof.
  intros Hlocal. revert s. apply rtc_ind_r; [apply new_set_ok|]. intros s s' _ Hstep IH.
  destruct Hstep as [peer now s ok s' Hp Ha|peer s ok s' Hp Ha].
  - destruct (add_ok local Hlocal s peer now IH Hp) as (ok' & s'' & Ha' & Hs & _). rewrite Ha in Ha'. by simplify_eq.
  - destruct (remove_ok local Hlocal s peer IH Hp) as (ok' & s'' & Ha' & Hs & _). rewrite Ha in Ha'. by simplify_eq.
Qed.

(** C23: the range of a peer is its logarithmic XOR distance.  The bit-twiddling
    translation computes, for any two hashes, -1 when they are equal and
    otherwise eight times the position of the distance's highest bit plus its
    next three bits; so a closer peer never has a larger range. *)
Theorem kademliaRange_is_log_distance local a b :
  hash_ok local -> hash_ok a -> hash_ok b ->
  kademliaRange local a = Ok (range_of (distance local a)) /\
  (distance local a <= distance local b -> range_of (distance local a) <= range_of (distance local b)).
Proof.
  intros Hl Ha Hb. split; [by apply kademliaRange_eq|]. intros Hle. apply range_of_mono.
  pose proof (distance_bound local a Hl Ha). lia.
Qed.

(** C22: the routing table stays a routing table.  After any sequence of additions
    and removals on a new table: the buckets partition the ranges, every peer is
    in the bucket of its range and listed once, and no terminal bucket exceeds
    the capacity.  The next operation returns.  [add] accepts exactly a peer that
    is neither the local router, nor known, nor of a full terminal range; it
    loses a peer only to a full terminal bucket.  [remove] reports whether the
    peer was known and takes out that peer only. *)
Theorem routing_table_ok local cap s peer now :
  hash_ok local -> hash_ok peer -> rtc (table_step local) (newKBucketSet cap) s ->
  (partition 0 (buckets s) /\ Forall (bucket_ok local (capacity s)) (buckets s)) /\
  (exists ok s', add local peer now s = Ok (ok, s') /\
     if (ok : bool)
     then (peer ∉ peers (buckets s)) /\ (forall m, m ∈ peers (buckets s') -> m = peer \/ m ∈ peers (buckets s)) /\
          keeps_peers local (capacity s) (peer :: peers (buckets s)) (buckets s')
     else peers (buckets s') = peers (buckets s) /\
          (peer = local \/ peer ∈ peers (buckets s) \/ full_at s (range local peer))) /\
  (exists ok s', remove local peer s = Ok (ok, s') /\ (ok = true <-> peer ∈ peers (buckets s)) /\
     forall m, m ∈ peers (buckets s') <-> m ∈ peers (buckets s) /\ m <> peer).
Proof.
  intros Hl Hp Hr. pose proof (reachable_set_ok local cap s Hl Hr) as Hs. split; [by destruct Hs as (_ & ? & ?)|]. split.
  - destruct (add_ok local Hl s peer now Hs Hp) as (ok & s' & Ha & _ & _ & Hspec). exists ok, s'. split; [done|].
    destruct ok; [done|]. destruct Hspec as [He [Hn|?]]; [|tauto]. split; [done|]. left. by apply range_negative.
  - destruct (remove_ok local Hl s peer Hs Hp) as (ok & s' & Hrem & _ & _ & Hspec). by exists ok, s'.
Qed.

Definition sample_hash (b : Z) : bytes := make_bytes 31 ++ [b].

Lemma kademliaRange_is_log_distance_witness :
  kademliaRange (sample_hash 0) (sample_hash 100) = Ok 52 /\
  range_of (distance (sample_hash 0) (sample_hash 100)) <= range_of (distance (sample_hash 0) (sample_hash 101)).
Proof.
  destruct (kademliaRange_is_log_distance (sample_hash 0) (sample_hash 100) (sample_hash 101)) as [H1 H2].
  1-3: split; [reflexivity|apply bytes_ok_check; reflexivity].
  split; [vm_compute; reflexivity|]. apply H2. vm_compute. congruence.
Defined.

Lemma routing_table_ok_witness :
  exists s, rtc (table_step (sample_hash 0)) (newKBucketSet 5) s /\
    exists ok s', remove (sample_hash 0) (sample_hash 9) s = Ok (ok, s') /\ ok = true.
Proof.
  assert (hash_ok (sample_hash 0) /\ hash_ok (sample_hash 9)) as [H0 H9].
  { split; (split; [reflexivity|apply bytes_ok_check; reflexivity]). }
  eexists. split.
  - apply rtc_once. apply (step_add _ (sample_hash 9) 1 (newKBucketSet 5) true); [exact H9|vm_compute; reflexivity].
  - destruct (routing_table_ok (sample_hash 0) 5 (mkSet 5 [mkBucket 0 2047 [sample_hash 9] 1]) (sample_hash 9) 2)
      as (_ & _ & ok & s' & Hr & Hok & _).
    + exact H0.
    + exact H9.
    + apply rtc_once. apply (step_add _ (sample_hash 9) 1 (newKBucketSet 5) true); [exact H9|vm_compute; reflexivity].
    + exists ok, s'. split; [exact Hr|]. apply Hok. set_solver.
Defined.
