(* ===== verification/GarlicTags.v ===== *)
(** One-use key stores of the garlic layer, [src/dataplane/internal/garlic]: the
    inbound session tags ([tags.go]) and the reply keys of encrypted lookups and
    tunnel builds ([reply_keys.go]).

    Both implement the interface [OneUse]: a key comes out at most once for each
    time it was put in.  Clients are reasoned about through the interface.  The
    order in which Go iterates over a map is a parameter of the operations that
    iterate. *)

From S2P Require Import Prelude.

(** ** The interface *)

(** What an operation may do to the tag [t]. *)
Inductive effect (T V : Type) :=
| Stores (t : T) (v : V)
| Takes (t : T)
| Neutral.
Arguments Stores {T V} t v.
Arguments Takes {T V} t.
Arguments Neutral {T V}.

(** Operations of type [Op] on states [S]; a taking operation may answer with a
    value. *)
Class OneUse (S Op T V : Type) `{Countable T} := {
  contents : S -> gmap T V;
  effect_of : Op -> effect T V;
  perform : Op -> S -> option V * S }.

Class OneUseLaws (S Op T V : Type) `{OneUse S Op T V} : Prop := {
  stores_law o s t v : effect_of o = Stores t v ->
    (perform o s).1 = None /\
    forall t' w, contents (perform o s).2 !! t' = Some w -> (t' = t /\ w = v) \/ contents s !! t' = Some w;
  takes_law o s t : effect_of o = Takes t ->
    contents (perform o s).2 = delete t (contents s) /\
    forall w, (perform o s).1 = Some w -> contents s !! t = Some w;
  neutral_law o s : effect_of o = Neutral ->
    (perform o s).1 = None /\ contents (perform o s).2 ⊆ contents s }.

(** ** Session tags: [tags.go] *)

Module TagStore.
Record tagEntry := mkEntry { key : bytes; expires : Z }.

(** A nil map reads as an empty one. *)
Record TagStore := mkStore { max : Z; tags : gmap bytes tagEntry }.

Definition order : Type := gmap bytes tagEntry -> list (bytes * tagEntry).
Definition ordering (range : order) : Prop := forall m, Permutation (range m) (map_to_list m).

Definition NewTagStore (n : Z) : TagStore := mkStore (if n <=? 0 then 4096 else n) ∅.

(** The loop of [Put]: the tag that expires first, from a zero tag and the
    largest deadline. *)
Definition oldest (items : list (bytes * tagEntry)) : bytes * Z :=
  fold_left (fun acc item => if expires item.2 <? acc.2 then (item.1, expires item.2) else acc)
    items (make_bytes 32, 2 ^ 64 - 1).

(** The wiped entry is written back before it is deleted, so the net effect is
    the deletion. *)
Definition Put (range : order) (tag k : bytes) (expiry : Z) (s : TagStore) : bool * TagStore :=
  if negb (len tag =? 32) || negb (len k =? 32) then (false, s)
  else
    let m := if Z.of_nat (size (tags s)) =? max s then delete (oldest (range (tags s))).1 (tags s) else tags s in
    (true, mkStore (max s) (<[tag := mkEntry k expiry]> m)).

Definition Take (tag : bytes) (now : Z) (s : TagStore) : option bytes * TagStore :=
  if negb (len tag =? 32) then (None, s)
  else
    match tags s !! tag with
    | None => (None, s)
    | Some entry =>
        let s := mkStore (max s) (delete tag (tags s)) in
        if expires entry <? now then (None, s) else (Some (key entry), s)
    end.

Definition Expire (range : order) (now : Z) (s : TagStore) : Z * TagStore :=
  let acc := fold_left (fun acc item =>
      if expires item.2 <? now then (acc.1 + 1, delete item.1 acc.2) else acc)
    (range (tags s)) (0, tags s) in
  (acc.1, mkStore (max s) acc.2).

Definition Clear (s : TagStore) : TagStore := mkStore (max s) ∅.

(** The session manager's way in, [manager.go]: the deadline of tags received at
    [now], saturating, and the insertion of a run of 32-byte tags. *)
Definition expiresAt (tagLifetime now : Z) : Z :=
  if 2 ^ 64 - 1 - now <? tagLifetime then 2 ^ 64 - 1 else now + tagLifetime.

Fixpoint putAll (fuel : nat) (range : order) (run k : bytes) (expiry : Z) (s : TagStore) : res TagStore :=
  match fuel with
  | O => Panic
  | S fuel =>
      if len run =? 0 then Ok s
      else if len run <? 32 then Panic
      else putAll fuel range (drop 32 run) k expiry (Put range (take 32 run) k expiry s).2
  end.

Definition installInbound (range : order) (tagLifetime : Z) (run k : bytes) (now : Z) (s : TagStore) : res TagStore :=
  if len run =? 0 then Ok s
  else putAll (S (length run)) range run k (expiresAt tagLifetime now) s.

Inductive op :=
| OPut (range : order) (tag k : bytes) (expiry : Z)
| OTake (tag : bytes) (now : Z)
| OExpire (range : order) (now : Z)
| OClear.

#[global] Instance one_use : OneUse TagStore op bytes bytes := {|
  contents s := key <$> tags s;
  effect_of o := match o with
                 | OPut _ tag k _ => Stores tag k
                 | OTake tag _ => if len tag =? 32 then Takes tag else Neutral
                 | _ => Neutral
                 end;
  perform o s := match o with
                 | OPut range tag k expiry => (None, (Put range tag k expiry s).2)
                 | OTake tag now => Take tag now s
                 | OExpire range now => (None, (Expire range now s).2)
                 | OClear => (None, Clear s)
                 end |}.
End TagStore.

(** ** Reply keys: [reply_keys.go] *)

Module ReplyKeys.
Record GarlicReplyKey := mkKey { Tag : bytes; Key : bytes; ExpiresAt : Z }.

Record ReplyKeyRegistry := mkRegistry { max : Z; entries : gmap bytes GarlicReplyKey }.

Definition order : Type := gmap bytes GarlicReplyKey -> list (bytes * GarlicReplyKey).

Inductive registerError := ErrReplyKeyRegistryFull | ErrReplyKeyRegistryDuplicate.

Definition NewReplyKeyRegistry (n : Z) : ReplyKeyRegistry := mkRegistry (if n <=? 0 then 64 else n) ∅.

Definition RegisterGarlicReplyKey (k : GarlicReplyKey) (r : ReplyKeyRegistry) : option registerError * ReplyKeyRegistry :=
  if ExpiresAt k =? 0 then (Some ErrReplyKeyRegistryFull, r)
  else match entries r !! Tag k with
  | Some _ => (Some ErrReplyKeyRegistryDuplicate, r)
  | None =>
      if Z.of_nat (size (entries r)) >=? max r then (Some ErrReplyKeyRegistryFull, r)
      else (None, mkRegistry (max r) (<[Tag k := k]> (entries r)))
  end.

Definition ConsumeGarlicReplyKey (tag : bytes) (nowMillis : Z) (r : ReplyKeyRegistry) : option GarlicReplyKey * ReplyKeyRegistry :=
  match entries r !! tag with
  | None => (None, r)
  | Some k =>
      let r := mkRegistry (max r) (delete tag (entries r)) in
      if ExpiresAt k <=? nowMillis then (None, r) else (Some k, r)
  end.

Definition RemoveGarlicReplyKey (tag : bytes) (r : ReplyKeyRegistry) : ReplyKeyRegistry :=
  match entries r !! tag with
  | None => r
  | Some _ => mkRegistry (max r) (delete tag (entries r))
  end.

Definition Expire (range : order) (nowMillis : Z) (r : ReplyKeyRegistry) : Z * ReplyKeyRegistry :=
  let acc := fold_left (fun acc item =>
      if ExpiresAt item.2 <=? nowMillis then (acc.1 + 1, delete item.1 acc.2) else acc)
    (range (entries r)) (0, entries r) in
  (acc.1, mkRegistry (max r) acc.2).

Definition Len (r : ReplyKeyRegistry) : Z := Z.of_nat (size (entries r)).

Inductive op :=
| ORegister (k : GarlicReplyKey)
| OConsume (tag : bytes) (now : Z)
| ORemove (tag : bytes)
| OExpire (range : order) (now : Z).

#[global] Instance one_use : OneUse ReplyKeyRegistry op bytes GarlicReplyKey := {|
  contents := entries;
  effect_of o := match o with
                 | ORegister k => Stores (Tag k) k
                 | OConsume tag _ => Takes tag
                 | ORemove tag => Takes tag
                 | OExpire _ _ => Neutral
                 end;
  perform o r := match o with
                 | ORegister k => (None, (RegisterGarlicReplyKey k r).2)
                 | OConsume tag now => ConsumeGarlicReplyKey tag now r
                 | ORemove tag => (None, RemoveGarlicReplyKey tag r)
                 | OExpire range now => (None, (Expire range now r).2)
                 end |}.
End ReplyKeys.

(** ** Histories through the interface *)

Section Histories.
Context {S Op T V : Type} `{OneUseLaws S Op T V}.

(** The state after a sequence of operations. *)
Definition history (ops : list Op) (s : S) : S := fold_left (fun s o => (perform o s).2) ops s.

Lemma history_snoc ops o s : history (ops ++ [o]) s = (perform o (history ops s)).2.
Proof. apply fold_left_app. Qed.

(** What is held was stored, and not taken since. *)
Lemma held_was_stored ops s t w :
  contents s = ∅ -> contents (history ops s) !! t = Some w ->
  exists before o after, ops = before ++ o :: after /\ effect_of o = Stores t w /\
    Forall (fun o => effect_of o <> Takes t) after.
Proof.
  intros Hs. revert t w. induction ops as [|o ops IH] using rev_ind; intros t w Hw.
  { unfold history in Hw. simpl in Hw. rewrite Hs, lookup_empty in Hw. done. }
  rewrite history_snoc in Hw.
  assert (Hold : contents (history ops s) !! t = Some w -> effect_of o <> Takes t ->
    exists before o' after, ops ++ [o] = before ++ o' :: after /\ effect_of o' = Stores t w /\
      Forall (fun o => effect_of o <> Takes t) after).
  { intros Hin Hne. destruct (IH _ _ Hin) as (b & o' & a & -> & Ho' & Ha).
    exists b, o', (a ++ [o]). rewrite <- app_assoc. split_and!; auto using Forall_app_2. }
  destruct (effect_of o) as [t' v|t'|] eqn:Ho.
  - destruct (stores_law o (history ops s) t' v Ho) as [_ Hl].
    destruct (Hl _ _ Hw) as [[-> ->]|Hin]; [|by apply Hold].
    exists ops, o, []. auto.
  - destruct (takes_law o (history ops s) t' Ho) as [Hl _]. rewrite Hl in Hw.
    apply lookup_delete_Some in Hw as [Hne Hin]. apply Hold; [done|congruence].
  - destruct (neutral_law o (history ops s) Ho) as [_ Hl].
    apply Hold; [|done]. by eapply lookup_weaken.
Qed.

(** Each answer belongs to a store of that very value, with no other taking of
    the tag in between. *)
Lemma answer_was_stored ops o s t w :
  contents s = ∅ -> effect_of o = Takes t -> (perform o (history ops s)).1 = Some w ->
  exists before o' after, ops = before ++ o' :: after /\ effect_of o' = Stores t w /\
    Forall (fun o => effect_of o <> Takes t) after.
Proof.
  intros Hs Ho Hw. apply held_was_stored with s; [done|].
  by apply (takes_law o (history ops s) t Ho).
Qed.

(** Only taking operations answer. *)
Lemma answer_was_taken o s w : (perform o s).1 = Some w -> exists t, effect_of o = Takes t.
Proof.
  intros Hw. destruct (effect_of o) as [t v|t|] eqn:Ho; [|by exists t|].
  - destruct (stores_law o s t v Ho) as [Hn _]. congruence.
  - destruct (neutral_law o s Ho) as [Hn _]. congruence.
Qed.
End Histories.

(** ** Removing what has expired *)

(** A sweep that deletes the marked keys and counts them. *)
Lemma sweep_spec {V} (P : V -> bool) (items : list (bytes * V)) (m : gmap bytes V) k :
  NoDup items.*1 -> (forall t v, (t, v) ∈ items -> m !! t = Some v) ->
  let acc := fold_left (fun acc item => if P item.2 then (acc.1 + 1, delete item.1 acc.2) else acc) items (k, m) in
  acc.1 + Z.of_nat (size acc.2) = k + Z.of_nat (size m) /\
  forall t, acc.2 !! t = if decide (t ∈ items.*1) then m !! t ≫= (fun v => if P v then None else Some v) else m !! t.
Proof.
  revert m k. induction items as [|[t0 v0] items IH]; intros m k Hnd Hm.
  { done. }
  rewrite fmap_cons in Hnd. apply NoDup_cons in Hnd as [Hfresh Hnd].
  assert (H0 : m !! t0 = Some v0) by (apply Hm; left).
  assert (Hsub : forall t v, (t, v) ∈ items -> t <> t0 /\ m !! t = Some v).
  { intros t v Hin. split; [|by apply Hm; right]. intros ->. apply Hfresh, list_elem_of_fmap. by exists (t0, v). }
  assert (Hmem : forall t, t <> t0 -> t ∈ ((t0, v0) :: items).*1 <-> t ∈ items.*1) by (rewrite fmap_cons; set_solver).
  cbn [fold_left fst snd].
  assert (Hin0 : t0 ∈ ((t0, v0) :: items).*1) by (rewrite fmap_cons; left).
  destruct (P v0) eqn:HP.
  - destruct (IH (delete t0 m) (k + 1)) as [Hc Hl]; [done| |].
    { intros t v Hin. destruct (Hsub t v Hin) as [? ?]. by rewrite lookup_delete_ne. }
    split.
    { rewrite Hc, map_size_delete, H0. assert (size m <> 0%nat) by (apply (map_size_ne_0_lookup_2 m t0); eauto). lia. }
    intros t. rewrite Hl.
    destruct (decide (t = t0)) as [->|Hne].
    + rewrite decide_False, decide_True by done. rewrite lookup_delete_eq, H0. cbn. by rewrite HP.
    + rewrite lookup_delete_ne by done. by rewrite (decide_ext _ _ _ _ (Hmem t Hne)).
  - destruct (IH m k) as [Hc Hl]; [done|intros; by apply Hsub|].
    split; [done|]. intros t. rewrite Hl.
    destruct (decide (t = t0)) as [->|Hne].
    + rewrite decide_False, decide_True by done. rewrite H0. cbn. by rewrite HP.
    + by rewrite (decide_ext _ _ _ _ (Hmem t Hne)).
Qed.

(** A sweep over the whole map, in any order, keeps the unmarked entries and
    counts the others. *)
Lemma sweep_map {V} (P : V -> bool) (m : gmap bytes V) items :
  Permutation items (map_to_list m) ->
  let acc := fold_left (fun acc item => if P item.2 then (acc.1 + 1, delete item.1 acc.2) else acc) items (0, m) in
  acc.2 = filter (fun kv => negb (P kv.2)) m /\ acc.1 + Z.of_nat (size acc.2) = Z.of_nat (size m).
Proof.
  intros Hp acc. destruct (sweep_spec P items m 0) as [Hc Hl].
  { rewrite Hp. apply NoDup_fst_map_to_list. }
  { intros t v. rewrite Hp. apply elem_of_map_to_list. }
  split; [|done]. apply map_eq. intros t. fold acc in Hl. rewrite Hl, map_lookup_filter.
  destruct (m !! t) as [v|] eqn:Ht; [|by destruct (decide _)].
  rewrite decide_True.
  2:{ rewrite Hp. apply list_elem_of_fmap. exists (t, v). by rewrite elem_of_map_to_list. }
  cbn. destruct (P v) eqn:HP; case_guard as Hg; cbn in *; rewrite ?HP in *; done.
Qed.

(** A sweep only deletes. *)
Lemma sweep_subset {V} (P : V -> bool) (items : list (bytes * V)) (m : gmap bytes V) k :
  (fold_left (fun acc item => if P item.2 then (acc.1 + 1, delete item.1 acc.2) else acc) items (k, m)).2 ⊆ m.
Proof.
  revert m k. induction items as [|item items IH]; intros m k; cbn [fold_left fst snd]; [done|].
  destruct (P item.2); [|apply IH]. etrans; [apply IH|apply delete_subseteq].
Qed.

(** ** The two stores implement the interface *)

#[global] Instance tag_store_laws : OneUseLaws TagStore.TagStore TagStore.op bytes bytes.
Proof.
  split; intros o s; destruct o; cbn; intros; simplify_eq; try (destruct (len tag =? 32) eqn:E; simplify_eq).
  - split; [done|]. unfold TagStore.Put. intros t' w. destruct (_ || _); cbn; [by right|].
    rewrite fmap_insert. intros [[-> <-]|[? Hw]]%lookup_insert_Some; [by left|right].
    case_match; [|done]. by rewrite fmap_delete in Hw; apply lookup_delete_Some in Hw as [_ Hw].
  - unfold TagStore.Take. rewrite E. cbn. destruct (_ !! t) as [entry|] eqn:Ht.
    + split; [by destruct (_ <? _); cbn; rewrite fmap_delete|]. intros w. rewrite lookup_fmap, Ht. by destruct (_ <? _).
    + split; [|done]. cbn. rewrite delete_id; [done|]. by rewrite lookup_fmap, Ht.
  - unfold TagStore.Take. by rewrite E.
  - split; [done|]. apply map_fmap_mono, (sweep_subset (fun entry => TagStore.expires entry <? now)).
  - split; [done|]. rewrite fmap_empty. apply map_empty_subseteq.
Qed.

#[global] Instance reply_key_laws : OneUseLaws ReplyKeys.ReplyKeyRegistry ReplyKeys.op bytes ReplyKeys.GarlicReplyKey.
Proof.
  split; intros o r; destruct o; cbn; intros; simplify_eq.
  - split; [done|]. unfold ReplyKeys.RegisterGarlicReplyKey. intros t' w.
    repeat case_match; cbn; auto.
    intros [[<- <-]|[? Hw]]%lookup_insert_Some; auto.
  - unfold ReplyKeys.ConsumeGarlicReplyKey. destruct (_ !! t) as [k|] eqn:Ht.
    + destruct (_ <=? _); cbn; split; congruence.
    + split; [|done]. cbn. by rewrite delete_id.
  - unfold ReplyKeys.RemoveGarlicReplyKey. destruct (_ !! t) as [k|] eqn:Ht; cbn; [done|].
    split; [by rewrite delete_id|done].
  - split; [done|]. apply (sweep_subset (fun k => ReplyKeys.ExpiresAt k <=? now)).
Qed.

(** C24: No history of operations, whatever the map iteration orders, makes either
    store answer with a key that was not put under the very tag asked for, and
    between that put and the answer no other operation took the tag: every put
    key is released at most once, also when the tag is put again, expires, is
    evicted or is removed in between. *)
Theorem one_use_histories :
  (forall n ops tag now k,
     (TagStore.Take tag now (history ops (TagStore.NewTagStore n))).1 = Some k ->
     exists before range expiry after,
       ops = before ++ TagStore.OPut range tag k expiry :: after /\
       Forall (fun o => forall now', o <> TagStore.OTake tag now') after) /\
  (forall n ops tag now k,
     (ReplyKeys.ConsumeGarlicReplyKey tag now (history ops (ReplyKeys.NewReplyKeyRegistry n))).1 = Some k ->
     ReplyKeys.Tag k = tag /\
     exists before after,
       ops = before ++ ReplyKeys.ORegister k :: after /\
       Forall (fun o => o <> ReplyKeys.ORemove tag /\ forall now', o <> ReplyKeys.OConsume tag now') after).
Proof.
  split; intros n ops tag now k Hk.
  - assert (Hlen : (len tag =? 32) = true).
    { unfold TagStore.Take in Hk. by destruct (len tag =? 32). }
    destruct (answer_was_stored ops (TagStore.OTake tag now) (TagStore.NewTagStore n) tag k)
      as (before & o & after & -> & Ho & Ha); [done|cbn; by rewrite Hlen|done|].
    destruct o as [range t k' expiry|t ?| |]; cbn in Ho; try (by case_match); simplify_eq.
    exists before, range, expiry, after. split; [done|]. eapply Forall_impl; [exact Ha|].
    intros o Hne now' ->. apply Hne. cbn. by rewrite Hlen.
  - destruct (answer_was_stored ops (ReplyKeys.OConsume tag now) (ReplyKeys.NewReplyKeyRegistry n) tag k)
      as (before & o & after & -> & Ho & Ha); [done..|].
    destruct o as [k'| | |]; cbn in Ho; simplify_eq. split; [done|].
    exists before, after. split; [done|]. eapply Forall_impl; [exact Ha|].
    intros o Hne. split; [intros ->|intros now' ->]; by apply Hne.
Qed.

(** ** Functional behaviour and capacity *)

(** A put key is there for exactly one taking, until its expiry inclusive. *)
Lemma Put_Take range tag k expiry now s :
  len tag = 32 -> len k = 32 ->
  let s' := (TagStore.Put range tag k expiry s).2 in
  (TagStore.Put range tag k expiry s).1 = true /\
  (TagStore.Take tag now s').1 = (if expiry <? now then None else Some k) /\
  (TagStore.Take tag now (TagStore.Take tag now s').2).1 = None.
Proof.
  intros Ht Hk. unfold TagStore.Put, TagStore.Take. rewrite Ht, Hk. cbn.
  rewrite lookup_insert_eq. cbn. by destruct (expiry <? now); cbn; rewrite lookup_delete_eq.
Qed.

(** The tag found by the loop of [Put] is one that expires first. *)
Lemma oldest_member items :
  items <> [] -> Forall (fun item => TagStore.expires item.2 < 2 ^ 64 - 1) items ->
  (TagStore.oldest items).1 ∈ items.*1.
Proof.
  unfold TagStore.oldest. intros Hne Hall. destruct items as [|[t e] items]; [done|].
  apply Forall_cons in Hall as [He Hall]. cbn [fold_left fst snd] in *.
  rewrite (proj2 (Z.ltb_lt _ _) He). clear Hne He.
  assert (Hin : (t, TagStore.expires e).1 ∈ ((t, e) :: items).*1) by (rewrite fmap_cons; left).
  assert (Hsub : forall x, x ∈ items -> x.1 ∈ ((t, e) :: items).*1) by (intros x Hx; rewrite fmap_cons; right; by apply list_elem_of_fmap_2).
  revert Hin Hsub. generalize ((t, e) :: items).*1 as all, (t, TagStore.expires e) as acc. clear Hall.
  induction items as [|x items IH]; intros all acc Hin Hsub; [done|].
  cbn [fold_left]. apply IH; [|intros; apply Hsub; by right].
  destruct (_ <? _); [|done]. apply Hsub. left.
Qed.

(** The capacity invariant of the tag store. *)
Record tags_ok (s : TagStore.TagStore) : Prop := {
  cap_pos : 0 < TagStore.max s;
  cap_kept : Z.of_nat (size (TagStore.tags s)) <= TagStore.max s;
  cap_expiry : map_Forall (fun _ e => TagStore.expires e < 2 ^ 64 - 1) (TagStore.tags s);
  cap_widths : map_Forall (fun t e => len t = 32 /\ len (TagStore.key e) = 32) (TagStore.tags s) }.

Lemma tags_ok_subset s m : tags_ok s -> m ⊆ TagStore.tags s -> tags_ok (TagStore.mkStore (TagStore.max s) m).
Proof.
  intros [Hp Hc He Hw] Hm. split; cbn; [done| |intros t e Ht; eapply lookup_weaken in Ht; eauto..].
  apply map_subseteq_size in Hm. lia.
Qed.

Lemma Put_keeps range tag k expiry s :
  TagStore.ordering range -> expiry < 2 ^ 64 - 1 -> tags_ok s -> tags_ok (TagStore.Put range tag k expiry s).2.
Proof.
  intros Hr He Hs. unfold TagStore.Put. destruct (negb _ || negb _) eqn:Hl; [done|].
  apply orb_false_iff in Hl as [Ht Hk]. apply negb_false_iff, Z.eqb_eq in Ht, Hk. cbn [snd].
  set (m := if _ =? _ then _ else _).
  assert (Hm : m ⊆ TagStore.tags s) by (unfold m; destruct (_ =? _); [apply delete_subseteq|done]).
  assert (Hsize : Z.of_nat (size m) < TagStore.max s).
  { destruct Hs as [Hp Hc Hx _]. unfold m. destruct (Z.eqb_spec (Z.of_nat (size (TagStore.tags s))) (TagStore.max s)); [|lia].
    assert (Hin : (TagStore.oldest (range (TagStore.tags s))).1 ∈ (map_to_list (TagStore.tags s)).*1).
    { rewrite <- (Hr (TagStore.tags s)). apply oldest_member.
      - intros Hn. apply (f_equal length) in Hn. rewrite (Hr (TagStore.tags s)), length_map_to_list in Hn. cbn in Hn. lia.
      - rewrite (Hr (TagStore.tags s)). apply map_Forall_to_list in Hx. eapply Forall_impl; [exact Hx|]. by intros []. }
    apply list_elem_of_fmap in Hin as ([t e'] & -> & Hin%elem_of_map_to_list). cbn [fst].
    rewrite map_size_delete, Hin. lia. }
  destruct (tags_ok_subset s m Hs Hm) as [Hp Hc Hx Hw].
  split; cbn in *; [done| |by apply map_Forall_insert_2..].
  rewrite map_size_insert. destruct (m !! tag); unfold id; lia.
Qed.

(** What is asked of the operations of a history: Go iterates over every entry
    once, and no expiry is the largest 64-bit number. *)
Definition tag_op_ok (o : TagStore.op) : Prop :=
  match o with
  | TagStore.OPut range _ _ expiry => TagStore.ordering range /\ expiry < 2 ^ 64 - 1
  | TagStore.OExpire range _ => TagStore.ordering range
  | _ => True
  end.

Lemma tag_op_keeps o s : tag_op_ok o -> tags_ok s -> tags_ok (perform o s).2.
Proof.
  intros Ho Hs. destruct o as [range tag k expiry|tag now|range now|]; cbn.
  - destruct Ho. by apply Put_keeps.
  - unfold TagStore.Take. repeat case_match; cbn; try done; apply tags_ok_subset; (done || apply delete_subseteq).
  - apply tags_ok_subset; [done|]. apply (sweep_subset (fun e => TagStore.expires e <? now)).
  - apply tags_ok_subset; [done|apply map_empty_subseteq].
Qed.

Lemma NewTagStore_ok n : tags_ok (TagStore.NewTagStore n).
Proof.
  unfold TagStore.NewTagStore. destruct (Z.leb_spec n 0);
    (split; cbn; [lia|change (size ∅) with 0%nat; lia|apply map_Forall_empty..]).
Qed.

Lemma tag_history_keeps ops s : Forall tag_op_ok ops -> tags_ok s -> tags_ok (history ops s).
Proof.
  revert s. induction ops as [|o ops IH]; intros s Hall Hs; [done|].
  apply Forall_cons in Hall as [Ho Hall]. apply (IH (perform o s).2); auto using tag_op_keeps.
Qed.

Lemma registry_op_cap o (r : ReplyKeys.ReplyKeyRegistry) :
  ReplyKeys.Len r <= ReplyKeys.max r ->
  ReplyKeys.Len (perform o r).2 <= ReplyKeys.max (perform o r).2 /\ ReplyKeys.max (perform o r).2 = ReplyKeys.max r.
Proof.
  assert (Hsub : forall m, m ⊆ ReplyKeys.entries r -> ReplyKeys.Len r <= ReplyKeys.max r -> Z.of_nat (size m) <= ReplyKeys.max r).
  { intros m Hm%map_subseteq_size. unfold ReplyKeys.Len. lia. }
  unfold ReplyKeys.Len in *. intros Hr. destruct o as [k|tag now|tag|range now]; cbn.
  - unfold ReplyKeys.RegisterGarlicReplyKey. repeat case_match; cbn; try done.
    split; [|done]. rewrite map_size_insert_None by done. lia.
  - unfold ReplyKeys.ConsumeGarlicReplyKey. repeat case_match; cbn; try done; (split; [apply Hsub; (done || apply delete_subseteq)|done]).
  - unfold ReplyKeys.RemoveGarlicReplyKey. repeat case_match; cbn; try done; (split; [apply Hsub; (done || apply delete_subseteq)|done]).
  - split; [|done]. apply Hsub; [|done]. apply (sweep_subset (fun k => ReplyKeys.ExpiresAt k <=? now)).
Qed.

(** The registry keeps its capacity, and its maximum, through every history. *)
Lemma registry_history_cap ops (r : ReplyKeys.ReplyKeyRegistry) :
  ReplyKeys.Len r <= ReplyKeys.max r ->
  ReplyKeys.Len (history ops r) <= ReplyKeys.max r.
Proof.
  revert r. induction ops as [|o ops IH]; intros r Hr; [done|].
  destruct (registry_op_cap o r Hr) as [Hc Hm]. rewrite <- Hm. by apply (IH (perform o r).2).
Qed.

(** C25: Capacity of the two stores: whatever the sequence of operations, the
    reply-key registry never holds more keys than its limit, and the tag store
    never holds more tags than its limit as long as no tag is put with the
    largest 64-bit number as its expiry; the tags and keys held are 32 bytes
    long. *)
Theorem store_capacity n tagOps replyOps :
  Forall tag_op_ok tagOps ->
  tags_ok (history tagOps (TagStore.NewTagStore n)) /\
  ReplyKeys.Len (history replyOps (ReplyKeys.NewReplyKeyRegistry n)) <= (if n <=? 0 then 64 else n).
Proof.
  intros Hops. split; [by apply tag_history_keeps, NewTagStore_ok|].
  apply (registry_history_cap replyOps (ReplyKeys.NewReplyKeyRegistry n)).
  unfold ReplyKeys.Len. cbn. change (size ∅) with 0%nat. destruct (Z.leb_spec n 0); lia.
Qed.

(** [Expire], in any iteration order, removes exactly the entries whose
    expiry has passed and returns how many they were; the tag store keeps an
    entry at the millisecond of its expiry, the registry does not. *)
Theorem expire_exact :
  (forall range now s, TagStore.ordering range ->
     TagStore.tags (TagStore.Expire range now s).2 = filter (fun kv => now <= TagStore.expires kv.2) (TagStore.tags s) /\
     (TagStore.Expire range now s).1 = Z.of_nat (size (TagStore.tags s)) - Z.of_nat (size (TagStore.tags (TagStore.Expire range now s).2))) /\
  (forall (range : ReplyKeys.order) now r, (forall m, Permutation (range m) (map_to_list m)) ->
     ReplyKeys.entries (ReplyKeys.Expire range now r).2 = filter (fun kv => now < ReplyKeys.ExpiresAt kv.2) (ReplyKeys.entries r) /\
     (ReplyKeys.Expire range now r).1 = ReplyKeys.Len r - ReplyKeys.Len (ReplyKeys.Expire range now r).2).
Proof.
  split.
  - intros range now s Hr. destruct (sweep_map (fun e => TagStore.expires e <? now) (TagStore.tags s) _ (Hr _)) as [Hm Hc].
    split; [|cbn; lia]. etrans; [exact Hm|]. apply map_filter_ext. intros t e _. cbn. destruct (Z.ltb_spec (TagStore.expires e) now); cbn; lia.
  - intros range now r Hr. destruct (sweep_map (fun k => ReplyKeys.ExpiresAt k <=? now) (ReplyKeys.entries r) _ (Hr _)) as [Hm Hc].
    split; [|unfold ReplyKeys.Len; cbn; lia]. etrans; [exact Hm|]. apply map_filter_ext. intros t e _. cbn. destruct (Z.leb_spec (ReplyKeys.ExpiresAt e) now); cbn; lia.
Qed.

(** With every expiry the largest 64-bit number the loop of [Put] finds nothing. *)
Lemma oldest_saturated items :
  Forall (fun item => TagStore.expires item.2 = 2 ^ 64 - 1) items -> (TagStore.oldest items).1 = make_bytes 32.
Proof.
  intros Hall. cut (TagStore.oldest items = (make_bytes 32, 2 ^ 64 - 1)); [by intros ->|].
  unfold TagStore.oldest. induction Hall as [|item items Hi _ IH]; [done|].
  cbn [fold_left snd]. by rewrite Hi, Z.ltb_irrefl.
Qed.

(** The state of a store into which only saturated, nonzero tags have gone. *)
Definition saturated (ts : list bytes) (s : TagStore.TagStore) : Prop :=
  dom (TagStore.tags s) = list_to_set ts /\
  map_Forall (fun _ e => TagStore.expires e = 2 ^ 64 - 1) (TagStore.tags s).

Lemma Put_saturated range tag k ts s :
  TagStore.ordering range -> len tag = 32 -> len k = 32 -> make_bytes 32 ∉ ts -> saturated ts s ->
  saturated (tag :: ts) (TagStore.Put range tag k (2 ^ 64 - 1) s).2.
Proof.
  intros Hr Ht Hk Hz [Hd He]. unfold TagStore.Put. rewrite Ht, Hk. cbn.
  assert (Hnop : delete (TagStore.oldest (range (TagStore.tags s))).1 (TagStore.tags s) = TagStore.tags s).
  { rewrite oldest_saturated.
    - apply delete_id, not_elem_of_dom. rewrite Hd. by rewrite elem_of_list_to_set.
    - rewrite (Hr (TagStore.tags s)). apply map_Forall_to_list in He. eapply Forall_impl; [exact He|]. by intros []. }
  rewrite Hnop, Tauto.if_same. split; cbn; [by rewrite dom_insert_L, Hd|by apply map_Forall_insert_2].
Qed.

Lemma putAll_saturated range k ts done s fuel :
  TagStore.ordering range -> len k = 32 ->
  Forall (fun t => len t = 32 /\ t <> make_bytes 32) ts -> make_bytes 32 ∉ done -> saturated done s ->
  (length ts < fuel)%nat ->
  exists s', TagStore.putAll fuel range (concat ts) k (2 ^ 64 - 1) s = Ok s' /\ saturated (rev ts ++ done) s'.
Proof.
  intros Hr Hk. revert done s fuel. induction ts as [|t ts IH]; intros seen s fuel Hall Hz Hs Hf;
    (destruct fuel as [|fuel]; [lia|]); cbn [TagStore.putAll concat].
  { by exists s. }
  apply Forall_cons in Hall as [[Ht Hnz] Hall]. assert (Hl : length t = 32%nat) by (unfold len in Ht; lia).
  replace (len (t ++ concat ts) =? 0) with false by (symmetry; apply Z.eqb_neq; len_lia).
  replace (len (t ++ concat ts) <? 32) with false by (symmetry; apply Z.ltb_ge; len_lia).
  rewrite take_app_length', drop_app_length' by done. cbn [rev]. rewrite <- app_assoc.
  apply IH; [done|set_solver|by apply Put_saturated|cbn in Hf; lia].
Qed.

(** Tags whose deadline saturates, which is every tag of a session manager
    configured with a lifetime that passes the largest 64-bit number, are never
    evicted: any number of distinct tags stays in the store, whatever the limit
    it was created with. *)
Theorem saturated_tags_unbounded range n tagLifetime now k ts :
  TagStore.ordering range -> len k = 32 -> 2 ^ 64 - 1 - now < tagLifetime ->
  NoDup ts -> Forall (fun t => len t = 32 /\ t <> make_bytes 32) ts ->
  exists s, TagStore.installInbound range tagLifetime (concat ts) k now (TagStore.NewTagStore n) = Ok s /\
    size (TagStore.tags s) = length ts.
Proof.
  intros Hr Hk Hlife Hnd Hall.
  unfold TagStore.installInbound, TagStore.expiresAt. rewrite (proj2 (Z.ltb_lt _ _) Hlife).
  destruct (Z.eqb_spec (len (concat ts)) 0) as [H0|_].
  { destruct ts as [|t ts]; [by exists (TagStore.NewTagStore n)|].
    apply Forall_cons in Hall as [[Ht _] _]. cbn [concat] in H0. rewrite len_app in H0. pose proof (len_nonneg (concat ts)). lia. }
  destruct (putAll_saturated range k ts [] (TagStore.NewTagStore n) (S (length (concat ts)))) as (s & Hs & Hd & _);
    [done|done|done|set_solver|split; cbn; [set_solver|apply map_Forall_empty]| |].
  { clear -Hall. induction Hall as [|t ts [Ht _] _ IH]; cbn; [lia|]. rewrite length_app. unfold len in Ht. lia. }
  exists s. split; [done|]. rewrite <- (size_dom (TagStore.tags s)), Hd, app_nil_r.
  rewrite size_list_to_set; [by rewrite length_rev|]. by apply NoDup_ListNoDup, NoDup_rev, NoDup_ListNoDup.
Qed.

(** Concrete tags, keys and an iteration order. *)
Definition sampleTag (b : Z) : bytes := replicate 32 b.
Definition listOrder : TagStore.order := map_to_list.

Lemma listOrder_ok : TagStore.ordering listOrder.
Proof. intros m. reflexivity. Qed.

(** Putting a tag twice and taking it once: the second key comes out, and was
    put last. *)
Lemma one_use_histories_witness :
  let ops := [TagStore.OPut listOrder (sampleTag 1) (sampleTag 7) 10; TagStore.OPut listOrder (sampleTag 1) (sampleTag 8) 10] in
  exists before range expiry after,
    ops = before ++ TagStore.OPut range (sampleTag 1) (sampleTag 8) expiry :: after /\
    Forall (fun o => forall now', o <> TagStore.OTake (sampleTag 1) now') after.
Proof. intros ops. apply (proj1 one_use_histories 2 ops (sampleTag 1) 5). vm_compute. reflexivity. Defined.

(** Three tags into a store of two. *)
Lemma store_capacity_witness :
  let ops := (fun b => TagStore.OPut listOrder (sampleTag b) (sampleTag 7) (10 + b)) <$> [1; 2; 3] in
  tags_ok (history ops (TagStore.NewTagStore 2)) /\
  ReplyKeys.Len (history [] (ReplyKeys.NewReplyKeyRegistry 2)) <= 2.
Proof.
  intros ops. apply (store_capacity 2 ops []).
  repeat (apply Forall_cons; split; [split; [apply listOrder_ok|vm_compute; reflexivity]|]). apply Forall_nil. exact I.
Defined.

