(* ===== verification/Streaming.v ===== *)
(** The I2P streaming protocol, [src/dataplane/internal/streaming]: the packet
    codec ([packet.go], [encode.go]), the retransmission timer and congestion
    window ([reliability.go]) and the sequence-number state of a stream
    ([state.go]). *)

From S2P Require Import Prelude.

(** ** Packets: [packet.go], [encode.go] *)

Definition HeaderLen : Z := 22.
Definition MaxPacketSize : Z := 3072.

Record Packet := mkPacket {
  SendStreamID : Z; ReceiveStreamID : Z; Sequence : Z; AckThrough : Z;
  NACKCount : Z; ResendDelay : Z; Flags : Z;
  Options : bytes; NACKs : bytes; Payload : bytes }.

Definition Parse (src : bytes) : res Packet :=
  fail_if len src >? MaxPacketSize with ErrPacket ;;
  fail_if len src <? HeaderLen with ErrShortBuffer ;;
  let? count := index src 16 in
  let nacksLen := count * 4 in
  fail_if nacksLen >? len src - 17 - 5 with ErrPacket ;;
  let off := 17 + nacksLen in
  let? b := slice src (off + 3) (off + 5) in
  let? optionsLen := be_uint 2 b in
  fail_if optionsLen >? len src - (off + 5) with ErrPacket ;;
  let? b := slice src 0 4 in
  let? send := be_uint 4 b in
  let? b := slice src 4 8 in
  let? receive := be_uint 4 b in
  let? b := slice src 8 12 in
  let? seq := be_uint 4 b in
  let? b := slice src 12 16 in
  let? ack := be_uint 4 b in
  let? resend := index src off in
  let? b := slice src (off + 1) (off + 3) in
  let? flags := be_uint 2 b in
  let? nacks := slice src 17 off in
  let? options := slice src (off + 5) (off + 5 + optionsLen) in
  let? payload := slice_from src (off + 5 + optionsLen) in
  Ok (mkPacket send receive seq ack count resend flags options nacks payload).

Definition EncodedLen (p : Packet) : Z :=
  let nacksLen := len (NACKs p) in
  if negb (nacksLen mod 4 =? 0) || (nacksLen / 4 >? 255) || (len (Options p) >? 65535) then -1
  else
    let encodedLen := HeaderLen + nacksLen + len (Options p) + len (Payload p) in
    if encodedLen >? MaxPacketSize then -1 else encodedLen.

Definition MarshalTo (p : Packet) (dst : bytes) : res (bytes * Z) :=
  let encodedLen := EncodedLen p in
  fail_if encodedLen <? HeaderLen with ErrPacket ;;
  fail_if len dst <? encodedLen with ErrShortBuffer ;;
  let? dst := write dst 0 (be_bytes 4 (SendStreamID p)) in
  let? dst := write dst 4 (be_bytes 4 (ReceiveStreamID p)) in
  let? dst := write dst 8 (be_bytes 4 (Sequence p)) in
  let? dst := write dst 12 (be_bytes 4 (AckThrough p)) in
  let? dst := write dst 16 [u8 (len (NACKs p) / 4)] in
  let? dst := copy_at dst 17 (NACKs p) in
  let off := 17 + Z.min (len (NACKs p)) (len dst - 17) in
  let? dst := write dst off [ResendDelay p] in
  let? dst := write dst (off + 1) (be_bytes 2 (Flags p)) in
  let? dst := write dst (off + 3) (be_bytes 2 (u16 (len (Options p)))) in
  let off := off + 5 in
  let? dst := copy_at dst off (Options p) in
  let off := off + Z.min (len (Options p)) (len dst - off) in
  let? dst := copy_at dst off (Payload p) in
  Ok (dst, encodedLen).

(** ** Retransmission timer: [reliability.go]

    A [time.Duration] is a signed 64-bit number of nanoseconds. *)

Definition i64 (z : Z) : Z := (z + 2 ^ 63) mod 2 ^ 64 - 2 ^ 63.

Definition InitialRTO : Z := 9 * 10 ^ 9.
Definition MinRTO : Z := 100 * 10 ^ 6.
Definition MaxRTO : Z := 60 * 10 ^ 9.

Record RTOEstimator := mkRTO { srtt : Z; rttvar : Z; rto : Z; valid : bool }.

Definition clampRTO (value : Z) : Z :=
  if value <? MinRTO then MinRTO else if value >? MaxRTO then MaxRTO else value.

Definition NewRTOEstimator (initial : Z) : RTOEstimator :=
  mkRTO 0 0 (clampRTO (if initial <=? 0 then InitialRTO else initial)) false.

Definition ObserveRTT (sample : Z) (r : RTOEstimator) : RTOEstimator :=
  let sample := if sample <=? 0 then 1 else sample in
  let '(s, v) :=
    if negb (valid r) then (sample, Z.quot sample 2)
    else
      let delta := i64 (srtt r - sample) in
      let delta := if delta <? 0 then i64 (- delta) else delta in
      (Z.quot (i64 (i64 (7 * srtt r) + sample)) 8, Z.quot (i64 (i64 (3 * rttvar r) + delta)) 4) in
  mkRTO s v (clampRTO (i64 (s + i64 (4 * v)))) true.

Definition RTO (r : RTOEstimator) : Z := if rto r <=? 0 then InitialRTO else rto r.

Definition Backoff (r : RTOEstimator) : RTOEstimator :=
  mkRTO (srtt r) (rttvar r) (clampRTO (i64 (RTO r * 2))) (valid r).

(** ** Congestion window: [reliability.go] *)

Definition InitialWindow : Z := 3.
Definition MinWindow : Z := 1.
Definition MaxWindow : Z := 128.

Record CongestionWindow := mkWindow { cwnd : Z; ssthresh : Z; credit : Z }.

Definition NewCongestionWindow (initial : Z) : CongestionWindow :=
  mkWindow (if initial <? MinWindow then MinWindow else initial) MaxWindow 0.

(** One turn of the loop of [Acknowledge]. *)
Definition acknowledgeOne (c : CongestionWindow) : CongestionWindow :=
  if cwnd c <? ssthresh c then mkWindow (u16 (cwnd c + 1)) (ssthresh c) (credit c)
  else
    let credit' := u16 (credit c + 1) in
    if credit' >=? cwnd c then mkWindow (u16 (cwnd c + 1)) (ssthresh c) 0
    else mkWindow (cwnd c) (ssthresh c) credit'.

Fixpoint acknowledgeLoop (count : nat) (c : CongestionWindow) : CongestionWindow :=
  match count with
  | O => c
  | S count => if cwnd c <? MaxWindow then acknowledgeLoop count (acknowledgeOne c) else c
  end.

Definition AcknowledgeWindow (count : Z) (c : CongestionWindow) : CongestionWindow :=
  acknowledgeLoop (Z.to_nat count) c.

Definition Loss (c : CongestionWindow) : CongestionWindow :=
  mkWindow MinWindow (Z.max (cwnd c / 2) MinWindow) 0.

Definition FastRecovery (c : CongestionWindow) : CongestionWindow :=
  let threshold := Z.max (cwnd c / 2) MinWindow in mkWindow threshold threshold 0.

(** ** Stream state: [state.go] *)

Definition FlagSynchronize : Z := 1.
Definition FlagClose : Z := 2.
Definition FlagReset : Z := 4.
Definition FlagNoACK : Z := 1024.

Inductive Status := New | Open | Closing | Closed | Reset.

#[global] Instance Status_eq_dec : EqDecision Status.
Proof. solve_decision. Defined.

Record Action := mkAction { SendACK : bool; SendClose : bool; SendReset : bool }.

(** [inflight] is the Go array; [inflightCount] says how much of it is in use. *)
Record State := mkState {
  status : Status; sendID : Z; receiveID : Z; nextSequence : Z;
  lastReceived : Z; haveReceived : bool;
  congestion : CongestionWindow; window : Z; inflight : list Z; inflightCount : Z }.

Definition NewState (send receive : Z) : State :=
  mkState New send receive 0 0 false (NewCongestionWindow InitialWindow) InitialWindow
    (replicate (Z.to_nat MaxWindow) 0) 0.

Definition Window (s : State) : Z :=
  if negb (cwnd (congestion s) =? 0) then cwnd (congestion s) else window s.

Definition CanSend (s : State) : bool := bool_decide (status s = Open) && (inflightCount s <? Window s).

Definition OnSend (noACK : bool) (s : State) : res ((Z * bool) * State) :=
  if negb (CanSend s) then Ok ((0, false), s)
  else
    let sequence := nextSequence s in
    let next := u32 (nextSequence s + 1) in
    let? (array, count) :=
      if negb noACK then
        let? array := write (inflight s) (inflightCount s) [sequence] in
        Ok (array, u16 (inflightCount s + 1))
      else Ok (inflight s, inflightCount s) in
    Ok ((sequence, true), mkState (status s) (sendID s) (receiveID s) next (lastReceived s)
          (haveReceived s) (congestion s) (window s) array count).

Definition sequenceAfter (left right : Z) : bool := i32 (u32 (left - right)) >? 0.
Definition sequenceBeforeOrEqual (left right : Z) : bool := i32 (u32 (left - right)) <=? 0.

Fixpoint containsNACK (nacks : bytes) (sequence : Z) : bool :=
  match nacks with
  | a :: b :: c :: d :: rest =>
      if Z.lor (Z.lor (Z.lor (Z.shiftl a 24) (Z.shiftl b 16)) (Z.shiftl c 8)) d =? sequence then true
      else containsNACK rest sequence
  | _ => false
  end.

(** The compacting loop of [acknowledge], from [read] for [n] more entries. *)
Fixpoint compact (n : nat) (through : Z) (nacks : bytes) (read w removed : Z) (array : list Z)
  : res (list Z * Z * Z) :=
  match n with
  | O => Ok (array, w, removed)
  | S n =>
      let? sequence := index array read in
      if sequenceBeforeOrEqual sequence through && negb (containsNACK nacks sequence)
      then compact n through nacks (read + 1) w (u16 (removed + 1)) array
      else
        let? array := write array w [sequence] in
        compact n through nacks (read + 1) (w + 1) removed array
  end.

Definition acknowledge (through : Z) (nacks : bytes) (s : State) : res State :=
  let? (array, w, removed) := compact (Z.to_nat (inflightCount s)) through nacks 0 0 0 (inflight s) in
  let c := if negb (removed =? 0) then AcknowledgeWindow removed (congestion s) else congestion s in
  let win := if negb (removed =? 0) then cwnd c else window s in
  Ok (mkState (status s) (sendID s) (receiveID s) (nextSequence s) (lastReceived s) (haveReceived s)
        c win array (u16 w)).

Definition Acknowledge (through : Z) (s : State) : res State := acknowledge through [] s.

Definition flag (packet : Packet) (mask : Z) : bool := negb (Z.land (Flags packet) mask =? 0).

Definition setStatus (st : Status) (s : State) : State :=
  mkState st (sendID s) (receiveID s) (nextSequence s) (lastReceived s) (haveReceived s)
    (congestion s) (window s) (inflight s) (inflightCount s).

Definition setReceived (seq : Z) (s : State) : State :=
  mkState (status s) (sendID s) (receiveID s) (nextSequence s) seq true
    (congestion s) (window s) (inflight s) (inflightCount s).

Definition OnPacket (packet : Packet) (s : State) : res (Action * State) :=
  let none := mkAction false false false in
  if bool_decide (status s = Reset) || bool_decide (status s = Closed) then Ok (none, s)
  else if negb (sendID s =? 0) && negb (ReceiveStreamID packet =? 0) && negb (ReceiveStreamID packet =? sendID s)
  then Ok (mkAction false false true, s)
  else if flag packet FlagReset then Ok (none, setStatus Reset s)
  else
    let s := if flag packet FlagSynchronize && bool_decide (status s = New) then setStatus Open s else s in
    let close := flag packet FlagClose in
    let s := if close then setStatus Closing s else s in
    let ack := negb (Sequence packet =? 0) || flag packet FlagSynchronize in
    let s := if ack && (negb (haveReceived s) || sequenceAfter (Sequence packet) (lastReceived s))
             then setReceived (Sequence packet) s else s in
    let? s := if negb (flag packet FlagNoACK) && negb (flag packet FlagSynchronize && (SendStreamID packet =? 0))
              then acknowledge (AckThrough packet) (NACKs packet) s else Ok s in
    Ok (mkAction ack close false, s).

Definition OnLoss (s : State) : State :=
  let c := Loss (congestion s) in
  mkState (status s) (sendID s) (receiveID s) (nextSequence s) (lastReceived s) (haveReceived s)
    c (cwnd c) (inflight s) (inflightCount s).

(** ** The codec *)

(** The wire form of a packet and the packets that have one. *)
Definition packet_wire (p : Packet) : bytes :=
  be_bytes 4 (SendStreamID p) ++ be_bytes 4 (ReceiveStreamID p) ++ be_bytes 4 (Sequence p) ++
  be_bytes 4 (AckThrough p) ++ [NACKCount p] ++ NACKs p ++ [ResendDelay p] ++ be_bytes 2 (Flags p) ++
  be_bytes 2 (len (Options p)) ++ Options p ++ Payload p.

Record packet_ok (p : Packet) : Prop := {
  pk_send : 0 <= SendStreamID p < 2 ^ 32;
  pk_receive : 0 <= ReceiveStreamID p < 2 ^ 32;
  pk_sequence : 0 <= Sequence p < 2 ^ 32;
  pk_ack : 0 <= AckThrough p < 2 ^ 32;
  pk_resend : is_byte (ResendDelay p);
  pk_flags : 0 <= Flags p < 2 ^ 16;
  pk_count : is_byte (NACKCount p);
  pk_nacks : len (NACKs p) = 4 * NACKCount p;
  pk_options : len (Options p) < 2 ^ 16;
  pk_size : HeaderLen + len (NACKs p) + len (Options p) + len (Payload p) <= MaxPacketSize;
  pk_bytes : bytes_ok (Options p) /\ bytes_ok (NACKs p) /\ bytes_ok (Payload p) }.

Lemma len_packet_wire p : len (packet_wire p) = HeaderLen + len (NACKs p) + len (Options p) + len (Payload p).
Proof. unfold packet_wire, HeaderLen. len_lia. Qed.

Lemma EncodedLen_ok p : packet_ok p -> EncodedLen p = len (packet_wire p).
Proof.
  intros [? ? ? ? ? ? Hc Hn Ho Hs _]. rewrite len_packet_wire. unfold EncodedLen, is_byte in *.
  rewrite Hn, (Z.mul_comm 4), Z.mod_mul, Z.div_mul by lia. rewrite Z.mul_comm, <- Hn. by zbool.
Qed.

Lemma MarshalTo_wire p dst :
  packet_ok p -> len (packet_wire p) <= len dst ->
  MarshalTo p dst = Ok (over (packet_wire p) dst, len (packet_wire p)).
Proof.
  intros Hp Hd. unfold MarshalTo. rewrite (EncodedLen_ok p Hp). rewrite len_packet_wire in *.
  destruct Hp as [? ? ? ? ? ? Hc Hn Ho Hs _]. unfold HeaderLen, MaxPacketSize, is_byte in *. zbool.
  assert (len (NACKs p) / 4 = NACKCount p) as -> by (rewrite Hn, Z.mul_comm, Z.div_mul; lia).
  unfold u8, u16. rewrite !Z.mod_small by len_lia.
  rewrite (over_nil dst) at 1.
  repeat first [ progress cbn [bind] | rewrite write_over by len_lia | rewrite copy_at_over by len_lia
    | rewrite len_over by len_lia | rewrite Z.min_l by len_lia ].
  unfold packet_wire. by rewrite <- !app_assoc.
Qed.

Lemma Parse_wire p : packet_ok p -> Parse (packet_wire p) = Ok p.
Proof.
  intros Hp. pose proof (len_packet_wire p) as Hl. unfold Parse. rewrite Hl.
  destruct Hp as [? ? ? ? ? ? Hc Hn Ho Hs _]. unfold HeaderLen, MaxPacketSize, is_byte in *. zbool.
  unfold packet_wire in *. go_eval. by destruct p.
Qed.

Lemma Parse_sound src p : bytes_ok src -> Parse src = Ok p -> src = packet_wire p /\ packet_ok p.
Proof.
  intros Hok. unfold Parse, HeaderLen, MaxPacketSize. go_run; intros; simplify_eq.
  be_uppers. 
  split.
  - unfold packet_wire. cbn [SendStreamID ReceiveStreamID Sequence AckThrough NACKCount ResendDelay Flags Options NACKs Payload].
    len_simpl. index_join. rewrite Z.add_simpl_l. sub_join. by rewrite sub_all.
  - replace (17 + x * 4 + 3 - (17 + x * 4 + 1)) with 2 in * by lia.
    replace (17 + x * 4 + 5 - (17 + x * 4 + 3)) with 2 in * by lia.
    split; cbn [SendStreamID ReceiveStreamID Sequence AckThrough NACKCount ResendDelay Flags Options NACKs Payload];
      unfold is_byte, HeaderLen, MaxPacketSize; auto using bytes_ok_sub; try len_lia.
Qed.

Lemma Parse_safe src : bytes_ok src -> safe (Parse src).
Proof. intros Hok. unfold Parse, HeaderLen, MaxPacketSize. go_safe. Qed.

(** The packet codec is exact: on arbitrary bytes [Parse] returns, it yields
    a packet exactly when the bytes are the wire form of that packet and the
    packet is well-formed, and [MarshalTo] writes that wire form at the start of
    the buffer and nothing else. *)
Theorem stream_packet_exact src p dst :
  bytes_ok src ->
  safe (Parse src) /\
  (Parse src = Ok p <-> src = packet_wire p /\ packet_ok p) /\
  (packet_ok p -> len (packet_wire p) <= len dst ->
     MarshalTo p dst = Ok (over (packet_wire p) dst, len (packet_wire p))).
Proof.
  intros Hok. split; [by apply Parse_safe|]. split; [|apply MarshalTo_wire].
  split; [by apply Parse_sound|]. intros [-> Hp]. by apply Parse_wire.
Qed.

(** ** The retransmission timer *)

(** The estimator over unbounded integers. *)
Definition estimate (sample : Z) (r : RTOEstimator) : Z * Z :=
  if valid r then (Z.quot (7 * srtt r + sample) 8, Z.quot (3 * rttvar r + Z.abs (srtt r - sample)) 4)
  else (sample, Z.quot sample 2).

Lemma i64_small z : - 2 ^ 63 <= z < 2 ^ 63 -> i64 z = z.
Proof. intros. unfold i64. rewrite Z.mod_small by lia. lia. Qed.

Definition rto_ok (bound : Z) (r : RTOEstimator) : Prop :=
  0 <= srtt r <= bound /\ 0 <= rttvar r <= bound /\ MinRTO <= rto r <= MaxRTO.

Lemma clampRTO_bounds v : MinRTO <= clampRTO v <= MaxRTO.
Proof. unfold clampRTO, MinRTO, MaxRTO. repeat case_match; lia. Qed.

Lemma clampRTO_id v : MinRTO <= v <= MaxRTO -> clampRTO v = v.
Proof. intros. unfold clampRTO. by zbool. Qed.

Lemma quot_between a k b : 0 < k -> 0 <= a <= k * b -> 0 <= Z.quot a k <= b.
Proof. intros Hk Ha. rewrite Z.quot_div_nonneg by lia. split; [apply Z.div_pos; lia|apply Z.div_le_upper_bound; lia]. Qed.

Lemma ObserveRTT_exact bound sample r :
  bound < 2 ^ 60 -> 0 < sample <= bound -> rto_ok bound r ->
  let e := estimate sample r in
  ObserveRTT sample r = mkRTO e.1 e.2 (clampRTO (e.1 + 4 * e.2)) true /\ rto_ok bound (ObserveRTT sample r).
Proof.
  intros Hb Hs (Hr & Hv & _) e.
  assert (He : 0 <= e.1 <= bound /\ 0 <= e.2 <= bound).
  { unfold e, estimate. destruct (valid r); cbn; split; try apply quot_between; lia. }
  assert (Heq : ObserveRTT sample r = mkRTO e.1 e.2 (clampRTO (e.1 + 4 * e.2)) true).
  { unfold ObserveRTT. replace (sample <=? 0) with false by lia.
    assert (Hd : (let delta := i64 (srtt r - sample) in if delta <? 0 then i64 (- delta) else delta) = Z.abs (srtt r - sample)).
    { cbv zeta. rewrite (i64_small (srtt r - sample)) by lia. case_match; [rewrite i64_small by lia|]; lia. }
    cbv zeta in Hd |- *. rewrite Hd. rewrite (i64_small (7 * srtt r)), (i64_small (3 * rttvar r)) by lia.
    rewrite (i64_small (7 * srtt r + sample)), (i64_small (3 * rttvar r + _)) by lia.
    unfold e, estimate in *. destruct (valid r); cbn in *; rewrite (i64_small (4 * _)), i64_small by lia; done. }
  split; [done|]. rewrite Heq. split; [|split]; cbn; [lia|lia|apply clampRTO_bounds].
Qed.

(** What happens to a timer: round trips observed, and expiries. *)
Inductive timer_event := Measured (sample : Z) | Expired.

Definition timer_step (r : RTOEstimator) (ev : timer_event) : RTOEstimator :=
  match ev with Measured sample => ObserveRTT sample r | Expired => Backoff r end.

Definition timer_run (initial : Z) (evs : list timer_event) : RTOEstimator :=
  fold_left timer_step evs (NewRTOEstimator initial).

Lemma timer_run_bounds initial evs : MinRTO <= rto (timer_run initial evs) <= MaxRTO.
Proof.
  unfold timer_run. assert (Hn : MinRTO <= rto (NewRTOEstimator initial) <= MaxRTO) by apply clampRTO_bounds.
  revert Hn. generalize (NewRTOEstimator initial). induction evs as [|ev evs IH]; intros r Hr; [done|].
  apply IH. destruct ev as [sample|]; cbn; [|apply clampRTO_bounds].
  unfold ObserveRTT. case_match. apply clampRTO_bounds.
Qed.

Lemma RTO_eq r : MinRTO <= rto r -> RTO r = rto r.
Proof. unfold RTO, MinRTO. intros. by zbool. Qed.

Lemma backoffs r k :
  MinRTO <= rto r <= MaxRTO ->
  let r' := fold_left timer_step (replicate k Expired) r in
  RTO r' = Z.min MaxRTO (RTO r * 2 ^ Z.of_nat k) /\ srtt r' = srtt r /\ rttvar r' = rttvar r.
Proof.
  revert r. induction k as [|k IH]; intros r Hr; cbn [replicate fold_left].
  { rewrite RTO_eq by lia. lia. }
  pose proof (clampRTO_bounds (i64 (RTO r * 2))) as Hc.
  destruct (IH (timer_step r Expired) Hc) as (-> & -> & ->).
  rewrite (RTO_eq (timer_step r Expired)), (RTO_eq r) by (apply Hc || lia). cbn [timer_step Backoff rto].
  rewrite RTO_eq, i64_small by (unfold MaxRTO, MinRTO in *; lia). split; [|done].
  rewrite Nat2Z.inj_succ, Z.pow_succ_r by lia.
  assert (1 <= 2 ^ Z.of_nat k) by (apply (Z.pow_le_mono_r 2 0); lia).
  unfold clampRTO. unfold MinRTO, MaxRTO in *. repeat case_match; nia.
Qed.

(** C38: The retransmission timer.  After any history of measured round trips,
    also absurd ones that overflow the 64-bit arithmetic, and of expiries, the
    timeout lies between 100 ms and 60 s; each further expiry doubles it up to
    60 s and leaves the estimate alone; and measurements below [2^60] ns are
    folded into the estimate as over unbounded integers, with no overflow. *)
Theorem timer_bounds initial evs :
  let r := timer_run initial evs in
  MinRTO <= RTO r <= MaxRTO /\
  (forall k, RTO (timer_run initial (evs ++ replicate k Expired)) = Z.min MaxRTO (RTO r * 2 ^ Z.of_nat k)) /\
  (forall bound, 0 <= bound < 2 ^ 60 ->
     Forall (fun ev => match ev with Measured sample => 0 < sample <= bound | Expired => True end) evs ->
     rto_ok bound r /\
     forall sample, 0 < sample <= bound ->
       let e := estimate sample r in
       ObserveRTT sample r = mkRTO e.1 e.2 (clampRTO (e.1 + 4 * e.2)) true).
Proof.
  intros r. pose proof (timer_run_bounds initial evs) as Hr. fold r in Hr.
  split; [rewrite RTO_eq; lia|]. split.
  { intros k. unfold timer_run. rewrite fold_left_app. by apply backoffs. }
  intros bound Hb Hall. assert (Hok : rto_ok bound r); [|split; [done|intros; eapply ObserveRTT_exact; eauto; lia]].
  clear Hr. unfold r, timer_run. assert (Hn : rto_ok bound (NewRTOEstimator initial)) by (split; [cbn; lia|split; [cbn; lia|apply clampRTO_bounds]]).
  revert Hn. generalize (NewRTOEstimator initial). induction Hall as [|ev evs Hev _ IH]; intros r0 H0; [done|].
  apply IH. destruct ev as [sample|]; cbn [timer_step].
  - eapply ObserveRTT_exact; eauto; lia.
  - destruct H0 as (? & ? & ?). split; [done|split; [done|apply clampRTO_bounds]].
Qed.

(** ** The congestion window *)

Definition window_ok (c : CongestionWindow) : Prop :=
  MinWindow <= cwnd c <= MaxWindow /\ MinWindow <= ssthresh c <= MaxWindow /\ 0 <= credit c < cwnd c.

(** Grows with every acknowledgement until the window is full. *)
Definition grown (c : CongestionWindow) : Z := cwnd c * MaxWindow + credit c.

Lemma acknowledgeOne_ok c :
  window_ok c -> cwnd c < MaxWindow ->
  window_ok (acknowledgeOne c) /\ cwnd c <= cwnd (acknowledgeOne c) /\ grown c + 1 <= grown (acknowledgeOne c).
Proof.
  unfold window_ok, grown, acknowledgeOne, MinWindow, MaxWindow, u16. intros (Hc & Hs & Hk) Hlt.
  rewrite !Z.mod_small by lia. repeat case_match; cbn; lia.
Qed.

Lemma acknowledgeLoop_ok n c :
  window_ok c ->
  let c' := acknowledgeLoop n c in
  window_ok c' /\ cwnd c <= cwnd c' /\ ssthresh c' = ssthresh c /\
  (cwnd c' = MaxWindow \/ grown c + Z.of_nat n <= grown c').
Proof.
  revert c. induction n as [|n IH]; intros c Hc; cbv zeta; cbn [acknowledgeLoop].
  { split; [done|]. split; [lia|]. split; [done|]. right. lia. }
  destruct (Z.ltb_spec (cwnd c) MaxWindow) as [Hlt|Hge].
  - destruct (acknowledgeOne_ok c Hc Hlt) as (H1 & H2 & H3). destruct (IH _ H1) as (I1 & I2 & I3 & I4).
    split; [done|]. split; [lia|]. split; [rewrite I3; unfold acknowledgeOne; by repeat case_match|].
    destruct I4; [by left|right; lia].
  - split; [done|]. split; [lia|]. split; [done|]. left. unfold window_ok in Hc. lia.
Qed.

Lemma AcknowledgeWindow_ok count c :
  0 <= count -> window_ok c ->
  let c' := AcknowledgeWindow count c in
  window_ok c' /\ cwnd c <= cwnd c' /\ ssthresh c' = ssthresh c /\ (cwnd c' = MaxWindow \/ grown c + count <= grown c').
Proof. intros Hn Hc. pose proof (acknowledgeLoop_ok (Z.to_nat count) c Hc) as H. by rewrite Z2Nat.id in H. Qed.

Lemma Loss_ok c : window_ok c -> window_ok (Loss c) /\ window_ok (FastRecovery c).
Proof.
  unfold window_ok, Loss, FastRecovery, MinWindow, MaxWindow. intros (Hc & Hs & Hk). cbn.
  pose proof (Z.div_le_upper_bound (cwnd c) 2 64). pose proof (Z.div_pos (cwnd c) 2). lia.
Qed.

(** ** The sequence numbers in flight *)

(** The used part of the array. *)
Definition flying (s : State) : list Z := sub 0 (inflightCount s) (inflight s).

(** What an acknowledgement leaves in flight. *)
Definition stays (through : Z) (nacks : bytes) (sequence : Z) : bool :=
  negb (sequenceBeforeOrEqual sequence through && negb (containsNACK nacks sequence)).

Lemma write_one {A} (l : list A) off x :
  0 <= off < len l ->
  exists l', write l off [x] = Ok l' /\ len l' = len l /\ sub 0 (off + 1) l' = sub 0 off l ++ [x] /\
    forall lo hi, off < lo -> hi <= len l -> sub lo hi l' = sub lo hi l.
Proof.
  intros Ho. exists (sub 0 off l ++ [x] ++ sub (off + 1) (len l) l). unfold write.
  change (len [x]) with 1. zbool. split; [done|]. split; [len_lia|]. split.
  - rewrite app_assoc. apply sub_app_exact. len_lia.
  - intros lo hi Hlo Hhi. rewrite !sub_app_r by len_lia. len_simpl. change (len [x]) with 1.
    rewrite sub_sub by lia. f_equal; lia.
Qed.

Lemma Ok_triple {A} (a : A) (b b' c c' : Z) : b = b' -> c = c' -> Ok (a, b, c) = Ok (a, b', c').
Proof. by intros -> ->. Qed.

Lemma compact_ok through nacks n : forall array read w removed,
  0 <= w <= read -> read + Z.of_nat n <= len array -> 0 <= removed -> removed + Z.of_nat n < 2 ^ 16 ->
  let kept := List.filter (stays through nacks) (sub read (read + Z.of_nat n) array) in
  exists array', compact n through nacks read w removed array = Ok (array', w + len kept, removed + Z.of_nat n - len kept) /\
    len array' = len array /\ sub 0 (w + len kept) array' = sub 0 w array ++ kept.
Proof.
  induction n as [|n IH]; intros array read w removed Hw Hn Hr Hrn; cbn [compact].
  { exists array. rewrite sub_empty by lia. cbn. change (len []) with 0. rewrite app_nil_r.
    split; [apply Ok_triple; lia|]. split; [done|]. f_equal; lia. }
  destruct (index_ok array read) as (x & Hx & _); [lia|]. rewrite Hx. cbn [bind].
  assert (Hs : sub read (read + Z.of_nat (S n)) array = x :: sub (read + 1) (read + 1 + Z.of_nat n) array).
  { rewrite <- (sub_app_split array read (read + 1)) by lia. rewrite (index_one array read (read + 1) x Hx) by lia.
    cbn. do 2 f_equal. lia. }
  rewrite Hs. cbn [List.filter].
  replace (sequenceBeforeOrEqual x through && negb (containsNACK nacks x)) with (negb (stays through nacks x))
    by (unfold stays; by rewrite negb_involutive).
  destruct (stays through nacks x); cbn [negb].
  - destruct (write_one array w x) as (array1 & -> & Hl1 & Hp1 & Hs1); [lia|]. cbn [bind].
    destruct (IH array1 (read + 1) (w + 1) removed) as (array' & -> & Hl & Hp); [lia..|].
    rewrite Hs1 in * by lia. exists array'. rewrite len_cons.
    split; [apply Ok_triple; lia|]. split; [lia|].
    replace (w + (1 + _)) with (w + 1 + len (List.filter (stays through nacks) (sub (read + 1) (read + 1 + Z.of_nat n) array))) by lia.
    rewrite Hp, Hp1, <- app_assoc. done.
  - unfold u16. rewrite Z.mod_small by lia.
    destruct (IH array (read + 1) w (removed + 1)) as (array' & -> & Hl & Hp); [lia..|].
    exists array'. split; [apply Ok_triple; lia|]. done.
Qed.

Record state_ok (s : State) : Prop := {
  st_window : window_ok (congestion s);
  st_array : len (inflight s) = MaxWindow;
  st_count : 0 <= inflightCount s <= MaxWindow;
  st_next : 0 <= nextSequence s < 2 ^ 32 }.

Lemma NewState_ok send receive : state_ok (NewState send receive).
Proof. split; vm_compute; repeat split; congruence. Qed.

Lemma len_flying s : state_ok s -> len (flying s) = inflightCount s.
Proof. intros [_ Ha Hc _]. unfold flying. len_lia. Qed.

Lemma Window_eq s : state_ok s -> Window s = cwnd (congestion s).
Proof. intros [(Hc & _) _ _ _]. unfold Window, MinWindow in *. by zbool. Qed.

Lemma len_filter_le {A} (P : A -> bool) (l : list A) : len (List.filter P l) <= len l.
Proof. induction l as [|x l IH]; cbn [List.filter]; [done|]. destruct (P x); len_lia. Qed.

Lemma acknowledge_ok through nacks s :
  state_ok s ->
  let kept := List.filter (stays through nacks) (flying s) in
  exists win array,
    acknowledge through nacks s =
      Ok (mkState (status s) (sendID s) (receiveID s) (nextSequence s) (lastReceived s) (haveReceived s)
            (AcknowledgeWindow (len (flying s) - len kept) (congestion s)) win array (len kept)) /\
    len array = MaxWindow /\ sub 0 (len kept) array = kept.
Proof.
  intros Hs kept. pose proof (len_flying s Hs) as Hf. destruct Hs as [Hw Ha Hc Hn].
  unfold acknowledge, MaxWindow in *.
  destruct (compact_ok through nacks (Z.to_nat (inflightCount s)) (inflight s) 0 0 0) as (array & -> & Hl & Hp); [lia..|].
  rewrite Z2Nat.id in * by lia. cbn [bind]. rewrite Z.add_0_l in *.
  change (sub 0 (inflightCount s) (inflight s)) with (flying s) in *. fold kept in Hp |- *.
  assert (Hk : 0 <= len kept <= len (flying s)) by (split; [apply len_nonneg|apply len_filter_le]).
  unfold u16. rewrite Hf, Z.mod_small, Z.add_0_l by lia.
  destruct (Z.eqb_spec (inflightCount s - len kept) 0) as [He|He]; cbn [negb];
    eexists _, array; (split; [|split; [lia|exact Hp]]); [by rewrite He|done].
Qed.

(** ** Wrap-around comparisons *)

Lemma i32_u32_near a b : - 2 ^ 31 < a - b < 2 ^ 31 -> i32 (u32 (u32 a - u32 b)) = a - b.
Proof.
  intros Hab. unfold i32, u32. rewrite <- Zminus_mod, Zplus_mod_idemp_l, Z.mod_small by lia. lia.
Qed.

Lemma before_near a b : - 2 ^ 31 < a - b < 2 ^ 31 -> sequenceBeforeOrEqual (u32 a) (u32 b) = (a <=? b).
Proof. intros. unfold sequenceBeforeOrEqual. rewrite i32_u32_near by done. lia. Qed.

Lemma after_near a b : - 2 ^ 31 < a - b < 2 ^ 31 -> sequenceAfter (u32 a) (u32 b) = (b <? a).
Proof. intros. unfold sequenceAfter. rewrite i32_u32_near by done. lia. Qed.

Lemma u32_near a b : - 2 ^ 32 < a - b < 2 ^ 32 -> (u32 a =? u32 b) = (a =? b).
Proof.
  intros Hab. unfold u32. destruct (Z.eqb_spec a b) as [->|Hne]; [by rewrite Z.eqb_refl|].
  apply Z.eqb_neq. intros He. pose proof (Z.div_mod a (2 ^ 32)). pose proof (Z.div_mod b (2 ^ 32)). nia.
Qed.

(** The bytes of a list of negative acknowledgements. *)
Definition nack_bytes (ns : list Z) : bytes := concat ((fun n => be_bytes 4 (u32 n)) <$> ns).

Lemma be_val_four a b c d : be_val [a; b; c; d] = ((a * 256 + b) * 256 + c) * 256 + d.
Proof.
  rewrite !be_val_cons, !len_cons. change (be_val []) with 0. change (len []) with 0.
  change (256 ^ (1 + (1 + (1 + 0)))) with (256 * 256 * 256). change (256 ^ (1 + (1 + 0))) with (256 * 256).
  change (256 ^ (1 + 0)) with 256. lia.
Qed.

Lemma lor_bytes a b c d :
  0 <= b < 256 -> 0 <= c < 256 -> 0 <= d < 256 ->
  Z.lor (Z.lor (Z.lor (Z.shiftl a 24) (Z.shiftl b 16)) (Z.shiftl c 8)) d = ((a * 256 + b) * 256 + c) * 256 + d.
Proof.
  intros Hb Hc Hd.
  replace (Z.shiftl a 24) with (Z.shiftl (Z.shiftl a 8) 16) by (by rewrite Z.shiftl_shiftl).
  rewrite <- Z.shiftl_lor, (lor_shiftl a b 8) by lia.
  replace (Z.shiftl (a * 2 ^ 8 + b) 16) with (Z.shiftl (Z.shiftl (a * 2 ^ 8 + b) 8) 8) by (by rewrite Z.shiftl_shiftl).
  rewrite <- Z.shiftl_lor, !lor_shiftl by lia. lia.
Qed.

Lemma containsNACK_app l rest seq :
  length l = 4%nat -> bytes_ok l -> containsNACK (l ++ rest) seq = (be_val l =? seq) || containsNACK rest seq.
Proof.
  intros Hl Hok. destruct l as [|a [|b [|c [|d [|]]]]]; try done. cbn [app containsNACK].
  repeat (apply Forall_cons in Hok as [? Hok]). unfold is_byte in *.
  rewrite lor_bytes, be_val_four by done. by destruct (_ =? _).
Qed.

Lemma containsNACK_bytes ns x :
  Forall (fun n => - 2 ^ 32 < x - n < 2 ^ 32) ns -> containsNACK (nack_bytes ns) (u32 x) = bool_decide (x ∈ ns).
Proof.
  induction 1 as [|n ns Hn _ IH]; [done|]. unfold nack_bytes in *. rewrite fmap_cons. cbn [concat].
  rewrite containsNACK_app, IH by (apply bytes_ok_be || (pose proof (len_be_bytes 4 (u32 n)); unfold len in *; lia)).
  rewrite be_val_small by (apply Z.mod_pos_bound; lia). rewrite Z.eqb_sym, u32_near by done.
  destruct (Z.eqb_spec x n) as [->|Hne]; cbn [orb].
  - symmetry. apply bool_decide_eq_true. left.
  - apply bool_decide_ext. rewrite elem_of_cons. naive_solver.
Qed.

(** ** What a stream state promises

    The specification counts packets with unbounded numbers: the packets in
    flight are a list, the last packet received is a maximum, and an
    acknowledgement names the packets it covers. *)
Module StreamSpec.
Record peer := mkPeer {
  pStatus : Status; pNext : Z; pOut : list Z; pWin : CongestionWindow; pLast : option Z }.

(** The unbounded numbers a packet stands for. *)
Record numbers := mkNumbers { nSeq : Z; nThrough : Z; nNacks : list Z }.

Definition start : peer := mkPeer New 0 [] (NewCongestionWindow InitialWindow) None.

Definition send (noACK : bool) (a : peer) : option Z * peer :=
  if bool_decide (pStatus a = Open) && (len (pOut a) <? cwnd (pWin a)) then
    (Some (pNext a), mkPeer (pStatus a) (pNext a + 1) (if noACK then pOut a else pOut a ++ [pNext a]) (pWin a) (pLast a))
  else (None, a).

Definition remains (m : numbers) (x : Z) : bool := (nThrough m <? x) || bool_decide (x ∈ nNacks m).

Definition receive (id : Z) (p : Packet) (m : numbers) (a : peer) : Action * peer :=
  if bool_decide (pStatus a = Reset) || bool_decide (pStatus a = Closed) then (mkAction false false false, a)
  else if negb (id =? 0) && negb (ReceiveStreamID p =? 0) && negb (ReceiveStreamID p =? id)
  then (mkAction false false true, a)
  else if flag p FlagReset then (mkAction false false false, mkPeer Reset (pNext a) (pOut a) (pWin a) (pLast a))
  else
    let st := if flag p FlagClose then Closing
              else if flag p FlagSynchronize && bool_decide (pStatus a = New) then Open else pStatus a in
    let ack := negb (u32 (nSeq m) =? 0) || flag p FlagSynchronize in
    let last := if ack then Some (match pLast a with Some l => Z.max l (nSeq m) | None => nSeq m end) else pLast a in
    let out := if negb (flag p FlagNoACK) && negb (flag p FlagSynchronize && (SendStreamID p =? 0))
               then List.filter (remains m) (pOut a) else pOut a in
    (mkAction ack (flag p FlagClose) false,
     mkPeer st (pNext a) out (AcknowledgeWindow (len (pOut a) - len out) (pWin a)) last).

Definition lose (a : peer) : peer := mkPeer (pStatus a) (pNext a) (pOut a) (Loss (pWin a)) (pLast a).

(** The numbers are close enough for 32 bits to tell them apart. *)
Definition acks_near (p : Packet) (m : numbers) (out : list Z) : Prop :=
  AckThrough p = u32 (nThrough m) /\ NACKs p = nack_bytes (nNacks m) /\
  Forall (fun x => - 2 ^ 31 < x - nThrough m < 2 ^ 31 /\ Forall (fun n => - 2 ^ 32 < x - n < 2 ^ 32) (nNacks m)) out.

Definition near (p : Packet) (m : numbers) (a : peer) : Prop :=
  acks_near p m (pOut a) /\ Sequence p = u32 (nSeq m) /\
  (forall l, pLast a = Some l -> - 2 ^ 31 < nSeq m - l < 2 ^ 31).

Definition represents (s : State) (a : peer) : Prop :=
  status s = pStatus a /\ nextSequence s = u32 (pNext a) /\ flying s = u32 <$> pOut a /\ congestion s = pWin a /\
  match pLast a with Some l => haveReceived s = true /\ lastReceived s = u32 l | None => haveReceived s = false end.

Lemma stays_remains p m out :
  acks_near p m out -> List.filter (stays (AckThrough p) (NACKs p)) (u32 <$> out) = u32 <$> List.filter (remains m) out.
Proof.
  intros (-> & -> & Hall). induction Hall as [|x l [Hx Hn] _ IH]; [done|].
  rewrite fmap_cons. cbn [List.filter]. rewrite IH.
  replace (stays (u32 (nThrough m)) (nack_bytes (nNacks m)) (u32 x)) with (remains m x).
  { by destruct (remains m x). }
  unfold stays, remains. rewrite before_near, containsNACK_bytes by done. rewrite negb_andb, negb_involutive. f_equal. lia.
Qed.

Lemma send_refines noACK s a :
  state_ok s -> represents s a ->
  exists s', OnSend noACK s = Ok (match (send noACK a).1 with Some x => (u32 x, true) | None => (0, false) end, s') /\
    state_ok s' /\ represents s' (send noACK a).2 /\ sendID s' = sendID s.
Proof.
  intros Hs (Hst & Hn & Hf & Hw & Hl). pose proof (len_flying s Hs) as Hlen. pose proof (Window_eq s Hs) as HW.
  assert (Hcan : CanSend s = bool_decide (pStatus a = Open) && (len (pOut a) <? cwnd (pWin a)))
    by (unfold CanSend; by rewrite HW, <- Hlen, Hf, len_fmap, Hst, Hw).
  unfold OnSend, send. rewrite Hcan.
  destruct (bool_decide _ && _) eqn:Hc; cbn [negb fst snd]; [|by exists s].
  apply andb_true_iff in Hc as [_ Hc]. destruct Hs as [Hok Ha Hi Hnx]. rewrite Hw in Hok. pose proof Hok as (Hcw & _).
  rewrite Hf, len_fmap in Hlen. unfold MaxWindow, MinWindow in *.
  assert (Hnext : u32 (nextSequence s + 1) = u32 (pNext a + 1)) by (rewrite Hn; unfold u32; by rewrite Zplus_mod_idemp_l).
  assert (Hb : 0 <= u32 (pNext a + 1) < 2 ^ 32) by (apply Z.mod_pos_bound; lia).
  destruct noACK; cbn [negb bind].
  - eexists. split; [by rewrite <- Hn|]. split; [|split; [|done]].
    + split; cbn; [by rewrite Hw|exact Ha|exact Hi|by rewrite Hnext].
    + unfold represents. cbn. rewrite Hnext. done.
  - destruct (write_one (inflight s) (inflightCount s) (nextSequence s)) as (array & -> & Hla & Hp & _); [lia|].
    cbn [bind]. unfold u16. rewrite Z.mod_small by lia. eexists. split; [by rewrite <- Hn|]. split; [|split; [|done]].
    + split; cbn; [by rewrite Hw|unfold MaxWindow; lia|unfold MaxWindow; lia|by rewrite Hnext].
    + unfold represents, flying. cbn. rewrite Hnext, Hp, fmap_app. fold (flying s). rewrite Hf, Hn. done.
Qed.

(** An acknowledgement, from a state that already represents the rest. *)
Lemma acknowledge_refines p m a s :
  state_ok s -> represents s a -> acks_near p m (pOut a) ->
  let out := List.filter (remains m) (pOut a) in
  exists s', acknowledge (AckThrough p) (NACKs p) s = Ok s' /\ state_ok s' /\
    represents s' (mkPeer (pStatus a) (pNext a) out (AcknowledgeWindow (len (pOut a) - len out) (pWin a)) (pLast a)) /\
    sendID s' = sendID s.
Proof.
  intros Hs (Hst & Hn & Hf & Hw & Hl) Hm out.
  destruct (acknowledge_ok (AckThrough p) (NACKs p) s Hs) as (win & array & -> & Ha & Hp).
  rewrite Hf, (stays_remains p m _ Hm) in *. fold out in Hp |- *. rewrite !len_fmap in *.
  assert (Hle : 0 <= len out <= len (pOut a)) by (split; [apply len_nonneg|apply len_filter_le]).
  pose proof (len_flying s Hs) as Hfl. rewrite Hf, len_fmap in Hfl. destruct Hs as [Hok _ Hi Hnx].
  eexists. split; [done|]. split; [|split; [|done]].
  - split; cbn; [|done|lia|done]. apply AcknowledgeWindow_ok; [lia|done].
  - unfold represents, flying. cbn. rewrite Hp, Hw. done.
Qed.

Lemma receive_refines id p m s a :
  state_ok s -> represents s a -> near p m a -> sendID s = id ->
  exists s', OnPacket p s = Ok ((receive id p m a).1, s') /\ state_ok s' /\ represents s' (receive id p m a).2 /\ sendID s' = id.
Proof.
  intros Hs Hr Hm <-. pose proof Hr as (Hst & Hn & Hf & Hw & Hl). unfold OnPacket, receive. rewrite Hst.
  destruct (_ || _); [by exists s|]. destruct (_ && _ && _); [by exists s|].
  destruct (flag p FlagReset).
  { eexists. split; [done|]. split; [by destruct Hs|]. done. }
  set (s1 := if flag p FlagSynchronize && _ then setStatus Open s else s).
  set (s2 := if flag p FlagClose then setStatus Closing s1 else s1).
  set (ack := negb (Sequence p =? 0) || flag p FlagSynchronize).
  set (s3 := if ack && _ then setReceived (Sequence p) s2 else s2).
  set (st := if flag p FlagClose then Closing else _).
  destruct Hm as (Hm & Hseq & Hnear). rewrite <- Hseq. fold ack.
  set (last := if ack then Some _ else pLast a).
  assert (H3 : state_ok s3 /\ represents s3 (mkPeer st (pNext a) (pOut a) (pWin a) last) /\ sendID s3 = sendID s).
  { assert (H2 : state_ok s2 /\ represents s2 (mkPeer st (pNext a) (pOut a) (pWin a) (pLast a)) /\ sendID s2 = sendID s).
    { unfold s2, s1, st. destruct Hs. by destruct (flag p FlagClose), (flag p FlagSynchronize && _). }
    clearbody s2. destruct H2 as (Hs2 & (? & ? & ? & ? & Hl2) & Hid2). unfold s3, last. cbn in Hl2.
    destruct ack; [|done]. destruct (pLast a) as [l|] eqn:El.
    - destruct Hl2 as [Hv Hl2]. rewrite Hv, Hl2, Hseq, after_near by auto. cbn [negb orb andb].
      destruct (Z.ltb_spec l (nSeq m)).
      + rewrite Z.max_r by lia. by destruct Hs2.
      + rewrite Z.max_l by lia. done.
    - rewrite Hl2. cbn [negb orb andb]. rewrite Hseq. by destruct Hs2. }
  destruct H3 as (Hs3 & Hr3 & Hid).
  destruct (negb (flag p FlagNoACK) && _).
  - destruct (acknowledge_refines p m _ s3 Hs3 Hr3 Hm) as (s' & -> & Hs' & Hr' & Hid'). exists s'. 
    cbn [bind]. rewrite Hid' , Hid. done.
  - exists s3. cbn [bind]. rewrite Z.sub_diag. done.
Qed.

(** Sequences of sends, received packets and losses, with what they return. *)
Inductive event := ESend (noACK : bool) | EPacket (p : Packet) (m : numbers) | ELoss.
Inductive answer := Sent (sequence : Z) (ok : bool) | Acted (act : Action) | Lost.

Definition step (ev : event) (s : State) : res (answer * State) :=
  match ev with
  | ESend noACK => let? (r, s) := OnSend noACK s in Ok (Sent r.1 r.2, s)
  | EPacket p _ => let? (act, s) := OnPacket p s in Ok (Acted act, s)
  | ELoss => Ok (Lost, OnLoss s)
  end.

Definition spec_step (id : Z) (ev : event) (a : peer) : answer * peer :=
  match ev with
  | ESend noACK => let '(r, a) := send noACK a in (match r with Some x => Sent (u32 x) true | None => Sent 0 false end, a)
  | EPacket p m => let '(act, a) := receive id p m a in (Acted act, a)
  | ELoss => (Lost, lose a)
  end.

Fixpoint run (evs : list event) (s : State) : res (list answer * State) :=
  match evs with
  | [] => Ok ([], s)
  | ev :: evs => let? (r, s) := step ev s in let? (rs, s) := run evs s in Ok (r :: rs, s)
  end.

Fixpoint spec_run (id : Z) (evs : list event) (a : peer) : list answer * peer :=
  match evs with
  | [] => ([], a)
  | ev :: evs => let '(r, a) := spec_step id ev a in let '(rs, a) := spec_run id evs a in (r :: rs, a)
  end.

Fixpoint all_near (id : Z) (evs : list event) (a : peer) : Prop :=
  match evs with
  | [] => True
  | ev :: evs => match ev with EPacket p m => near p m a | _ => True end /\ all_near id evs (spec_step id ev a).2
  end.

Lemma step_refines id ev s a :
  state_ok s -> represents s a -> sendID s = id -> match ev with EPacket p m => near p m a | _ => True end ->
  exists s', step ev s = Ok ((spec_step id ev a).1, s') /\ state_ok s' /\ represents s' (spec_step id ev a).2 /\ sendID s' = id.
Proof.
  intros Hs Hr Hid Hm. destruct ev as [noACK|p m|]; cbn [step spec_step].
  - destruct (send_refines noACK s a Hs Hr) as (s' & -> & ? & ? & ?). exists s'. cbn [bind].
    destruct (send noACK a) as [[x|] a'] eqn:E; cbn [fst snd] in *; (split; [done|split; [done|split; [done|congruence]]]).
  - destruct (receive_refines id p m s a Hs Hr Hm Hid) as (s' & -> & ? & ? & ?). exists s'. cbn [bind].
    by destruct (receive id p m a).
  - exists (OnLoss s). destruct Hr as (? & ? & ? & Hw & ?). destruct Hs as [Hok ? ? ?].
    split; [done|]. split; [split; cbn; try done; by apply Loss_ok|]. split; [|done].
    unfold represents, lose. cbn. rewrite Hw. done.
Qed.

Lemma run_refines id evs s a :
  state_ok s -> represents s a -> sendID s = id -> all_near id evs a ->
  exists s', run evs s = Ok ((spec_run id evs a).1, s') /\ state_ok s' /\ represents s' (spec_run id evs a).2.
Proof.
  revert s a. induction evs as [|ev evs IH]; intros s a Hs Hr Hid Hn; [by exists s|].
  destruct Hn as [Hev Hn]. cbn [run spec_run].
  destruct (step_refines id ev s a Hs Hr Hid Hev) as (s1 & -> & Hs1 & Hr1 & Hid1). cbn [bind].
  destruct (IH s1 _ Hs1 Hr1 Hid1 Hn) as (s2 & -> & Hs2 & Hr2). cbn [bind]. exists s2.
  destruct (spec_step id ev a) as [r a1]. cbn [fst snd] in *. by destruct (spec_run id evs a1).
Qed.

(** C15: A stream state implements its specification.  Any sequence of sends,
    received packets and losses on a new stream runs without panic, answers as
    the specification does, and ends in a state that represents the
    specification's: the sent packets not yet acknowledged are exactly those in
    the array, also across the wrap-around of the 32-bit sequence numbers and of
    their comparison, as long as no two numbers compared are [2^31] apart.
    There are never more than 128 packets in flight and the congestion window
    stays between 1 and 128. *)
Theorem stream_refines sendID receiveID evs :
  all_near sendID evs start ->
  exists s, run evs (NewState sendID receiveID) = Ok ((spec_run sendID evs start).1, s) /\
    represents s (spec_run sendID evs start).2 /\
    len (flying s) <= MaxWindow /\ MinWindow <= cwnd (congestion s) <= MaxWindow.
Proof.
  intros Hn. destruct (run_refines sendID evs (NewState sendID receiveID) start) as (s & Hrun & Hs & Hr);
    [apply NewState_ok|by vm_compute|done|done|].
  exists s. rewrite len_flying by done. by destruct Hs as [(? & _) _ [_ ?] _].
Qed.

(** After any number of losses the window opens again: from every reachable
    window, [128 * 128] acknowledged packets, however they are grouped, bring
    the congestion window back to its maximum of 128. *)
Theorem window_recovers counts c :
  window_ok c -> Forall (fun n => 0 <= n) counts -> MaxWindow * MaxWindow <= foldr Z.add 0 counts ->
  let c' := fold_left (fun c n => AcknowledgeWindow n c) counts c in
  window_ok c' /\ cwnd c' = MaxWindow.
Proof.
  intros Hc Hn Hsum.
  assert (H : forall counts c, window_ok c -> Forall (fun n => 0 <= n) counts ->
    let c' := fold_left (fun c n => AcknowledgeWindow n c) counts c in
    window_ok c' /\ cwnd c <= cwnd c' /\ (cwnd c' = MaxWindow \/ grown c + foldr Z.add 0 counts <= grown c')).
  { clear. induction counts as [|n counts IH]; intros c Hc Hn; cbv zeta; cbn [fold_left foldr].
    { split; [done|]. split; [lia|]. right. lia. }
    apply Forall_cons in Hn as [Hn0 Hn]. destruct (AcknowledgeWindow_ok n c Hn0 Hc) as (H1 & H2 & _ & H4).
    destruct (IH _ H1 Hn) as (I1 & I2 & I3). split; [done|]. split; [lia|].
    destruct I3 as [?|I3]; [by left|]. destruct H4 as [H4|H4]; [|right; lia].
    left. unfold window_ok in I1. lia. }
  destruct (H counts c Hc Hn) as (H1 & _ & H3). split; [done|]. destruct H3 as [?|H3]; [done|].
  unfold window_ok, grown, MaxWindow, MinWindow in *. lia.
Qed.
End StreamSpec.

(** A packet with one negative acknowledgement, an option and a payload. *)
Definition samplePacket : Packet := mkPacket 1 2 3 4 1 5 1 [7; 8] [0; 0; 0; 9] [10; 11].

(** The peer opens the stream, three packets fill the window, a fourth is
    refused, and an acknowledgement of the first two with the second missing
    leaves two in flight. *)
Definition sampleEvents : list StreamSpec.event :=
  [StreamSpec.EPacket (mkPacket 5 0 0 0 0 0 (FlagSynchronize + FlagNoACK) [] [] []) (StreamSpec.mkNumbers 0 0 []);
   StreamSpec.ESend false; StreamSpec.ESend false; StreamSpec.ESend false; StreamSpec.ESend false;
   StreamSpec.EPacket (mkPacket 5 0 1 1 1 0 0 [] (nack_bytes [1]) []) (StreamSpec.mkNumbers 1 1 [1])].

Lemma stream_refines_witness :
  StreamSpec.pOut (StreamSpec.spec_run 9 sampleEvents StreamSpec.start).2 = [1; 2] /\
  exists s, StreamSpec.run sampleEvents (NewState 9 5) = Ok ((StreamSpec.spec_run 9 sampleEvents StreamSpec.start).1, s) /\
    StreamSpec.represents s (StreamSpec.spec_run 9 sampleEvents StreamSpec.start).2.
Proof.
  split; [vm_compute; reflexivity|].
  destruct (StreamSpec.stream_refines 9 5 sampleEvents) as (s & H1 & H2 & _); [|exists s; exact (conj H1 H2)].
  split; [|split; [exact I|split; [exact I|split; [exact I|split; [exact I|split; [|exact I]]]]]].
  - split; [split; [reflexivity|split; [reflexivity|apply Forall_nil; exact I]]|split; [reflexivity|]]. intros l H. discriminate H.
  - split; [split; [reflexivity|split; [reflexivity|]]|split; [reflexivity|]].
    + match goal with |- Forall _ ?l => replace l with [0; 1; 2] by (vm_compute; reflexivity) end.
      repeat (apply Forall_cons; split; [split; [cbn; lia|apply Forall_cons; split; [lia|apply Forall_nil; exact I]]|]).
      apply Forall_nil; exact I.
    + intros l H. match type of H with ?o = _ => replace o with (Some 0) in H by (vm_compute; reflexivity) end.
      injection H as <-. cbn. lia.
Defined.

