(* ===== verification/StreamConn.v ===== *)
(** The write path of a streaming connection,
    [src/dataplane/internal/streaming/conn.go]: any number of concurrent [Write]
    calls, the worker goroutine that owns the underlying stream, deadlines and
    [Close].

    Each goroutine is a program counter and the connection a step relation, one
    step per atomic access of the code: a channel operation, an atomic load or
    store, a critical section under [deadlineMu].  A [select] with several ready
    cases takes any of them, a timer may fire whenever its deadline is set, and
    the underlying stream answers as it likes. *)

From S2P Require Import Prelude.

(** ** Data *)

(** Errors of [Write]: [net.ErrClosed], [timeoutError], or one of the stream,
    with its [Timeout()] answer. *)
Inductive writeError := ErrClosed | ErrTimeout | ErrStream (timeout : bool).

Record writeResult := mkResult { n : Z; err : option writeError }.

Definition isTimeoutError (e : option writeError) : bool :=
  match e with Some ErrTimeout => true | Some (ErrStream t) => t | _ => false end.

(** A [time.Time]; the zero time is [None]. *)
Abbreviation deadline_t := (option Z).

(** Where a caller of [Write] stands: past the closed check, before it reads the
    write deadline; in the select of [enqueue]; in the select of [awaitWrite]; past it with the done or timeout case, before and after the
    store to [canceled]; blocked on the result; with a result to normalise;
    returned. *)
Inductive cause := Done | Timeout.
Inductive callerPC :=
| Opened
| Enqueueing
| Awaiting
| Chosen (why : cause)
| Canceled (why : cause)
| Blocked
| Received (r : writeResult)
| Returned (r : writeResult).

(** [result] is the one-element channel; [wrote] records what the stream's
    [Write] reported for this request, and is not part of the program. *)
Record writeRequest := mkRequest {
  data : bytes; deadline : deadline_t; result : option writeResult;
  canceled : bool; active : bool; deadlineApplied : bool;
  caller : callerPC; wrote : option Z }.

(** Where the worker stands in [writeLoop] and [failQueuedWrites]. *)
Inductive workerPC :=
| WSelect
| WTook (i : nat)
| WActive (i : nat)
| WChecked (i : nat)
| WBegin (i : nat)
| WWriting (i : nat)
| WWrote (i : nat) (r : writeResult)
| WEnded (i : nat) (r : writeResult) (activeDeadline : deadline_t)
| WSecond (i : nat) (r : writeResult)
| WReply (i : nat) (r : writeResult)
| WDraining
| WDrainReply (i : nat)
| WExited.

Record Conn := mkConn {
  size : Z; writes : list nat; done : bool;
  readDeadline : deadline_t; writeDeadline : deadline_t;
  activeWriteDeadline : deadline_t; activeRequest : option nat; writeActive : bool;
  worker : workerPC; requests : list writeRequest }.

(** ** Operations *)

Definition DefaultWriteQueue : Z := 16.

Definition NewConn (queueSize : list Z) : Conn :=
  let size := match queueSize with q :: _ => if 0 <? q then q else DefaultWriteQueue | [] => DefaultWriteQueue end in
  mkConn size [] false None None None None false WSelect [].

Definition setWorker (w : workerPC) (c : Conn) : Conn :=
  mkConn (size c) (writes c) (done c) (readDeadline c) (writeDeadline c) (activeWriteDeadline c)
    (activeRequest c) (writeActive c) w (requests c).

Definition setWrites (q : list nat) (c : Conn) : Conn :=
  mkConn (size c) q (done c) (readDeadline c) (writeDeadline c) (activeWriteDeadline c)
    (activeRequest c) (writeActive c) (worker c) (requests c).

Definition update (i : nat) (f : writeRequest -> writeRequest) (c : Conn) : Conn :=
  mkConn (size c) (writes c) (done c) (readDeadline c) (writeDeadline c) (activeWriteDeadline c)
    (activeRequest c) (writeActive c) (worker c) (alter f i (requests c)).

Definition setDeadline (d : deadline_t) (r : writeRequest) : writeRequest :=
  mkRequest (data r) d (result r) (canceled r) (active r) (deadlineApplied r) (caller r) (wrote r).
Definition setCaller (pc : callerPC) (r : writeRequest) : writeRequest :=
  mkRequest (data r) (deadline r) (result r) (canceled r) (active r) (deadlineApplied r) pc (wrote r).
Definition setResult (res : option writeResult) (r : writeRequest) : writeRequest :=
  mkRequest (data r) (deadline r) res (canceled r) (active r) (deadlineApplied r) (caller r) (wrote r).
Definition setCanceled (r : writeRequest) : writeRequest :=
  mkRequest (data r) (deadline r) (result r) true (active r) (deadlineApplied r) (caller r) (wrote r).
Definition setActive (r : writeRequest) : writeRequest :=
  mkRequest (data r) (deadline r) (result r) (canceled r) true (deadlineApplied r) (caller r) (wrote r).
Definition setApplied (r : writeRequest) : writeRequest :=
  mkRequest (data r) (deadline r) (result r) (canceled r) (active r) true (caller r) (wrote r).
Definition setWrote (k : Z) (r : writeRequest) : writeRequest :=
  mkRequest (data r) (deadline r) (result r) (canceled r) (active r) (deadlineApplied r) (caller r) (Some k).

Definition Close (c : Conn) : option writeError * Conn :=
  if done c then (Some ErrClosed, c)
  else (None, mkConn (size c) (writes c) true (readDeadline c) (writeDeadline c) (activeWriteDeadline c)
                (activeRequest c) (writeActive c) (worker c) (requests c)).

(** [Panic] is the nil dereference of [activeRequest]. *)
Definition SetWriteDeadline (d : deadline_t) (c : Conn) : res Conn :=
  let c := mkConn (size c) (writes c) (done c) (readDeadline c) d (activeWriteDeadline c)
             (activeRequest c) (writeActive c) (worker c) (requests c) in
  if writeActive c then
    match activeRequest c with
    | None => Panic
    | Some i => Ok (update i setApplied
                      (mkConn (size c) (writes c) (done c) (readDeadline c) d d
                         (activeRequest c) (writeActive c) (worker c) (requests c)))
    end
  else Ok c.

Definition SetReadDeadline (d : deadline_t) (c : Conn) : Conn :=
  mkConn (size c) (writes c) (done c) d (writeDeadline c) (activeWriteDeadline c)
    (activeRequest c) (writeActive c) (worker c) (requests c).

Definition SetDeadline (d : deadline_t) (c : Conn) : res Conn := SetWriteDeadline d (SetReadDeadline d c).

(** [ok] is whether the stream accepted the deadline. *)
Definition beginWrite (ok : bool) (i : nat) (request : writeRequest) (c : Conn) : Conn :=
  if ok then mkConn (size c) (writes c) (done c) (readDeadline c) (writeDeadline c) (deadline request)
               (Some i) true (worker c) (requests c)
  else mkConn (size c) (writes c) (done c) (readDeadline c) (writeDeadline c) None
         None false (worker c) (requests c).

Definition endWrite (c : Conn) : deadline_t * Conn :=
  let d := match activeWriteDeadline c with None => writeDeadline c | Some _ => activeWriteDeadline c end in
  (d, mkConn (size c) (writes c) (done c) (readDeadline c) (writeDeadline c) None
        None false (worker c) (requests c)).

Definition normalizeWriteResult (closed : bool) (request : writeRequest) (r : writeResult) : writeResult :=
  if closed && isTimeoutError (err r) && bool_decide (deadline request = None) && negb (deadlineApplied request)
  then mkResult (n r) (Some ErrClosed) else r.

(** The request of a [Write] of [p]; its deadline is read in a later step. *)
Definition newRequest (p : bytes) (pc : callerPC) : writeRequest :=
  mkRequest p None None false false false pc None.

(** [Write] up to and including the closed check. *)
Definition startWrite (p : bytes) (c : Conn) : Conn :=
  let pc := if done c then Returned (mkResult 0 (Some ErrClosed))
            else if len p =? 0 then Returned (mkResult 0 None) else Opened in
  mkConn (size c) (writes c) (done c) (readDeadline c) (writeDeadline c) (activeWriteDeadline c)
    (activeRequest c) (writeActive c) (worker c) (requests c ++ [newRequest p pc]).

(** ** Steps *)

Definition causeError (why : cause) : writeError :=
  match why with Done => ErrClosed | Timeout => ErrTimeout end.

(** The caller of request [i], from [currentWriteDeadline] to its return. *)
Inductive callerStep (i : nat) (c : Conn) : Conn -> Prop :=
| read_deadline r : requests c !! i = Some r -> caller r = Opened ->
    callerStep i c (update i (fun r => setCaller Enqueueing (setDeadline (writeDeadline c) r)) c)
| enqueue_send r : requests c !! i = Some r -> caller r = Enqueueing -> len (writes c) < size c ->
    callerStep i c (update i (setCaller Awaiting) (setWrites (writes c ++ [i]) c))
| enqueue_done r : requests c !! i = Some r -> caller r = Enqueueing -> done c = true ->
    callerStep i c (update i (setCaller (Returned (mkResult 0 (Some ErrClosed)))) c)
| enqueue_timeout r : requests c !! i = Some r -> caller r = Enqueueing -> deadline r <> None ->
    callerStep i c (update i (setCaller (Returned (mkResult 0 (Some ErrTimeout)))) c)
| await_result r x : requests c !! i = Some r -> caller r = Awaiting -> result r = Some x ->
    callerStep i c (update i (fun r => setCaller (Received x) (setResult None r)) c)
| await_done r : requests c !! i = Some r -> caller r = Awaiting -> done c = true ->
    callerStep i c (update i (setCaller (Chosen Done)) c)
| await_timeout r : requests c !! i = Some r -> caller r = Awaiting -> deadline r <> None ->
    callerStep i c (update i (setCaller (Chosen Timeout)) c)
| store_canceled r why : requests c !! i = Some r -> caller r = Chosen why ->
    callerStep i c (update i (fun r => setCaller (Canceled why) (setCanceled r)) c)
| load_active r why : requests c !! i = Some r -> caller r = Canceled why ->
    callerStep i c
      (update i (setCaller (if active r then Blocked else Returned (mkResult 0 (Some (causeError why))))) c)
| blocked_result r x : requests c !! i = Some r -> caller r = Blocked -> result r = Some x ->
    callerStep i c (update i (fun r => setCaller (Received x) (setResult None r)) c)
| normalize r x : requests c !! i = Some r -> caller r = Received x ->
    callerStep i c (update i (setCaller (Returned (normalizeWriteResult (done c) r x))) c).

(** The worker. *)
Inductive workerStep (c : Conn) : Conn -> Prop :=
| select_done : worker c = WSelect -> done c = true -> workerStep c (setWorker WDraining c)
| select_take i q : worker c = WSelect -> writes c = i :: q ->
    workerStep c (setWorker (WTook i) (setWrites q c))
| store_active i : worker c = WTook i ->
    workerStep c (setWorker (WActive i) (update i setActive c))
| load_canceled i r : worker c = WActive i -> requests c !! i = Some r ->
    workerStep c (setWorker (if canceled r then WReply i (mkResult 0 (Some ErrClosed)) else WChecked i) c)
| check_closed i : worker c = WChecked i ->
    workerStep c (setWorker (if done c then WReply i (mkResult 0 (Some ErrClosed)) else WBegin i) c)
| begin_write i r (ok : bool) t : worker c = WBegin i -> requests c !! i = Some r ->
    workerStep c (setWorker (if ok then WWriting i else WReply i (mkResult 0 (Some (ErrStream t))))
                    (beginWrite ok i r c))
| stream_write i r k (e : option bool) : worker c = WWriting i -> requests c !! i = Some r -> 0 <= k <= len (data r) ->
    workerStep c (setWorker (WWrote i (mkResult k (ErrStream <$> e))) (update i (setWrote k) c))
| end_write i x : worker c = WWrote i x ->
    workerStep c (setWorker (WEnded i x (endWrite c).1) (endWrite c).2)
| classify_deadline i x d (expired : bool) : worker c = WEnded i x d ->
    workerStep c (setWorker
      (if bool_decide (err x <> None) && bool_decide (d <> None) && (expired || done c)
       then WReply i (mkResult (n x) (Some ErrTimeout)) else WSecond i x) c)
| classify_closed i x : worker c = WSecond i x ->
    workerStep c (setWorker
      (WReply i (if bool_decide (err x <> None) && done c && negb (isTimeoutError (err x))
                 then mkResult (n x) (Some ErrClosed) else x)) c)
| reply i r x : worker c = WReply i x -> requests c !! i = Some r -> result r = None ->
    workerStep c (setWorker WSelect (update i (setResult (Some x)) c))
| drain_take i q : worker c = WDraining -> writes c = i :: q ->
    workerStep c (setWorker (WDrainReply i) (setWrites q c))
| drain_exit : worker c = WDraining -> writes c = [] -> workerStep c (setWorker WExited c)
| drain_reply i r : worker c = WDrainReply i -> requests c !! i = Some r -> result r = None ->
    workerStep c (setWorker WDraining (update i (setResult (Some (mkResult 0 (Some ErrClosed)))) c)).

(** What the users of the connection do. *)
Inductive userStep (c : Conn) : Conn -> Prop :=
| user_write p : userStep c (startWrite p c)
| user_close : userStep c (Close c).2
| user_write_deadline d c' : SetWriteDeadline d c = Ok c' -> userStep c c'
| user_read_deadline d : userStep c (SetReadDeadline d c)
| user_deadline d c' : SetDeadline d c = Ok c' -> userStep c c'.

Definition internalStep (c c' : Conn) : Prop := workerStep c c' \/ exists i, callerStep i c c'.
Definition connStep (c c' : Conn) : Prop := internalStep c c' \/ userStep c c'.

Definition reachable (c : Conn) : Prop := exists queueSize, rtc connStep (NewConn queueSize) c.

(** ** The invariant *)

(** What the worker is doing with request [i]. *)
Inductive role := Free | Took | Active | Checked | Writing | Wrote (k : Z) | Reply (k : Z) | Draining.

Definition role_of (w : workerPC) (i : nat) : role :=
  match w with
  | WTook j => if decide (i = j) then Took else Free
  | WActive j => if decide (i = j) then Active else Free
  | WChecked j | WBegin j => if decide (i = j) then Checked else Free
  | WWriting j => if decide (i = j) then Writing else Free
  | WWrote j x | WEnded j x _ | WSecond j x => if decide (i = j) then Wrote (n x) else Free
  | WReply j x => if decide (i = j) then Reply (n x) else Free
  | WDrainReply j => if decide (i = j) then Draining else Free
  | _ => Free
  end.

Definition reported (r : writeRequest) : Z := default 0 (wrote r).

(** A caller whose request the worker has not marked active. *)
Definition waiting (r : writeRequest) : Prop :=
  match caller r with
  | Awaiting | Chosen _ => canceled r = false
  | Canceled _ => canceled r = true
  | Returned x => canceled r = true /\ n x = 0
  | _ => False
  end.

(** A caller whose request is marked active and not yet checked. *)
Definition marked (r : writeRequest) : Prop :=
  match caller r with
  | Awaiting | Chosen _ => canceled r = false
  | Canceled _ | Blocked => canceled r = true
  | Returned x => canceled r = true /\ n x = 0
  | _ => False
  end.

(** A caller that is bound to wait for the result. *)
Definition bound (r : writeRequest) : Prop :=
  match caller r with Awaiting | Chosen _ | Canceled _ | Blocked => True | _ => False end.

(** A caller whose request is neither queued nor with the worker. *)
Definition outside (r : writeRequest) : Prop :=
  (active r = false -> wrote r = None) /\
  match caller r with
  | Opened | Enqueueing => result r = None /\ canceled r = false /\ active r = false
  | Awaiting | Chosen _ | Canceled _ | Blocked => exists x, result r = Some x /\ n x = reported r
  | Received x | Returned x => n x = reported r
  end.

Definition good (queued : bool) (ro : role) (r : writeRequest) : Prop :=
  0 <= reported r <= len (data r) /\
  if queued then ro = Free /\ result r = None /\ active r = false /\ wrote r = None /\ waiting r
  else
    match ro with
    | Free => outside r
    | Took | Draining => result r = None /\ active r = false /\ wrote r = None /\ waiting r
    | Active => result r = None /\ active r = true /\ wrote r = None /\ marked r
    | Checked | Writing => result r = None /\ active r = true /\ wrote r = None /\ bound r
    | Wrote k => result r = None /\ active r = true /\ wrote r = Some k /\ bound r
    | Reply k => result r = None /\ active r = true /\ reported r = k /\ (bound r \/ (wrote r = None /\ marked r))
    end.

(** The request the worker holds. *)
Definition held (w : workerPC) : option nat :=
  match w with
  | WTook i | WActive i | WChecked i | WBegin i | WWriting i | WWrote i _ | WEnded i _ _ | WSecond i _
  | WReply i _ | WDrainReply i => Some i
  | _ => None
  end.

Record conn_ok (c : Conn) : Prop := {
  ok_size : 0 < size c;
  ok_nodup : NoDup (writes c);
  ok_writes : Forall (fun i => (i < length (requests c))%nat) (writes c);
  ok_held : forall i, held (worker c) = Some i -> (i < length (requests c))%nat;
  ok_active : writeActive c = true -> exists i, activeRequest c = Some i /\ (worker c = WWriting i \/ exists x, worker c = WWrote i x);
  ok_exited : worker c = WDraining \/ (exists i, worker c = WDrainReply i) \/ worker c = WExited -> done c = true;
  ok_good : forall i r, requests c !! i = Some r -> good (bool_decide (i ∈ writes c)) (role_of (worker c) i) r }.

(** ** The steps keep the invariant *)

(** A step on one request [i]: it may move between the queue, the worker and the
    outside; every other request stays where it was. *)
Lemma good_update c c' i f :
  conn_ok c -> requests c' = alter f i (requests c) ->
  (forall j, j <> i -> bool_decide (j ∈ writes c') = bool_decide (j ∈ writes c) /\ role_of (worker c') j = role_of (worker c) j) ->
  (forall r, requests c !! i = Some r -> good (bool_decide (i ∈ writes c)) (role_of (worker c) i) r ->
     good (bool_decide (i ∈ writes c')) (role_of (worker c') i) (f r)) ->
  forall j r, requests c' !! j = Some r -> good (bool_decide (j ∈ writes c')) (role_of (worker c') j) r.
Proof.
  intros Hc Hr Hother Hi j r Hj. rewrite Hr in Hj. destruct (decide (j = i)) as [->|Hne].
  - rewrite list_lookup_alter_eq in Hj. destruct (requests c !! i) as [r0|] eqn:E; [|done]. cbn in Hj. simplify_eq.
    apply Hi; [done|]. by apply (ok_good c Hc).
  - rewrite list_lookup_alter_ne in Hj by done. destruct (Hother j Hne) as [-> ->]. by apply (ok_good c Hc).
Qed.

Lemma worker_role_other w i j : held w = Some i -> j <> i -> role_of w j = Free.
Proof. intros Hw Hne. destruct w; cbn in *; simplify_eq; by rewrite decide_False. Qed.

Lemma worker_role_none w j : held w = None -> role_of w j = Free.
Proof. by destruct w. Qed.

(** Case analysis on where a request is; the request is given by its fields. *)
Ltac good_cases :=
  unfold good, outside, waiting, marked, bound, reported in *; cbn in *;
  repeat match goal with
  | H : caller ?r = _ |- _ => rewrite H in *
  | H : result ?r = _ |- _ => rewrite H in *
  end;
  repeat case_match; cbn in *; try (intuition (eauto || congruence || lia)).

Ltac good_finish :=
  intros; repeat match goal with
  | H : _ /\ _ |- _ => destruct H
  | H : exists _, _ |- _ => destruct H
  | H : active ?r = false -> wrote ?r = None, E : active ?r = false |- _ => specialize (H E)
  | H : false = false -> _ |- _ => specialize (H eq_refl)
  | H : _ \/ _ |- _ => destruct H
  | H : wrote ?r = _ |- context [wrote ?r] => rewrite H in *
  | _ => progress simplify_eq
  end; cbn in *; intuition (eauto || congruence || lia).

Lemma caller_update_ok i f c :
  conn_ok c ->
  (forall r, requests c !! i = Some r -> good (bool_decide (i ∈ writes c)) (role_of (worker c) i) r ->
     good (bool_decide (i ∈ writes c)) (role_of (worker c) i) (f r)) ->
  conn_ok (update i f c).
Proof.
  intros Hc Hi. pose proof Hc as [Hs Hnd Hw Hh Ha He _].
  split; cbn; rewrite ?length_alter; [done..|]. by apply (good_update c (update i f c) i f Hc).
Qed.

Lemma caller_step_ok i c c' : conn_ok c -> callerStep i c c' -> conn_ok c'.
Proof.
  intros Hc Hstep.
  destruct Hstep as [r Hr Hp|r Hr Hp Hroom|r Hr Hp Hd|r Hr Hp Hd|r x Hr Hp Hx|r Hr Hp Hd|r Hr Hp Hd|r why Hr Hp|r why Hr Hp|r x Hr Hp Hx|r x Hr Hp].
  2: {
    assert (Hq : i ∉ writes c).
    { intros Hq. pose proof (ok_good c Hc i r Hr) as Hg. rewrite bool_decide_true in Hg by done. good_cases. }
    pose proof Hc as [Hs Hnd Hw Hh Ha He _].
    split; cbn; rewrite ?length_alter; try done.
    + apply NoDup_app. split; [done|]. split; [set_solver|apply NoDup_singleton].
    + apply Forall_app. split; [done|]. apply Forall_singleton. by eapply lookup_lt_Some.
    + apply (good_update c (update i (setCaller Awaiting) (setWrites (writes c ++ [i]) c)) i (setCaller Awaiting) Hc); cbn; [done| |].
      { intros j Hne. split; [|done]. apply bool_decide_ext. set_solver. }
      intros r' Hr' Hg. simplify_eq. rewrite bool_decide_false in Hg by done. rewrite bool_decide_true by set_solver.
      destruct (role_of (worker c) i); good_cases; good_finish. }
  all: apply caller_update_ok; [done|]; intros r' Hr' Hg; simplify_eq.
  all: generalize dependent (bool_decide (i ∈ writes c)); generalize dependent (role_of (worker c) i); intros ro q Hg; destruct q, ro; good_cases.
  all: unfold normalizeWriteResult; repeat case_match; good_finish.
Qed.

(** A step of the worker that concerns request [i] only. *)
Lemma worker_move i f c c' :
  conn_ok c ->
  (forall j, held (worker c) = Some j -> j = i) -> (forall j, held (worker c') = Some j -> j = i) ->
  size c' = size c -> requests c' = alter f i (requests c) -> (i < length (requests c))%nat ->
  NoDup (writes c') -> (forall j, j ∈ writes c' -> j ∈ writes c) -> (forall j, j <> i -> j ∈ writes c -> j ∈ writes c') ->
  (writeActive c' = true -> exists i, activeRequest c' = Some i /\ (worker c' = WWriting i \/ exists x, worker c' = WWrote i x)) ->
  (worker c' = WDraining \/ (exists i, worker c' = WDrainReply i) \/ worker c' = WExited -> done c' = true) ->
  (forall r, requests c !! i = Some r -> good (bool_decide (i ∈ writes c)) (role_of (worker c) i) r ->
     good (bool_decide (i ∈ writes c')) (role_of (worker c') i) (f r)) ->
  conn_ok c'.
Proof.
  intros Hc Hh Hh' Hsz Hreq Hi Hnd Hsub Hsup Ha He Hg. pose proof Hc as [Hs _ Hw _ _ _ _].
  split; [lia|done| | |done|done|].
  - rewrite Hreq, length_alter. apply Forall_forall. intros j Hj. rewrite Forall_forall in Hw. by apply Hw, Hsub.
  - intros j Hj. rewrite Hreq, length_alter. by rewrite (Hh' j Hj).
  - apply (good_update c c' i f Hc); [done| |done]. intros j Hne. split.
    + apply bool_decide_ext. split; [apply Hsub|by apply Hsup].
    + assert (Hfree : forall w, (forall k, held w = Some k -> k = i) -> role_of w j = Free).
      { intros w Hw'. destruct (held w) as [k|] eqn:E; [|by apply worker_role_none].
        rewrite (Hw' k) in E by done. by apply (worker_role_other w i). }
      by rewrite !Hfree.
Qed.

Lemma alter_same i (l : list writeRequest) : alter (fun r => r) i l = l.
Proof. apply list_eq. intros j. destruct (decide (j = i)) as [->|]; [rewrite list_lookup_alter_eq; by destruct (l !! i)|by rewrite list_lookup_alter_ne]. Qed.

(** The role of the request a worker holds. *)
Lemma held_not_queued c i r :
  conn_ok c -> held (worker c) = Some i -> requests c !! i = Some r -> i ∉ writes c.
Proof.
  intros Hc Hh Hr Hq. pose proof (ok_good c Hc i r Hr) as Hg. rewrite bool_decide_true in Hg by done.
  destruct Hg as (_ & Hfree & _). destruct (worker c); cbn in *; simplify_eq; by rewrite decide_True in Hfree.
Qed.

Lemma queue_head_fresh c i q : conn_ok c -> writes c = i :: q -> (i ∉ q) /\ NoDup q /\ (i < length (requests c))%nat.
Proof.
  intros [_ Hnd Hw _ _ _ _] Hq. rewrite Hq in *. apply NoDup_cons in Hnd as [? ?]. apply Forall_cons in Hw as [? _]. done.
Qed.

Lemma held_step_ok i f w' c :
  conn_ok c -> held (worker c) = Some i -> (forall j, held w' = Some j -> j = i) ->
  (writeActive c = true -> exists i, activeRequest c = Some i /\ (w' = WWriting i \/ exists x, w' = WWrote i x)) ->
  (w' = WDraining \/ (exists i, w' = WDrainReply i) \/ w' = WExited -> done c = true) ->
  (forall r, requests c !! i = Some r -> good false (role_of (worker c) i) r -> good false (role_of w' i) (f r)) ->
  conn_ok (setWorker w' (update i f c)).
Proof.
  intros Hc Hh Hh' Ha He Hg. pose proof (ok_held c Hc i Hh) as Hi.
  destruct (lookup_lt_is_Some_2 _ _ Hi) as [r Hr]. pose proof (held_not_queued c i r Hc Hh Hr) as Hq.
  apply (worker_move i f c); cbn; try done.
  - congruence.
  - by destruct Hc.
  - intros r' Hr' Hgood. rewrite bool_decide_false in * by done. by apply Hg.
Qed.

Lemma held_step_same i w' c :
  conn_ok c -> held (worker c) = Some i -> (forall j, held w' = Some j -> j = i) ->
  (writeActive c = true -> exists i, activeRequest c = Some i /\ (w' = WWriting i \/ exists x, w' = WWrote i x)) ->
  (w' = WDraining \/ (exists i, w' = WDrainReply i) \/ w' = WExited -> done c = true) ->
  (forall r, requests c !! i = Some r -> good false (role_of (worker c) i) r -> good false (role_of w' i) r) ->
  conn_ok (setWorker w' c).
Proof.
  intros Hc Hh Hh' Ha He Hg. pose proof (held_step_ok i (fun r => r) w' c Hc Hh Hh' Ha He Hg) as H.
  unfold update in H. rewrite alter_same in H. by destruct c.
Qed.

(** The worker takes the head of the queue. *)
Lemma take_step_ok i q w' ro c :
  conn_ok c -> held (worker c) = None -> writes c = i :: q -> (forall j, held w' = Some j -> j = i) ->
  (forall j, role_of w' j = if decide (j = i) then ro else Free) -> (ro = Took \/ ro = Draining) ->
  (w' = WDraining \/ (exists i, w' = WDrainReply i) \/ w' = WExited -> done c = true) ->
  conn_ok (setWorker w' (setWrites q c)).
Proof.
  intros Hc Hh Hq Hh' Hro Hcase He. destruct (queue_head_fresh c i q Hc Hq) as (Hf & Hnd & Hi).
  apply (worker_move i (fun r => r) c); cbn; try done.
  - by rewrite Hh.
  - by rewrite alter_same.
  - rewrite Hq. set_solver.
  - rewrite Hq. set_solver.
  - intros Ha. destruct (ok_active c Hc Ha) as (k & _ & [E|(x & E)]); by rewrite E in Hh.
  - intros r Hr. rewrite Hq, bool_decide_true, bool_decide_false by (done || left). rewrite Hro, decide_True by done.
    intros (Hb & _ & Hres & Hact & Hwr & Hwait). split; [done|]. by destruct Hcase as [-> | ->].
Qed.

Lemma idle_not_active c : conn_ok c -> (forall i x, worker c <> WWriting i /\ worker c <> WWrote i x) -> writeActive c = false.
Proof.
  intros Hc Hw. destruct (writeActive c) eqn:E; [|done]. destruct (ok_active c Hc E) as (i & _ & [H|(x & H)]);
    [by destruct (Hw i (mkResult 0 None))|by destruct (Hw i x)].
Qed.

(** Discharges the side conditions of a step of the worker at a known place. *)
Ltac worker_side Hc Hw :=
  rewrite ?Hw; cbn; try done; try congruence;
  try (intros Ha; exfalso; rewrite (idle_not_active _ Hc) in Ha; [done|by rewrite Hw]);
  try (intros [?|[[? ?]|?]]; done).

Lemma select_done_ok c : conn_ok c -> worker c = WSelect -> done c = true -> conn_ok (setWorker WDraining c).
Proof.
  intros Hc Hw Hd. pose proof Hc as [Hs Hnd Hq Hh Ha He Hg]. split; cbn; try done.
  - intros E. destruct (Ha E) as (i & _ & [E'|(x & E')]); congruence.
  - intros i r Hr. pose proof (Hg i r Hr) as Hgi. by rewrite Hw in Hgi.
Qed.

Lemma drain_exit_ok c : conn_ok c -> worker c = WDraining -> conn_ok (setWorker WExited c).
Proof.
  intros Hc Hw. pose proof Hc as [Hs Hnd Hq Hh Ha He Hg]. split; cbn; try done.
  - intros E. destruct (Ha E) as (i & _ & [E'|(x & E')]); congruence.
  - intros _. apply He. by left.
  - intros i r Hr. pose proof (Hg i r Hr) as Hgi. by rewrite Hw in Hgi.
Qed.

Lemma begin_write_ok c i r (ok : bool) t :
  conn_ok c -> worker c = WBegin i -> requests c !! i = Some r ->
  conn_ok (setWorker (if ok then WWriting i else WReply i (mkResult 0 (Some (ErrStream t)))) (beginWrite ok i r c)).
Proof.
  intros Hc Hw Hr. pose proof (held_not_queued c i r Hc) as Hq. rewrite Hw in Hq. specialize (Hq eq_refl Hr).
  apply (worker_move i (fun r => r) c); rewrite ?Hw; destruct ok; cbn; rewrite ?alter_same; try done; try congruence;
    try (by eapply lookup_lt_Some); try (by destruct Hc).
  - intros _. exists i. auto.
  - intros [?|[[? ?]|?]]; done.
  - intros [?|[[? ?]|?]]; done.
  - intros r' Hr'. rewrite bool_decide_false, !decide_True by done. good_cases.
  - intros r' Hr'. rewrite bool_decide_false, !decide_True by done. good_cases; good_finish.
Qed.

Lemma end_write_ok c i x :
  conn_ok c -> worker c = WWrote i x -> conn_ok (setWorker (WEnded i x (endWrite c).1) (endWrite c).2).
Proof.
  intros Hc Hw. pose proof (ok_held c Hc i ltac:(by rewrite Hw)) as Hi.
  apply (worker_move i (fun r => r) c); rewrite ?Hw; cbn; rewrite ?alter_same; try done; try congruence; try (by destruct Hc).
  intros [?|[[? ?]|?]]; done.
Qed.

Lemma worker_step_ok c c' : conn_ok c -> workerStep c c' -> conn_ok c'.
Proof.
  intros Hc Hstep.
  destruct Hstep as [Hw Hd|i q Hw Hq|i Hw|i r Hw Hr|i Hw|i r ok t Hw Hr|i r k e Hw Hr Hk|i x Hw|i x d expired Hw|i x Hw|i r x Hw Hr Hres|i q Hw Hq|Hw Hq|i r Hw Hr Hres].
  - by apply select_done_ok.
  - apply (take_step_ok i q _ Took); worker_side Hc Hw. by left.
  - apply (held_step_ok i); worker_side Hc Hw. intros r Hr. rewrite !decide_True by done. good_cases.
  - apply (held_step_same i); destruct (canceled r) eqn:E; worker_side Hc Hw;
      intros r' Hr'; rewrite !decide_True by done; simplify_eq; good_cases; good_finish.
  - apply (held_step_same i); destruct (done c) eqn:E; worker_side Hc Hw;
      intros r' Hr'; rewrite !decide_True by done; good_cases; good_finish.
  - by apply begin_write_ok.
  - apply (held_step_ok i); worker_side Hc Hw.
    + intros Ha. destruct (ok_active c Hc Ha) as (j & -> & [E|(x & E)]); [|congruence].
      exists j. split; [done|]. right. rewrite Hw in E. simplify_eq. eauto.
    + intros r' Hr'. rewrite !decide_True by done. good_cases; good_finish.
  - by apply end_write_ok.
  - go_if; apply (held_step_same i); worker_side Hc Hw; intros r' Hr'; rewrite !decide_True by done; good_cases; good_finish.
  - go_if; apply (held_step_same i); worker_side Hc Hw; intros r' Hr'; rewrite !decide_True by done; good_cases; good_finish.
  - apply (held_step_ok i); worker_side Hc Hw. intros r' Hr'. rewrite !decide_True by done. good_cases; good_finish.
  - apply (take_step_ok i q _ Draining); worker_side Hc Hw; [by right|]. intros _. apply (ok_exited c Hc). by left.
  - by apply drain_exit_ok.
  - apply (held_step_ok i); worker_side Hc Hw.
    + intros _. apply (ok_exited c Hc). right. left. eauto.
    + intros r' Hr'. rewrite !decide_True by done. good_cases; good_finish.
Qed.

Lemma role_free_fresh c : conn_ok c -> role_of (worker c) (length (requests c)) = Free.
Proof.
  intros Hc. destruct (held (worker c)) as [i|] eqn:E; [|by apply worker_role_none].
  apply (worker_role_other _ i); [done|]. pose proof (ok_held c Hc i E). lia.
Qed.

Lemma startWrite_ok p c : conn_ok c -> conn_ok (startWrite p c).
Proof.
  intros Hc. pose proof Hc as [Hs Hnd Hw Hh Ha He Hg]. split; cbn; try done; rewrite ?length_app; cbn.
  - eapply Forall_impl; [exact Hw|]. cbn. lia.
  - intros i Hi. specialize (Hh i Hi). lia.
  - intros i r Hr. apply lookup_app_Some in Hr as [Hr|[Hlen Hr]]; [by apply Hg|].
    apply list_lookup_singleton_Some in Hr as [Hi <-]. replace i with (length (requests c)) by lia.
    rewrite role_free_fresh, bool_decide_false by (done || (intros Hin; rewrite Forall_forall in Hw; specialize (Hw _ Hin); lia)).
    split; [unfold reported; cbn; len_lia|]. unfold outside, reported. cbn. by destruct (done c), (len p =? 0).
Qed.

Lemma SetWriteDeadline_ok d c : conn_ok c -> exists c', SetWriteDeadline d c = Ok c' /\ conn_ok c'.
Proof.
  intros Hc. unfold SetWriteDeadline. cbn. pose proof Hc as [Hs Hnd Hw Hh Ha He Hg].
  assert (Hsame : conn_ok (mkConn (size c) (writes c) (done c) (readDeadline c) d (activeWriteDeadline c)
             (activeRequest c) (writeActive c) (worker c) (requests c))) by done.
  destruct (writeActive c) eqn:E; [|by eexists].
  destruct (Ha eq_refl) as (i & Hi & Hwi). rewrite Hi. eexists. split; [done|].
  apply caller_update_ok; [split; cbn; try done; by eauto|]. by intros r Hr.
Qed.

Lemma SetReadDeadline_ok d c : conn_ok c -> conn_ok (SetReadDeadline d c).
Proof. by intros [? ? ? ? ? ? ?]. Qed.

Lemma user_step_ok c c' : conn_ok c -> userStep c c' -> conn_ok c'.
Proof.
  intros Hc Hstep. destruct Hstep as [p| |d c' Hd|d|d c' Hd].
  - by apply startWrite_ok.
  - unfold Close. destruct (done c) eqn:E; [done|]. by destruct Hc.
  - destruct (SetWriteDeadline_ok d c Hc) as (c1 & Hc1 & ?). congruence.
  - by apply SetReadDeadline_ok.
  - destruct (SetWriteDeadline_ok d _ (SetReadDeadline_ok d c Hc)) as (c1 & Hc1 & ?).
    unfold SetDeadline in Hd. congruence.
Qed.

Lemma NewConn_ok q : conn_ok (NewConn q).
Proof.
  split; cbn; try done; [|constructor|intros [?|[[? ?]|?]]; done].
  unfold DefaultWriteQueue. destruct q as [|z q]; [lia|]. destruct (Z.ltb_spec 0 z); lia.
Qed.

Lemma reachable_ok c : reachable c -> conn_ok c.
Proof.
  intros [q Hr]. pose proof (NewConn_ok q) as H0. induction Hr as [|c1 c2 c3 Hstep _ IH]; [done|]. apply IH.
  destruct Hstep as [[Hs|[i Hs]]|Hs]; eauto using worker_step_ok, caller_step_ok, user_step_ok.
Qed.

(** ** Termination *)

(** What is left to do, at most. *)
Definition callerWork (r : writeRequest) : nat :=
  match caller r with
  | Opened => 21 | Enqueueing => 20 | Awaiting => 5 | Chosen _ => 4 | Canceled _ => 3 | Blocked => 2 | Received _ => 1 | Returned _ => 0
  end.

Definition workerWork (w : workerPC) : nat :=
  match w with
  | WTook _ => 12 | WActive _ => 11 | WChecked _ => 10 | WBegin _ => 9 | WWriting _ => 8 | WWrote _ _ => 7
  | WEnded _ _ _ => 6 | WSecond _ _ => 5 | WReply _ _ => 4 | WDrainReply _ => 3 | WSelect => 2 | WDraining => 1 | WExited => 0
  end.

Definition work (c : Conn) : nat :=
  sum_list (callerWork <$> requests c) + 12 * length (writes c) + workerWork (worker c).

Lemma sum_alter (f : writeRequest -> writeRequest) i l r :
  l !! i = Some r ->
  (sum_list (callerWork <$> alter f i l) + callerWork r = sum_list (callerWork <$> l) + callerWork (f r))%nat.
Proof.
  revert i. induction l as [|x l IH]; intros [|i] Hi; [done|done| |].
  - injection Hi as ->. change (alter f 0%nat (r :: l)) with (f r :: l). rewrite !fmap_cons. cbn [sum_list sum_list_with id]. lia.
  - specialize (IH i Hi). change (alter f (S i) (x :: l)) with (x :: alter f i l). rewrite !fmap_cons. cbn [sum_list sum_list_with id]. lia.
Qed.

Lemma callerStep_work i c c' : callerStep i c c' -> (work c' < work c)%nat.
Proof.
  intros Hstep; destruct Hstep;
    match goal with
    | H : requests c !! i = Some ?r |- context [update i ?f _] =>
        pose proof (sum_alter f i (requests c) r H); unfold work, callerWork in *; cbn in *
    end; rewrite ?length_app in *; cbn in *;
    repeat match goal with H : caller _ = _ |- _ => rewrite H in * end; cbn in *; repeat case_match; cbn in *; try lia.
Qed.

Lemma sum_alter_same (f : writeRequest -> writeRequest) i l :
  (forall r, caller (f r) = caller r) -> sum_list (callerWork <$> alter f i l) = sum_list (callerWork <$> l).
Proof.
  intros Hf. f_equal. apply list_eq. intros j. rewrite !list_lookup_fmap. destruct (decide (j = i)) as [->|].
  - rewrite list_lookup_alter_eq. destruct (l !! i); [|done]. cbn. unfold callerWork. by rewrite Hf.
  - by rewrite list_lookup_alter_ne.
Qed.

Lemma workerStep_work c c' : workerStep c c' -> (work c' < work c)%nat.
Proof.
  intros Hstep; destruct Hstep; unfold work; cbn; rewrite ?sum_alter_same by done;
    repeat match goal with H : worker c = _ |- _ => rewrite H in * | H : writes c = _ |- _ => rewrite H in * end; cbn;
    repeat case_match; cbn; try lia.
Qed.

Lemma internalStep_work c c' : internalStep c c' -> (work c' < work c)%nat.
Proof. intros [H|[i H]]; [by apply workerStep_work|by apply (callerStep_work i)]. Qed.

(** ** Progress *)

(** The worker stops only in its select with nothing to do, or for good. *)
Lemma worker_progress c :
  conn_ok c ->
  (exists c', workerStep c c') \/ (worker c = WSelect /\ writes c = [] /\ done c = false) \/
  (worker c = WExited /\ done c = true).
Proof.
  intros Hc.
  assert (Hreq : forall i, held (worker c) = Some i -> exists r, requests c !! i = Some r /\ result r = None).
  { intros i Hh. destruct (lookup_lt_is_Some_2 _ _ (ok_held c Hc i Hh)) as [r Hr]. exists r. split; [done|].
    pose proof (ok_good c Hc i r Hr) as [_ Hg]. rewrite bool_decide_false in Hg by (by eapply held_not_queued).
    destruct (worker c); cbn in *; simplify_eq; rewrite decide_True in Hg by done; by destruct Hg. }
  destruct (worker c) as [|i|i|i|i|i|i x|i x d|i x|i x| |i|] eqn:Hw; cbn in Hreq;
    try (destruct (Hreq _ eq_refl) as (r & Hr & Hres)).
  - destruct (done c) eqn:Hd; [left; eexists; by apply select_done|].
    destruct (writes c) as [|i q] eqn:Hq; [by right; left|]. left. eexists. by eapply select_take.
  - left. eexists. by apply store_active.
  - left. eexists. by eapply load_canceled.
  - left. eexists. by apply check_closed.
  - left. eexists. by apply (begin_write c i r true false).
  - left. eexists. apply (stream_write c i r 0 None); [done|done|len_lia].
  - left. eexists. by apply end_write.
  - left. eexists. by apply (classify_deadline c i x d false).
  - left. eexists. by apply classify_closed.
  - left. eexists. by eapply reply.
  - destruct (writes c) as [|i q] eqn:Hq; left; eexists; [by apply drain_exit|by eapply drain_take].
  - left. eexists. by eapply drain_reply.
  - right. right. split; [done|]. apply (ok_exited c Hc). auto.
Qed.

(** With the worker at rest, a caller that has not returned can go on. *)
Lemma caller_progress c i r :
  conn_ok c -> requests c !! i = Some r ->
  (worker c = WSelect /\ writes c = [] /\ done c = false) \/ (worker c = WExited /\ done c = true) ->
  (exists c', callerStep i c c') \/ exists x, caller r = Returned x.
Proof.
  intros Hc Hr Hrest. pose proof (ok_size c Hc) as Hsz. pose proof (ok_good c Hc i r Hr) as [_ Hg].
  assert (Hfree : role_of (worker c) i = Free) by (by destruct Hrest as [[-> _]|[-> _]]). rewrite Hfree in Hg.
  destruct (caller r) as [| | |why|why| |x|x] eqn:Hp; [| | | | | | |by right; eauto]; left.
  - eexists. by eapply read_deadline.
  - destruct Hrest as [(_ & Hq & _)|[_ Hd]]; [|eexists; by eapply enqueue_done].
    eexists. eapply enqueue_send; [done|done|]. rewrite Hq. done.
  - destruct Hrest as [(_ & Hq & _)|[_ Hd]]; [|eexists; by eapply await_done].
    rewrite bool_decide_false in Hg by (rewrite Hq; set_solver). unfold outside in Hg. rewrite Hp in Hg.
    destruct Hg as (_ & x & Hx & _). eexists. by eapply await_result.
  - eexists. by eapply store_canceled.
  - eexists. by eapply load_active.
  - assert (Ho : outside r).
    { case_bool_decide; [|done]. unfold waiting in Hg. rewrite Hp in Hg. tauto. }
    unfold outside in Ho. rewrite Hp in Ho. destruct Ho as (_ & x & Hx & _). eexists. by eapply blocked_result.
  - eexists. by eapply normalize.
Qed.

(** C13: The stream never uses a caller's buffer after [Write] has returned, and
    [Write] reports what was written.  In every state reachable by any
    interleaving of callers, worker, [Close] and deadline changes: while the
    stream's [Write] runs on a request, the caller of that request has neither
    returned nor taken its result, and the stream has not been given that
    request before; a [Write] that has returned reports the number of bytes the
    stream reported for its request, zero if the stream never saw it; and a
    change of deadline finds the active request. *)
Theorem write_does_not_retain c :
  reachable c ->
  (forall i r, worker c = WWriting i -> requests c !! i = Some r -> bound r /\ wrote r = None) /\
  (forall i r x, requests c !! i = Some r -> caller r = Returned x -> n x = reported r /\ 0 <= n x <= len (data r)) /\
  (forall d, safe (SetWriteDeadline d c) /\ safe (SetDeadline d c)).
Proof.
  intros Hreach. pose proof (reachable_ok c Hreach) as Hc. split; [|split].
  - intros i r Hw Hr. pose proof (ok_good c Hc i r Hr) as [_ Hg].
    rewrite Hw, bool_decide_false in Hg by (eapply held_not_queued; rewrite ?Hw; done). cbn in Hg.
    rewrite decide_True in Hg by done. tauto.
  - intros i r x Hr Hp. pose proof (ok_good c Hc i r Hr) as Hg. destruct (bool_decide _), (role_of (worker c) i); good_cases; good_finish.
  - intros d. unfold safe, SetDeadline. split.
    + destruct (SetWriteDeadline_ok d c Hc) as (c' & -> & _). done.
    + destruct (SetWriteDeadline_ok d _ (SetReadDeadline_ok d c Hc)) as (c' & -> & _). done.
Qed.

(** C14: Every [Write] returns.  From every reachable state, as long as the users
    make no further calls and the stream answers, callers and worker take only
    finitely many steps, in any interleaving, and when no step is left every
    caller has returned; if the connection is closed, the worker has then
    exited. *)
Theorem writes_return c :
  reachable c ->
  Acc (flip internalStep) c /\
  (forall c', rtc internalStep c c' -> (forall c'', ~ internalStep c' c'') ->
     (forall i r, requests c' !! i = Some r -> exists x, caller r = Returned x) /\
     (done c' = true -> worker c' = WExited)).
Proof.
  intros Hreach. split.
  { apply (Wf_nat.well_founded_lt_compat _ work). intros c1 c2 H. by apply internalStep_work. }
  intros c' Hrun Hstuck. assert (Hc' : conn_ok c').
  { destruct Hreach as [q Hq]. apply reachable_ok. exists q. etrans; [exact Hq|].
    eapply rtc_subrel; [|exact Hrun]. by left. }
  destruct (worker_progress c' Hc') as [[c1 H1]|Hrest]; [exfalso; apply (Hstuck c1); by left|].
  split.
  - intros i r Hr. destruct (caller_progress c' i r Hc' Hr Hrest) as [[c1 H1]|H]; [|done].
    exfalso. apply (Hstuck c1). right. eauto.
  - intros Hd. destruct Hrest as [(_ & _ & ?)|[? _]]; congruence.
Qed.

(** A run: a [Write] of two bytes reaches the stream while the connection is
    closed under it and its caller has seen the closing. *)
Definition sampleConn : Conn :=
  mkConn 16 [] true None None None (Some 0%nat) true (WWriting 0)
    [mkRequest [1; 2] None None true true false (Canceled Done) None].

Lemma sampleConn_reachable : reachable sampleConn.
Proof.
  exists []. eapply rtc_l; [right; apply (user_write _ [1; 2])|]. cbn.
  eapply rtc_l; [left; right; exists 0%nat; eapply read_deadline; reflexivity|]. cbn.
  eapply rtc_l; [left; right; exists 0%nat; eapply enqueue_send; [reflexivity|reflexivity|reflexivity]|]. cbn.
  eapply rtc_l; [left; left; eapply select_take; reflexivity|]. cbn.
  eapply rtc_l; [left; left; eapply store_active; reflexivity|]. cbn.
  eapply rtc_l; [left; left; eapply load_canceled; reflexivity|]. cbn.
  eapply rtc_l; [left; left; eapply check_closed; reflexivity|]. cbn.
  eapply rtc_l; [left; left; eapply (begin_write _ _ _ true false); reflexivity|]. cbn.
  eapply rtc_l; [right; apply user_close|]. cbn.
  eapply rtc_l; [left; right; exists 0%nat; eapply await_done; reflexivity|]. cbn.
  eapply rtc_l; [left; right; exists 0%nat; eapply store_canceled; reflexivity|]. cbn.
  apply rtc_refl.
Qed.

Lemma write_does_not_retain_witness :
  reachable sampleConn /\ worker sampleConn = WWriting 0 /\
  forall r, requests sampleConn !! 0%nat = Some r -> bound r /\ wrote r = None.
Proof.
  split; [exact sampleConn_reachable|]. split; [reflexivity|]. intros r Hr.
  destruct (write_does_not_retain sampleConn sampleConn_reachable) as (H & _). apply (H 0%nat r eq_refl Hr).
Defined.

Lemma writes_return_witness : done sampleConn = true /\ Acc (flip internalStep) sampleConn.
Proof. split; [reflexivity|]. apply (writes_return sampleConn sampleConn_reachable). Defined.
