(* ===== verification/Identity.v ===== *)
(** Certificates, identities and mappings,
    [src/foundation/internal/identity/types.go]: the structures every router
    info, destination and lease set is built from. *)

From S2P Require Import Prelude Sha256.

Definition HashLength : Z := 32.
Definition IdentityBaseLength : Z := 384.
Definition CertificateHeader : Z := 3.

(** ** Certificates *)

Definition CertificateNull : Z := 0.
Definition CertificateHashCash : Z := 1.
Definition CertificateHidden : Z := 2.
Definition CertificateSigned : Z := 3.
Definition CertificateMultiple : Z := 4.
Definition CertificateKey : Z := 5.

Record Certificate := mkCertificate { CType : Z; CPayload : bytes }.

Definition CertificateLen (c : Certificate) : Z := CertificateHeader + len (CPayload c).

Definition validCertificate (kind payloadLen : Z) : bool :=
  if (payloadLen <? 0) || (payloadLen >? 65535) then false
  else if (kind =? CertificateNull) || (kind =? CertificateHidden) then payloadLen =? 0
  else if (kind =? CertificateHashCash) || (kind =? CertificateMultiple) then true
  else if kind =? CertificateSigned then (payloadLen =? 40) || (payloadLen =? 72)
  else if kind =? CertificateKey then payloadLen >=? 4
  else false.

Definition MarshalCertificateTo (c : Certificate) (dst : bytes) : res (bytes * Z) :=
  fail_if negb (validCertificate (CType c) (len (CPayload c))) with ErrInvalidCertificate ;;
  fail_if len dst <? CertificateLen c with ErrDestinationSmall ;;
  let? dst := write dst 0 [CType c] in
  let? dst := write dst 1 (be_bytes 2 (u16 (len (CPayload c)))) in
  let? dst := copy_at dst 3 (CPayload c) in
  Ok (dst, CertificateLen c).

Definition ParseCertificate (src : bytes) : res (Certificate * Z) :=
  fail_if len src <? CertificateHeader with ErrShortBuffer ;;
  let? kind := index src 0 in
  let? b := slice src 1 3 in
  let? length := be_uint 2 b in
  fail_if length >? len src - CertificateHeader with ErrShortBuffer ;;
  fail_if negb (validCertificate kind length) with ErrInvalidCertificate ;;
  let? payload := slice src CertificateHeader (CertificateHeader + length) in
  Ok (mkCertificate kind payload, CertificateHeader + length).

(** ** Key types *)

Definition SigningDSASHA1 : Z := 0.
Definition CryptoElGamal : Z := 0.

Definition SigningPublicKeyLen (t : Z) : option Z :=
  match t with
  | 0 => Some 128 | 1 => Some 64 | 2 => Some 96 | 3 => Some 132 | 4 => Some 256 | 5 => Some 384 | 6 => Some 512
  | 7 | 8 | 11 => Some 32 | 9 => Some 64 | 10 => Some 128
  | _ => None
  end.

Definition SignatureLen (t : Z) : option Z :=
  match t with
  | 0 => Some 40 | 1 => Some 64 | 2 => Some 96 | 3 => Some 132 | 4 => Some 256 | 5 => Some 384 | 6 => Some 512
  | 7 | 8 | 11 => Some 64 | 9 => Some 64 | 10 => Some 128
  | _ => None
  end.

Definition CryptoPublicKeyLen (t : Z) : option Z :=
  match t with
  | 0 => Some 256 | 1 => Some 64 | 2 => Some 96 | 3 => Some 132
  | 4 | 6 | 7 => Some 32
  | _ => None
  end.

(** ** Identities *)

Record Identity := mkIdentity {
  raw : bytes; certificate : Certificate; signingType : Z; cryptoType : Z;
  cryptoFirst : bytes; cryptoRest : bytes; signingFirst : bytes; signingRest : bytes }.

Definition ParseIdentity (src : bytes) : res (Identity * Z) :=
  fail_if len src <? IdentityBaseLength + CertificateHeader with ErrShortBuffer ;;
  let? tail := slice_from src IdentityBaseLength in
  let? (cert, certLen) := ParseCertificate tail in
  let total := IdentityBaseLength + certLen in
  let? rawBytes := slice src 0 total in
  if negb (CType cert =? CertificateKey) then
    let? crypto := slice src 0 256 in
    let? signing := slice src 256 384 in
    Ok (mkIdentity rawBytes cert SigningDSASHA1 CryptoElGamal crypto [] signing [], total)
  else
    let? b := slice (CPayload cert) 0 2 in
    let? st := be_uint 2 b in
    let? b := slice (CPayload cert) 2 4 in
    let? ct := be_uint 2 b in
    match SigningPublicKeyLen st, CryptoPublicKeyLen ct with
    | Some signingLen, Some cryptoLen =>
        let signingExcess := Z.max (signingLen - 128) 0 in
        let cryptoExcess := Z.max (cryptoLen - 256) 0 in
        fail_if negb (len (CPayload cert) =? 4 + signingExcess + cryptoExcess) with ErrInvalidIdentity ;;
        let cryptoInline := Z.min cryptoLen 256 in
        let signingInline := Z.min signingLen 128 in
        let? crypto := slice src 0 cryptoInline in
        let? signing := slice src (IdentityBaseLength - signingInline) IdentityBaseLength in
        let off := 4 in
        let? signingMore := slice (CPayload cert) off (off + signingExcess) in
        let off := off + signingExcess in
        let? cryptoMore := slice (CPayload cert) off (off + cryptoExcess) in
        Ok (mkIdentity rawBytes cert st ct crypto cryptoMore signing signingMore, total)
    | _, _ => Err ErrUnknownKeyType
    end.

Definition IdentityHash (i : Identity) : bytes := Sha256.Sum256 (raw i).

Definition MarshalIdentityTo (i : Identity) (dst : bytes) : res (bytes * Z) :=
  fail_if len dst <? len (raw i) with ErrDestinationSmall ;;
  let? dst := copy_at dst 0 (raw i) in
  Ok (dst, len (raw i)).

(** ** Mappings *)

(** [bytes.Compare]. *)
Fixpoint bytesCompare (a b : bytes) : comparison :=
  match a, b with
  | [], [] => Eq
  | [], _ => Lt
  | _, [] => Gt
  | x :: a, y :: b => match x ?= y with Eq => bytesCompare a b | c => c end
  end.

(** [bytes.Compare(a, b) >= 0] *)
Definition notBelow (a b : bytes) : bool :=
  match bytesCompare a b with Lt => false | _ => true end.

(** [MappingIterator.Next] on the unread bytes: the pair, if there is one, and
    what is left. *)
Definition NextEntry (rest : bytes) : res (option (bytes * bytes) * bytes) :=
  if len rest =? 0 then Ok (None, rest)
  else
    let? keyLen := index rest 0 in
    fail_if keyLen >? len rest - 1 with ErrInvalidMapping ;;
    let? key := slice rest 1 (1 + keyLen) in
    let? rest := slice_from rest (1 + keyLen) in
    fail_if len rest <? 2 with ErrInvalidMapping ;;
    let? equals := index rest 0 in
    fail_if negb (equals =? 61) with ErrInvalidMapping ;;
    let? valueLen := index rest 1 in
    let? rest := slice_from rest 2 in
    fail_if valueLen >? len rest - 1 with ErrInvalidMapping ;;
    let? semicolon := index rest valueLen in
    fail_if negb (semicolon =? 59) with ErrInvalidMapping ;;
    let? value := slice rest 0 valueLen in
    let? rest := slice_from rest (valueLen + 1) in
    Ok (Some (key, value), rest).

(** The loop of [ParseMapping]. *)
Fixpoint scanEntries (fuel : nat) (rest : bytes) : res unit :=
  match fuel with
  | O => Panic
  | S fuel =>
      let? (entry, rest) := NextEntry rest in
      match entry with None => Ok tt | Some _ => scanEntries fuel rest end
  end.

(** A parsed mapping is its bytes, the length field included. *)
Definition ParseMapping (src : bytes) : res (bytes * Z) :=
  fail_if len src <? 2 with ErrShortBuffer ;;
  let? b := slice src 0 2 in
  let? size := be_uint 2 b in
  fail_if size >? len src - 2 with ErrShortBuffer ;;
  let? m := slice src 0 (2 + size) in
  let? rest := slice_from m 2 in
  let? _ := scanEntries (S (length rest)) rest in
  Ok (m, len m).

(** [Mapping.Iterator] *)
Definition Iterator (m : bytes) : res bytes :=
  if len m <? 2 then Ok [] else slice_from m 2.

(** The loop of [ValidateCanonical]; a nil [previous] is [None].  The keys of
    the iterator are slices of the mapping and never nil. *)
Fixpoint canonicalLoop (fuel : nat) (rest : bytes) (previous : option bytes) : res unit :=
  match fuel with
  | O => Panic
  | S fuel =>
      let? (entry, rest) := NextEntry rest in
      match entry with
      | None => Ok tt
      | Some (key, _) =>
          fail_if match previous with Some p => notBelow p key | None => false end with ErrUnsortedMapping ;;
          canonicalLoop fuel rest (Some key)
      end
  end.

Definition ValidateCanonical (m : bytes) : res unit :=
  let? rest := Iterator m in canonicalLoop (S (length rest)) rest None.

(** A key given by the caller may be a nil slice, [None]. *)
Record MappingEntry := mkEntry { Key : option bytes; Value : bytes }.

Definition keyBytes (e : MappingEntry) : bytes := default [] (Key e).

Fixpoint encodedLenLoop (entries : list MappingEntry) (previous : option bytes) (k : Z) : res Z :=
  match entries with
  | [] => Ok k
  | entry :: entries =>
      fail_if (len (keyBytes entry) >? 255) || (len (Value entry) >? 255) with ErrInvalidMapping ;;
      fail_if match previous with Some p => notBelow p (keyBytes entry) | None => false end with ErrUnsortedMapping ;;
      let entryLen := len (keyBytes entry) + len (Value entry) + 4 in
      fail_if entryLen >? 65535 - (k - 2) with ErrInvalidMapping ;;
      encodedLenLoop entries (Key entry) (k + entryLen)
  end.

Definition MappingEncodedLen (entries : list MappingEntry) : res Z := encodedLenLoop entries None 2.

Fixpoint marshalEntries (entries : list MappingEntry) (off : Z) (dst : bytes) : res (bytes * Z) :=
  match entries with
  | [] => Ok (dst, off)
  | entry :: entries =>
      let? dst := write dst off [u8 (len (keyBytes entry))] in
      let off := off + 1 in
      let? dst := copy_at dst off (keyBytes entry) in
      let off := off + Z.min (len (keyBytes entry)) (len dst - off) in
      let? dst := write dst off [61] in
      let off := off + 1 in
      let? dst := write dst off [u8 (len (Value entry))] in
      let off := off + 1 in
      let? dst := copy_at dst off (Value entry) in
      let off := off + Z.min (len (Value entry)) (len dst - off) in
      let? dst := write dst off [59] in
      let off := off + 1 in
      marshalEntries entries off dst
  end.

Definition MarshalMappingTo (dst : bytes) (entries : list MappingEntry) : res (bytes * Z) :=
  let? k := MappingEncodedLen entries in
  fail_if len dst <? k with ErrDestinationSmall ;;
  let? dst := write dst 0 (be_bytes 2 (u16 (k - 2))) in
  marshalEntries entries 2 dst.

(** ** Certificates *)

Definition certificate_wire (c : Certificate) : bytes := [CType c] ++ be_bytes 2 (len (CPayload c)) ++ CPayload c.

Definition certificate_ok (c : Certificate) : Prop :=
  is_byte (CType c) /\ bytes_ok (CPayload c) /\ validCertificate (CType c) (len (CPayload c)) = true.

Lemma validCertificate_bound kind k : validCertificate kind k = true -> 0 <= k < 2 ^ 16.
Proof. unfold validCertificate. destruct (Z.ltb_spec k 0), (Z.gtb_spec k 65535); cbn; try done. lia. Qed.

Lemma len_certificate_wire c : len (certificate_wire c) = CertificateLen c.
Proof. unfold certificate_wire, CertificateLen, CertificateHeader. len_lia. Qed.

Lemma MarshalCertificateTo_wire c dst :
  certificate_ok c -> CertificateLen c <= len dst ->
  MarshalCertificateTo c dst = Ok (over (certificate_wire c) dst, CertificateLen c).
Proof.
  intros (_ & _ & Hv) Hd. pose proof (validCertificate_bound _ _ Hv). unfold MarshalCertificateTo. rewrite Hv.
  unfold CertificateLen, CertificateHeader, u16 in *. cbn [negb]. zbool. rewrite Z.mod_small by lia.
  write_run dst. unfold certificate_wire. by rewrite <- !app_assoc.
Qed.

Lemma ParseCertificate_wire c rest :
  certificate_ok c -> ParseCertificate (certificate_wire c ++ rest) = Ok (c, CertificateLen c).
Proof.
  intros (_ & _ & Hv). pose proof (validCertificate_bound _ _ Hv).
  unfold ParseCertificate, certificate_wire, CertificateLen, CertificateHeader. rewrite <- !app_assoc.
  go_eval. rewrite Hv. go_eval. by destruct c.
Qed.

Lemma ParseCertificate_sound src c k :
  bytes_ok src -> ParseCertificate src = Ok (c, k) ->
  certificate_ok c /\ k = CertificateLen c /\ k <= len src /\ sub 0 k src = certificate_wire c.
Proof.
  intros Hok. unfold ParseCertificate, CertificateHeader. go_run; intros; simplify_eq. be_uppers.
  apply negb_false_iff in Heqb1. unfold certificate_ok, CertificateLen, CertificateHeader. cbn [CType CPayload].
  assert (Hl : len (sub 3 (3 + be_val (sub 1 3 src)) src) = be_val (sub 1 3 src)) by len_lia.
  rewrite Hl. split; [split; [done|split; [by apply bytes_ok_sub|done]]|]. split; [done|]. split; [lia|].
  unfold certificate_wire. cbn [CType CPayload]. rewrite Hl. index_join. sub_join. done.
Qed.

Lemma ParseCertificate_safe src : bytes_ok src -> safe (ParseCertificate src).
Proof. intros Hok. unfold ParseCertificate, CertificateHeader. go_safe. Qed.

(** ** Identities *)

Lemma signing_len_cases t k : SigningPublicKeyLen t = Some k -> 0 < k <= 512.
Proof. unfold SigningPublicKeyLen. repeat case_match; intros; simplify_eq; lia. Qed.

Lemma crypto_len_cases t k : CryptoPublicKeyLen t = Some k -> 0 < k <= 256.
Proof. unfold CryptoPublicKeyLen. repeat case_match; intros; simplify_eq; lia. Qed.

(** An identity: 384 bytes of key material and a certificate, the key types
    those of the certificate, and the key parts cut out of the two. *)
Record identity_ok (i : Identity) (material : bytes) : Prop := {
  id_material : len material = IdentityBaseLength /\ bytes_ok material;
  id_cert : certificate_ok (certificate i);
  id_raw : raw i = material ++ certificate_wire (certificate i);
  id_types : if CType (certificate i) =? CertificateKey
             then exists more, CPayload (certificate i) = be_bytes 2 (signingType i) ++ be_bytes 2 (cryptoType i) ++ more /\
                  0 <= signingType i < 2 ^ 16 /\ 0 <= cryptoType i < 2 ^ 16 /\ more = signingRest i ++ cryptoRest i
             else signingType i = SigningDSASHA1 /\ cryptoType i = CryptoElGamal /\ signingRest i = [] /\ cryptoRest i = [];
  id_crypto_at : sub 0 (len (cryptoFirst i)) material = cryptoFirst i;
  id_signing_at : sub (384 - len (signingFirst i)) 384 material = signingFirst i;
  id_disjoint : len (cryptoFirst i) + len (signingFirst i) <= 384;
  id_signing_len : exists k, SigningPublicKeyLen (signingType i) = Some k /\
    len (signingFirst i) = Z.min k 128 /\ len (signingRest i) = Z.max (k - 128) 0;
  id_crypto_len : exists k, CryptoPublicKeyLen (cryptoType i) = Some k /\
    len (cryptoFirst i) = Z.min k 256 /\ len (cryptoRest i) = Z.max (k - 256) 0 }.

(** The key parts of the first 384 bytes. *)
Lemma key_parts (src : bytes) ci si :
  384 <= len src -> 0 <= ci <= 256 -> 0 <= si <= 128 ->
  len (sub 0 ci src) = ci /\ len (sub (384 - si) 384 src) = si /\
  sub 0 ci (sub 0 384 src) = sub 0 ci src /\ sub (384 - si) 384 (sub 0 384 src) = sub (384 - si) 384 src.
Proof. intros. split; [len_lia|]. split; [len_lia|]. rewrite !sub_sub by lia. done. Qed.

Lemma ParseIdentity_sound src i k :
  bytes_ok src -> ParseIdentity src = Ok (i, k) ->
  exists material, identity_ok i material /\ k = len (raw i) /\ src = raw i ++ sub k (len src) src.
Proof.
  intros Hok. unfold ParseIdentity, IdentityBaseLength, CertificateHeader, CertificateKey.
  destruct (Z.ltb_spec (len src) (384 + 3)) as [?|Hl]; [done|].
  rewrite slice_from_ok by lia. cbn [bind].
  assert (Hokt : bytes_ok (sub 384 (len src) src)) by (by apply bytes_ok_sub).
  destruct (ParseCertificate (sub 384 (len src) src)) as [[cert certLen]| |] eqn:Hp; cbn [bind]; try done.
  destruct (ParseCertificate_sound _ _ _ Hokt Hp) as (Hc & Hk & Hle & Hw). rewrite len_sub in Hle by lia.
  rewrite sub_sub, Z.add_0_r in Hw by lia.
  assert (Hcl : 3 <= certLen) by (rewrite Hk; unfold CertificateLen, CertificateHeader; len_lia).
  rewrite slice_ok by lia. cbn [bind].
  assert (Hraw : sub 0 (384 + certLen) src = sub 0 384 src ++ certificate_wire cert)
    by (rewrite <- Hw; symmetry; apply sub_app_join; lia).
  assert (Hsrc : src = sub 0 (384 + certLen) src ++ sub (384 + certLen) (len src) src) by (symmetry; apply sub_split_at; lia).
  assert (Hm : len (sub 0 384 src) = 384 /\ bytes_ok (sub 0 384 src)) by (split; [len_lia|by apply bytes_ok_sub]).
  destruct (Z.eqb_spec (CType cert) 5) as [Ht|Ht]; cbn [negb].
  2:{ do 2 (rewrite slice_ok by lia; cbn [bind]). intros H. injection H as <- <-. exists (sub 0 384 src). cbn [raw].
      split; [|split; [len_lia|done]]. destruct (key_parts src 256 128) as (Hc1 & Hs1 & Hc2 & Hs2); [lia..|].
      change (384 - 128) with 256 in *. split; cbn [raw certificate signingType cryptoType cryptoFirst cryptoRest signingFirst signingRest];
        rewrite ?Hc1, ?Hs1; [done|done|done| |done|done|lia|exists 128; done|exists 256; done].
      unfold CertificateKey. by zbool. }
  destruct Hc as (Hct & Hcb & Hv). assert (Hp4 : 4 <= len (CPayload cert)) by (rewrite Ht in Hv; unfold validCertificate in Hv; cbn in Hv; destruct (_ || _); lia).
  do 2 (rewrite slice_ok by lia; cbn [bind]; rewrite be_uint_sub by lia; cbn [bind]).
  destruct (SigningPublicKeyLen _) as [sl|] eqn:Hsl; [|done]. destruct (CryptoPublicKeyLen _) as [cl|] eqn:Hcl'; [|done].
  pose proof (signing_len_cases _ _ Hsl). pose proof (crypto_len_cases _ _ Hcl').
  destruct (Z.eqb_spec (len (CPayload cert)) (4 + Z.max (sl - 128) 0 + Z.max (cl - 256) 0)) as [Hpl|]; cbn [negb]; [|done].
  do 4 (rewrite slice_ok by lia; cbn [bind]). intros H1. injection H1 as <- <-. exists (sub 0 384 src). cbn [raw].
  split; [|split; [len_lia|done]]. destruct (key_parts src (Z.min cl 256) (Z.min sl 128)) as (Hc1 & Hs1 & Hc2 & Hs2); [lia..|].
  split; cbn [raw certificate signingType cryptoType cryptoFirst cryptoRest signingFirst signingRest];
    rewrite ?Hc1, ?Hs1; [done|done|done| |done|done|lia|exists sl; split; [done|split; [done|len_lia]]|exists cl; split; [done|split; [done|len_lia]]].
  unfold CertificateKey. rewrite Ht. cbn [Z.eqb Pos.eqb]. eexists. split; [|split; [|split; [|done]]].
  - sub_join. symmetry. apply sub_all. lia.
  - pose proof (be_val_sub_lt (CPayload cert) 0 2 Hcb). pose proof (be_val_sub_nonneg (CPayload cert) 0 2 Hcb). lia.
  - pose proof (be_val_sub_lt (CPayload cert) 2 4 Hcb). pose proof (be_val_sub_nonneg (CPayload cert) 2 4 Hcb). lia.
Qed.

Lemma ParseIdentity_complete i material rest :
  identity_ok i material -> ParseIdentity (raw i ++ rest) = Ok (i, len (raw i)).
Proof.
  intros [[Hm Hmb] Hc Hraw Ht Hca Hsa Hd (sl & Hsl & Hsf & Hsr) (cl & Hcl & Hcf & Hcr)].
  pose proof (signing_len_cases _ _ Hsl). pose proof (crypto_len_cases _ _ Hcl).
  unfold ParseIdentity, IdentityBaseLength, CertificateHeader, CertificateKey in *.
  rewrite Hraw, <- app_assoc. pose proof (len_certificate_wire (certificate i)) as Hw. unfold CertificateLen, CertificateHeader in Hw.
  assert (Hcw : 3 <= len (certificate_wire (certificate i))) by (len_pos; lia).
  rewrite (proj2 (Z.ltb_ge _ _)) by len_lia.
  rewrite slice_from_ok by len_lia. cbn [bind]. rewrite sub_app_r by lia. rewrite Hm, Z.sub_diag.
  rewrite sub_all by len_lia. rewrite (ParseCertificate_wire _ rest Hc). cbn [bind]. unfold CertificateLen, CertificateHeader.
  rewrite slice_ok by len_lia. cbn [bind]. rewrite (app_assoc material), sub_app_exact by len_lia.
  assert (Htot : 384 + (3 + len (CPayload (certificate i))) = len (material ++ certificate_wire (certificate i))) by len_lia.
  destruct (Z.eqb_spec (CType (certificate i)) 5) as [Hk|Hk]; cbn [negb].
  - destruct Ht as (more & Hp & Hst & Hct & ->). 
    assert (Hpl : len (CPayload (certificate i)) = 4 + len (signingRest i) + len (cryptoRest i)) by (rewrite Hp; len_lia).
    set (P := CPayload (certificate i)) in *.
    assert (Hb1 : be_val (sub 0 2 P) = signingType i) by (rewrite Hp, sub_app_exact by len_lia; apply be_val_small; lia).
    assert (Hb2 : be_val (sub 2 4 P) = cryptoType i)
      by (rewrite Hp, sub_app_r by len_lia; len_simpl; rewrite sub_app_exact by len_lia; apply be_val_small; lia).
    assert (Hs1 : sub 4 (4 + len (signingRest i)) P = signingRest i)
      by (rewrite Hp, !sub_app_r by len_lia; len_simpl; apply sub_app_exact; len_lia).
    assert (Hs2 : sub (4 + len (signingRest i)) (4 + len (signingRest i) + len (cryptoRest i)) P = cryptoRest i)
      by (rewrite Hp, !sub_app_r by len_lia; len_simpl; replace (_ - len (signingRest i)) with 0 by lia; apply sub_all; len_lia).
    do 2 (rewrite slice_ok by len_lia; cbn [bind]; rewrite be_uint_sub by len_lia; cbn [bind]).
    rewrite Hb1, Hb2, Hsl, Hcl, Hpl, Hsr, Hcr, Z.eqb_refl. cbn [negb].
    do 2 (rewrite slice_ok by len_lia; cbn [bind]). do 2 (rewrite slice_ok by lia; cbn [bind]).
    rewrite <- Hsr, <- Hcr, <- Hcf, <- Hsf, Hs1, Hs2.
    rewrite <- app_assoc, !sub_app_l, Hca, Hsa by lia. rewrite <- Hpl, Htot, <- Hraw. by destruct i.
  - destruct Ht as (Hst & Hct & Hr1 & Hr2). do 2 (rewrite slice_ok by len_lia; cbn [bind]).
    rewrite Hst in Hsl. rewrite Hct in Hcl. cbn in Hsl, Hcl. simplify_eq.
    rewrite <- app_assoc, !sub_app_l by lia. 
    rewrite Hcf in Hca. rewrite Hsf in Hsa. change (Z.min 256 256) with 256 in Hca. change (384 - Z.min 128 128) with 256 in Hsa. rewrite Hca, Hsa, <- Hst, <- Hct.
    rewrite Htot, <- Hraw. by destruct i; cbn in *; subst.
Qed.

(** ** Mappings *)

Definition entry_wire (e : bytes * bytes) : bytes := [len e.1] ++ e.1 ++ [61] ++ [len e.2] ++ e.2 ++ [59].

Definition entry_ok (e : bytes * bytes) : Prop :=
  len e.1 <= 255 /\ len e.2 <= 255 /\ bytes_ok e.1 /\ bytes_ok e.2.

Definition entries_wire (es : list (bytes * bytes)) : bytes := concat (entry_wire <$> es).

Definition mapping_wire (es : list (bytes * bytes)) : bytes := be_bytes 2 (len (entries_wire es)) ++ entries_wire es.

Lemma entries_wire_cons e es : entries_wire (e :: es) = entry_wire e ++ entries_wire es.
Proof. done. Qed.

Lemma len_entry_wire e : len (entry_wire e) = len e.1 + len e.2 + 4.
Proof. unfold entry_wire. len_lia. Qed.

Lemma NextEntry_wire e rest : entry_ok e -> NextEntry (entry_wire e ++ rest) = Ok (Some e, rest).
Proof.
  intros (Hk & Hv & _). unfold NextEntry, entry_wire. rewrite <- !app_assoc. go_eval. by destruct e.
Qed.

Lemma NextEntry_sound rest e rest' :
  bytes_ok rest -> NextEntry rest = Ok (Some e, rest') -> rest = entry_wire e ++ rest' /\ entry_ok e.
Proof.
  intros Hok. unfold NextEntry. go_run; intros; simplify_eq; unfold entry_wire, entry_ok; cbn [fst snd].
  - apply negb_false_iff, Z.eqb_eq in Heqb2, Heqb4. subst x0 x2. split.
    + len_simpl. replace (1 + x - 1) with x by lia. replace (1 + x + 2 + x1 - (1 + x + 2 + 0)) with x1 by lia.
      rewrite Z.add_0_r in Hx0. rewrite Z.add_0_r. replace (1 + x + 2 + (1 + x + (len rest - (1 + x)) - (1 + x + 2))) with (len rest) by lia.
      rewrite <- !app_assoc. index_join. sub_join. by rewrite sub_all.
    + split; [len_lia|]. split; [len_lia|]. split; by apply bytes_ok_sub.
Qed.

Lemma NextEntry_none rest rest' : bytes_ok rest -> NextEntry rest = Ok (None, rest') -> rest = [].
Proof.
  intros Hok. unfold NextEntry. destruct (Z.eqb_spec (len rest) 0) as [H0|H0].
  - intros _. by apply len_zero_nil.
  - go_run; intros; simplify_eq.
Qed.

Lemma NextEntry_safe rest : bytes_ok rest -> safe (NextEntry rest).
Proof. intros Hok. unfold NextEntry. go_safe. Qed.

(** What the iterator yields until it stops. *)
Fixpoint readEntries (fuel : nat) (rest : bytes) : res (list (bytes * bytes)) :=
  match fuel with
  | O => Panic
  | S fuel =>
      let? (entry, rest) := NextEntry rest in
      match entry with None => Ok [] | Some e => let? es := readEntries fuel rest in Ok (e :: es) end
  end.

Lemma readEntries_wire es fuel :
  Forall entry_ok es -> (length es < fuel)%nat -> readEntries fuel (entries_wire es) = Ok es.
Proof.
  intros Hall. revert fuel. induction Hall as [|e es He _ IH]; intros [|fuel] Hf; cbn [length] in Hf; try lia; cbn [readEntries].
  { done. }
  rewrite entries_wire_cons, NextEntry_wire by done. cbn [bind]. rewrite IH by lia. done.
Qed.

Lemma NextEntry_shrinks rest e rest' : bytes_ok rest -> NextEntry rest = Ok (Some e, rest') -> bytes_ok rest' /\ (length rest' < length rest)%nat.
Proof.
  intros Hok H. destruct (NextEntry_sound _ _ _ Hok H) as [-> _]. apply bytes_ok_app in Hok as [_ ?]. split; [done|].
  rewrite length_app. pose proof (len_entry_wire e). unfold len in *. lia.
Qed.

(** Reading arbitrary bytes stops: with the entries they consist of, or with an
    error. *)
Lemma readEntries_cases fuel rest :
  bytes_ok rest -> (length rest < fuel)%nat ->
  (exists es, Forall entry_ok es /\ rest = entries_wire es /\ readEntries fuel rest = Ok es) \/
  (readEntries fuel rest = Err ErrInvalidMapping /\ forall es, Forall entry_ok es -> rest <> entries_wire es).
Proof.
  revert rest. induction fuel as [|fuel IH]; intros rest Hok Hf; [lia|]. cbn [readEntries].
  destruct (NextEntry rest) as [[[e|] rest']|err|] eqn:Hn; cbn [bind].
  - destruct (NextEntry_sound _ _ _ Hok Hn) as [Hr He]. destruct (NextEntry_shrinks _ _ _ Hok Hn) as [Hok' Hl].
    destruct (IH rest' Hok' ltac:(lia)) as [(es & Hes & -> & ->)|[-> Hno]]; cbn [bind].
    + left. exists (e :: es). by rewrite Forall_cons.
    + right. split; [done|]. intros [|e' es] Hes Heq; [rewrite Heq in Hn; vm_compute in Hn; discriminate Hn|].
      apply Forall_cons in Hes as [He' Hes]. rewrite Heq, entries_wire_cons, NextEntry_wire in Hn by done. simplify_eq.
      by apply (Hno es).
  - left. exists []. rewrite (NextEntry_none _ _ Hok Hn). done.
  - right. split.
    + assert (err = ErrInvalidMapping) as ->; [|done]. revert Hn. unfold NextEntry. go_run; intros; simplify_eq; done.
    + intros [|e' es] Hes Heq; [rewrite Heq in Hn; vm_compute in Hn; discriminate Hn|].
      apply Forall_cons in Hes as [He' Hes]. by rewrite Heq, entries_wire_cons, NextEntry_wire in Hn.
  - by destruct (NextEntry_safe rest Hok).
Qed.

Lemma scanEntries_read fuel rest :
  scanEntries fuel rest = (let? _ := readEntries fuel rest in Ok tt).
Proof.
  revert rest. induction fuel as [|fuel IH]; intros rest; cbn; [done|].
  destruct (NextEntry rest) as [[[e|] rest']| |]; cbn; [|done..]. rewrite IH. by destruct (readEntries fuel rest').
Qed.

(** ** The order of keys *)

Definition below (a b : bytes) : Prop := bytesCompare a b = Lt.

Lemma bytesCompare_refl a : bytesCompare a a = Eq.
Proof. induction a as [|x a IH]; cbn; [done|]. by rewrite Z.compare_refl. Qed.

Lemma below_trans a b c : below a b -> below b c -> below a c.
Proof.
  unfold below. revert b c. induction a as [|x a IH]; intros [|y b] [|z c]; cbn; try done.
  destruct (Z.compare_spec x y), (Z.compare_spec y z); subst; try done.
  - rewrite Z.compare_refl. apply IH.
  - intros. by rewrite (proj2 (Z.compare_lt_iff _ _)).
  - intros. by rewrite (proj2 (Z.compare_lt_iff _ _)).
  - intros. by rewrite (proj2 (Z.compare_lt_iff x z)) by lia.
Qed.

(** Strictly increasing, from a bound if there is one. *)
Fixpoint increasing (previous : option bytes) (keys : list bytes) : Prop :=
  match keys with
  | [] => True
  | k :: keys => match previous with Some p => below p k | None => True end /\ increasing (Some k) keys
  end.

Lemma increasing_above p keys k : increasing (Some p) keys -> k ∈ keys -> below p k.
Proof.
  revert p. induction keys as [|x keys IH]; intros p Hi Hk; [by apply not_elem_of_nil in Hk|].
  destruct Hi as [Hp Hi]. apply elem_of_cons in Hk as [->|Hk]; [done|]. eapply below_trans; eauto.
Qed.

Lemma increasing_nodup previous keys : increasing previous keys -> NoDup keys.
Proof.
  revert previous. induction keys as [|x keys IH]; intros previous Hi; [constructor|]. destruct Hi as [_ Hi].
  apply NoDup_cons. split; [|by eapply IH]. intros Hx. pose proof (increasing_above _ _ _ Hi Hx) as H.
  unfold below in H. by rewrite bytesCompare_refl in H.
Qed.

Lemma notBelow_false a b : notBelow a b = false <-> below a b.
Proof. unfold notBelow, below. by destruct (bytesCompare a b). Qed.

Lemma canonicalLoop_wire es fuel previous :
  Forall entry_ok es -> (length es < fuel)%nat ->
  (canonicalLoop fuel (entries_wire es) previous = Ok tt /\ increasing previous es.*1) \/
  (canonicalLoop fuel (entries_wire es) previous = Err ErrUnsortedMapping /\ ~ increasing previous es.*1).
Proof.
  intros Hall. revert fuel previous. induction Hall as [|e es He _ IH]; intros [|fuel] previous Hf; cbn [length] in Hf; try lia; cbn [canonicalLoop].
  { by left. }
  rewrite entries_wire_cons, NextEntry_wire by done. cbn [bind]. destruct e as [k v]. rewrite fmap_cons. cbn [increasing fst].
  destruct previous as [p|].
  - destruct (notBelow p k) eqn:E.
    + right. split; [done|]. intros [H _]. apply notBelow_false in H. congruence.
    + apply notBelow_false in E. destruct (IH fuel (Some k)) as [[-> ?]|[-> ?]]; [lia|left; done|right; tauto].
  - destruct (IH fuel (Some k)) as [[-> ?]|[-> ?]]; [lia|left; done|right; tauto].
Qed.

(** ** Encoding *)

Definition entry_of (e : MappingEntry) : bytes * bytes := (keyBytes e, Value e).

Definition entry_fits (e : MappingEntry) : Prop := len (keyBytes e) <= 255 /\ len (Value e) <= 255.

(** The order the encoder checks: a nil key is no bound for the next one. *)
Fixpoint checked_order (previous : option bytes) (entries : list MappingEntry) : Prop :=
  match entries with
  | [] => True
  | e :: entries => match previous with Some p => below p (keyBytes e) | None => True end /\ checked_order (Key e) entries
  end.

Lemma encodedLenLoop_ok entries previous k :
  Forall entry_fits entries -> checked_order previous entries -> 2 <= k ->
  k - 2 + len (entries_wire (entry_of <$> entries)) < 2 ^ 16 ->
  encodedLenLoop entries previous k = Ok (k + len (entries_wire (entry_of <$> entries))).
Proof.
  intros Hall. revert previous k. induction Hall as [|e entries [Hk Hv] _ IH]; intros previous k Ho Hk2 Hsz; cbn [encodedLenLoop].
  { change (len (entries_wire (entry_of <$> []))) with 0. by rewrite Z.add_0_r. }
  destruct Ho as [Hp Ho]. rewrite fmap_cons, entries_wire_cons, len_app, len_entry_wire in *. cbn [entry_of fst snd] in *.
  len_pos.
  replace (len (keyBytes e) >? 255) with false by lia. replace (len (Value e) >? 255) with false by lia. cbn [orb].
  replace (match previous with Some p => notBelow p (keyBytes e) | None => false end) with false
    by (destruct previous; [symmetry; by apply notBelow_false|done]).
  replace (_ >? 65535 - (k - 2)) with false by lia. rewrite IH by (done || lia). f_equal. lia.
Qed.

Lemma marshalEntries_ok entries acc dst off :
  Forall entry_fits entries -> off = len acc ->
  len acc + len (entries_wire (entry_of <$> entries)) <= len dst ->
  marshalEntries entries off (over acc dst) =
    Ok (over (acc ++ entries_wire (entry_of <$> entries)) dst, len acc + len (entries_wire (entry_of <$> entries))).
Proof.
  intros Hall. revert acc off. induction Hall as [|e entries [Hk Hv] _ IH]; intros acc off -> Hroom; cbn [marshalEntries].
  { change (entries_wire (entry_of <$> [])) with (@nil Z). rewrite app_nil_r. change (len []) with 0. by rewrite Z.add_0_r. }
  rewrite fmap_cons, entries_wire_cons, len_app, len_entry_wire in *. cbn [entry_of fst snd] in *.
  unfold u8. rewrite !Z.mod_small by len_lia.
  repeat first [ progress cbn [bind] | rewrite write_over by len_lia | rewrite copy_at_over by len_lia
    | rewrite len_over by len_lia | rewrite Z.min_l by len_lia ].
  rewrite IH by len_lia. unfold entry_wire. cbn [fst snd]. rewrite <- !app_assoc. f_equal. f_equal. len_lia.
Qed.

Lemma MarshalMappingTo_ok dst entries :
  Forall entry_fits entries -> checked_order None entries ->
  len (entries_wire (entry_of <$> entries)) < 2 ^ 16 -> len (mapping_wire (entry_of <$> entries)) <= len dst ->
  MarshalMappingTo dst entries =
    Ok (over (mapping_wire (entry_of <$> entries)) dst, len (mapping_wire (entry_of <$> entries))).
Proof.
  intros Hall Ho Hsz Hroom. unfold MarshalMappingTo, MappingEncodedLen. rewrite encodedLenLoop_ok by (done || lia). cbn [bind].
  unfold mapping_wire in *. len_simpl_in Hroom.
  replace (len dst <? _) with false by lia. rewrite Z.add_simpl_l. unfold u16. rewrite Z.mod_small by len_lia.
  rewrite (over_nil dst) at 1. rewrite write_over by len_lia. cbn [bind app].
  rewrite marshalEntries_ok by (done || len_lia). f_equal. f_equal. len_lia.
Qed.

Lemma length_entries_wire es : (length es <= length (entries_wire es))%nat.
Proof.
  induction es as [|e es IH]; [done|]. rewrite entries_wire_cons, length_app. cbn [length].
  pose proof (len_entry_wire e). pose proof (len_nonneg e.1). pose proof (len_nonneg e.2). unfold len in *. lia.
Qed.

Lemma ParseMapping_wire es rest :
  Forall entry_ok es -> len (entries_wire es) < 2 ^ 16 ->
  ParseMapping (mapping_wire es ++ rest) = Ok (mapping_wire es, len (mapping_wire es)).
Proof.
  intros Hall Hsz. unfold ParseMapping, mapping_wire. pose proof (len_nonneg (entries_wire es)). rewrite <- app_assoc. go_eval.
  rewrite (app_assoc (be_bytes 2 _)), sub_app_exact by len_lia.
  rewrite slice_from_ok by len_lia. cbn [bind]. rewrite sub_app_r by len_lia. len_simpl.
  rewrite sub_all by lia.
  rewrite scanEntries_read, readEntries_wire by (done || (pose proof (length_entries_wire es); lia)). cbn [bind].
  do 2 f_equal. len_lia.
Qed.

Lemma ParseMapping_sound src m k :
  bytes_ok src -> ParseMapping src = Ok (m, k) ->
  exists es, Forall entry_ok es /\ m = mapping_wire es /\ len (entries_wire es) < 2 ^ 16 /\ k = len m /\
    src = m ++ sub k (len src) src.
Proof.
  intros Hok. unfold ParseMapping. destruct (Z.ltb_spec (len src) 2) as [?|Hl]; [done|].
  rewrite slice_ok by lia. cbn [bind]. rewrite be_uint_sub by lia. cbn [bind].
  pose proof (be_val_sub_nonneg src 0 2 Hok) as Hn. pose proof (be_val_sub_lt src 0 2 Hok ltac:(lia)) as Hu.
  set (size := be_val (sub 0 2 src)) in *. destruct (Z.gtb_spec size (len src - 2)) as [?|Hsz]; [done|].
  rewrite slice_ok by lia. cbn [bind]. rewrite slice_from_ok by len_lia. cbn [bind]. rewrite sub_sub by len_lia.
  rewrite len_sub by lia. rewrite scanEntries_read. set (body := sub (0 + 2) _ src).
  assert (Hb : bytes_ok body) by (by apply bytes_ok_sub).
  destruct (readEntries_cases (S (length body)) body Hb ltac:(lia)) as [(es & Hes & Hw & ->)|[-> _]]; [|done].
  cbn [bind]. intros H. injection H as <- <-. exists es.
  assert (Hlen : len (entries_wire es) = size) by (rewrite <- Hw; unfold body; len_lia).
  split; [done|]. split; [|split; [lia|split; [len_lia|symmetry; rewrite Z.sub_0_r; apply sub_split_at; lia]]].
  unfold mapping_wire. rewrite Hlen. unfold size. rewrite (be_bytes_sub src 0 2 2) by (done || lia).
  rewrite <- Hw. unfold body. symmetry. replace (0 + (2 + size - 0)) with (2 + size) by lia. apply sub_app_join; lia.
Qed.

Lemma ParseMapping_safe src : bytes_ok src -> safe (ParseMapping src).
Proof.
  intros Hok. unfold ParseMapping. destruct (Z.ltb_spec (len src) 2) as [?|Hl]; [done|].
  rewrite slice_ok by lia. cbn [bind]. rewrite be_uint_sub by lia. cbn [bind].
  pose proof (be_val_sub_nonneg src 0 2 Hok) as Hn.
  destruct (Z.gtb_spec (be_val (sub 0 2 src)) (len src - 2)) as [?|Hsz]; [done|].
  rewrite slice_ok by lia. cbn [bind]. rewrite slice_from_ok by len_lia. cbn [bind]. rewrite scanEntries_read.
  set (body := sub 2 _ _). assert (Hb : bytes_ok body) by (by apply bytes_ok_sub, bytes_ok_sub).
  destruct (readEntries_cases (S (length body)) body Hb ltac:(lia)) as [(es & _ & _ & ->)|[-> _]]; done.
Qed.

Lemma ValidateCanonical_wire es :
  Forall entry_ok es ->
  (ValidateCanonical (mapping_wire es) = Ok tt /\ increasing None es.*1) \/
  (ValidateCanonical (mapping_wire es) = Err ErrUnsortedMapping /\ ~ increasing None es.*1).
Proof.
  intros Hes. unfold ValidateCanonical, Iterator, mapping_wire. pose proof (len_nonneg (entries_wire es)).
  replace (_ <? 2) with false by (symmetry; apply Z.ltb_ge; len_lia).
  rewrite slice_from_ok by len_lia. cbn [bind]. rewrite sub_app_r by len_lia. len_simpl. rewrite sub_all by lia.
  apply canonicalLoop_wire; [done|]. pose proof (length_entries_wire es). lia.
Qed.

Lemma ParseIdentity_safe src : bytes_ok src -> safe (ParseIdentity src).
Proof.
  intros Hok. unfold safe, ParseIdentity, IdentityBaseLength, CertificateHeader, CertificateKey.
  destruct (Z.ltb_spec (len src) (384 + 3)) as [?|Hl]; [done|]. rewrite slice_from_ok by lia. cbn [bind].
  assert (Hokt : bytes_ok (sub 384 (len src) src)) by (by apply bytes_ok_sub).
  destruct (ParseCertificate (sub 384 (len src) src)) as [[cert certLen]| |] eqn:Hp; cbn [bind]; [|done|by destruct (ParseCertificate_safe _ Hokt)].
  destruct (ParseCertificate_sound _ _ _ Hokt Hp) as ((_ & _ & Hv) & Hk & Hle & _). rewrite len_sub in Hle by lia.
  assert (3 <= certLen) by (rewrite Hk; unfold CertificateLen, CertificateHeader; len_lia).
  rewrite slice_ok by lia. cbn [bind]. destruct (Z.eqb_spec (CType cert) 5) as [Ht|Ht]; cbn [negb].
  2:{ do 2 (rewrite slice_ok by lia; cbn [bind]). done. }
  assert (4 <= len (CPayload cert)) by (rewrite Ht in Hv; unfold validCertificate in Hv; cbn in Hv; destruct (_ || _); lia).
  do 2 (rewrite slice_ok by lia; cbn [bind]; rewrite be_uint_sub by lia; cbn [bind]).
  destruct (SigningPublicKeyLen _) as [sl|] eqn:Hsl; [|done]. destruct (CryptoPublicKeyLen _) as [cl|] eqn:Hcl; [|done].
  pose proof (signing_len_cases _ _ Hsl). pose proof (crypto_len_cases _ _ Hcl).
  destruct (Z.eqb_spec (len (CPayload cert)) (4 + Z.max (sl - 128) 0 + Z.max (cl - 256) 0)); cbn [negb]; [|done].
  do 4 (rewrite slice_ok by lia; cbn [bind]). done.
Qed.

(** C27: A parsed identity is well-formed, and exactly the well-formed ones parse.
    On arbitrary bytes [ParseIdentity] returns; it accepts them exactly when they
    start with 384 bytes of key material and a valid certificate whose key types
    are known and whose payload holds just the overflow of the keys; the key
    parts then have the lengths of their types, do not overlap, and lie where
    the types say; and the identity reproduces the bytes it was read from. *)
Theorem identity_exact src i k :
  bytes_ok src ->
  safe (ParseIdentity src) /\
  (ParseIdentity src = Ok (i, k) <->
   k = len (raw i) /\ (exists material, identity_ok i material) /\ exists rest, src = raw i ++ rest) /\
  (forall dst, len (raw i) <= len dst -> MarshalIdentityTo i dst = Ok (over (raw i) dst, len (raw i))).
Proof.
  intros Hok. split; [by apply ParseIdentity_safe|]. split.
  - split.
    + intros Hp. destruct (ParseIdentity_sound src i k Hok Hp) as (material & Hi & Hk & Hs). eauto.
    + intros (-> & (material & Hi) & rest & ->). by apply (ParseIdentity_complete i material).
  - intros dst Hd. unfold MarshalIdentityTo. replace (_ <? _) with false by lia. write_run dst. done.
Qed.

(** Entries with increasing keys, as the encoder takes them. *)
Definition as_entries (es : list (bytes * bytes)) : list MappingEntry := (fun e => mkEntry (Some e.1) e.2) <$> es.

Lemma entry_of_as es : entry_of <$> as_entries es = es.
Proof.
  unfold as_entries. rewrite <- list_fmap_compose. rewrite <- (list_fmap_id es) at 2. apply list_fmap_ext. by intros _ [] _.
Qed.

Lemma as_entries_checked es : Forall entry_ok es -> increasing None es.*1 ->
  Forall entry_fits (as_entries es) /\ checked_order None (as_entries es).
Proof.
  intros Hes Hinc. split.
  - apply Forall_fmap. eapply Forall_impl; [exact Hes|]. intros [key v] (? & ? & _). done.
  - revert Hinc. clear. unfold as_entries. generalize (@None bytes). induction es as [|e es IH]; intros previous; [done|].
    rewrite !fmap_cons. cbn [increasing checked_order]. intros [? ?]. split; [done|]. by apply IH.
Qed.

Lemma marshal_increasing es dst : Forall entry_ok es -> increasing None es.*1 -> len (entries_wire es) < 2 ^ 16 ->
  len (mapping_wire es) <= len dst ->
  MappingEncodedLen (as_entries es) = Ok (len (mapping_wire es)) /\
  MarshalMappingTo dst (as_entries es) = Ok (over (mapping_wire es) dst, len (mapping_wire es)).
Proof.
  intros Hes Hinc Hsz Hroom. destruct (as_entries_checked es Hes Hinc) as [Hf Hc]. split.
  - unfold MappingEncodedLen. rewrite encodedLenLoop_ok by (rewrite ?entry_of_as; done || lia). rewrite entry_of_as.
    f_equal. unfold mapping_wire. len_lia.
  - rewrite <- (entry_of_as es) at 2 3. apply MarshalMappingTo_ok; rewrite ?entry_of_as; done.
Qed.

(** C28: Mappings.  On arbitrary bytes [ParseMapping] returns, and it accepts them
    exactly when they start with the wire form of a list of entries; the
    canonical check of a parsed mapping succeeds exactly when the keys increase
    strictly, so that no key occurs twice; and what the encoder writes for
    entries with increasing keys parses back to those entries and is
    canonical. *)
Theorem mapping_exact src m k :
  bytes_ok src ->
  safe (ParseMapping src) /\
  (ParseMapping src = Ok (m, k) <->
   exists es rest, src = m ++ rest /\ k = len m /\ m = mapping_wire es /\ len (entries_wire es) < 2 ^ 16 /\ Forall entry_ok es) /\
  (forall es, Forall entry_ok es ->
     (ValidateCanonical (mapping_wire es) = Ok tt <-> increasing None es.*1) /\
     (increasing None es.*1 -> NoDup es.*1) /\
     (increasing None es.*1 -> len (entries_wire es) < 2 ^ 16 ->
      forall dst rest, len (mapping_wire es) <= len dst ->
        MarshalMappingTo dst ((fun e => mkEntry (Some e.1) e.2) <$> es) = Ok (over (mapping_wire es) dst, len (mapping_wire es)) /\
        ParseMapping (mapping_wire es ++ rest) = Ok (mapping_wire es, len (mapping_wire es)) /\
        readEntries (S (length (entries_wire es))) (entries_wire es) = Ok es)).
Proof.
  intros Hok. split; [by apply ParseMapping_safe|]. split.
  { split.
    - intros Hp. destruct (ParseMapping_sound src m k Hok Hp) as (es & ? & ? & ? & ? & ?). exists es, (sub k (len src) src). auto.
    - intros (es & rest & -> & -> & -> & Hsz & Hes). by apply ParseMapping_wire. }
  intros es Hes. split; [|split; [apply increasing_nodup|]].
  { destruct (ValidateCanonical_wire es Hes) as [[-> ?]|[-> ?]]; [done|]. split; [done|tauto]. }
  intros Hinc Hsz dst rest Hroom. split; [|split; [by apply ParseMapping_wire|]].
  2:{ apply readEntries_wire; [done|]. pose proof (length_entries_wire es). lia. }
  by apply marshal_increasing.
Qed.

(** The encoder does not notice a repeated nil key: two entries whose keys
    are nil slices are written, and the resulting mapping fails the canonical
    check. *)
Theorem nil_keys_marshalled v1 v2 dst :
  bytes_ok v1 -> bytes_ok v2 -> len v1 <= 255 -> len v2 <= 255 -> 10 + len v1 + len v2 <= len dst ->
  exists m, MarshalMappingTo dst [mkEntry None v1; mkEntry None v2] = Ok (over m dst, len m) /\
    ParseMapping m = Ok (m, len m) /\ ValidateCanonical m = Err ErrUnsortedMapping.
Proof.
  intros Hb1 Hb2 H1 H2 Hd. set (es := [([], v1); ([], v2)] : list (bytes * bytes)).
  assert (Hes : Forall entry_ok es).
  { assert (He : forall v, bytes_ok v -> len v <= 255 -> entry_ok ([], v)).
    { intros v Hb Hv. split; [by vm_compute|]. split; [done|]. split; [by apply Forall_nil|done]. }
    unfold es. apply Forall_cons; split; [by apply He|]. apply Forall_cons; split; [by apply He|]. by apply Forall_nil. }
  assert (Hl : len (entries_wire es) = 8 + len v1 + len v2).
  { unfold es. rewrite !entries_wire_cons. len_simpl. rewrite !len_entry_wire. change (entries_wire []) with (@nil Z).
    change (len (@nil Z)) with 0. cbn [fst snd]. change (len (@nil Z)) with 0. lia. }
  exists (mapping_wire es). split; [|split].
  - apply (MarshalMappingTo_ok dst [mkEntry None v1; mkEntry None v2]); cbn [fmap list_fmap entry_of keyBytes Key Value default].
    + apply Forall_cons; split; [split; [by vm_compute|done]|]. apply Forall_cons; split; [split; [by vm_compute|done]|]. by apply Forall_nil.
    + done.
    + change (len (entries_wire es) < 2 ^ 16). lia.
    + change (len (mapping_wire es) <= len dst). unfold mapping_wire. len_simpl. lia.
  - rewrite <- (app_nil_r (mapping_wire es)) at 1. apply ParseMapping_wire; [done|lia].
  - destruct (ValidateCanonical_wire es Hes) as [[_ Hi]|[? _]]; [|done]. destruct Hi as (_ & Hi & _). discriminate Hi.
Qed.

(** An Ed25519/X25519 destination: 384 bytes and a four-byte key certificate. *)
Definition sampleIdentity : bytes := replicate 384 7 ++ [5; 0; 4; 0; 7; 0; 4].

Lemma identity_exact_witness :
  exists i, ParseIdentity sampleIdentity = Ok (i, 391) /\ len (signingFirst i) = 32 /\ len (cryptoFirst i) = 32 /\
    exists material, identity_ok i material.
Proof.
  destruct (ParseIdentity sampleIdentity) as [[i k]| |] eqn:E; [|vm_compute in E; discriminate E..].
  exists i.
  assert (Hb : bytes_ok sampleIdentity) by (apply bytes_ok_check; vm_compute; reflexivity).
  destruct (proj1 (proj1 (proj2 (identity_exact sampleIdentity i k Hb))) E) as (_ & Hm & _).
  vm_compute in E. injection E as <- <-. split; [reflexivity|]. split; [reflexivity|]. split; [reflexivity|exact Hm].
Defined.

Definition sampleMapping : list (bytes * bytes) := [([97], [1; 2]); ([98], [])].

Lemma mapping_exact_witness :
  ParseMapping (mapping_wire sampleMapping) = Ok (mapping_wire sampleMapping, 14) /\
  ValidateCanonical (mapping_wire sampleMapping) = Ok tt.
Proof.
  assert (Hb : bytes_ok (mapping_wire sampleMapping)) by (apply bytes_ok_check; vm_compute; reflexivity).
  assert (He : Forall entry_ok sampleMapping).
  { repeat (apply Forall_cons; split; [split; [vm_compute; congruence|split; [vm_compute; congruence|split; apply bytes_ok_check; reflexivity]]|]).
    apply Forall_nil. exact I. }
  destruct (mapping_exact (mapping_wire sampleMapping) (mapping_wire sampleMapping) 14 Hb) as (_ & H1 & H2). split.
  - apply H1. exists sampleMapping, []. rewrite app_nil_r. split; [reflexivity|]. split; [reflexivity|]. split; [reflexivity|].
    split; [vm_compute; reflexivity|exact He].
  - apply (H2 sampleMapping He). vm_compute. auto.
Defined.

