(* ===== verification/Clove.v ===== *)
(** Garlic cloves and clove sets, [src/dataplane/internal/garlic]: the parser
    ([clove.go]) and the encoder ([serialize.go]).  A clove holds a standard I2NP
    frame and a certificate, parsed and written by the models of those
    packages. *)

From S2P Require Import Prelude Sha256 I2NP Identity.

(** ** Delivery instructions *)

Definition DeliveryLocal : Z := 0.
Definition DeliveryDestination : Z := 1.
Definition DeliveryRouter : Z := 2.
Definition DeliveryTunnel : Z := 3.

Record Delivery := mkDelivery { dType : Z; dTo : bytes; dTunnelID : Z; dDelay : Z }.

Definition ParseDelivery (src : bytes) : res (Delivery * Z) :=
  fail_if len src <? 1 with ErrShortBuffer ;;
  let? flags := index src 0 in
  fail_if negb (Z.land flags 15 =? 0) with ErrDelivery ;;
  let kind := Z.land (Z.shiftr flags 5) 3 in
  let off := 1 in
  let? (to, off) :=
    (if negb (kind =? DeliveryLocal) then
       fail_if len src - off <? 32 with ErrShortBuffer ;;
       let? to := slice src off (off + 32) in Ok (to, off + 32)
     else Ok (make_bytes 32, off)) in
  let? (tunnelID, off) :=
    (if kind =? DeliveryTunnel then
       fail_if len src - off <? 4 with ErrShortBuffer ;;
       let? b := slice src off (off + 4) in
       let? id := be_uint 4 b in
       fail_if id =? 0 with ErrDelivery ;;
       Ok (id, off + 4)
     else Ok (0, off)) in
  let? (delay, off) :=
    (if negb (Z.land flags 16 =? 0) then
       fail_if len src - off <? 4 with ErrShortBuffer ;;
       let? b := slice src off (off + 4) in
       let? delay := be_uint 4 b in Ok (delay, off + 4)
     else Ok (0, off)) in
  Ok (mkDelivery kind to tunnelID delay, off).

Definition DeliveryLen (d : Delivery) : Z :=
  1 + (if negb (dType d =? DeliveryLocal) then 32 else 0) + (if dType d =? DeliveryTunnel then 4 else 0) +
  (if negb (dDelay d =? 0) then 4 else 0).

Definition validDelivery (d : Delivery) : bool :=
  (dType d <=? DeliveryTunnel) && (negb (dType d =? DeliveryTunnel) || negb (dTunnelID d =? 0)).

Definition MarshalDeliveryTo (d : Delivery) (dst : bytes) : res (bytes * Z) :=
  fail_if negb (validDelivery d) with ErrDelivery ;;
  fail_if len dst <? DeliveryLen d with ErrShortBuffer ;;
  let flags := u8 (Z.shiftl (dType d) 5) in
  let flags := if negb (dDelay d =? 0) then Z.lor flags 16 else flags in
  fail_if negb (Z.land flags 15 =? 0) with ErrDelivery ;;
  let? dst := write dst 0 [flags] in
  let off := 1 in
  let? (dst, off) :=
    (if negb (dType d =? DeliveryLocal) then
       let? out := copy_at dst off (dTo d) in Ok (out, off + Z.min (len (dTo d)) (len dst - off))
     else Ok (dst, off)) in
  let? (dst, off) :=
    (if dType d =? DeliveryTunnel then
       let? dst := write dst off (be_bytes 4 (dTunnelID d)) in Ok (dst, off + 4)
     else Ok (dst, off)) in
  let? (dst, off) :=
    (if negb (dDelay d =? 0) then
       let? dst := write dst off (be_bytes 4 (dDelay d)) in Ok (dst, off + 4)
     else Ok (dst, off)) in
  Ok (dst, off).

(** ** Cloves *)

Record Clove := mkClove { cDelivery : Delivery; cMessage : Message; cID : Z; cExpiration : Z }.

Definition ParseClove (src : bytes) : res (Clove * Z) :=
  let? (delivery, k) := ParseDelivery src in
  let? tail := slice_from src k in
  let? (message, used) := ParseUnchecked tail in
  let off := k + used in
  fail_if len src - off <? 15 with ErrShortBuffer ;;
  let? b := slice src off (off + 4) in
  let? id := be_uint 4 b in
  let? b := slice src (off + 4) (off + 12) in
  let? expiration := be_uint 8 b in
  let? tail := slice_from src (off + 12) in
  let? (certificate, certLen) := ParseCertificate tail in
  fail_if negb (CType certificate =? CertificateNull) with ErrClove ;;
  Ok (mkClove delivery message id expiration, off + 12 + certLen).

Definition cloveCertificateLen : Z := 3.
Definition cloveMetadataLen : Z := 4 + 8 + cloveCertificateLen.
Definition cloveSetMetadataLen : Z := cloveCertificateLen + 4 + 8.
Definition cloveSetPrefixLen : Z := 1.

Definition CloveLen (c : Clove) : Z := DeliveryLen (cDelivery c) + EncodedLen (cMessage c) + cloveMetadataLen.

Definition validClove (c : Clove) : res unit :=
  fail_if negb (validDelivery (cDelivery c)) with ErrDelivery ;;
  fail_if len (Payload (cMessage c)) >? I2PDMaxPayload with ErrPayloadTooLarge ;;
  Ok tt.

(** [f(dst[off:])] for an encoder [f]: the slice shares the array of [dst]. *)
Definition into (dst : bytes) (off : Z) (f : bytes -> res (bytes * Z)) : res (bytes * Z) :=
  let? tail := slice_from dst off in
  let? (tail, k) := f tail in
  Ok (sub 0 off dst ++ tail, k).

Definition MarshalCloveTo (c : Clove) (dst : bytes) : res (bytes * Z) :=
  let? _ := validClove c in
  fail_if len dst <? CloveLen c with ErrShortBuffer ;;
  let? (dst, off) := MarshalDeliveryTo (cDelivery c) dst in
  let? (dst, messageLen) := into dst off (MarshalTo (cMessage c)) in
  let off := off + messageLen in
  let? dst := write dst off (be_bytes 4 (cID c)) in
  let off := off + 4 in
  let? dst := write dst off (be_bytes 8 (cExpiration c)) in
  let off := off + 8 in
  let? dst := write dst off [0] in
  let? dst := write dst (off + 1) [0] in
  let? dst := write dst (off + 2) [0] in
  Ok (dst, off + cloveCertificateLen).

(** ** Clove sets *)

Record CloveSet := mkSet { sCount : Z; sCloves : bytes; sMessageID : Z; sExpiration : Z }.

(** [Iterator.Next] on the unread bytes and the number of cloves left. *)
Definition NextClove (it : bytes * Z) : res (option Clove * (bytes * Z)) :=
  let '(rest, remaining) := it in
  if remaining =? 0 then Ok (None, it)
  else
    let? (clove, k) := ParseClove rest in
    let? rest := slice_from rest k in
    Ok (Some clove, (rest, u8 (remaining - 1))).

Definition Cloves (s : CloveSet) : bytes * Z := (sCloves s, sCount s).

(** The loop of [ParseCloveSet]: the offset after [count] more cloves. *)
Fixpoint skipCloves (count : nat) (src : bytes) (off : Z) : res Z :=
  match count with
  | O => Ok off
  | S count =>
      let? tail := slice_from src off in
      let? (_, k) := ParseClove tail in
      skipCloves count src (off + k)
  end.

Definition ParseCloveSet (src : bytes) : res CloveSet :=
  fail_if len src <? 1 with ErrShortBuffer ;;
  let? count := index src 0 in
  let? off := skipCloves (Z.to_nat count) src 1 in
  fail_if negb (len src - off =? 15) with ErrClove ;;
  let? tail := slice_from src off in
  let? bad := match ParseCertificate tail with
              | Ok (certificate, k) => Ok (negb (CType certificate =? CertificateNull) || negb (k =? 3))
              | Err _ => Ok true
              | Panic => Panic
              end in
  fail_if bad with ErrClove ;;
  let? cloves := slice src 1 off in
  let? b := slice src (off + 3) (off + 7) in
  let? id := be_uint 4 b in
  let? b := slice src (off + 7) (off + 15) in
  let? expiration := be_uint 8 b in
  Ok (mkSet count cloves id expiration).

(** The largest [int] of a 64-bit platform. *)
Definition maxInt : Z := 2 ^ 63 - 1.

Fixpoint setLenLoop (cloves : list Clove) (k : Z) : res Z :=
  match cloves with
  | [] => Ok k
  | clove :: cloves =>
      let? _ := validClove clove in
      fail_if CloveLen clove >? maxInt - k with ErrClove ;;
      setLenLoop cloves (k + CloveLen clove)
  end.

Definition CloveSetEncodedLen (cloves : list Clove) : res Z :=
  fail_if len cloves >? 255 with ErrClove ;;
  setLenLoop cloves (cloveSetPrefixLen + cloveSetMetadataLen).

Fixpoint marshalCloves (cloves : list Clove) (off : Z) (dst : bytes) : res (bytes * Z) :=
  match cloves with
  | [] => Ok (dst, off)
  | clove :: cloves =>
      let? (dst, used) := into dst off (MarshalCloveTo clove) in
      marshalCloves cloves (off + used) dst
  end.

(** The null certificate, message identifier and expiration that end a set. *)
Definition writeTrailer (dst : bytes) (off messageID expiration : Z) : res (bytes * Z) :=
  let? dst := write dst off [0] in
  let? dst := write dst (off + 1) [0] in
  let? dst := write dst (off + 2) [0] in
  let off := off + cloveCertificateLen in
  let? dst := write dst off (be_bytes 4 messageID) in
  let off := off + 4 in
  let? dst := write dst off (be_bytes 8 expiration) in
  Ok (dst, off + 8).

Definition MarshalCloveSetTo (dst : bytes) (cloves : list Clove) (messageID expiration : Z) : res (bytes * Z) :=
  let? k := CloveSetEncodedLen cloves in
  fail_if len dst <? k with ErrShortBuffer ;;
  let? dst := write dst 0 [u8 (len cloves)] in
  let? (dst, off) := marshalCloves cloves cloveSetPrefixLen dst in
  writeTrailer dst off messageID expiration.

Definition CloveSetLen (s : CloveSet) : Z := cloveSetPrefixLen + len (sCloves s) + cloveSetMetadataLen.

Definition MarshalParsedSetTo (s : CloveSet) (dst : bytes) : res (bytes * Z) :=
  fail_if len dst <? CloveSetLen s with ErrShortBuffer ;;
  let? dst := write dst 0 [sCount s] in
  let? out := copy_at dst cloveSetPrefixLen (sCloves s) in
  let off := cloveSetPrefixLen + Z.min (len (sCloves s)) (len dst - cloveSetPrefixLen) in
  writeTrailer out off (sMessageID s) (sExpiration s).

(** ** Wire forms *)

Definition delivery_flags (d : Delivery) : Z := dType d * 32 + (if dDelay d =? 0 then 0 else 16).

Definition delivery_wire (d : Delivery) : bytes :=
  [delivery_flags d] ++ (if dType d =? 0 then [] else dTo d) ++
  (if dType d =? 3 then be_bytes 4 (dTunnelID d) else []) ++ (if dDelay d =? 0 then [] else be_bytes 4 (dDelay d)).

Record delivery_ok (d : Delivery) : Prop := {
  dl_type : dType d = 0 \/ dType d = 1 \/ dType d = 2 \/ dType d = 3;
  dl_to : len (dTo d) = 32 /\ bytes_ok (dTo d);
  dl_local : dType d = 0 -> dTo d = make_bytes 32;
  dl_tunnel : if dType d =? 3 then 0 < dTunnelID d < 2 ^ 32 else dTunnelID d = 0;
  dl_delay : 0 <= dDelay d < 2 ^ 32 }.

Lemma len_delivery_wire d : delivery_ok d -> len (delivery_wire d) = DeliveryLen d.
Proof.
  intros [_ [Hto _] _ _ _]. unfold delivery_wire, DeliveryLen, DeliveryLocal, DeliveryTunnel.
  destruct (dType d =? 0), (dType d =? 3), (dDelay d =? 0); cbn [negb]; len_simpl; rewrite ?Hto; lia.
Qed.

Lemma MarshalDeliveryTo_wire d dst :
  delivery_ok d -> DeliveryLen d <= len dst -> MarshalDeliveryTo d dst = Ok (over (delivery_wire d) dst, DeliveryLen d).
Proof.
  intros Hd Hroom. pose proof Hd as [Ht [Hto _] _ Htun _]. unfold MarshalDeliveryTo.
  assert (validDelivery d = true) as ->.
  { unfold validDelivery, DeliveryTunnel. destruct Ht as [E|[E|[E|E]]]; rewrite E in *; try done. cbn in *. zbool. done. }
  cbn [negb]. replace (len dst <? DeliveryLen d) with false by lia.
  assert ((if negb (dDelay d =? 0) then Z.lor (u8 (Z.shiftl (dType d) 5)) 16 else u8 (Z.shiftl (dType d) 5)) = delivery_flags d) as ->.
  { unfold delivery_flags. destruct Ht as [E|[E|[E|E]]]; rewrite E; by destruct (dDelay d =? 0). }
  assert (Z.land (delivery_flags d) 15 = 0) as ->.
  { unfold delivery_flags. destruct Ht as [E|[E|[E|E]]]; rewrite E; by destruct (dDelay d =? 0). }
  cbn [negb Z.eqb]. unfold delivery_wire, DeliveryLen, DeliveryLocal, DeliveryTunnel in *.
  rewrite (over_nil dst) at 1.
  destruct (dType d =? 0), (dType d =? 3), (dDelay d =? 0); cbn [negb] in *;
    repeat first [ progress cbn [bind app] | rewrite write_over by len_lia | rewrite copy_at_over by len_lia
    | rewrite len_over by len_lia | rewrite Z.min_l by len_lia | rewrite Hto ];
    rewrite <- ?app_assoc, ?app_nil_r; try done.
Qed.

Lemma ParseDelivery_wire d rest :
  delivery_ok d -> ParseDelivery (delivery_wire d ++ rest) = Ok (d, DeliveryLen d).
Proof.
  intros [Ht [Hto _] Hloc Htun Hdel]. unfold ParseDelivery, delivery_wire, delivery_flags, DeliveryLen, DeliveryLocal, DeliveryTunnel.
  destruct d as [t to tun del]; cbn [dType dTo dTunnelID dDelay] in *.
  destruct Ht as [-> | [-> | [-> | ->]]]; cbn [Z.eqb negb Pos.eqb] in *; destruct (Z.eqb_spec del 0) as [->|Hd0]; cbn [negb];
    rewrite <- ?app_assoc, ?app_nil_l; cbn [app];
    repeat match goal with
    | |- context [?a * 32 + ?b] => let v := eval vm_compute in (a * 32 + b) in change (a * 32 + b) with v
    end; rewrite index_cons_0; cbn [bind];
    repeat match goal with
    | |- context [Z.land ?a ?b] => let v := eval vm_compute in (Z.land a b) in change (Z.land a b) with v
    end; cbn [Z.eqb Pos.eqb negb].
  all: match goal with |- context [?x :: ?l] => change (x :: l) with ([x] ++ l) end.
  all: go_eval; rewrite ?Hloc, ?Htun by done; try done.
Qed.

Lemma into_over acc dst off f w k :
  off = len acc -> len acc + len w <= len dst ->
  (forall tail, len tail = len dst - len acc -> f tail = Ok (over w tail, k)) ->
  into (over acc dst) off f = Ok (over (acc ++ w) dst, k).
Proof.
  intros -> Hroom Hf. pose proof (len_over acc dst ltac:(len_pos; lia)) as Hl. unfold into.
  rewrite slice_from_ok by (len_pos; lia). cbn [bind]. rewrite Hl, Hf by len_lia. cbn [bind].
  unfold over. rewrite sub_app_exact by done. rewrite (sub_app_r acc) by len_lia. rewrite Z.sub_diag.
  rewrite (sub_all (sub (len acc) (len dst) dst)) by len_lia.
  len_simpl. rewrite sub_sub by len_lia. rewrite <- app_assoc. do 4 f_equal. f_equal; lia.
Qed.

Definition clove_wire (c : Clove) : bytes :=
  delivery_wire (cDelivery c) ++ frame (MHeader (cMessage c)) (Payload (cMessage c)) ++
  be_bytes 4 (cID c) ++ be_bytes 8 (cExpiration c) ++ [0] ++ [0] ++ [0].

Record clove_ok (c : Clove) : Prop := {
  cl_delivery : delivery_ok (cDelivery c);
  cl_header : header_ok (MHeader (cMessage c));
  cl_payload : len (Payload (cMessage c)) <= I2PDMaxPayload;
  cl_id : 0 <= cID c < 2 ^ 32;
  cl_expiration : 0 <= cExpiration c < 2 ^ 64 }.

Lemma len_clove_wire c : clove_ok c -> len (clove_wire c) = CloveLen c.
Proof.
  intros [Hd _ _ _ _]. unfold clove_wire, CloveLen, EncodedLen, StandardHeaderLen, cloveMetadataLen, cloveCertificateLen.
  len_simpl. rewrite len_delivery_wire by done. lia.
Qed.

Lemma MarshalCloveTo_wire c dst :
  clove_ok c -> CloveLen c <= len dst -> MarshalCloveTo c dst = Ok (over (clove_wire c) dst, CloveLen c).
Proof.
  intros Hc Hroom. pose proof (len_clove_wire c Hc) as Hl. pose proof Hc as [Hd Hh Hp _ _].
  pose proof (len_delivery_wire _ Hd) as Hdl.
  unfold MarshalCloveTo, validClove.
  assert (validDelivery (cDelivery c) = true) as ->.
  { destruct Hd as [Ht _ _ Htun _]. unfold validDelivery, DeliveryTunnel. destruct Ht as [E|[E|[E|E]]]; rewrite E in *; try done. cbn in *. zbool. done. }
  cbn [negb]. replace (_ >? I2PDMaxPayload) with false by lia. cbn [bind]. replace (len dst <? CloveLen c) with false by lia.
  unfold CloveLen, EncodedLen, StandardHeaderLen, cloveMetadataLen, cloveCertificateLen in *.
  rewrite MarshalDeliveryTo_wire by (done || (len_pos; lia)). cbn [bind].
  rewrite (into_over _ _ _ _ (frame (MHeader (cMessage c)) (Payload (cMessage c))) (16 + len (Payload (cMessage c)))); [|done|len_lia|].
  2:{ intros tail Ht. apply marshalStandard_frame; [done|unfold I2PDMaxPayload, MaxWirePayload; vm_compute; congruence|len_pos; lia]. }
  cbn [bind]. repeat first [ progress cbn [bind] | rewrite write_over by len_lia ].
  unfold clove_wire. rewrite <- !app_assoc. f_equal. f_equal. lia.
Qed.

(** The null certificate of a clove. *)
Lemma null_certificate rest : ParseCertificate ([0] ++ [0] ++ [0] ++ rest) = Ok (mkCertificate 0 [], 3).
Proof.
  unfold ParseCertificate, CertificateHeader. cbn [app]. replace (len (0 :: 0 :: 0 :: rest) <? 3) with false by (symmetry; apply Z.ltb_ge; len_lia).
  rewrite index_cons_0. cbn [bind]. rewrite slice_ok by len_lia. cbn [bind].
  replace (sub 1 3 (0 :: 0 :: 0 :: rest)) with [0; 0] by done. change (be_uint 2 [0; 0]) with (Ok (be_val (sub 0 2 [0; 0]))).
  replace (be_val (sub 0 2 [0; 0])) with 0 by (by vm_compute). cbn [bind].
  replace (0 >? _) with false by (symmetry; rewrite Z.gtb_ltb; apply Z.ltb_ge; len_lia).
  cbn [negb]. change (validCertificate 0 0) with true. cbn [negb]. rewrite slice_ok by len_lia. done.
Qed.

Lemma ParseClove_wire c rest : clove_ok c -> ParseClove (clove_wire c ++ rest) = Ok (c, CloveLen c).
Proof.
  intros Hc. pose proof (len_clove_wire c Hc) as Hl. pose proof Hc as [Hd Hh Hp Hi He].
  pose proof (len_delivery_wire _ Hd) as Hdl. unfold ParseClove.
  unfold clove_wire in *. rewrite <- !app_assoc. rewrite ParseDelivery_wire by done. cbn [bind].
  rewrite slice_from_ok by len_lia. cbn [bind]. rewrite sub_app_r by lia. rewrite Hdl, Z.sub_diag, sub_all by len_lia.
  unfold ParseUnchecked. rewrite parseStandard_frame by (done || (vm_compute; congruence)). cbn [bind].
  unfold CloveLen, EncodedLen, StandardHeaderLen, cloveMetadataLen, cloveCertificateLen in *.
  replace (_ <? 15) with false by (symmetry; apply Z.ltb_ge; len_lia).
  go_eval. rewrite null_certificate. cbn [bind CType]. change (0 =? CertificateNull) with true. cbn [negb].
  do 2 f_equal; [|lia]. destruct c as [? [] ? ?]. done.
Qed.

Lemma ParseDelivery_bound src :
  bytes_ok src -> safe (ParseDelivery src) /\ forall d k, ParseDelivery src = Ok (d, k) -> 1 <= k <= len src.
Proof.
  intros Hok. unfold safe, ParseDelivery, DeliveryLocal, DeliveryTunnel. go_run; (split; [done|intros; simplify_eq; lia]).
Qed.

Lemma ParseUnchecked_bound src :
  bytes_ok src -> safe (ParseUnchecked src) /\ forall m k, ParseUnchecked src = Ok (m, k) -> 16 <= k <= len src.
Proof.
  intros Hok. unfold safe, ParseUnchecked, parseStandard, StandardHeaderLen. go_run; (split; [done|intros; simplify_eq; lia]).
Qed.

Lemma ParseClove_bound src :
  bytes_ok src -> safe (ParseClove src) /\ forall c k, ParseClove src = Ok (c, k) -> 0 < k <= len src.
Proof.
  intros Hok. unfold safe, ParseClove. destruct (ParseDelivery_bound src Hok) as [Hs1 Hb1].
  destruct (ParseDelivery src) as [[d k1]| |]; cbn [bind]; [|done|by destruct Hs1]. pose proof (Hb1 d k1 eq_refl).
  rewrite slice_from_ok by lia. cbn [bind].
  destruct (ParseUnchecked_bound (sub k1 (len src) src)) as [Hs2 Hb2]; [by apply bytes_ok_sub|].
  destruct (ParseUnchecked _) as [[m k2]| |]; cbn [bind]; [|done|by destruct Hs2]. pose proof (Hb2 m k2 eq_refl) as Hk2.
  rewrite len_sub in Hk2 by lia. destruct (Z.ltb_spec (len src - (k1 + k2)) 15); [done|].
  do 2 (rewrite slice_ok by lia; cbn [bind]; rewrite be_uint_sub by lia; cbn [bind]).
  rewrite slice_from_ok by lia. cbn [bind].
  assert (Hokt : bytes_ok (sub (k1 + k2 + 12) (len src) src)) by (by apply bytes_ok_sub).
  pose proof (ParseCertificate_safe _ Hokt) as Hs3.
  destruct (ParseCertificate _) as [[cert k3]| |] eqn:Hp; cbn [bind]; [|done|by destruct Hs3].
  destruct (ParseCertificate_sound _ _ _ Hokt Hp) as (_ & Hk3 & Hle & _). rewrite len_sub in Hle by lia.
  unfold CertificateLen, CertificateHeader in Hk3. pose proof (len_nonneg (CPayload cert)).
  destruct (negb _); (split; [done|intros; simplify_eq; lia]).
Qed.

(** ** Sets *)

Definition cloves_wire (cs : list Clove) : bytes := concat (clove_wire <$> cs).

Definition trailer (messageID expiration : Z) : bytes := [0] ++ [0] ++ [0] ++ be_bytes 4 messageID ++ be_bytes 8 expiration.

Definition set_wire (cs : list Clove) (messageID expiration : Z) : bytes :=
  [len cs] ++ cloves_wire cs ++ trailer messageID expiration.

Lemma cloves_wire_cons c cs : cloves_wire (c :: cs) = clove_wire c ++ cloves_wire cs.
Proof. done. Qed.

Lemma validClove_ok c : clove_ok c -> validClove c = Ok tt.
Proof.
  intros [[Ht _ _ Htun _] _ Hp _ _]. unfold validClove, validDelivery, DeliveryTunnel.
  replace (_ >? I2PDMaxPayload) with false by lia.
  destruct Ht as [E|[E|[E|E]]]; rewrite E in *; cbn in *; try done. zbool. done.
Qed.

Lemma setLenLoop_ok cs k :
  Forall clove_ok cs -> k + len (cloves_wire cs) <= maxInt -> setLenLoop cs k = Ok (k + len (cloves_wire cs)).
Proof.
  intros Hall. revert k. induction Hall as [|c cs Hc _ IH]; intros k Hk; cbn [setLenLoop].
  { change (len (cloves_wire [])) with 0. by rewrite Z.add_0_r. }
  rewrite cloves_wire_cons, len_app, len_clove_wire in * by done. pose proof (len_nonneg (cloves_wire cs)).
  rewrite validClove_ok by done. cbn [bind]. replace (CloveLen c >? maxInt - k) with false by lia.
  rewrite IH by lia. f_equal. lia.
Qed.

Lemma marshalCloves_ok cs acc dst off :
  Forall clove_ok cs -> off = len acc -> len acc + len (cloves_wire cs) <= len dst ->
  marshalCloves cs off (over acc dst) = Ok (over (acc ++ cloves_wire cs) dst, len acc + len (cloves_wire cs)).
Proof.
  intros Hall. revert acc off. induction Hall as [|c cs Hc _ IH]; intros acc off -> Hroom; cbn [marshalCloves].
  { change (cloves_wire []) with (@nil Z). rewrite app_nil_r. change (len []) with 0. by rewrite Z.add_0_r. }
  rewrite cloves_wire_cons, len_app in *. pose proof (len_nonneg (cloves_wire cs)). pose proof (len_clove_wire c Hc) as Hl.
  rewrite (into_over _ _ _ _ (clove_wire c) (CloveLen c)); [|done|lia|].
  2:{ intros tail Ht. apply MarshalCloveTo_wire; [done|lia]. }
  cbn [bind]. rewrite IH by len_lia. rewrite <- app_assoc. f_equal. f_equal. len_lia.
Qed.

Lemma writeTrailer_ok acc dst off messageID expiration :
  off = len acc -> len acc + 15 <= len dst ->
  writeTrailer (over acc dst) off messageID expiration = Ok (over (acc ++ trailer messageID expiration) dst, off + 15).
Proof.
  intros -> Hroom. unfold writeTrailer, cloveCertificateLen.
  repeat first [ progress cbn [bind] | rewrite write_over by len_lia ].
  unfold trailer. rewrite <- !app_assoc. f_equal. f_equal. lia.
Qed.

Lemma len_set_wire cs messageID expiration : len (set_wire cs messageID expiration) = 16 + len (cloves_wire cs).
Proof. unfold set_wire, trailer. len_lia. Qed.

Lemma MarshalCloveSetTo_wire dst cs messageID expiration :
  Forall clove_ok cs -> len cs <= 255 -> len (set_wire cs messageID expiration) <= len dst <= maxInt ->
  MarshalCloveSetTo dst cs messageID expiration =
    Ok (over (set_wire cs messageID expiration) dst, len (set_wire cs messageID expiration)).
Proof.
  intros Hall Hn. rewrite len_set_wire. intros [Hroom Hmax]. pose proof (len_nonneg (cloves_wire cs)). pose proof (len_nonneg cs).
  unfold MarshalCloveSetTo, CloveSetEncodedLen, cloveSetPrefixLen, cloveSetMetadataLen, cloveCertificateLen.
  replace (len cs >? 255) with false by lia. rewrite setLenLoop_ok by (done || lia). cbn [bind].
  replace (len dst <? _) with false by lia. unfold u8. rewrite Z.mod_small by lia.
  rewrite (over_nil dst) at 1. rewrite write_over by len_lia. cbn [bind app].
  rewrite marshalCloves_ok by (done || len_lia). cbn [bind]. rewrite writeTrailer_ok by len_lia.
  unfold set_wire. do 2 f_equal. len_lia.
Qed.

Lemma skipCloves_wire cs pre rest off :
  Forall clove_ok cs -> off = len pre ->
  skipCloves (length cs) (pre ++ cloves_wire cs ++ rest) off = Ok (len pre + len (cloves_wire cs)).
Proof.
  intros Hall. revert pre off. induction Hall as [|c cs Hc _ IH]; intros pre off ->; cbn [skipCloves length].
  { change (len (cloves_wire [])) with 0. by rewrite Z.add_0_r. }
  pose proof (len_clove_wire c Hc) as Hl. rewrite slice_from_ok by len_lia. cbn [bind].
  rewrite sub_app_r by lia. rewrite Z.sub_diag, sub_all by len_lia.
  rewrite cloves_wire_cons, <- app_assoc, ParseClove_wire by done. cbn [bind].
  rewrite app_assoc, IH by len_lia. f_equal. len_lia.
Qed.

Lemma trailer_certificate messageID expiration :
  ParseCertificate (trailer messageID expiration) = Ok (mkCertificate 0 [], 3).
Proof. apply null_certificate. Qed.

Lemma ParseCloveSet_wire cs messageID expiration :
  Forall clove_ok cs -> len cs <= 255 -> 0 <= messageID < 2 ^ 32 -> 0 <= expiration < 2 ^ 64 ->
  ParseCloveSet (set_wire cs messageID expiration) = Ok (mkSet (len cs) (cloves_wire cs) messageID expiration).
Proof.
  intros Hall Hn Hid Hexp. pose proof (len_set_wire cs messageID expiration) as Hl. pose proof (len_nonneg (cloves_wire cs)).
  unfold ParseCloveSet. rewrite Hl. replace (_ <? 1) with false by lia. unfold set_wire in *.
  rewrite index_app_l by len_lia. change (index [len cs] 0) with (Ok (len cs)). cbn [bind].
  replace (Z.to_nat (len cs)) with (length cs) by (unfold len; lia).
  rewrite skipCloves_wire by done. cbn [bind]. change (len [len cs]) with 1.
  replace (16 + len (cloves_wire cs) - (1 + len (cloves_wire cs)) =? 15) with true by lia. cbn [negb].
  rewrite slice_from_ok by lia. cbn [bind]. rewrite Hl.
  assert (Ht : forall lo hi, 0 <= lo -> sub (1 + len (cloves_wire cs) + lo) (1 + len (cloves_wire cs) + hi)
             ([len cs] ++ cloves_wire cs ++ trailer messageID expiration) = sub lo hi (trailer messageID expiration)).
  { intros lo hi Hlo. rewrite !sub_app_r by len_lia. change (len [len cs]) with 1. f_equal; lia. }
  replace (sub (1 + len (cloves_wire cs)) (16 + len (cloves_wire cs)) _) with (trailer messageID expiration).
  2:{ symmetry. replace (16 + len (cloves_wire cs)) with (1 + len (cloves_wire cs) + 15) by lia.
      rewrite <- (Z.add_0_r (1 + len (cloves_wire cs))) at 1. rewrite Ht by lia. apply sub_all. unfold trailer. len_lia. }
  rewrite trailer_certificate. cbn [bind CType]. change (negb (0 =? CertificateNull) || negb (3 =? 3)) with false. cbn iota.
  rewrite slice_ok by lia. cbn [bind]. do 2 (rewrite slice_ok by lia; cbn [bind]; rewrite be_uint_sub by lia; cbn [bind]).
  rewrite !Ht by lia. unfold trailer. rewrite (sub_app_r [len cs]) by len_lia. change (len [len cs]) with 1.
  rewrite (sub_app_exact (cloves_wire cs)) by lia. go_eval. done.
Qed.

(** What the iterator yields until it stops. *)
Fixpoint readCloves (fuel : nat) (it : bytes * Z) : res (list Clove) :=
  match fuel with
  | O => Panic
  | S fuel =>
      let? (clove, it) := NextClove it in
      match clove with None => Ok [] | Some c => let? cs := readCloves fuel it in Ok (c :: cs) end
  end.

Lemma readCloves_wire cs fuel :
  Forall clove_ok cs -> len cs <= 255 -> (length cs < fuel)%nat -> readCloves fuel (cloves_wire cs, len cs) = Ok cs.
Proof.
  intros Hall. revert fuel. induction Hall as [|c cs Hc _ IH]; intros [|fuel] Hn Hf; cbn [length] in Hf; try lia; cbn [readCloves].
  { done. }
  rewrite len_cons in *. pose proof (len_nonneg cs). unfold NextClove. replace (1 + len cs =? 0) with false by lia.
  rewrite cloves_wire_cons, ParseClove_wire by done. cbn [bind]. pose proof (len_clove_wire c Hc) as Hl.
  rewrite slice_from_ok by len_lia. cbn [bind]. rewrite sub_app_r by lia.
  replace (CloveLen c - len (clove_wire c)) with 0 by lia. rewrite sub_all by len_lia.
  unfold u8. rewrite Z.mod_small by lia. replace (1 + len cs - 1) with (len cs) by lia. rewrite IH by lia. done.
Qed.

Lemma skipCloves_bound count src off :
  bytes_ok src -> 0 <= off <= len src ->
  safe (skipCloves count src off) /\ forall o, skipCloves count src off = Ok o -> off <= o <= len src.
Proof.
  intros Hok. revert off. induction count as [|count IH]; intros off Ho; cbn [skipCloves].
  { split; [done|]. intros o H. simplify_eq. lia. }
  rewrite slice_from_ok by lia. cbn [bind].
  destruct (ParseClove_bound (sub off (len src) src)) as [Hs Hb]; [by apply bytes_ok_sub|].
  destruct (ParseClove _) as [[c k]| |]; cbn [bind]; [|done|by destruct Hs].
  specialize (Hb c k eq_refl). rewrite len_sub in Hb by lia. destruct (IH (off + k)) as [Hs' Hb']; [lia|].
  split; [done|]. intros o Hskip. specialize (Hb' o Hskip). lia.
Qed.

Lemma null_trailer tail :
  bytes_ok tail -> len tail = 15 ->
  match ParseCertificate tail with
  | Ok (c, k) => negb (CType c =? CertificateNull) || negb (k =? 3) = false ->
                 tail = trailer (be_val (sub 3 7 tail)) (be_val (sub 7 15 tail))
  | Err _ => True
  | Panic => False
  end.
Proof.
  intros Hok Hl. pose proof (ParseCertificate_safe tail Hok) as Hs.
  destruct (ParseCertificate tail) as [[c k]| |] eqn:Hp; [|done|done].
  destruct (ParseCertificate_sound tail c k Hok Hp) as (_ & Hk & _ & Hw).
  intros Hn. apply orb_false_iff in Hn as [Ht Hk3]. apply negb_false_iff, Z.eqb_eq in Ht, Hk3. subst k. rewrite Hk3 in *.
  unfold CertificateLen, CertificateHeader in Hk3. assert (Hnil : CPayload c = []) by (apply len_zero_nil; lia).
  unfold certificate_wire in Hw. rewrite Hnil, Ht in Hw.
  assert (Hz : sub 0 3 tail = [0] ++ [0] ++ [0]) by (rewrite Hw; by vm_compute).
  unfold trailer. rewrite !app_assoc, <- (app_assoc [0] [0] [0]), <- Hz. rewrite <- !app_assoc. sub_join. symmetry. by apply sub_all.
Qed.

Lemma ParseCloveSet_inv src :
  bytes_ok src ->
  safe (ParseCloveSet src) /\
  forall s, ParseCloveSet src = Ok s ->
    is_byte (sCount s) /\ src = [sCount s] ++ sCloves s ++ trailer (sMessageID s) (sExpiration s).
Proof.
  intros Hok. unfold safe, ParseCloveSet. destruct (Z.ltb_spec (len src) 1); [done|].
  go_index. cbn [bind]. destruct (skipCloves_bound (Z.to_nat x) src 1 Hok) as [Hs Hsb]; [lia|].
  destruct (skipCloves _ _ _) as [off| |]; cbn [bind]; [|done|by destruct Hs]. specialize (Hsb off eq_refl).
  destruct (Z.eqb_spec (len src - off) 15) as [He|]; cbn [negb]; [|done].
  rewrite slice_from_ok by lia. cbn [bind].
  assert (Hokt : bytes_ok (sub off (len src) src)) by (by apply bytes_ok_sub).
  pose proof (null_trailer _ Hokt ltac:(rewrite len_sub; lia)) as Ht.
  destruct (ParseCertificate _) as [[c k]| |]; cbn [bind]; [|done|done]. destruct (_ || _); [done|].
  rewrite slice_ok by lia. cbn [bind]. do 2 (rewrite slice_ok by lia; cbn [bind]; rewrite be_uint_sub by lia; cbn [bind]).
  split; [done|]. intros s H1. injection H1 as <-. cbn [sCount sCloves sMessageID sExpiration]. split; [done|].
  rewrite !sub_sub in Ht by lia. rewrite <- Ht by done. index_join. sub_join. symmetry. by apply sub_all.
Qed.

Lemma MarshalParsedSetTo_ok s out :
  let w := [sCount s] ++ sCloves s ++ trailer (sMessageID s) (sExpiration s) in
  len w <= len out -> MarshalParsedSetTo s out = Ok (over w out, len w).
Proof.
  intros w Hout. assert (Hl : len w = 16 + len (sCloves s)) by (unfold w, trailer; len_lia). rewrite Hl in *.
  unfold MarshalParsedSetTo, CloveSetLen, cloveSetPrefixLen, cloveSetMetadataLen, cloveCertificateLen.
  replace (_ <? _) with false by lia. rewrite (over_nil out) at 1.
  repeat first [ progress cbn [bind] | rewrite write_over by len_lia | rewrite copy_at_over by len_lia
    | rewrite len_over by len_lia | rewrite Z.min_l by len_lia ].
  cbn [app]. rewrite writeTrailer_ok by len_lia. unfold w. do 2 f_equal. lia.
Qed.

(** C26: Clove sets.  Marshalling well-formed cloves and parsing the bytes gives
    the set with those cloves: the iterator yields exactly them, in order.  On
    arbitrary bytes [ParseCloveSet] returns, and re-encoding an accepted set
    reproduces its bytes. *)
Theorem clove_set_roundtrip cs messageID expiration dst :
  Forall clove_ok cs -> len cs <= 255 -> 0 <= messageID < 2 ^ 32 -> 0 <= expiration < 2 ^ 64 ->
  len (set_wire cs messageID expiration) <= len dst <= maxInt ->
  MarshalCloveSetTo dst cs messageID expiration =
    Ok (over (set_wire cs messageID expiration) dst, len (set_wire cs messageID expiration)) /\
  (exists s, ParseCloveSet (set_wire cs messageID expiration) = Ok s /\
     sMessageID s = messageID /\ sExpiration s = expiration /\ readCloves (S (length cs)) (Cloves s) = Ok cs) /\
  (forall src out, bytes_ok src ->
     safe (ParseCloveSet src) /\
     forall s, ParseCloveSet src = Ok s -> len src <= len out -> MarshalParsedSetTo s out = Ok (over src out, len src)).
Proof.
  intros Hall Hn Hid Hexp Hroom. split; [by apply MarshalCloveSetTo_wire|]. split.
  - eexists. split; [by apply ParseCloveSet_wire|]. split; [done|]. split; [done|]. apply readCloves_wire; [done|done|lia].
  - intros src out Hok. destruct (ParseCloveSet_inv src Hok) as [Hs Hinv]. split; [done|].
    intros s Hp Hout. destruct (Hinv s Hp) as [_ ->]. by apply MarshalParsedSetTo_ok.
Qed.

(** A tunnel delivery with a delay, around a small message. *)
Definition sampleClove : Clove :=
  mkClove (mkDelivery 3 (replicate 32 9) 77 5) (mkMessage (mkHeader 20 1 2) [1; 2; 3]) 8 9.

Lemma sampleClove_ok : clove_ok sampleClove.
Proof.
  split.
  - split; cbn; [auto|split; [reflexivity|apply bytes_ok_check; reflexivity]|intros H; discriminate H|lia|lia].
  - vm_compute. repeat split; congruence.
  - vm_compute. congruence.
  - cbn. lia.
  - cbn. lia.
Qed.

Lemma clove_set_roundtrip_witness :
  exists s, ParseCloveSet (set_wire [sampleClove; sampleClove] 3 4) = Ok s /\
    readCloves 3 (Cloves s) = Ok [sampleClove; sampleClove].
Proof.
  destruct (clove_set_roundtrip [sampleClove; sampleClove] 3 4 (make_bytes 300)) as (_ & (s & H1 & _ & _ & H2) & _).
  - apply Forall_cons; split; [exact sampleClove_ok|]. apply Forall_cons; split; [exact sampleClove_ok|]. apply Forall_nil; exact I.
  - vm_compute. congruence.
  - lia.
  - lia.
  - vm_compute. split; congruence.
  - exists s. exact (conj H1 H2).
Defined.
