(* ===== verification/TunnelCrypto.v ===== *)
(** Layered tunnel encryption, [src/dataplane/internal/tunnel/crypto.go]: the
    double-IV AES-CBC transform of a hop, and the loop of [runtime.go] that
    applies a circuit's transforms to a payload in place.

    The AES block function is a parameter, a permutation of 16-byte blocks per
    key; cipher-block chaining is modelled as the code uses it. *)

From S2P Require Import Prelude Sha256 I2NP Chacha.

(** ** The block cipher *)

Class AES := {
  blockEncrypt : bytes -> bytes -> bytes;
  blockDecrypt : bytes -> bytes -> bytes }.

(** A block: 16 bytes. *)
Definition block_ok (b : bytes) : Prop := len b = 16 /\ bytes_ok b.

Class AESLaws (A : AES) : Prop := {
  encrypt_block k b : block_ok b -> block_ok (blockEncrypt k b);
  decrypt_block k b : block_ok b -> block_ok (blockDecrypt k b);
  decrypt_encrypt k b : block_ok b -> blockDecrypt k (blockEncrypt k b) = b;
  encrypt_decrypt k b : block_ok b -> blockEncrypt k (blockDecrypt k b) = b }.

Section Layers.
Context `{A : AES}.

(** [CryptBlocks] of an encrypting and a decrypting CBC mode with initial value
    [iv], on [n] blocks. *)
Fixpoint cbcEncrypt (n : nat) (key iv src : bytes) : bytes :=
  match n with
  | O => []
  | S n =>
      let c := blockEncrypt key (xor (take 16 src) iv) in
      c ++ cbcEncrypt n key c (drop 16 src)
  end.

Fixpoint cbcDecrypt (n : nat) (key iv src : bytes) : bytes :=
  match n with
  | O => []
  | S n => xor (blockDecrypt key (take 16 src)) iv ++ cbcDecrypt n key (take 16 src) (drop 16 src)
  end.

(** ** A layer: [crypto.go] *)

Definition LayerPayloadSize : Z := 1024.

(** A nil block schedule is [None]; a schedule is its key. *)
Record LayerCipher := mkLayer { layerBlock : option bytes; ivBlock : option bytes; encrypt : bool }.

Definition newLayer (layer ivKey : bytes) (enc : bool) : res LayerCipher :=
  fail_if negb (len layer =? 32) || negb (len ivKey =? 32) with ErrLayerSize ;;
  Ok (mkLayer (Some layer) (Some ivKey) enc).

Definition NewLayerEncryptor (layer ivKey : bytes) : res LayerCipher := newLayer layer ivKey true.
Definition NewLayerDecryptor (layer ivKey : bytes) : res LayerCipher := newLayer layer ivKey false.

(** [dst] may be [src]: the source is read before the bytes it shares with the
    destination are written. *)
Definition Transform (c : LayerCipher) (dst src : bytes) : res bytes :=
  fail_if (len dst <? LayerPayloadSize) || (len src <? LayerPayloadSize) with ErrLayerSize ;;
  match layerBlock c, ivBlock c with
  | Some layer, Some ivKey =>
      let? head := slice src 0 16 in
      let? body := slice src 16 1024 in
      if encrypt c then
        let iv := blockEncrypt ivKey head in
        let? dst := write dst 16 (cbcEncrypt 63 layer iv body) in
        write dst 0 (blockEncrypt ivKey iv)
      else
        let iv := blockDecrypt ivKey head in
        let? dst := write dst 16 (cbcDecrypt 63 layer iv body) in
        write dst 0 (blockDecrypt ivKey iv)
  | _, _ => Err ErrLayerSize
  end.

(** [for index := range transforms]: in place, on [payload[4:]]. *)
Fixpoint transformAll (transforms : list LayerCipher) (payload : bytes) : res bytes :=
  match transforms with
  | [] => Ok payload
  | c :: transforms =>
      let? body := slice_from payload 4 in
      let? body := Transform c body body in
      let? payload := write payload 4 body in
      transformAll transforms payload
  end.
End Layers.

Section Chaining.
Context `{A : AES} `{L : !AESLaws A}.

Lemma block_xor a b : block_ok a -> block_ok b -> block_ok (xor a b).
Proof.
  intros [Ha Hab] [Hb Hbb]. split; [rewrite len_xor; lia|]. unfold xor.
  clear -Hab Hbb. revert b Hbb. induction Hab as [|x a Hx _ IH]; intros b Hbb; [constructor|].
  destruct Hbb as [|y b Hy Hb]; [constructor|]. constructor; [|by apply IH].
  unfold is_byte in *. apply (lxor_bound x y 8); lia.
Qed.

Lemma block_take n src : len src = 16 * Z.of_nat (S n) -> bytes_ok src -> block_ok (take 16 src).
Proof.
  intros Hl Hok. split; [|by apply Forall_take]. unfold len in *. rewrite length_take. lia.
Qed.

Lemma len_drop16 n (src : bytes) : len src = 16 * Z.of_nat (S n) -> len (drop 16 src) = 16 * Z.of_nat n.
Proof. intros Hl. unfold len in *. rewrite length_drop. lia. Qed.

Lemma cbcEncrypt_ok n key iv src :
  block_ok iv -> len src = 16 * Z.of_nat n -> bytes_ok src ->
  len (cbcEncrypt n key iv src) = 16 * Z.of_nat n /\ bytes_ok (cbcEncrypt n key iv src) /\
  cbcDecrypt n key iv (cbcEncrypt n key iv src) = src.
Proof.
  revert iv src. induction n as [|n IH]; intros iv src Hiv Hl Hok; cbn [cbcEncrypt].
  { split; [done|]. split; [constructor|]. symmetry. apply len_zero_nil. lia. }
  pose proof (block_take n src Hl Hok) as Ht. set (c := blockEncrypt key (xor (take 16 src) iv)).
  assert (Hc : block_ok c) by (by apply encrypt_block, block_xor).
  destruct (IH c (drop 16 src) Hc (len_drop16 n src Hl) (Forall_drop _ _ _ Hok)) as (Hl' & Hok' & Hd).
  destruct Hc as [Hcl Hcb]. split; [len_lia|]. split; [by apply bytes_ok_app|]. cbn [cbcDecrypt].
  rewrite take_app_length', drop_app_length' by (unfold len in Hcl; lia). rewrite Hd.
  unfold c. rewrite decrypt_encrypt by (by apply block_xor). rewrite xor_xor by (destruct Ht, Hiv; lia).
  apply take_drop.
Qed.

Lemma cbcDecrypt_ok n key iv src :
  block_ok iv -> len src = 16 * Z.of_nat n -> bytes_ok src ->
  len (cbcDecrypt n key iv src) = 16 * Z.of_nat n /\ bytes_ok (cbcDecrypt n key iv src) /\
  cbcEncrypt n key iv (cbcDecrypt n key iv src) = src.
Proof.
  revert iv src. induction n as [|n IH]; intros iv src Hiv Hl Hok; cbn [cbcDecrypt].
  { split; [done|]. split; [constructor|]. symmetry. apply len_zero_nil. lia. }
  pose proof (block_take n src Hl Hok) as Ht.
  destruct (IH (take 16 src) (drop 16 src) Ht (len_drop16 n src Hl) (Forall_drop _ _ _ Hok)) as (Hl' & Hok' & Hd).
  set (p := xor (blockDecrypt key (take 16 src)) iv).
  assert (Hp : block_ok p) by (by apply block_xor; [apply decrypt_block|]).
  pose proof Hp as [Hpl Hpb]. split; [len_lia|]. split; [by apply bytes_ok_app|]. cbn [cbcEncrypt].
  rewrite take_app_length', drop_app_length' by (unfold len in Hpl; lia).
  assert (Hx : blockEncrypt key (xor p iv) = take 16 src).
  { unfold p. rewrite xor_xor by (destruct (decrypt_block key _ Ht), Hiv; lia). by apply encrypt_decrypt. }
  rewrite Hx, Hd. apply take_drop.
Qed.

(** ** One layer *)

(** What a layer makes of 1024 bytes. *)
Definition layer_of (layer ivKey : bytes) (enc : bool) (p : bytes) : bytes :=
  if enc then
    let iv := blockEncrypt ivKey (sub 0 16 p) in blockEncrypt ivKey iv ++ cbcEncrypt 63 layer iv (sub 16 1024 p)
  else
    let iv := blockDecrypt ivKey (sub 0 16 p) in blockDecrypt ivKey iv ++ cbcDecrypt 63 layer iv (sub 16 1024 p).

Definition payload_ok (p : bytes) : Prop := len p = 1024 /\ bytes_ok p.

Lemma payload_parts p : payload_ok p -> block_ok (sub 0 16 p) /\ len (sub 16 1024 p) = 16 * Z.of_nat 63 /\ bytes_ok (sub 16 1024 p).
Proof.
  intros [Hl Hok]. split; [split; [len_lia|by apply bytes_ok_sub]|]. split; [len_lia|by apply bytes_ok_sub].
Qed.

Lemma layer_of_ok layer ivKey enc p :
  payload_ok p -> payload_ok (layer_of layer ivKey enc p) /\
  layer_of layer ivKey (negb enc) (layer_of layer ivKey enc p) = p.
Proof.
  intros Hp. destruct (payload_parts p Hp) as (Hh & Hl & Hb). unfold layer_of. destruct enc; cbn [negb].
  - set (iv := blockEncrypt ivKey (sub 0 16 p)). assert (Hiv : block_ok iv) by (by apply encrypt_block).
    destruct (cbcEncrypt_ok 63 layer iv _ Hiv Hl Hb) as (Hel & Hek & Hd).
    pose proof (encrypt_block ivKey iv Hiv) as [Hc Hcb].
    split; [split; [len_lia|by apply bytes_ok_app]|].
    rewrite sub_app_exact by lia. rewrite decrypt_encrypt by done.
    rewrite sub_app_r by lia. rewrite Hc. rewrite (sub_all (cbcEncrypt _ _ _ _)) by lia. rewrite Hd.
    unfold iv. rewrite decrypt_encrypt by done. destruct Hp as [Hpl _].
    rewrite (sub_app_split p 0 16 1024) by lia. by apply sub_all.
  - set (iv := blockDecrypt ivKey (sub 0 16 p)). assert (Hiv : block_ok iv) by (by apply decrypt_block).
    destruct (cbcDecrypt_ok 63 layer iv _ Hiv Hl Hb) as (Hel & Hek & Hd).
    pose proof (decrypt_block ivKey iv Hiv) as [Hc Hcb].
    split; [split; [len_lia|by apply bytes_ok_app]|].
    rewrite sub_app_exact by lia. rewrite encrypt_decrypt by done.
    rewrite sub_app_r by lia. rewrite Hc. rewrite (sub_all (cbcDecrypt _ _ _ _)) by lia. rewrite Hd.
    unfold iv. rewrite encrypt_decrypt by done. destruct Hp as [Hpl _].
    rewrite (sub_app_split p 0 16 1024) by lia. by apply sub_all.
Qed.
End Chaining.

Section Transforms.
Context `{A : AES} `{L : !AESLaws A}.

(** A constructed cipher: its two keys. *)
Definition cipher (k : bytes * bytes) (enc : bool) : LayerCipher := mkLayer (Some k.1) (Some k.2) enc.

Lemma Transform_ok k enc dst src :
  1024 <= len dst -> payload_ok (sub 0 1024 src) -> 1024 <= len src ->
  Transform (cipher k enc) dst src =
    Ok (layer_of k.1 k.2 enc (sub 0 1024 src) ++ sub 1024 (len dst) dst).
Proof.
  intros Hd Hp Hs. destruct (payload_parts _ Hp) as (Hh & Hl & Hb). revert Hh Hl Hb.
  rewrite (sub_sub src 0 1024 0 16), (sub_sub src 0 1024 16 1024) by lia. rewrite !Z.add_0_l. intros Hh Hl Hb.
  unfold Transform, cipher, layer_of, LayerPayloadSize. cbn [layerBlock ivBlock encrypt]. zbool. cbn [orb].
  rewrite !slice_ok by lia. cbn [bind]. rewrite (sub_sub src 0 1024 0 16), (sub_sub src 0 1024 16 1024) by lia.
  rewrite !Z.add_0_l.
  assert (Hw : forall c body, block_ok c -> len body = 16 * Z.of_nat 63 ->
    (let? dst := write dst 16 body in write dst 0 c) = Ok ((c ++ body) ++ sub 1024 (len dst) dst)).
  { intros c body [Hc _] Hbody.
    rewrite <- (sub_all dst (len dst)) at 1 by done. rewrite <- (sub_app_split dst 0 16 (len dst)) by lia.
    rewrite <- (sub_app_split dst 16 1024 (len dst)) by lia.
    rewrite write_middle by len_lia. cbn [bind]. rewrite write_prefix by len_lia. by rewrite app_assoc. }
  destruct enc.
  - pose proof (encrypt_block k.2 _ Hh) as Hiv. apply Hw; [by apply encrypt_block|].
    by apply cbcEncrypt_ok.
  - pose proof (decrypt_block k.2 _ Hh) as Hiv. apply Hw; [by apply decrypt_block|].
    by apply cbcDecrypt_ok.
Qed.

(** What a circuit's transforms make of 1024 bytes. *)
Definition layers (ks : list (bytes * bytes)) (enc : bool) (p : bytes) : bytes :=
  fold_left (fun p k => layer_of k.1 k.2 enc p) ks p.

Lemma layers_ok ks enc p : payload_ok p -> payload_ok (layers ks enc p).
Proof.
  revert p. induction ks as [|k ks IH]; intros p Hp; [done|]. apply IH. by apply layer_of_ok.
Qed.

Lemma transformAll_ok ks enc head p :
  len head = 4 -> payload_ok p ->
  transformAll ((fun k => cipher k enc) <$> ks) (head ++ p) = Ok (head ++ layers ks enc p).
Proof.
  intros Hh. revert p. induction ks as [|k ks IH]; intros p Hp; [done|].
  cbn [fmap list_fmap transformAll]. pose proof Hp as [Hl Hb].
  rewrite slice_from_ok by len_lia. rewrite sub_app_r by len_lia. len_simpl.
  replace (4 - len head) with 0 by lia. replace (len head + len p - len head) with (len p) by lia.
  rewrite sub_all by lia. cbn [bind].
  assert (Hsub : sub 0 1024 p = p) by (apply sub_all; lia).
  rewrite Transform_ok by (rewrite ?Hsub; done || lia). rewrite Hsub. cbn [bind].
  rewrite (sub_empty p) by lia. rewrite app_nil_r.
  destruct (layer_of_ok k.1 k.2 enc p Hp) as [[Hl' Hb'] _].
  rewrite <- (app_nil_r p) at 1. rewrite write_middle by len_lia. cbn [bind].
  rewrite app_nil_r. apply IH. done.
Qed.

(** Layers applied in the opposite order with the inverse ciphers cancel. *)
Lemma layers_cancel ks enc p : payload_ok p -> layers ks enc (layers (rev ks) (negb enc) p) = p.
Proof.
  revert p. induction ks as [|k ks IH]; intros p Hp; [done|].
  cbn [rev]. unfold layers at 2. rewrite fold_left_app. cbn [fold_left].
  fold (layers (rev ks) (negb enc) p). unfold layers at 1. cbn [fold_left].
  pose proof (layers_ok (rev ks) (negb enc) p Hp) as Hq.
  destruct (layer_of_ok k.1 k.2 (negb enc) _ Hq) as [_ Hinv]. rewrite negb_involutive in Hinv. rewrite Hinv.
  by apply IH.
Qed.
End Transforms.

(** ** A block permutation for the witnesses *)

Module Rotation.

(** A block permutation per key: a rotation. *)
Definition turn (k : bytes) : nat := Z.to_nat (hd 0 k mod 16).

#[export] Instance rotation : AES := {
  blockEncrypt k b := drop (turn k) b ++ take (turn k) b;
  blockDecrypt k b := drop (16 - turn k) b ++ take (16 - turn k) b }.

Lemma turn_lt k : (turn k < 16)%nat.
Proof. unfold turn. pose proof (Z.mod_pos_bound (hd 0 k) 16). lia. Qed.

Lemma rotate_block n b : block_ok b -> block_ok (drop n b ++ take n b).
Proof.
  intros [Hl Hb]. split.
  - unfold len in *. rewrite length_app, length_drop, length_take. lia.
  - apply bytes_ok_app. split; [by apply Forall_drop|by apply Forall_take].
Qed.

Lemma rotate_back n b : (n <= 16)%nat -> block_ok b ->
  drop (16 - n) (drop n b ++ take n b) ++ take (16 - n) (drop n b ++ take n b) = b.
Proof.
  intros Hn [Hl _]. unfold len in Hl. assert (Hd : length (drop n b) = (16 - n)%nat) by (rewrite length_drop; lia).
  rewrite drop_app_length', take_app_length' by lia. apply take_drop.
Qed.

#[export] Instance rotation_laws : AESLaws rotation.
Proof.
  constructor; intros k b Hb; cbn [blockEncrypt blockDecrypt rotation]; pose proof (turn_lt k).
  - by apply rotate_block.
  - by apply rotate_block.
  - apply rotate_back; [lia|done].
  - pose proof (rotate_back (16 - turn k) b ltac:(lia) Hb) as Hr.
    by replace (16 - (16 - turn k))%nat with (turn k) in Hr by lia.
Qed.
End Rotation.
