(* ===== verification/NTCP2Handshake.v ===== *)
(** The NTCP2 handshake, [src/dataplane/internal/transport/ntcp2/handshake.go]
    and [session.go]: the three Noise XK messages with their AES obfuscation,
    seen from the initiator and the responder, and the data session both
    derive.

    X25519 ([crypto/ecdh]) and the AES block function are parameters; a fresh
    ephemeral key is an argument, the outcome of [GenerateKey].  [nil] states
    and keys are [None]. *)

From S2P Require Import Prelude Sha256 Wire Chacha NTCP2 TunnelCrypto Noise.
From Stdlib Require Strings.String.
Import String.StringSyntax.

Definition HandshakeProtocol : bytes := str "Noise_XKaesobfse+hs2+hs3_25519_ChaChaPoly_SHA256".
Definition SessionRequestCiphertextLen : Z := 64.
Definition MaxSessionRequestLen : Z := 65535.
Definition LegacyNTCPMaxSessionRequestLen : Z := 287.

(** ** Option blocks *)

Record SessionRequestOptions := mkRequestOptions {
  NetworkID : Z; Version : Z; RPaddingLength : Z; Message3Part2Length : Z; RTimestamp : Z }.

Definition marshalRequestOptions (o : SessionRequestOptions) : bytes :=
  [NetworkID o; Version o] ++ be_bytes 2 (RPaddingLength o) ++ be_bytes 2 (Message3Part2Length o) ++
  make_bytes 2 ++ be_bytes 4 (RTimestamp o) ++ make_bytes 4.

Definition parseSessionRequestOptions (src : bytes) (expectedNetwork : Z) : res SessionRequestOptions :=
  fail_if negb (len src =? 16) with NTCP2_ErrHandshake ;;
  let? b0 := index src 0 in
  let? b1 := index src 1 in
  let? f := slice src 2 4 in
  let? padding := be_uint 2 f in
  let? f := slice src 4 6 in
  let? part2 := be_uint 2 f in
  let? f := slice src 8 12 in
  let? timestamp := be_uint 4 f in
  let? z6 := index src 6 in
  let? z7 := index src 7 in
  let? z12 := index src 12 in
  let? z13 := index src 13 in
  let? z14 := index src 14 in
  let? z15 := index src 15 in
  fail_if negb (b0 =? expectedNetwork) || negb (b1 =? 2) || negb (z6 =? 0) || negb (z7 =? 0) ||
          negb (z12 =? 0) || negb (z13 =? 0) || negb (z14 =? 0) || negb (z15 =? 0) with NTCP2_ErrNetwork ;;
  Ok (mkRequestOptions b0 b1 padding part2 timestamp).

Record SessionCreatedOptions := mkCreatedOptions { CPaddingLength : Z; CTimestamp : Z }.

Definition marshalCreatedOptions (o : SessionCreatedOptions) : bytes :=
  make_bytes 2 ++ be_bytes 2 (CPaddingLength o) ++ make_bytes 4 ++ be_bytes 4 (CTimestamp o) ++ make_bytes 4.

Definition parseSessionCreatedOptions (src : bytes) : res SessionCreatedOptions :=
  fail_if negb (len src =? 16) with NTCP2_ErrHandshake ;;
  let? z0 := index src 0 in
  let? z1 := index src 1 in
  let? z4 := index src 4 in
  let? z5 := index src 5 in
  let? z6 := index src 6 in
  let? z7 := index src 7 in
  let? z12 := index src 12 in
  let? z13 := index src 13 in
  let? z14 := index src 14 in
  let? z15 := index src 15 in
  fail_if negb (z0 =? 0) || negb (z1 =? 0) || negb (z4 =? 0) || negb (z5 =? 0) || negb (z6 =? 0) ||
          negb (z7 =? 0) || negb (z12 =? 0) || negb (z13 =? 0) || negb (z14 =? 0) || negb (z15 =? 0)
    with NTCP2_ErrHandshake ;;
  let? f := slice src 2 4 in
  let? padding := be_uint 2 f in
  let? f := slice src 8 12 in
  let? timestamp := be_uint 4 f in
  Ok (mkCreatedOptions padding timestamp).

(** ** Obfuscation *)

Section Code.
Context `{P : Primitives} `{A : AES} `{C : Curve}.

(** The loops of [aesCBCEncrypt] and [aesCBCDecrypt] over [n] blocks. *)
Fixpoint encryptBlocks (n : nat) (key previous plaintext : bytes) : bytes :=
  match n with
  | O => []
  | S n =>
      let block := blockEncrypt key (xor (take 16 plaintext) previous) in
      block ++ encryptBlocks n key block (drop 16 plaintext)
  end.

Fixpoint decryptBlocks (n : nat) (key previous ciphertext : bytes) : bytes :=
  match n with
  | O => []
  | S n =>
      let current := take 16 ciphertext in
      xor (blockDecrypt key current) previous ++ decryptBlocks n key current (drop 16 ciphertext)
  end.

(** [dst] after the call; [dstLen] is [len(dst)]. *)
Definition aesCBCEncrypt (dstLen : Z) (plaintext key iv : bytes) : res bytes :=
  fail_if negb (len plaintext =? dstLen) || negb (len plaintext mod 16 =? 0) || negb (len key =? 32) || negb (len iv =? 16)
    with NTCP2_ErrHandshake ;;
  Ok (encryptBlocks (Z.to_nat (len plaintext / 16)) key iv plaintext).

Definition aesCBCDecrypt (dstLen : Z) (ciphertext key iv : bytes) : res bytes :=
  fail_if negb (len ciphertext =? dstLen) || negb (len ciphertext mod 16 =? 0) || negb (len key =? 32) || negb (len iv =? 16)
    with NTCP2_ErrHandshake ;;
  Ok (decryptBlocks (Z.to_nat (len ciphertext / 16)) key iv ciphertext).

(** ** The two roles *)

(** [Initiator] and [Responder] have the same fields. *)
Record party := mkParty {
  state : option SymmetricState; ephemeral : option bytes; peerEphemeral : option bytes;
  message3Part2Length : Z; aesState : bytes; completed : bool; dataSessionTaken : bool }.

Definition set_state (s : option SymmetricState) (p : party) : party :=
  mkParty s (ephemeral p) (peerEphemeral p) (message3Part2Length p) (aesState p) (completed p) (dataSessionTaken p).
Definition set_ephemeral (k : option bytes) (p : party) : party :=
  mkParty (state p) k (peerEphemeral p) (message3Part2Length p) (aesState p) (completed p) (dataSessionTaken p).
Definition set_peer (k : option bytes) (p : party) : party :=
  mkParty (state p) (ephemeral p) k (message3Part2Length p) (aesState p) (completed p) (dataSessionTaken p).
Definition set_part2 (n : Z) (p : party) : party :=
  mkParty (state p) (ephemeral p) (peerEphemeral p) n (aesState p) (completed p) (dataSessionTaken p).
Definition set_aes (b : bytes) (p : party) : party :=
  mkParty (state p) (ephemeral p) (peerEphemeral p) (message3Part2Length p) b (completed p) (dataSessionTaken p).
Definition set_completed (p : party) : party :=
  mkParty (state p) (ephemeral p) (peerEphemeral p) (message3Part2Length p) (aesState p) true (dataSessionTaken p).
Definition set_taken (p : party) : party :=
  mkParty (state p) (ephemeral p) (peerEphemeral p) (message3Part2Length p) (aesState p) (completed p) true.

(** A method of the party's symmetric state. *)
Definition on {B} (m : go SymmetricState B) : go party B :=
  fun p => match state p with
           | Some s => let (r, s') := m s in (r, set_state (Some s') p)
           | None => (Err ErrSensitiveReleased, p)
           end.

(** A call whose error result is discarded. *)
Definition discard {S} (m : go S unit) : go S unit := fun s => (Ok tt, (m s).2).

Definition isNil {B} (x : option B) : bool := match x with None => true | Some _ => false end.

(** [clearHandshake], also [ReleaseSensitive] of both roles. *)
Definition clearHandshake (p : party) : party :=
  mkParty None None None (message3Part2Length p) (make_bytes 16) (completed p) (dataSessionTaken p).

(** *** Message one *)

Definition NewInitiator (remoteStatic : bytes) (generated : res bytes) : res party :=
  let? static := NewPublicKey remoteStatic in
  let s := Initialize HandshakeProtocol in
  let s := (MixHash [] s).2 in
  let s := (MixHash static s).2 in
  let? e := generated in
  let s := (MixHash (publicOf e) s).2 in
  let? shared := ecdh e static in
  match MixKey shared s with
  | (Ok _, s) => Ok (mkParty (Some s) (Some e) None 0 (make_bytes 16) false false)
  | (Err err, _) => Err err
  | (Panic, _) => Panic
  end.

(** [dst] after the call; the message is its first [total] bytes. *)
Definition BuildSessionRequest (dst remoteHash remoteIV padding : bytes) (options : SessionRequestOptions)
    (legacyNTCPPort : bool) : go party (bytes * Z) :=
  let! i := get in
  match ephemeral i with
  | None => fail NTCP2_ErrHandshake
  | Some e =>
      if isNil (state i) || negb (len remoteHash =? 32) || negb (len remoteIV =? 16) ||
         (len padding >? MaxSessionRequestLen - SessionRequestCiphertextLen) then fail NTCP2_ErrHandshake
      else if negb (RPaddingLength options =? len padding) then fail NTCP2_ErrHandshake
      else
        let total := SessionRequestCiphertextLen + len padding in
        if legacyNTCPPort && (total >? LegacyNTCPMaxSessionRequestLen) || (total >? MaxSessionRequestLen)
        then fail NTCP2_ErrHandshake
        else if len dst <? total then fail ErrShortBuffer
        else
          let! region := lift (aesCBCEncrypt 32 (publicOf e) remoteHash remoteIV) in
          let! dst := lift (write dst 0 region) in
          let encodedOptions := marshalRequestOptions options in
          let! region := lift (slice dst 32 64) in
          let! (region, n) := on (EncryptAndHash region encodedOptions) in
          let! dst := lift (write dst 32 region) in
          if negb (n =? 32) then fail NTCP2_ErrHandshake
          else
            let! dst := lift (write dst 64 padding) in
            let! block := lift (slice dst 16 32) in
            let! i := get in
            let! _ := put (set_part2 (Message3Part2Length options) (set_aes block i)) in
            let! _ := discard (on (MixHash padding)) in
            ret (dst, total)
  end.

Definition parseSessionRequestHeader (src staticPrivate remoteHash remoteIV : bytes) (expectedNetwork : Z) :
    res (party * SessionRequestOptions) :=
  fail_if negb (len src =? SessionRequestCiphertextLen) || negb (len remoteHash =? 32) || negb (len remoteIV =? 16)
    with NTCP2_ErrHandshake ;;
  let? private := NewPrivateKey staticPrivate in
  let? head := slice src 0 32 in
  let? peerBytes := aesCBCDecrypt 32 head remoteHash remoteIV in
  let? peer := NewPublicKey peerBytes in
  let s := Initialize HandshakeProtocol in
  let s := (MixHash [] s).2 in
  let s := (MixHash (publicOf private) s).2 in
  let s := (MixHash peer s).2 in
  let? shared := ecdh private peer in
  let? tail := slice src 32 64 in
  match (let! _ := MixKey shared in DecryptAndHash (make_bytes 16) tail) s with
  | (Ok plain, s) =>
      let? options := parseSessionRequestOptions plain expectedNetwork in
      let? block := slice src 16 32 in
      Ok (mkParty (Some s) None (Some peer) (Message3Part2Length options) block false false, options)
  | (Err e, _) => Err e
  | (Panic, _) => Panic
  end.

Definition finishSessionRequest (responder : party) (padding : bytes) (options : SessionRequestOptions)
    (legacyNTCPPort : bool) : res party :=
  let total := SessionRequestCiphertextLen + len padding in
  fail_if negb (len padding =? RPaddingLength options) || (total >? MaxSessionRequestLen) ||
          legacyNTCPPort && (total >? LegacyNTCPMaxSessionRequestLen) with NTCP2_ErrHandshake ;;
  Ok ((discard (on (MixHash padding)) responder).2).

Definition ParseSessionRequest (src staticPrivate remoteHash remoteIV : bytes) (expectedNetwork : Z)
    (legacyNTCPPort : bool) : res (party * SessionRequestOptions) :=
  fail_if (len src <? SessionRequestCiphertextLen) || (len src >? MaxSessionRequestLen) ||
          legacyNTCPPort && (len src >? LegacyNTCPMaxSessionRequestLen) with NTCP2_ErrHandshake ;;
  let? header := slice src 0 SessionRequestCiphertextLen in
  let? (responder, options) := parseSessionRequestHeader header staticPrivate remoteHash remoteIV expectedNetwork in
  let? padding := slice_from src SessionRequestCiphertextLen in
  let? responder := finishSessionRequest responder padding options legacyNTCPPort in
  Ok (responder, options).

(** From a stream: the result and the unread bytes. *)
Definition ReadSessionRequest (stream staticPrivate remoteHash remoteIV : bytes) (expectedNetwork : Z)
    (legacyNTCPPort : bool) : res (party * SessionRequestOptions) * bytes :=
  match readFull SessionRequestCiphertextLen stream with
  | (None, stream) => (Err ErrRead, stream)
  | (Some header, stream) =>
      match parseSessionRequestHeader header staticPrivate remoteHash remoteIV expectedNetwork with
      | Ok (responder, options) =>
          match readFull (RPaddingLength options) stream with
          | (None, stream) => (Err ErrRead, stream)
          | (Some padding, stream) =>
              (let? responder := finishSessionRequest responder padding options legacyNTCPPort in
               Ok (responder, options), stream)
          end
      | Err e => (Err e, stream)
      | Panic => (Panic, stream)
      end
  end.

(** *** Message two *)

(** [dst] after the call; the message is its first [total] bytes. *)
Definition BuildSessionCreated (dst remoteHash padding : bytes) (options : SessionCreatedOptions)
    (generated : res bytes) : go party (bytes * Z) :=
  let! r := get in
  match peerEphemeral r with
  | None => fail NTCP2_ErrHandshake
  | Some peer =>
      if isNil (state r) || negb (len remoteHash =? 32) || negb (CPaddingLength options =? len padding) ||
         (len padding >? MaxSessionRequestLen - SessionRequestCiphertextLen) ||
         (len dst <? SessionRequestCiphertextLen + len padding) then fail NTCP2_ErrHandshake
      else
        let! e := lift generated in
        let! _ := discard (on (MixHash (publicOf e))) in
        let! shared := lift (ecdh e peer) in
        let! _ := on (MixKey shared) in
        let total := SessionRequestCiphertextLen + len padding in
        let! region := lift (aesCBCEncrypt 32 (publicOf e) remoteHash (aesState r)) in
        let! dst := lift (write dst 0 region) in
        let encoded := marshalCreatedOptions options in
        let! region := lift (slice dst 32 64) in
        let! (region, _) := on (EncryptAndHash region encoded) in
        let! dst := lift (write dst 32 region) in
        let! dst := lift (write dst 64 padding) in
        let! _ := discard (on (MixHash padding)) in
        let! r := get in
        let! _ := put (set_ephemeral (Some e) r) in
        ret (dst, total)
  end.

Definition parseSessionCreatedHeader (src remoteHash : bytes) : go party SessionCreatedOptions :=
  let! i := get in
  match ephemeral i with
  | None => fail NTCP2_ErrHandshake
  | Some e =>
      if isNil (state i) || negb (len src =? SessionRequestCiphertextLen) || negb (len remoteHash =? 32)
      then fail NTCP2_ErrHandshake
      else
        let! head := lift (slice src 0 32) in
        let! peerBytes := lift (aesCBCDecrypt 32 head remoteHash (aesState i)) in
        let! peer := lift (NewPublicKey peerBytes) in
        let! _ := discard (on (MixHash peer)) in
        let! shared := lift (ecdh e peer) in
        let! _ := on (MixKey shared) in
        let! tail := lift (slice src 32 64) in
        let! plain := on (DecryptAndHash (make_bytes 16) tail) in
        let! options := lift (parseSessionCreatedOptions plain) in
        let! i := get in
        let! _ := put (set_peer (Some peer) i) in
        ret options
  end.

Definition finishSessionCreated (padding : bytes) (options : SessionCreatedOptions) : go party unit :=
  if negb (len padding =? CPaddingLength options) ||
     (SessionRequestCiphertextLen + len padding >? MaxSessionRequestLen) then fail NTCP2_ErrHandshake
  else discard (on (MixHash padding)).

Definition ParseSessionCreated (src remoteHash : bytes) : go party SessionCreatedOptions :=
  let! i := get in
  if isNil (state i) || isNil (ephemeral i) || (len src <? SessionRequestCiphertextLen) || (len src >? MaxSessionRequestLen)
  then fail NTCP2_ErrHandshake
  else
    let! header := lift (slice src 0 SessionRequestCiphertextLen) in
    let! options := parseSessionCreatedHeader header remoteHash in
    let! padding := lift (slice_from src SessionRequestCiphertextLen) in
    let! _ := finishSessionCreated padding options in
    ret options.

(** From a stream; the state is the initiator and the unread bytes. *)
Definition ReadSessionCreated (remoteHash : bytes) : go (party * bytes) SessionCreatedOptions :=
  fun '(i, stream) =>
    if isNil (state i) || isNil (ephemeral i) then (Err NTCP2_ErrHandshake, (i, stream))
    else match readFull SessionRequestCiphertextLen stream with
    | (None, stream) => (Err ErrRead, (i, stream))
    | (Some header, stream) =>
        match parseSessionCreatedHeader header remoteHash i with
        | (Ok options, i) =>
            match readFull (CPaddingLength options) stream with
            | (None, stream) => (Err ErrRead, (i, stream))
            | (Some padding, stream) =>
                match finishSessionCreated padding options i with
                | (Ok _, i) => (Ok options, (i, stream))
                | (Err e, i) => (Err e, (i, stream))
                | (Panic, i) => (Panic, (i, stream))
                end
            end
        | (Err e, i) => (Err e, (i, stream))
        | (Panic, i) => (Panic, (i, stream))
        end
    end.

(** *** Message three *)

(** [dst] after the call; the message is its first [64 + len payload] bytes. *)
Definition BuildSessionConfirmed (dst staticPrivate payload : bytes) : go party (bytes * Z) :=
  let! i := get in
  match peerEphemeral i with
  | None => fail NTCP2_ErrHandshake
  | Some peer =>
      if isNil (state i) || completed i || negb (len payload + 16 =? message3Part2Length i) ||
         (len payload + 64 >? MaxSessionRequestLen) || (len dst <? 64 + len payload) then fail NTCP2_ErrHandshake
      else
        let! private := lift (NewPrivateKey staticPrivate) in
        let! region := lift (slice dst 0 48) in
        let! (region, _) := on (EncryptAndHash region (publicOf private)) in
        let! dst := lift (write dst 0 region) in
        let! shared := lift (ecdh private peer) in
        let! _ := on (MixKey shared) in
        let! region := lift (slice dst 48 (48 + len payload + 16)) in
        let! (region, _) := on (EncryptAndHash region payload) in
        let! dst := lift (write dst 48 region) in
        let! i := get in
        let! _ := put (set_completed i) in
        ret (dst, 64 + len payload)
  end.

(** The initiator's static key and the payload. *)
Definition ParseSessionConfirmed (src : bytes) : go party (bytes * bytes) :=
  let! r := get in
  match ephemeral r with
  | None => fail NTCP2_ErrHandshake
  | Some e =>
      if isNil (state r) || completed r || (len src <? 64) || (len src >? MaxSessionRequestLen) ||
         negb (len src - 48 =? message3Part2Length r) then fail NTCP2_ErrHandshake
      else
        let! head := lift (slice src 0 48) in
        let! static := on (DecryptAndHash (make_bytes 32) head) in
        let! peerStatic := lift (NewPublicKey static) in
        let! shared := lift (ecdh e peerStatic) in
        let! _ := on (MixKey shared) in
        let! tail := lift (slice_from src 48) in
        let! payload := on (DecryptAndHash (make_bytes (len src - 64)) tail) in
        let! r := get in
        let! _ := put (set_completed r) in
        ret (static, payload)
  end.

(** *** Sessions, [session.go]

    The directions are nil once the session is closed; the stream state is the
    bytes sent or still to be received. *)
Record Session := mkSession { send : option Direction; receive : option Direction; connClosed : bool }.

Definition NewSession (s r : Direction) : Session := mkSession (Some s) (Some r) false.

Definition SessionWrite (plaintext : bytes) : go (Session * bytes) unit :=
  fun '(s, stream) =>
    match send s with
    | None => (Err ErrNetClosed, (s, stream))
    | Some d => match WriteFrame plaintext (d, stream) with
                | (r, (d, stream)) => (r, (mkSession (Some d) (receive s) (connClosed s), stream))
                end
    end.

Definition SessionRead (dst : bytes) : go (Session * bytes) bytes :=
  fun '(s, stream) =>
    match receive s with
    | None => (Err ErrNetClosed, (s, stream))
    | Some d => match ReadFrame dst (d, stream) with
                | (r, (d, stream)) => (r, (mkSession (send s) (Some d) (connClosed s), stream))
                end
    end.

(** [Close], the first and any later call ([closeOnce]). *)
Definition SessionClose (s : Session) : Session :=
  if connClosed s then s else mkSession None None true.
(** *** The data phase *)

Definition hmac256 (key first second third : bytes) : bytes := hmacSHA256 key (first ++ second ++ third).

Definition newDataSession (s : SymmetricState) (initiator : bool) : res Session :=
  let ck := ChainingKey s in
  let handshakeHash := Hash s in
  let temp := hmac256 ck [] [] [] in
  let kab := hmac256 temp [1] [] [] in
  let kba := hmac256 temp kab [2] [] in
  let askMaster := hmac256 temp (str "ask") [1] [] in
  let temp := hmac256 askMaster handshakeHash (str "siphash") [] in
  let sipMaster := hmac256 temp [1] [] [] in
  let temp := hmac256 sipMaster [] [] [] in
  let sipAB := hmac256 temp [1] [] [] in
  let sipBA := hmac256 temp sipAB [2] [] in
  let? a := slice sipAB 0 16 in
  let? b := slice sipAB 16 24 in
  let? ab := NewDirection kab a b in
  let? a := slice sipBA 0 16 in
  let? b := slice sipBA 16 24 in
  let? ba := NewDirection kba a b in
  if initiator then Ok (NewSession ab ba) else Ok (NewSession ba ab).

(** [NewDataSession] of both roles; [connected] when the connection is not nil. *)
Definition NewDataSession (initiator connected : bool) : go party Session :=
  let! p := get in
  match state p with
  | None => fail NTCP2_ErrHandshake
  | Some s =>
      if negb connected || negb (completed p) || dataSessionTaken p then fail NTCP2_ErrHandshake
      else
        let! session := lift (newDataSession s initiator) in
        let! _ := put (clearHandshake (set_taken p)) in
        ret session
  end.

End Code.

Section Agreement.
Context `{P : Primitives} {PL : PrimitivesLaws P} `{A : AES} {AL : AESLaws A} `{C : Curve} {CL : CurveLaws C}.

Lemma be2_list v : 0 <= v < 2 ^ 16 -> exists a b, be_bytes 2 v = [a; b] /\ be_val [a; b] = v.
Proof. intros Hv. cbn [be_bytes]. eexists _, _. split; [done|]. apply (be_val_small 2 v). lia. Qed.

Lemma be4_list v : 0 <= v < 2 ^ 32 -> exists a b c d, be_bytes 4 v = [a; b; c; d] /\ be_val [a; b; c; d] = v.
Proof. intros Hv. cbn [be_bytes]. eexists _, _, _, _. split; [done|]. apply (be_val_small 4 v). lia. Qed.

Lemma request_options o :
  Version o = 2 -> 0 <= RPaddingLength o < 2 ^ 16 ->
  0 <= Message3Part2Length o < 2 ^ 16 -> 0 <= RTimestamp o < 2 ^ 32 ->
  parseSessionRequestOptions (marshalRequestOptions o) (NetworkID o) = Ok o.
Proof.
  destruct o as [n v p m t]. unfold marshalRequestOptions.
  cbn [NetworkID Version RPaddingLength Message3Part2Length RTimestamp].
  intros -> Hp Hm Ht. 
  destruct (be2_list p Hp) as (p1 & p2 & -> & Ep), (be2_list m Hm) as (m1 & m2 & -> & Em),
    (be4_list t Ht) as (t1 & t2 & t3 & t4 & -> & Et).
  cbv -[be_val Z.eqb]. rewrite !Z.eqb_refl, Ep, Em, Et. reflexivity.
Qed.

Lemma created_options o :
  0 <= CPaddingLength o < 2 ^ 16 -> 0 <= CTimestamp o < 2 ^ 32 ->
  parseSessionCreatedOptions (marshalCreatedOptions o) = Ok o.
Proof.
  destruct o as [p t]. unfold marshalCreatedOptions. cbn [CPaddingLength CTimestamp]. intros Hp Ht.
  destruct (be2_list p Hp) as (p1 & p2 & -> & Ep), (be4_list t Ht) as (t1 & t2 & t3 & t4 & -> & Et).
  cbv -[be_val]. by rewrite Ep, Et.
Qed.

Lemma len_request_options o : len (marshalRequestOptions o) = 16.
Proof. reflexivity. Qed.

Lemma len_created_options o : len (marshalCreatedOptions o) = 16.
Proof. reflexivity. Qed.

(** Obfuscating a key and reading it back, with the last block as the next
    initial value. *)
Lemma obfuscated key iv k : len key = 32 -> block_ok iv -> len k = 32 -> bytes_ok k ->
  exists x, aesCBCEncrypt 32 k key iv = Ok x /\ aesCBCDecrypt 32 x key iv = Ok k /\ len x = 32 /\ block_ok (sub 16 32 x).
Proof.
  intros Hkey Hiv Hk Hok. unfold aesCBCEncrypt, aesCBCDecrypt. rewrite Hk, Hkey, (proj1 Hiv).
  change (encryptBlocks (A := A)) with (cbcEncrypt (A := A)). change (decryptBlocks (A := A)) with (cbcDecrypt (A := A)).
  change (Z.to_nat (32 / 16)) with 2%nat. cbn [Z.eqb Pos.eqb negb orb]. 
  destruct (cbcEncrypt_ok 2 key iv k Hiv Hk Hok) as (Hl & Hb & Hd).
  exists (cbcEncrypt 2 key iv k). rewrite Hl. change (32 mod 16 =? 0) with true. change (16 * Z.of_nat 2) with 32 in *.
  change (Z.to_nat (32 / 16)) with 2%nat.
  cbn [Z.eqb Pos.eqb negb orb]. rewrite Hd. split_and!; [done|done|done|]. split; [len_lia|by apply bytes_ok_sub].
Qed.

(** ** Message one *)

(** The transcript both sides have when the request is sealed. *)
Definition opening (static e secret : bytes) : SymmetricState :=
  rekeyed secret (mixed e (mixed static (mixed [] (Initialize HandshakeProtocol)))).

Lemma NewInitiator_ok static e secret :
  len static = 32 -> sharedWith e static = Some secret ->
  NewInitiator static (Ok e) = Ok (mkParty (Some (opening static (publicOf e) secret)) (Some e) None 0 (make_bytes 16) false false).
Proof.
  intros Hs He. unfold NewInitiator, NewPublicKey, ecdh. rewrite Hs. cbn [Z.eqb Pos.eqb negb bind]. rewrite He. cbn [bind].
  rewrite !MixHash_ok by reflexivity. cbn [snd]. rewrite MixKey_ok by reflexivity. reflexivity.
Qed.

Lemma on_ok {B} (m : go SymmetricState B) s r s' e pe m3 a c t :
  m s = (Ok r, s') -> on m (mkParty (Some s) e pe m3 a c t) = (Ok r, mkParty (Some s') e pe m3 a c t).
Proof. intros H. unfold on. cbn [state]. by rewrite H. Qed.

Lemma mix_ok data s e pe m3 a c t : sreleased s = false ->
  discard (on (MixHash data)) (mkParty (Some s) e pe m3 a c t) = (Ok tt, mkParty (Some (mixed data s)) e pe m3 a c t).
Proof. intros H. unfold discard. by rewrite (on_ok _ _ tt (mixed data s)) by (by apply MixHash_ok). Qed.

(** Sealing into a region of exactly the ciphertext's length. *)
Lemma seal_exact s c dst p : keyed s c -> len dst = len p + 16 ->
  EncryptAndHash dst p s = (Ok (sealed s c p, len p + 16), after (sealed s c p) s).
Proof.
  intros Hk Hd. rewrite EncryptAndHash_ok with (c := c) by (done || lia). unfold over.
  rewrite sub_empty, app_nil_r by (rewrite len_sealed; lia). done.
Qed.


(** A buffer written from the start: the region past the prefix, and writing
    there. *)
Lemma over_slice (acc dst : bytes) lo hi : lo = len acc -> lo <= hi -> hi <= len dst ->
  exists region, slice (over acc dst) lo hi = Ok region /\ len region = hi - lo.
Proof.
  intros. len_pos. eexists. split; [apply slice_ok; rewrite ?len_over; lia|]. rewrite len_sub; rewrite ?len_over; lia.
Qed.

Lemma write_first (dst x : bytes) : len x <= len dst -> write dst 0 x = Ok (over x dst).
Proof. intros. rewrite (over_nil dst) at 1. rewrite write_over by (done || len_lia). done. Qed.

(** What the caller supplies for the request. *)
Definition request_fits (dst hash iv pad : bytes) (o : SessionRequestOptions) (legacy : bool) : Prop :=
  len hash = 32 /\ block_ok iv /\ RPaddingLength o = len pad /\ 64 + len pad <= 65535 /\
  (legacy = true -> 64 + len pad <= 287) /\ 64 + len pad <= len dst.

Lemma request_ok s c e x dst hash iv pad o legacy pe m3 a f g :
  keyed s c -> request_fits dst hash iv pad o legacy ->
  aesCBCEncrypt 32 (publicOf e) hash iv = Ok x -> len x = 32 ->
  let ct := sealed s c (marshalRequestOptions o) in
  BuildSessionRequest dst hash iv pad o legacy (mkParty (Some s) (Some e) pe m3 a f g) =
    (Ok (over (x ++ ct ++ pad) dst, 64 + len pad),
     mkParty (Some (mixed pad (after ct s))) (Some e) pe (Message3Part2Length o) (sub 16 32 x) f g).
Proof.
  intros Hk (Hh & Hiv & Hpad & Hmax & Hleg & Hdst) Hx Hlx ct. len_pos.
  assert (Hct : len ct = 32) by (unfold ct; rewrite len_sealed, len_request_options; lia).
  unfold BuildSessionRequest. go_get.
  cbn [ephemeral state isNil]. rewrite Hh, (proj1 Hiv), Hpad, Z.eqb_refl.
  unfold MaxSessionRequestLen, SessionRequestCiphertextLen, LegacyNTCPMaxSessionRequestLen. zbool.
  replace (legacy && _) with false by (destruct legacy; [specialize (Hleg eq_refl)|]; lia).
  cbn [orb negb andb].
  go_lift Hx. 
  go_lift (write_first dst x ltac:(lia)).
  destruct (over_slice x dst 32 64) as (region & Hr & Hrl); [lia..|].
  go_lift Hr.
  go_call (on_ok _ _ _ _ (Some e) pe m3 a f g (seal_exact s c region (marshalRequestOptions o) Hk ltac:(rewrite len_request_options; lia))).
  fold ct. set (p := mkParty _ _ _ _ _ _ _).
  go_lift ((write_over x dst 32 ct ltac:(lia) ltac:(lia))). rewrite len_request_options. change (16 + 16 =? 32) with true. cbn [negb].
  go_lift ((write_over (x ++ ct) dst 64 pad ltac:(len_lia) ltac:(len_lia))).
  rewrite <- app_assoc.
  assert (Hs : slice (over (x ++ ct ++ pad) dst) 16 32 = Ok (sub 16 32 x)).
  { rewrite slice_ok by (rewrite ?len_over; len_lia). f_equal. unfold over. rewrite <- !app_assoc. by rewrite sub_app_l by lia. }
  go_lift Hs. go_get.
  go_put.
  unfold p, set_part2, set_aes. cbn [state ephemeral peerEphemeral message3Part2Length aesState completed dataSessionTaken].
  go_call (mix_ok pad (after ct s) (Some e) pe (Message3Part2Length o) (sub 16 32 x) f g ltac:(apply Hk)). reflexivity.
Qed.


Lemma request_header s x static e secret hash iv net o :
  len static = 32 -> len (publicOf e) = 32 -> sharedWith static (publicOf e) = Some secret ->
  s = opening (publicOf static) (publicOf e) secret ->
  forall c, keyed s c -> len hash = 32 -> len iv = 16 -> aesCBCDecrypt 32 x hash iv = Ok (publicOf e) -> len x = 32 ->
  parseSessionRequestOptions (marshalRequestOptions o) net = Ok o ->
  let ct := sealed s c (marshalRequestOptions o) in
  parseSessionRequestHeader (x ++ ct) static hash iv net =
    Ok (mkParty (Some (after ct s)) None (Some (publicOf e)) (Message3Part2Length o) (sub 16 32 x) false false, o).
Proof.
  intros Hst Hpe Hsh Hs c Hk Hh Hiv Hd Hx Ho ct.
  assert (Hct : len ct = 32) by (unfold ct; rewrite len_sealed, len_request_options; lia).
  unfold parseSessionRequestHeader, SessionRequestCiphertextLen, NewPrivateKey, NewPublicKey, ecdh.
  rewrite Hst, Hh, Hiv. go_eval. cbn [negb orb bind]. rewrite Hd. cbn [bind]. rewrite Hpe. cbn [Z.eqb Pos.eqb negb bind].
  rewrite Hsh. cbn [bind]. rewrite !MixHash_ok by reflexivity. cbn [snd].
  rewrite (gbind_ok _ _ _ _ _ (MixKey_ok secret (mixed (publicOf e) (mixed (publicOf static) (mixed [] (Initialize HandshakeProtocol)))) eq_refl)).
  cbv beta. fold (opening (publicOf static) (publicOf e) secret).
  rewrite <- Hs. sub_norm.
  unfold ct at 1. rewrite (DecryptAndHash_ok s c) by (done || (rewrite len_request_options; len_lia)). rewrite Ho. cbn [bind]. done.
Qed.

Lemma request_finish s e m3 a pad o legacy :
  sreleased s = false -> RPaddingLength o = len pad -> 64 + len pad <= 65535 -> (legacy = true -> 64 + len pad <= 287) ->
  finishSessionRequest (mkParty (Some s) None e m3 a false false) pad o legacy =
    Ok (mkParty (Some (mixed pad s)) None e m3 a false false).
Proof.
  intros Hs Hp Hmax Hleg. unfold finishSessionRequest, SessionRequestCiphertextLen, MaxSessionRequestLen, LegacyNTCPMaxSessionRequestLen.
  rewrite Hp, Z.eqb_refl. zbool.
  replace (legacy && _) with false by (destruct legacy; [specialize (Hleg eq_refl)|]; lia).
  cbn [orb negb andb]. by rewrite mix_ok.
Qed.


(** Buffered or streamed, the responder reads the request the initiator built. *)
Lemma request_read r static hash iv net o legacy h pad rest :
  RPaddingLength o = len pad -> 64 + len pad <= 65535 -> (legacy = true -> 64 + len pad <= 287) -> len h = 64 ->
  parseSessionRequestHeader h static hash iv net = Ok (r, o) ->
  forall r', finishSessionRequest r pad o legacy = Ok r' ->
  ReadSessionRequest (h ++ pad ++ rest) static hash iv net legacy = (Ok (r', o), rest) /\
  ParseSessionRequest (h ++ pad) static hash iv net legacy = Ok (r', o).
Proof.
  intros Hp Hmax Hleg Hh Hhead r' Hfin. len_pos. split.
  - unfold ReadSessionRequest, readFull, SessionRequestCiphertextLen. zbool. sub_norm.
    rewrite Hhead, Hp. zbool. rewrite sub_app_exact by lia. rewrite Hfin. cbn [bind]. f_equal. sub_norm. done.
  - unfold ParseSessionRequest, SessionRequestCiphertextLen, MaxSessionRequestLen, LegacyNTCPMaxSessionRequestLen.
    rewrite len_app, Hh. zbool.
    replace (legacy && _) with false by (destruct legacy; [specialize (Hleg eq_refl)|]; lia).
    cbn [orb]. rewrite slice_ok, slice_from_ok by len_lia. sub_norm. cbn [bind]. rewrite Hhead. cbn [bind].
    sub_norm. rewrite Hfin. done.
Qed.

(** ** Message two *)

Definition created_fits (dst hash pad : bytes) (o : SessionCreatedOptions) : Prop :=
  len hash = 32 /\ CPaddingLength o = len pad /\ 64 + len pad <= 65535 /\ 64 + len pad <= len dst.

(** The transcript both sides have when the response is sealed. *)
Definition answering (e secret : bytes) (s : SymmetricState) : SymmetricState := rekeyed secret (mixed e s).

Lemma created_ok s c e peer secret x dst hash pad o e0 m3 a f g :
  sreleased s = false -> sharedWith e peer = Some secret -> keyed (answering (publicOf e) secret s) c ->
  created_fits dst hash pad o -> aesCBCEncrypt 32 (publicOf e) hash a = Ok x -> len x = 32 ->
  let t := answering (publicOf e) secret s in
  let ct := sealed t c (marshalCreatedOptions o) in
  BuildSessionCreated dst hash pad o (Ok e) (mkParty (Some s) e0 (Some peer) m3 a f g) =
    (Ok (over (x ++ ct ++ pad) dst, 64 + len pad),
     mkParty (Some (mixed pad (after ct t))) (Some e) (Some peer) m3 a f g).
Proof.
  intros Hs Hsh Hk (Hh & Hpad & Hmax & Hdst) Hx Hlx t ct. len_pos.
  assert (Hct : len ct = 32) by (unfold ct; rewrite len_sealed, len_created_options; lia).
  unfold BuildSessionCreated. go_get. cbn [peerEphemeral state isNil]. rewrite Hh, Hpad, Z.eqb_refl.
  unfold MaxSessionRequestLen, SessionRequestCiphertextLen. zbool. cbn [orb negb].
  go_lift (eq_refl (Ok e)). go_call (mix_ok (publicOf e) s e0 (Some peer) m3 a f g Hs).
  unfold ecdh. rewrite Hsh. go_lift (eq_refl (Ok secret)).
  go_call (on_ok _ _ _ _ e0 (Some peer) m3 a f g (MixKey_ok secret (mixed (publicOf e) s) Hs)).
  fold (answering (publicOf e) secret s). fold t. cbn [aesState].
  go_lift Hx. go_lift (write_first dst x ltac:(lia)).
  destruct (over_slice x dst 32 64) as (region & Hr & Hrl); [lia..|]. go_lift Hr.
  go_call (on_ok _ _ _ _ e0 (Some peer) m3 a f g (seal_exact t c region (marshalCreatedOptions o) Hk ltac:(rewrite len_created_options; lia))).
  fold ct. go_lift (write_over x dst 32 ct ltac:(lia) ltac:(lia)).
  go_lift (write_over (x ++ ct) dst 64 pad ltac:(len_lia) ltac:(len_lia)). rewrite <- app_assoc.
  go_call (mix_ok pad (after ct t) e0 (Some peer) m3 a f g ltac:(apply Hk)). go_get. go_put. reflexivity.
Qed.

Lemma created_header s c e pe secret x hash o e0 m3 a f g :
  sreleased s = false -> len pe = 32 -> sharedWith e pe = Some secret -> keyed (answering pe secret s) c ->
  len hash = 32 -> aesCBCDecrypt 32 x hash a = Ok pe -> len x = 32 ->
  parseSessionCreatedOptions (marshalCreatedOptions o) = Ok o ->
  let t := answering pe secret s in
  let ct := sealed t c (marshalCreatedOptions o) in
  parseSessionCreatedHeader (x ++ ct) hash (mkParty (Some s) (Some e) e0 m3 a f g) =
    (Ok o, mkParty (Some (after ct t)) (Some e) (Some pe) m3 a f g).
Proof.
  intros Hs Hpe Hsh Hk Hh Hd Hx Ho t ct.
  assert (Hct : len ct = 32) by (unfold ct; rewrite len_sealed, len_created_options; lia).
  unfold parseSessionCreatedHeader, SessionRequestCiphertextLen. go_get. cbn [ephemeral state isNil].
  rewrite len_app, Hx, Hct, Hh. change (32 + 32 =? 64) with true. cbn [Z.eqb Pos.eqb negb orb].
  go_lift (slice_ok (x ++ ct) 0 32 ltac:(lia) ltac:(len_lia)). sub_norm. cbn [aesState].
  go_lift Hd. unfold NewPublicKey. rewrite Hpe. cbn [Z.eqb Pos.eqb negb]. go_lift (eq_refl (Ok pe)).
  go_call (mix_ok pe s (Some e) e0 m3 a f g Hs). unfold ecdh. rewrite Hsh. go_lift (eq_refl (Ok secret)).
  go_call (on_ok _ _ _ _ (Some e) e0 m3 a f g (MixKey_ok secret (mixed pe s) Hs)).
  fold (answering pe secret s). fold t.
  go_lift (slice_ok (x ++ ct) 32 64 ltac:(lia) ltac:(len_lia)). sub_norm.
  go_call (on_ok _ _ _ _ (Some e) e0 m3 a f g (DecryptAndHash_ok t c (make_bytes 16) (marshalCreatedOptions o) Hk ltac:(rewrite len_created_options; len_lia))).
  go_lift Ho. go_get. go_put. reflexivity.
Qed.

Lemma created_finish s e pe m3 a f g pad o :
  sreleased s = false -> CPaddingLength o = len pad -> 64 + len pad <= 65535 ->
  finishSessionCreated pad o (mkParty (Some s) e pe m3 a f g) = (Ok tt, mkParty (Some (mixed pad s)) e pe m3 a f g).
Proof.
  intros Hs Hp Hmax. unfold finishSessionCreated, SessionRequestCiphertextLen, MaxSessionRequestLen.
  rewrite Hp, Z.eqb_refl. zbool. cbn [orb negb]. by apply mix_ok.
Qed.

Lemma created_read s e i h hash o pad i' i'' rest :
  i = mkParty (Some s) (Some e) (peerEphemeral i) (message3Part2Length i) (aesState i) (completed i) (dataSessionTaken i) ->
  CPaddingLength o = len pad -> 64 + len pad <= 65535 -> len h = 64 ->
  parseSessionCreatedHeader h hash i = (Ok o, i') -> finishSessionCreated pad o i' = (Ok tt, i'') ->
  ReadSessionCreated hash (i, h ++ pad ++ rest) = (Ok o, (i'', rest)) /\
  ParseSessionCreated (h ++ pad) hash i = (Ok o, i'').
Proof.
  intros Hi Hp Hmax Hh Hhead Hfin. len_pos. split.
  - unfold ReadSessionCreated, readFull, SessionRequestCiphertextLen. rewrite Hi. cbn [state ephemeral isNil orb]. rewrite <- Hi.
    zbool. sub_norm. rewrite Hhead, Hp. zbool. rewrite sub_app_exact by lia. rewrite Hfin. repeat f_equal. by sub_norm.
  - unfold ParseSessionCreated, SessionRequestCiphertextLen, MaxSessionRequestLen. go_get. rewrite Hi. cbn [state ephemeral isNil orb].
    rewrite <- Hi, len_app, Hh. zbool. cbn [orb].
    go_lift (slice_ok (h ++ pad) 0 64 ltac:(lia) ltac:(len_lia)). sub_norm. go_call Hhead.
    go_lift (slice_from_ok (h ++ pad) 64 ltac:(len_lia)). sub_norm. go_call Hfin. reflexivity.
Qed.


(** ** Message three *)

Lemma confirmed_ok s c static pe secret dst payload e a g :
  len static = 32 -> sharedWith static pe = Some secret -> keyed s c ->
  let ct := sealed s c (publicOf static) in
  let t := rekeyed secret (after ct s) in
  forall c', keyed t c' -> 64 + len payload <= 65535 -> 64 + len payload <= len dst ->
  let ct' := sealed t c' payload in
  BuildSessionConfirmed dst static payload (mkParty (Some s) e (Some pe) (len payload + 16) a false g) =
    (Ok (over (ct ++ ct') dst, 64 + len payload), mkParty (Some (after ct' t)) e (Some pe) (len payload + 16) a true g).
Proof.
  intros Hst Hsh Hk ct t c' Hk' Hmax Hdst ct'. len_pos. pose proof (len_publicOf static Hst) as Hpub.
  assert (Hct : len ct = 48) by (unfold ct; rewrite len_sealed; lia).
  assert (Hct' : len ct' = len payload + 16) by apply len_sealed.
  unfold BuildSessionConfirmed, MaxSessionRequestLen, NewPrivateKey. go_get.
  cbn [peerEphemeral state completed message3Part2Length isNil orb]. rewrite Z.eqb_refl, Hst. zbool. cbn [orb negb].
  go_lift (eq_refl (Ok static)).
  destruct (over_slice [] dst 0 48) as (region & Hr & Hrl); [done|lia..|]. rewrite <- over_nil in Hr. go_lift Hr.
  assert (Hrl0 : len region = len (publicOf static) + 16) by lia.
  go_call (on_ok _ _ _ _ e (Some pe) (len payload + 16) a false g (seal_exact s c region (publicOf static) Hk Hrl0)).
  fold ct. go_lift (write_first dst ct ltac:(lia)). unfold ecdh. rewrite Hsh. go_lift (eq_refl (Ok secret)).
  go_call (on_ok _ _ _ _ e (Some pe) (len payload + 16) a false g (MixKey_ok secret (after ct s) ltac:(apply Hk))). fold t.
  destruct (over_slice ct dst 48 (48 + len payload + 16)) as (region' & Hr' & Hrl'); [lia..|]. go_lift Hr'.
  go_call (on_ok _ _ _ _ e (Some pe) (len payload + 16) a false g (seal_exact t c' region' payload Hk' ltac:(lia))).
  fold ct'. go_lift (write_over ct dst 48 ct' ltac:(lia) ltac:(lia)). go_get. go_put. reflexivity.
Qed.

Lemma confirmed_read s c pub e secret payload pe a g :
  len pub = 32 -> sharedWith e pub = Some secret -> keyed s c ->
  let ct := sealed s c pub in
  let t := rekeyed secret (after ct s) in
  forall c', keyed t c' -> 64 + len payload <= 65535 ->
  let ct' := sealed t c' payload in
  ParseSessionConfirmed (ct ++ ct') (mkParty (Some s) (Some e) pe (len payload + 16) a false g) =
    (Ok (pub, payload), mkParty (Some (after ct' t)) (Some e) pe (len payload + 16) a true g).
Proof.
  intros Hpub Hsh Hk ct t c' Hk' Hmax ct'. len_pos.
  assert (Hct : len ct = 48) by (unfold ct; rewrite len_sealed; lia).
  assert (Hct' : len ct' = len payload + 16) by apply len_sealed.
  unfold ParseSessionConfirmed, MaxSessionRequestLen, NewPublicKey. go_get.
  cbn [ephemeral state completed message3Part2Length isNil orb]. rewrite len_app, Hct, Hct'.
  replace (48 + (len payload + 16) - 48) with (len payload + 16) by lia. rewrite Z.eqb_refl. zbool. cbn [orb negb].
  go_lift (slice_ok (ct ++ ct') 0 48 ltac:(lia) ltac:(len_lia)). rewrite sub_app_exact by lia.
  go_call (on_ok _ _ _ _ (Some e) pe (len payload + 16) a false g (DecryptAndHash_ok s c (make_bytes 32) pub Hk ltac:(len_lia))).
  rewrite Hpub. cbn [Z.eqb Pos.eqb negb]. go_lift (eq_refl (Ok pub)). unfold ecdh. rewrite Hsh. go_lift (eq_refl (Ok secret)).
  fold ct.
  go_call (on_ok _ _ _ _ (Some e) pe (len payload + 16) a false g (MixKey_ok secret (after ct s) ltac:(apply Hk))). fold t.
  go_lift (slice_from_ok (ct ++ ct') 48 ltac:(len_lia)). sub_norm.
  go_call (on_ok _ _ _ _ (Some e) pe (len payload + 16) a false g
          (DecryptAndHash_ok t c' (make_bytes (48 + (len payload + 16) - 64)) payload Hk' ltac:(len_lia))).
  go_get. go_put. reflexivity.
Qed.

(** ** The data phase *)

Lemma NewDirection_live key sip : len key = 32 -> len sip = 32 ->
  exists a b d, slice sip 0 16 = Ok a /\ slice sip 16 24 = Ok b /\ NewDirection key a b = Ok d /\ live d /\ nonce d = 0.
Proof.
  intros Hk Hs. exists (sub 0 16 sip), (sub 16 24 sip).
  assert (Ha : len (sub 0 16 sip) = 16) by len_lia. assert (Hb : len (sub 16 24 sip) = 8) by len_lia.
  rewrite !slice_ok by lia. unfold NewDirection, NewChaCha20Poly1305, NewSipState, ChaChaKeySize. rewrite Hk, Ha, Hb.
  cbn [Z.eqb Pos.eqb negb orb bind]. rewrite slice_ok, slice_from_ok by lia. cbn [bind].
  rewrite !le_uint_ok by len_lia. cbn [bind]. eexists. split_and!; [done..| |done].
  split_and!; [done|by eexists|cbn; lia|cbn; lia].
Qed.

(** Both sides derive the same two directions, in opposite roles. *)
Lemma newDataSession_ok s : exists ab ba,
  newDataSession s true = Ok (NewSession ab ba) /\ newDataSession s false = Ok (NewSession ba ab) /\
  live ab /\ live ba /\ nonce ab = 0 /\ nonce ba = 0.
Proof.
  unfold newDataSession. cbv zeta.
  set (temp := hmac256 (ChainingKey s) [] [] []). set (kab := hmac256 temp [1] [] []). set (kba := hmac256 temp kab [2] []).
  set (ask := hmac256 temp _ [1] []). set (temp' := hmac256 ask _ _ []). set (master := hmac256 temp' _ _ _).
  set (temp'' := hmac256 master _ _ _). set (sipAB := hmac256 temp'' [1] [] []). set (sipBA := hmac256 temp'' sipAB [2] []).
  destruct (NewDirection_live kab sipAB) as (x1 & x2 & ab & -> & -> & Hab & Hl & Hn); [apply len_hmac..|].
  destruct (NewDirection_live kba sipBA) as (y1 & y2 & ba & -> & -> & Hba & Hl' & Hn'); [apply len_hmac..|].
  cbn [bind]. rewrite Hab. cbn [bind]. rewrite Hba. cbn [bind].
  exists ab, ba. done.
Qed.

Fixpoint sendAll (ps : list bytes) : go (Session * bytes) unit :=
  match ps with [] => ret tt | p :: ps => let! _ := SessionWrite p in sendAll ps end.

Fixpoint receiveAll (dst : bytes) (n : nat) : go (Session * bytes) (list bytes) :=
  match n with
  | O => ret []
  | S n => let! p := SessionRead dst in let! ps := receiveAll dst n in ret (p :: ps)
  end.

Lemma sendAll_write ps : forall d d' r stream stream',
  writeAll ps (d, stream) = (Ok tt, (d', stream')) ->
  sendAll ps (NewSession d r, stream) = (Ok tt, (NewSession d' r, stream')).
Proof.
  induction ps as [|p ps IH]; intros d d' r stream stream' H; cbn [writeAll sendAll] in *.
  - unfold ret in *. by simplify_eq.
  - unfold gbind in *. unfold SessionWrite. cbn [send NewSession].
    destruct (WriteFrame p (d, stream)) as [[[]| |] [d1 s1]]; try done. by apply IH.
Qed.

Lemma receiveAll_read dst n : forall d d' r ps stream stream',
  readAll dst n (d, stream) = (Ok ps, (d', stream')) ->
  receiveAll dst n (NewSession r d, stream) = (Ok ps, (NewSession r d', stream')).
Proof.
  induction n as [|n IH]; intros d d' r ps stream stream' H; cbn [readAll receiveAll] in *.
  - unfold ret in *. by simplify_eq.
  - unfold gbind in *. unfold SessionRead. cbn [receive NewSession].
    destruct (ReadFrame dst (d, stream)) as [[p| |] [d1 s1]]; try done.
    destruct (readAll dst n (d1, s1)) as [[qs| |] [d2 s2]] eqn:E; try done.
    cbn [send connClosed]. change (mkSession _ _ _) with (NewSession r d1). rewrite (IH _ _ r _ _ _ E). unfold ret in *. by simplify_eq.
Qed.


Lemma session_exchange ab ba ps dst :
  live ab -> Forall (fun p => len p <= MaxPlaintextFrame) ps -> MaxPlaintextFrame <= len dst ->
  nonce ab + len ps < 2 ^ 64 - 2 ->
  exists ab' frames,
    sendAll ps (NewSession ab ba, []) = (Ok tt, (NewSession ab' ba, frames)) /\
    receiveAll dst (length ps) (NewSession ba ab, frames) = (Ok ps, (NewSession ba ab', [])).
Proof.
  intros Hl Hps Hdst Hn.
  destruct (stream_ok ps ab dst [] [] Hl Hps Hdst Hn) as (ab' & frames & Hw & Hr). rewrite app_nil_r in Hr.
  exists ab', frames. split; [by apply sendAll_write|by apply receiveAll_read].
Qed.

Lemma mixed_live data s : sreleased s = false -> sreleased (mixed data s) = false.
Proof. done. Qed.

Lemma opening_keyed static e secret : exists c, keyed (opening static e secret) c.
Proof.
  destruct (rekeyed_keyed secret (mixed e (mixed static (mixed [] (Initialize HandshakeProtocol)))) eq_refl) as (c & Hc & _).
  by exists c.
Qed.

Lemma answering_keyed e secret s : sreleased s = false -> exists c, keyed (answering e secret s) c /\ snonce (answering e secret s) = 0.
Proof.
  intros Hs. destruct (rekeyed_keyed secret (mixed e s) (mixed_live e s Hs)) as (c & Hc & _). by exists c.
Qed.

(** After message one: the initiator and the responder have the same transcript. *)
Definition requested (i r : party) (t : SymmetricState) (e : bytes) (m3 : Z) (a : bytes) : Prop :=
  sreleased t = false /\ block_ok a /\
  i = mkParty (Some t) (Some e) None m3 a false false /\ r = mkParty (Some t) None (Some (publicOf e)) m3 a false false.

Lemma message_one static e secret hash iv o pad legacy dst rest :
  len static = 32 -> len e = 32 -> sharedWith e (publicOf static) = Some secret ->
  request_fits dst hash iv pad o legacy ->
  Version o = 2 -> 0 <= Message3Part2Length o < 2 ^ 16 -> 0 <= RTimestamp o < 2 ^ 32 ->
  exists i0 i1 r m t a,
    NewInitiator (publicOf static) (Ok e) = Ok i0 /\
    BuildSessionRequest dst hash iv pad o legacy i0 = (Ok (over m dst, len m), i1) /\
    ReadSessionRequest (m ++ rest) static hash iv (NetworkID o) legacy = (Ok (r, o), rest) /\
    ParseSessionRequest m static hash iv (NetworkID o) legacy = Ok (r, o) /\
    requested i1 r t e (Message3Part2Length o) a.
Proof.
  intros Hst He Hsec Hreq Hv Hm3 Hts. pose proof (len_publicOf static Hst) as Hps. pose proof (len_publicOf e He) as Hpe.
  pose proof Hreq as (Hh & Hiv & Hpad & Hmax & Hleg & Hdst). len_pos.
  destruct (obfuscated hash iv (publicOf e) Hh Hiv Hpe (bytes_ok_publicOf e)) as (x & Hx & Hd & Hl & Hb).
  destruct (opening_keyed (publicOf static) (publicOf e) secret) as (c & Hc).
  pose proof (NewInitiator_ok (publicOf static) e secret Hps Hsec) as Hnew.
  pose proof Hsec as Hsec'. rewrite (shared_agree e static He Hst) in Hsec'.
  remember (opening (publicOf static) (publicOf e) secret) as s eqn:Es.
  assert (Ho : parseSessionRequestOptions (marshalRequestOptions o) (NetworkID o) = Ok o) by (apply request_options; lia).
  pose proof (request_ok s c e x dst hash iv pad o legacy None 0 (make_bytes 16) false false Hc Hreq Hx Hl) as Hbuild.
  pose proof (request_header s x static e secret hash iv (NetworkID o) o Hst Hpe Hsec' Es c Hc Hh (proj1 Hiv) Hd Hl Ho) as Hhead.
  cbv zeta in Hbuild, Hhead. clear Es. set (ct := sealed s c (marshalRequestOptions o)) in *.
  assert (Hct : len ct = 32) by (unfold ct; rewrite len_sealed, len_request_options; lia).
  assert (Hs : sreleased (after ct s) = false) by exact (proj1 Hc).
  pose proof (request_finish (after ct s) (Some (publicOf e)) (Message3Part2Length o) (sub 16 32 x) pad o legacy Hs Hpad Hmax Hleg) as Hfin.
  destruct (request_read _ static hash iv (NetworkID o) o legacy (x ++ ct) pad rest Hpad Hmax Hleg ltac:(len_lia) Hhead _ Hfin) as [Hread Hparse].
  rewrite <- app_assoc in Hparse. rewrite <- !app_assoc in Hread.
  eexists _, _, _, (x ++ ct ++ pad), (mixed pad (after ct s)), (sub 16 32 x).
  split; [exact Hnew|]. split; [rewrite Hbuild; do 3 f_equal; len_lia|]. rewrite <- !app_assoc.
  split; [exact Hread|]. split; [exact Hparse|]. split_and!; [exact (mixed_live pad _ Hs)|exact Hb|reflexivity|reflexivity].
Qed.

Lemma message_two i r t e_i e_r m3 a secret hash o pad dst rest :
  requested i r t e_i m3 a -> len e_i = 32 -> len e_r = 32 -> sharedWith e_r (publicOf e_i) = Some secret ->
  created_fits dst hash pad o -> 0 <= CTimestamp o < 2 ^ 32 ->
  exists i' r' m t' c,
    BuildSessionCreated dst hash pad o (Ok e_r) r = (Ok (over m dst, len m), r') /\
    ReadSessionCreated hash (i, m ++ rest) = (Ok o, (i', rest)) /\
    ParseSessionCreated m hash i = (Ok o, i') /\
    keyed t' c /\ r' = mkParty (Some t') (Some e_r) (Some (publicOf e_i)) m3 a false false /\
    i' = mkParty (Some t') (Some e_i) (Some (publicOf e_r)) m3 a false false.
Proof.
  intros (Ht & Ha & -> & ->) Hei Her Hsec Hcre Hts. pose proof (len_publicOf e_r Her) as Hpr.
  pose proof Hcre as (Hh & Hpad & Hmax & Hdst). len_pos.
  destruct (obfuscated hash a (publicOf e_r) Hh Ha Hpr (bytes_ok_publicOf e_r)) as (x & Hx & Hd & Hl & _).
  destruct (answering_keyed (publicOf e_r) secret t Ht) as (c & Hc & Hn).
  pose proof Hsec as Hsec'. rewrite (shared_agree e_r e_i Her Hei) in Hsec'.
  assert (Ho : parseSessionCreatedOptions (marshalCreatedOptions o) = Ok o) by (apply created_options; lia).
  pose proof (created_ok t c e_r (publicOf e_i) secret x dst hash pad o None m3 a false false Ht Hsec Hc Hcre Hx Hl) as Hbuild.
  pose proof (created_header t c e_i (publicOf e_r) secret x hash o None m3 a false false Ht Hpr Hsec' Hc Hh Hd Hl Ho) as Hhead.
  cbv zeta in Hbuild, Hhead. remember (answering (publicOf e_r) secret t) as s eqn:Es. clear Es.
  set (ct := sealed s c (marshalCreatedOptions o)) in *.
  assert (Hct : len ct = 32) by (unfold ct; rewrite len_sealed, len_created_options; lia).
  assert (Hs : sreleased (after ct s) = false) by exact (proj1 Hc).
  pose proof (created_finish (after ct s) (Some e_i) (Some (publicOf e_r)) m3 a false false pad o Hs Hpad Hmax) as Hfin.
  destruct (created_read t e_i (mkParty (Some t) (Some e_i) None m3 a false false) (x ++ ct) hash o pad _ _ rest eq_refl Hpad Hmax ltac:(len_lia) Hhead Hfin) as [Hread Hparse].
  rewrite <- app_assoc in Hparse. rewrite <- !app_assoc in Hread.
  eexists _, _, (x ++ ct ++ pad), (mixed pad (after ct s)), c.
  split; [rewrite Hbuild; do 3 f_equal; len_lia|]. rewrite <- !app_assoc. split; [exact Hread|]. split; [exact Hparse|].
  split; [apply mixed_keyed, after_keyed; [done|lia]|]. done.
Qed.

(** After message three: both sides completed on the same transcript. *)
Definition confirmed (p : party) (t : SymmetricState) : Prop :=
  state p = Some t /\ completed p = true /\ dataSessionTaken p = false.

Lemma message_three t c e_i e_r static secret payload dst a :
  keyed t c -> len static = 32 -> len e_r = 32 -> sharedWith static (publicOf e_r) = Some secret ->
  64 + len payload <= 65535 -> 64 + len payload <= len dst ->
  exists i r m t',
    BuildSessionConfirmed dst static payload (mkParty (Some t) (Some e_i) (Some (publicOf e_r)) (len payload + 16) a false false) =
      (Ok (over m dst, len m), i) /\
    ParseSessionConfirmed m (mkParty (Some t) (Some e_r) (Some (publicOf e_i)) (len payload + 16) a false false) =
      (Ok (publicOf static, payload), r) /\
    confirmed i t' /\ confirmed r t'.
Proof.
  intros Hk Hst Her Hsec Hmax Hdst. pose proof (len_publicOf static Hst) as Hps.
  pose proof Hsec as Hsec'. rewrite (shared_agree static e_r Hst Her) in Hsec'.
  destruct (rekeyed_keyed secret (after (sealed t c (publicOf static)) t) (proj1 Hk)) as (c' & Hk' & _).
  pose proof (confirmed_ok t c static (publicOf e_r) secret dst payload (Some e_i) a false Hst Hsec Hk c' Hk' Hmax Hdst) as Hb.
  pose proof (confirmed_read t c (publicOf static) e_r secret payload (Some (publicOf e_i)) a false Hps Hsec' Hk c' Hk' Hmax) as Hr.
  cbv zeta in Hb, Hr. eexists _, _, (sealed t c (publicOf static) ++ _), _.
  split; [rewrite Hb; do 3 f_equal; rewrite len_app, !len_sealed; lia|]. split; [exact Hr|]. done.
Qed.

Lemma NewDataSession_ok p t initiator a : confirmed p t -> newDataSession t initiator = Ok a ->
  NewDataSession initiator true p = (Ok a, clearHandshake (set_taken p)).
Proof.
  intros (Hs & Hc & Ht) Ha. unfold NewDataSession. go_get. rewrite Hs, Hc, Ht. cbn [negb orb]. rewrite Ha.
  go_lift (eq_refl (Ok a)). go_put. reflexivity.
Qed.

(** C3: the NTCP2 handshake and the session it creates are correct end to end.
    An initiator and a responder that run the three messages, each read from
    the stream the other wrote, accept them all: the responder gets the
    options, the initiator's static key and the payload, the initiator gets
    the response options, nothing of what follows a message on the stream is
    consumed, and the sessions both sides derive exchange any frames of legal
    size in both directions, in order. *)
Theorem handshake_session static_i static_r e_i e_r k1 k2 k3 hash iv ro pad1 legacy dst1 co pad2 dst2 payload dst3
    rest1 rest2 ps qs dst :
  len static_i = 32 -> len static_r = 32 -> len e_i = 32 -> len e_r = 32 ->
  sharedWith e_i (publicOf static_r) = Some k1 -> sharedWith e_r (publicOf e_i) = Some k2 ->
  sharedWith static_i (publicOf e_r) = Some k3 ->
  request_fits dst1 hash iv pad1 ro legacy -> Version ro = 2 -> Message3Part2Length ro = len payload + 16 ->
  0 <= RTimestamp ro < 2 ^ 32 ->
  created_fits dst2 hash pad2 co -> 0 <= CTimestamp co < 2 ^ 32 ->
  64 + len payload <= 65535 -> 64 + len payload <= len dst3 ->
  Forall (fun p => len p <= MaxPlaintextFrame) (ps ++ qs) -> MaxPlaintextFrame <= len dst ->
  len ps < 2 ^ 64 - 2 -> len qs < 2 ^ 64 - 2 ->
  exists i0 i1 i2 i3 r1 r2 r3 m1 m2 m3 a b a' b' a'' b'' framesA framesB,
    NewInitiator (publicOf static_r) (Ok e_i) = Ok i0 /\
    BuildSessionRequest dst1 hash iv pad1 ro legacy i0 = (Ok (over m1 dst1, len m1), i1) /\
    ReadSessionRequest (m1 ++ rest1) static_r hash iv (NetworkID ro) legacy = (Ok (r1, ro), rest1) /\
    BuildSessionCreated dst2 hash pad2 co (Ok e_r) r1 = (Ok (over m2 dst2, len m2), r2) /\
    ReadSessionCreated hash (i1, m2 ++ rest2) = (Ok co, (i2, rest2)) /\
    BuildSessionConfirmed dst3 static_i payload i2 = (Ok (over m3 dst3, len m3), i3) /\
    ParseSessionConfirmed m3 r2 = (Ok (publicOf static_i, payload), r3) /\
    (NewDataSession true true i3).1 = Ok a /\ (NewDataSession false true r3).1 = Ok b /\
    sendAll ps (a, []) = (Ok tt, (a', framesA)) /\ receiveAll dst (length ps) (b, framesA) = (Ok ps, (b', [])) /\
    sendAll qs (b', []) = (Ok tt, (b'', framesB)) /\ receiveAll dst (length qs) (a', framesB) = (Ok qs, (a'', [])).
Proof.
  intros Hsi Hsr Hei Her Hk1 Hk2 Hk3 Hreq Hv Hm3 Hts Hcre Htc Hmax Hdst Hall Hdst' Hps Hqs. len_pos.
  destruct (message_one static_r e_i k1 hash iv ro pad1 legacy dst1 rest1 Hsr Hei Hk1 Hreq Hv ltac:(lia) Hts)
    as (i0 & i1 & r1 & m1 & t1 & a1 & Hnew & Hb1 & Hr1 & _ & Hmid).
  destruct (message_two i1 r1 t1 e_i e_r _ a1 k2 hash co pad2 dst2 rest2 Hmid Hei Her Hk2 Hcre Htc)
    as (i2 & r2 & m2 & t2 & c2 & Hb2 & Hr2 & _ & Hk & -> & ->).
  rewrite Hm3 in *.
  destruct (message_three t2 c2 e_i e_r static_i k3 payload dst3 a1 Hk Hsi Her Hk3 Hmax Hdst)
    as (i3 & r3 & m3 & t3 & Hb3 & Hr3 & Hci & Hcr).
  destruct (newDataSession_ok t3) as (ab & ba & Ha & Hb & Hla & Hlb & Hna & Hnb).
  apply Forall_app in Hall as [Hallp Hallq].
  destruct (session_exchange ab ba ps dst Hla Hallp Hdst' ltac:(lia)) as (ab' & fA & HsA & HrA).
  destruct (session_exchange ba ab' qs dst Hlb Hallq Hdst' ltac:(lia)) as (ba' & fB & HsB & HrB).
  eexists i0, i1, _, i3, r1, _, r3, m1, m2, m3, _, _, _, _, _, _, fA, fB.
  rewrite (NewDataSession_ok i3 t3 true _ Hci Ha), (NewDataSession_ok r3 t3 false _ Hcr Hb).
  split_and!; try done.
Qed.

End Agreement.

(** ** Witness *)

(** A key exchange that is not secret: keys are reduced to bytes and a shared
    secret is the exclusive or of the two public keys. *)
Module Toy.
Definition public (k : bytes) : bytes := (fun x => x mod 256) <$> k.

#[export] Instance curve : Curve := {
  publicOf := public;
  sharedWith k p := Some (xor (public k) p) }.

#[export] Instance curve_laws : CurveLaws curve.
Proof.
  constructor; cbn [publicOf sharedWith curve]; unfold public.
  - intros k Hk. by rewrite len_fmap.
  - intros k. apply Forall_fmap, Forall_true. intros x. unfold is_byte, compose. pose proof (Z.mod_pos_bound x 256). lia.
  - intros a b _ _. f_equal. apply xor_comm.
  - intros a b s Ha Hb [= <-]. rewrite len_xor, len_fmap; rewrite ?len_fmap; lia.
Qed.
End Toy.

Lemma handshake_session_witness : exists m1 r1 a' b b' framesA,
  ReadSessionRequest (P := demo) (A := Rotation.rotation) (C := Toy.curve) (m1 ++ [5])
    (replicate 32 2) (replicate 32 9) (replicate 16 8) 2 false = (Ok (r1, mkRequestOptions 2 2 3 20 77), [5]) /\
  receiveAll (P := demo) (make_bytes 65519) 2 (b, framesA) = (Ok [[1; 2]; []], (b', [])) /\
  (exists a, sendAll (P := demo) [[1; 2]; []] (a, []) = (Ok tt, (a', framesA))).
Proof.
  destruct (handshake_session (P := demo) (PL := demo_laws) (A := Rotation.rotation) (AL := Rotation.rotation_laws) (C := Toy.curve) (CL := Toy.curve_laws)
    (replicate 32 1) (replicate 32 2) (replicate 32 3) (replicate 32 4) (replicate 32 1) (replicate 32 7) (replicate 32 5)
    (replicate 32 9) (replicate 16 8) (mkRequestOptions 2 2 3 20 77) [1; 2; 3] false (make_bytes 67)
    (mkCreatedOptions 1 78) [0] (make_bytes 65) [1; 2; 3; 4] (make_bytes 68) [5] [6] [[1; 2]; []] [[3]] (make_bytes 65519))
    as (i0 & i1 & i2 & i3 & r1 & r2 & r3 & m1 & m2 & m3 & a & b & a' & b' & a'' & b'' & fA & fB & _ & _ & Hr1 & Hrest);
    [vm_compute; reflexivity..| | | | | | | | | | | | |].
  - unfold request_fits, block_ok. split_and!; try (vm_compute; congruence). apply bytes_ok_check. vm_compute. reflexivity.
  - reflexivity.
  - reflexivity.
  - cbn. lia.
  - unfold created_fits. split_and!; vm_compute; congruence.
  - cbn. lia.
  - vm_compute. congruence.
  - vm_compute. congruence.
  - repeat constructor; vm_compute; congruence.
  - vm_compute. congruence.
  - vm_compute. congruence.
  - vm_compute. congruence.
  - destruct Hrest as (_ & _ & _ & _ & _ & _ & Hs & Hr & _). exists m1, r1, a', b, b', fA.
    split; [exact Hr1|]. split; [exact Hr|]. by exists a.
Defined.
