(* ===== verification/Circuits.v ===== *)
(** The circuit registry of the tunnel runtime,
    [src/dataplane/internal/tunnel/circuits.go] and the registration, retirement
    and inspection methods of [runtime.go].

    Circuits live on a heap addressed by identity, which is what a token's
    [generation] pointer is; an installed endpoint is a heap object as well, with
    its [installed] flag.  The runtime is non-nil, [Now] reads the clock of the
    environment, and [rangeCircuits] is the iteration order of a circuit map. *)

From S2P Require Import Prelude Wire Sha256 I2NP Buffers TunnelBlocks Reassembly Gateway Chacha TunnelCrypto Endpoint.

(** [for _, x := range l] *)
Fixpoint forEach {S A} (f : A -> go S unit) (l : list A) : go S unit :=
  match l with
  | [] => ret tt
  | x :: l => let! _ := f x in forEach f l
  end.

(** The same with a counter. *)
Fixpoint forCount {S A} (f : A -> go S Z) (l : list A) (n : Z) : go S Z :=
  match l with
  | [] => ret n
  | x :: l => let! k := f x in forCount f l (n + k)
  end.

Definition circuitShards : Z := 64.

Record Forward := mkForward { Peer : bytes; FTunnelID : Z }.

Record OutboundCircuit := mkOutboundCircuit {
  OID : Z; OOwner : bytes; OFirstHop : bytes; ONextTunnelID : Z;
  OTransforms : list LayerCipher; OExpiresAt : Z }.

Record outboundCircuit := mkOutbound {
  orefs : Z; oowner : bytes; firstHop : bytes; nextTunnelID : Z;
  otransforms : list LayerCipher; oexpiresAt : Z; oactivity : Z }.

(** Identities of installations, by wire identifier. *)
Record circuitShard := mkShard { inbound : gmap Z nat; outbound : gmap Z nat }.

Record CircuitToken := mkToken { tokenID : Z; generation : option nat }.

Record endpointBox := mkBox { installed : bool; box : Endpoint }.

(** The gauges and the counter the runtime publishes. *)
Record gauges := mkGauges {
  gExploratoryInbound : Z; gExploratoryOutbound : Z; gClientInbound : Z; gClientOutbound : Z;
  gActive : Z; gForwarded : Z }.

Section Circuits.
Context {reader handler senderT world : Type}.

Record InboundCircuit := mkInboundCircuit {
  IID : Z; IOwner : bytes; ITransforms : list LayerCipher; IForward : option Forward;
  IEndpoint : option nat; ILocal : option handler; IExpiresAt : Z }.

Record inboundCircuit := mkInbound {
  irefs : Z; iowner : bytes; itransforms : list LayerCipher; iforward : option Forward;
  iendpoint : option nat; ilocal : option handler; iexpiresAt : Z; iactivity : Z }.

(** What the runtime hands to the transport or to a local handler, in order. *)
Inductive handoff :=
| ToRouter (peer : bytes) (m : Message)
| ToLocal (h : handler) (m : Message).

(** The registry: the shards, the heaps they point into, and the next identity. *)
Record registry := mkRegistry {
  shards : list circuitShard;
  ins : gmap nat inboundCircuit;
  outs : gmap nat outboundCircuit;
  endpoints : gmap nat endpointBox;
  nextRef : nat }.

Record Runtime := mkRuntime {
  gateway : Gateway_ (reader := reader); local : bytes; sender : option senderT; nextID : Z;
  metrics : option gauges; reg : registry; pool : Pool.leases; env : world; handoffs : list handoff }.

Definition set_reg (g : registry) (r : Runtime) : Runtime :=
  mkRuntime (gateway r) (local r) (sender r) (nextID r) (metrics r) g (pool r) (env r) (handoffs r).
Definition set_env (w : world) (r : Runtime) : Runtime :=
  mkRuntime (gateway r) (local r) (sender r) (nextID r) (metrics r) (reg r) (pool r) w (handoffs r).
Definition set_metrics (m : option gauges) (r : Runtime) : Runtime :=
  mkRuntime (gateway r) (local r) (sender r) (nextID r) m (reg r) (pool r) (env r) (handoffs r).
Definition set_pool (p : Pool.leases) (r : Runtime) : Runtime :=
  mkRuntime (gateway r) (local r) (sender r) (nextID r) (metrics r) (reg r) p (env r) (handoffs r).

Definition set_shards (s : list circuitShard) (g : registry) : registry :=
  mkRegistry s (ins g) (outs g) (endpoints g) (nextRef g).
Definition set_ins (m : gmap nat inboundCircuit) (g : registry) : registry :=
  mkRegistry (shards g) m (outs g) (endpoints g) (nextRef g).
Definition set_outs (m : gmap nat outboundCircuit) (g : registry) : registry :=
  mkRegistry (shards g) (ins g) m (endpoints g) (nextRef g).
Definition set_endpoints (m : gmap nat endpointBox) (g : registry) : registry :=
  mkRegistry (shards g) (ins g) (outs g) m (nextRef g).

Definition shardIndex (id : Z) : nat := Z.to_nat (Z.land id (circuitShards - 1)).
Definition emptyShard : circuitShard := mkShard ∅ ∅.
Definition shardAt (i : nat) (g : registry) : circuitShard := default emptyShard (shards g !! i).
Definition setShard (i : nat) (s : circuitShard) (g : registry) : registry :=
  set_shards (<[i := s]> (shards g)) g.
Definition set_inbound (m : gmap Z nat) (s : circuitShard) : circuitShard := mkShard m (outbound s).
Definition set_outbound (m : gmap Z nat) (s : circuitShard) : circuitShard := mkShard (inbound s) m.

(** [r.shard(id)] *)
Definition shard (id : Z) (g : registry) : circuitShard := shardAt (shardIndex id) g.

(** ** References: [release] *)

Context (range : gmap Z partial -> list (Z * partial)).
Context (rangeMeta : gmap Z deliveryMeta -> list (Z * deliveryMeta)).
Context (rangeCircuits : gmap Z nat -> list (Z * nat)).
Context (Now : world -> Z * world).

Definition set_irefs (n : Z) (c : inboundCircuit) : inboundCircuit :=
  mkInbound n (iowner c) (itransforms c) (iforward c) (iendpoint c) (ilocal c) (iexpiresAt c) (iactivity c).
Definition set_orefs (n : Z) (c : outboundCircuit) : outboundCircuit :=
  mkOutbound n (oowner c) (firstHop c) (nextTunnelID c) (otransforms c) (oexpiresAt c) (oactivity c).

(** What the last user leaves of a circuit. *)
Definition wipeInbound (c : inboundCircuit) : inboundCircuit :=
  mkInbound (irefs c) (iowner c) [] (iforward c) None None (iexpiresAt c) (iactivity c).
Definition wipeOutbound (c : outboundCircuit) : outboundCircuit :=
  mkOutbound (orefs c) (oowner c) (firstHop c) (nextTunnelID c) [] (oexpiresAt c) (oactivity c).

(** [endpoint.Expire(cutoff)] *)
Definition expireEndpoint (cutoff : Z) (e : nat) (g : registry) : registry :=
  match endpoints g !! e with
  | None => g
  | Some b => set_endpoints (<[e := mkBox (installed b) (ExpireEndpoint range rangeMeta cutoff (box b)).2]> (endpoints g)) g
  end.

Definition releaseInbound (c : nat) (g : registry) : registry :=
  match ins g !! c with
  | None => g
  | Some x =>
      let x := set_irefs (irefs x - 1) x in
      if negb (irefs x =? 0) then set_ins (<[c := x]> (ins g)) g
      else
        let g := match iendpoint x with Some e => expireEndpoint (2 ^ 64 - 1) e g | None => g end in
        set_ins (<[c := wipeInbound x]> (ins g)) g
  end.

Definition releaseOutbound (c : nat) (g : registry) : registry :=
  match outs g !! c with
  | None => g
  | Some x =>
      let x := set_orefs (orefs x - 1) x in
      if negb (orefs x =? 0) then set_outs (<[c := x]> (outs g)) g
      else set_outs (<[c := wipeOutbound x]> (outs g)) g
  end.

(** ** Registration: [runtime.go] *)

Definition now : go Runtime Z :=
  fun r => let (t, w) := Now (env r) in (Ok t, set_env w r).

Definition expired (expiresAt : Z) : go Runtime bool :=
  if expiresAt =? 0 then ret false else let! t := now in ret (expiresAt <=? t).

Definition update (f : registry -> registry) : go Runtime unit := fun r => (Ok tt, set_reg (f (reg r)) r).

(** The counts of one shard: local endpoints and gateways, by zero and other owner. *)
Definition countInbound (item : Z * nat) (n : Z * Z) : go Runtime (Z * Z) :=
  let! r := get in
  match ins (reg r) !! item.2 with
  | None => ret n
  | Some c =>
      match iforward c with
      | Some _ => ret n
      | None =>
          let! dead := expired (iexpiresAt c) in
          if dead then ret n
          else if bytes_eqb (iowner c) zeroHash then ret (n.1 + 1, n.2) else ret (n.1, n.2 + 1)
      end
  end.

Definition countOutbound (item : Z * nat) (n : Z * Z) : go Runtime (Z * Z) :=
  let! r := get in
  match outs (reg r) !! item.2 with
  | None => ret n
  | Some c =>
      let! dead := expired (oexpiresAt c) in
      if dead then ret n
      else if bytes_eqb (oowner c) zeroHash then ret (n.1 + 1, n.2) else ret (n.1, n.2 + 1)
  end.

Fixpoint countItems {A N} (f : A -> N -> go Runtime N) (l : list A) (n : N) : go Runtime N :=
  match l with
  | [] => ret n
  | x :: l => let! n := f x n in countItems f l n
  end.

(** The inbound and the outbound pair. *)
Definition countShard (i : nat) (n : (Z * Z) * (Z * Z)) : go Runtime ((Z * Z) * (Z * Z)) :=
  let! r := get in
  let! inb := countItems countInbound (rangeCircuits (inbound (shardAt i (reg r)))) n.1 in
  let! outb := countItems countOutbound (rangeCircuits (outbound (shardAt i (reg r)))) n.2 in
  ret (inb, outb).

Definition ActiveTunnelCounts : go Runtime ((Z * Z) * (Z * Z)) :=
  countItems countShard (seq 0 (Z.to_nat circuitShards)) ((0, 0), (0, 0)).

Definition publishActiveTunnelCounts : go Runtime unit :=
  let! r := get in
  match metrics r with
  | None => ret tt
  | Some _ =>
      let! n := ActiveTunnelCounts in
      let! r := get in
      match metrics r with
      | None => ret tt
      | Some m =>
          put (set_metrics (Some (mkGauges n.1.1 n.2.1 n.1.2 n.2.2
            (u64 (n.1.1 + n.2.1 + n.1.2 + n.2.2)) (gForwarded m))) r)
      end
  end.

(** The replacement checks of both install paths: [old] is the installation
    under the identifier, [occupied] whether either direction holds it. *)
Definition admission (old : option nat) (oldOwner : nat -> bytes) (occupied : bool)
    (previous : CircuitToken) (owner : bytes) : res unit :=
  match generation previous with
  | Some g =>
      match old with
      | None => Err ErrCircuitNotFound
      | Some o =>
          if negb (o =? g)%nat then Err ErrCircuitNotFound
          else if negb (bytes_eqb (oldOwner o) owner) then Err ErrCircuitOwner
          else Ok tt
      end
  | None => if occupied then Err ErrCircuitExists else Ok tt
  end.

Definition ownerOut (g : registry) (c : nat) : bytes := from_option oowner [] (outs g !! c).
Definition ownerIn (g : registry) (c : nat) : bytes := from_option iowner [] (ins g !! c).

(** [installOutbound] between [shard.mu.Lock] and [shard.mu.Unlock]: the new
    installation and the one it displaced. *)
Definition swapOutbound (circuit : OutboundCircuit) (previous : CircuitToken)
  : go Runtime (nat * option nat) :=
  let! dead := expired (OExpiresAt circuit) in
  if dead then fail ErrCircuitExpired
  else
    let! r := get in
    let g := reg r in
    let s := shard (OID circuit) g in
    let old := outbound s !! OID circuit in
    let! _ := lift (admission old (ownerOut g)
      (bool_decide (is_Some old) || bool_decide (is_Some (inbound s !! OID circuit))) previous (OOwner circuit)) in
    let c := nextRef g in
    let x := mkOutbound 1 (OOwner circuit) (OFirstHop circuit) (ONextTunnelID circuit)
               (OTransforms circuit) (OExpiresAt circuit) 0 in
    let g := mkRegistry (shards g) (ins g) (<[c := x]> (outs g)) (endpoints g) (S c) in
    let g := setShard (shardIndex (OID circuit)) (set_outbound (<[OID circuit := c]> (outbound s)) s) g in
    let! _ := put (set_reg g r) in
    ret (c, old).

Definition installOutbound (circuit : OutboundCircuit) (previous : CircuitToken) : go Runtime CircuitToken :=
  if (OID circuit =? 0) || (ONextTunnelID circuit =? 0) then fail ErrCircuitID
  else
    let! swapped := swapOutbound circuit previous in
    let! _ := match swapped.2 with Some old => update (releaseOutbound old) | None => ret tt end in
    let! _ := publishActiveTunnelCounts in
    ret (mkToken (OID circuit) (Some swapped.1)).

Definition noToken : CircuitToken := mkToken 0 None.

Definition RegisterOutbound (circuit : OutboundCircuit) : go Runtime CircuitToken :=
  installOutbound circuit noToken.

Definition ReplaceOutbound (token : CircuitToken) (circuit : OutboundCircuit) : go Runtime CircuitToken :=
  if negb (tokenID token =? OID circuit) || negb (bool_decide (is_Some (generation token)))
  then fail ErrCircuitNotFound else installOutbound circuit token.

(** [endpoint.installed.Swap(true)] *)
Definition claimEndpoint (e : option nat) (g : registry) : bool * registry :=
  match e with
  | None => (false, g)
  | Some e =>
      match endpoints g !! e with
      | None => (false, g)
      | Some b => (installed b, set_endpoints (<[e := mkBox true (box b)]> (endpoints g)) g)
      end
  end.

Definition swapInbound (circuit : InboundCircuit) (previous : CircuitToken)
  : go Runtime (nat * option nat) :=
  let! dead := expired (IExpiresAt circuit) in
  if dead then fail ErrCircuitExpired
  else
    let! r := get in
    let g := reg r in
    let s := shard (IID circuit) g in
    let old := inbound s !! IID circuit in
    let! _ := lift (admission old (ownerIn g)
      (bool_decide (is_Some old) || bool_decide (is_Some (outbound s !! IID circuit))) previous (IOwner circuit)) in
    let (taken, g) := claimEndpoint (IEndpoint circuit) g in
    let! _ := put (set_reg g r) in
    if taken then fail ErrCircuitExists
    else
      let c := nextRef g in
      let x := mkInbound 1 (IOwner circuit) (ITransforms circuit) (IForward circuit) (IEndpoint circuit)
                 (ILocal circuit) (IExpiresAt circuit) 0 in
      let g := mkRegistry (shards g) (<[c := x]> (ins g)) (outs g) (endpoints g) (S c) in
      let g := setShard (shardIndex (IID circuit)) (set_inbound (<[IID circuit := c]> (inbound s)) s) g in
      let! _ := put (set_reg g r) in
      ret (c, old).

(** The checks [installInbound] makes before it takes the lock. *)
Definition inboundShape (circuit : InboundCircuit) : res unit :=
  fail_if IID circuit =? 0 with ErrCircuitID ;;
  match IForward circuit, IEndpoint circuit with
  | None, None | Some _, Some _ => Err ErrCircuitDirection
  | Some f, None => if FTunnelID f =? 0 then Err ErrCircuitID else Ok tt
  | None, Some _ => Ok tt
  end.

Definition installInbound (circuit : InboundCircuit) (previous : CircuitToken) : go Runtime CircuitToken :=
  let! _ := lift (inboundShape circuit) in
  let! swapped := swapInbound circuit previous in
  let! _ := match swapped.2 with Some old => update (releaseInbound old) | None => ret tt end in
  let! _ := publishActiveTunnelCounts in
  ret (mkToken (IID circuit) (Some swapped.1)).

Definition RegisterInbound (circuit : InboundCircuit) : go Runtime CircuitToken :=
  installInbound circuit noToken.

Definition ReplaceInbound (token : CircuitToken) (circuit : InboundCircuit) : go Runtime CircuitToken :=
  if negb (tokenID token =? IID circuit) || negb (bool_decide (is_Some (generation token)))
  then fail ErrCircuitNotFound else installInbound circuit token.

(** ** Retirement *)

(** Under the shard's lock: drop the entry of the identifier and the registry's
    reference. *)
Definition retireInbound (id : Z) (c : nat) (g : registry) : registry :=
  let i := shardIndex id in
  let s := shardAt i g in
  releaseInbound c (setShard i (set_inbound (delete id (inbound s)) s) g).

Definition retireOutbound (id : Z) (c : nat) (g : registry) : registry :=
  let i := shardIndex id in
  let s := shardAt i g in
  releaseOutbound c (setShard i (set_outbound (delete id (outbound s)) s) g).

(** Whether the token's installation is the one under its identifier. *)
Definition holds (m : gmap Z nat) (token : CircuitToken) : option nat :=
  match m !! tokenID token, generation token with
  | Some c, Some g => if (c =? g)%nat then Some c else None
  | _, _ => None
  end.

Definition removeLocked (token : CircuitToken) (g : registry) : bool * registry :=
  let (removed, g) :=
    match holds (inbound (shard (tokenID token) g)) token with
    | Some c => (true, retireInbound (tokenID token) c g)
    | None => (false, g)
    end in
  match holds (outbound (shard (tokenID token) g)) token with
  | Some c => (true, retireOutbound (tokenID token) c g)
  | None => (removed, g)
  end.

Definition RemoveCircuit (token : CircuitToken) : go Runtime bool :=
  if (tokenID token =? 0) || negb (bool_decide (is_Some (generation token))) then ret false
  else
    let! r := get in
    let (removed, g) := removeLocked token (reg r) in
    let! _ := put (set_reg g r) in
    let! _ := if removed then publishActiveTunnelCounts else ret tt in
    ret removed.

(** One shard of [RemoveOwner], under its lock. *)
Definition removeOwnerShard (owner : bytes) (i : nat) (g : registry) : registry :=
  let g := fold_left (fun g item =>
      if bytes_eqb (ownerIn g item.2) owner then retireInbound item.1 item.2 g else g)
    (rangeCircuits (inbound (shardAt i g))) g in
  fold_left (fun g item =>
      if bytes_eqb (ownerOut g item.2) owner then retireOutbound item.1 item.2 g else g)
    (rangeCircuits (outbound (shardAt i g))) g.

Definition RemoveOwner (owner : bytes) : go Runtime unit :=
  if bytes_eqb owner zeroHash then ret tt
  else
    let! _ := forEach (fun i => update (removeOwnerShard owner i)) (seq 0 (Z.to_nat circuitShards)) in
    publishActiveTunnelCounts.

(** A deadline that has passed; zero is none. *)
Definition due (expiresAt nowMillis : Z) : bool := negb (expiresAt =? 0) && (expiresAt <=? nowMillis).

Definition fragmentReassemblyLifetime : Z := 45000.

(** One shard of [Expire], under its lock: the removed count is carried along. *)
Definition expireInboundItem (nowMillis : Z) (acc : Z * registry) (item : Z * nat) : Z * registry :=
  match ins acc.2 !! item.2 with
  | None => acc
  | Some c =>
      if due (iexpiresAt c) nowMillis then (acc.1 + 1, retireInbound item.1 item.2 acc.2)
      else if fragmentReassemblyLifetime <=? nowMillis then
        match iendpoint c with
        | Some e => (acc.1, expireEndpoint (nowMillis - fragmentReassemblyLifetime) e acc.2)
        | None => acc
        end
      else acc
  end.

Definition expireOutboundItem (nowMillis : Z) (acc : Z * registry) (item : Z * nat) : Z * registry :=
  match outs acc.2 !! item.2 with
  | None => acc
  | Some c =>
      if due (oexpiresAt c) nowMillis then (acc.1 + 1, retireOutbound item.1 item.2 acc.2) else acc
  end.

Definition expireShard (nowMillis : Z) (i : nat) (g : registry) : Z * registry :=
  let acc := fold_left (expireInboundItem nowMillis) (rangeCircuits (inbound (shardAt i g))) (0, g) in
  fold_left (expireOutboundItem nowMillis) (rangeCircuits (outbound (shardAt i acc.2))) acc.

Definition ExpireCircuits (nowMillis : Z) : go Runtime Z :=
  let! removed := forCount (fun i => fun r =>
      let (n, g) := expireShard nowMillis i (reg r) in (Ok n, set_reg g r))
    (seq 0 (Z.to_nat circuitShards)) 0 in
  let! _ := if removed =? 0 then ret tt else publishActiveTunnelCounts in
  ret removed.

(** ** Inspection *)

Definition CircuitOwner (id : Z) (g : registry) : option bytes :=
  if id =? 0 then None
  else match inbound (shard id g) !! id with
       | Some c => Some (ownerIn g c)
       | None => match outbound (shard id g) !! id with
                 | Some c => Some (ownerOut g c)
                 | None => None
                 end
       end.

Definition OutboundActivity (id : Z) : go Runtime (option Z) :=
  if id =? 0 then ret None
  else
    let! r := get in
    match outbound (shard id (reg r)) !! id ≫= fun c => outs (reg r) !! c with
    | None => ret None
    | Some c => let! dead := expired (oexpiresAt c) in ret (if dead then None else Some (oactivity c))
    end.

Definition InboundActivity (id : Z) : go Runtime (option Z) :=
  if id =? 0 then ret None
  else
    let! r := get in
    match inbound (shard id (reg r)) !! id ≫= fun c => ins (reg r) !! c with
    | None => ret None
    | Some c => let! dead := expired (iexpiresAt c) in ret (if dead then None else Some (iactivity c))
    end.

(** The snapshot [InspectCircuit] takes; an outbound circuit has no forward, an
    inbound one a zero first hop. *)
Record CircuitInfo := mkInfo {
  cFirstHop : bytes; cToken : CircuitToken; cOwner : bytes; cExpiresAt : Z; cForward : option Forward }.

Definition InspectCircuit (id : Z) (g : registry) : option CircuitInfo :=
  if id =? 0 then None
  else match inbound (shard id g) !! id with
       | Some c =>
           x ← ins g !! c;
           Some (mkInfo zeroHash (mkToken id (Some c)) (iowner x) (iexpiresAt x) (iforward x))
       | None =>
           c ← outbound (shard id g) !! id;
           x ← outs g !! c;
           Some (mkInfo (firstHop x) (mkToken id (Some c)) (oowner x) (oexpiresAt x) None)
       end.

(** ** Packets: an admitted packet pins its installation *)

Definition pinInbound (c : nat) (g : registry) : registry :=
  match ins g !! c with
  | None => g
  | Some x => set_ins (<[c := set_irefs (irefs x + 1) x]> (ins g)) g
  end.

Definition pinOutbound (c : nat) (g : registry) : registry :=
  match outs g !! c with
  | None => g
  | Some x => set_outs (<[c := set_orefs (orefs x + 1) x]> (outs g)) g
  end.

(** The locked part of [sendBlock]. *)
Definition admitOutbound (circuitID : Z) (gen : option nat) : go Runtime (nat * outboundCircuit) :=
  let! r := get in
  match outbound (shard circuitID (reg r)) !! circuitID with
  | None => fail ErrCircuitNotFound
  | Some c =>
      if match gen with Some g => negb (c =? g)%nat | None => false end then fail ErrCircuitNotFound
      else
        match outs (reg r) !! c with
        | None => lift Panic
        | Some x =>
            let! dead := expired (oexpiresAt x) in
            if dead then fail ErrCircuitExpired
            else let! _ := update (pinOutbound c) in ret (c, x)
        end
  end.

(** The locked part of [HandleContext]. *)
Definition admitInbound (tunnelID : Z) : go Runtime (nat * inboundCircuit) :=
  let! r := get in
  match inbound (shard tunnelID (reg r)) !! tunnelID with
  | None => fail ErrCircuitNotFound
  | Some c =>
      match ins (reg r) !! c with
      | None => lift Panic
      | Some x =>
          let! dead := expired (iexpiresAt x) in
          if dead then fail ErrCircuitExpired
          else let! _ := update (pinInbound c) in ret (c, x)
      end
  end.
End Circuits.
