(* ===== verification/Registry.v ===== *)
(** The tunnel circuit registry under concurrent use: the reference counts of
    installations, the invariant of the registry and of the packets that pin its
    circuits, and the theorems on the life of a circuit, on removal by token and
    on expiry.

    The steps are the critical sections of [circuits.go] and [runtime.go]: what
    runs under a shard's lock is one step, a displaced circuit's release and the
    end of a packet are others. *)

From S2P Require Import Prelude Wire Sha256 I2NP Buffers TunnelBlocks Reassembly Gateway Chacha TunnelCrypto Endpoint Circuits.

(** ** Reference counting, for either direction *)

(** How often an installation is pinned. *)
Definition occurs (c : nat) (l : list nat) : Z := len (filter (fun d => d = c) l).

Lemma occurs_cons c d l : occurs c (d :: l) = (if decide (d = c) then 1 else 0) + occurs c l.
Proof. unfold occurs. rewrite filter_cons. destruct (decide (d = c)); [by rewrite len_cons|done]. Qed.

Lemma occurs_app c k l : occurs c (k ++ l) = occurs c k + occurs c l.
Proof. unfold occurs. rewrite filter_app. apply len_app. Qed.

Lemma occurs_pos c l : c ∈ l -> 0 < occurs c l.
Proof.
  intros Hin. unfold occurs. assert (c ∈ filter (fun d => d = c) l) as Hf by (by apply list_elem_of_filter).
  destruct (filter (fun d => d = c) l); [by apply elem_of_nil in Hf|]. rewrite len_cons. len_pos. lia.
Qed.

Lemma occurs_nonneg c l : 0 <= occurs c l.
Proof. unfold occurs. len_pos. lia. Qed.

Lemma occurs_zero c l : c ∉ l -> occurs c l = 0.
Proof.
  intros Hn. unfold occurs. replace (filter (fun d => d = c) l) with (@nil nat); [done|].
  symmetry. apply elem_of_nil_inv. intros d [-> Hd]%list_elem_of_filter. done.
Qed.

Lemma elem_option_list (c : nat) o : c ∈ option_list o -> o = Some c.
Proof. destruct o as [d|]; cbn; [intros ->%list_elem_of_singleton; done|by intros ?%elem_of_nil]. Qed.

(** [entry i id] is the installation under [id] in shard [i]; [refs] the
    reference counts; [pins] the references other than the registry's. *)
Record ref_ok (entry : nat -> Z -> option nat) (refs : nat -> option Z) (pins : list nat) : Prop := mkRefOk {
  ref_home : forall i id c, entry i id = Some c -> i = shardIndex id;
  ref_once : forall i id j id' c, entry i id = Some c -> entry j id' = Some c -> id = id';
  ref_held : forall i id c, entry i id = Some c -> refs c = Some (1 + occurs c pins);
  ref_free : forall c n, refs c = Some n -> (exists i id, entry i id = Some c) \/ n = occurs c pins;
  ref_pins : forall c, c ∈ pins -> is_Some (refs c) }.

Section Refs.
Context {entry : nat -> Z -> option nat} {refs : nat -> option Z} {pins : list nat}.
Context (Hok : ref_ok entry refs pins).

Lemma refs_value c n : refs c = Some n ->
  ((exists i id, entry i id = Some c) /\ n = 1 + occurs c pins) \/
  ((forall i id, entry i id <> Some c) /\ n = occurs c pins).
Proof.
  intros Hc. destruct (ref_free _ _ _ Hok c n Hc) as [(i & id & He)|Hn].
  - left. split; [by exists i, id|]. pose proof (ref_held _ _ _ Hok _ _ _ He) as H. congruence.
  - right. split; [|done]. intros i id He. pose proof (ref_held _ _ _ Hok _ _ _ He) as H.
    pose proof (occurs_nonneg c pins). assert (n = 1 + occurs c pins) by congruence. lia.
Qed.

(** A new installation takes the place of [old], whose registry reference
    becomes a pin. *)
Lemma ref_install entry' refs' i id c :
  i = shardIndex id -> refs c = None ->
  (forall j k, entry' j k = if decide (j = i /\ k = id) then Some c else entry j k) ->
  (forall d, refs' d = if decide (d = c) then Some 1 else refs d) ->
  ref_ok entry' refs' (option_list (entry i id) ++ pins).
Proof.
  intros Hi Hc He Hr.
  assert (Hcn : forall j k, entry j k <> Some c).
  { intros j k Hj. apply (ref_held _ _ _ Hok) in Hj. congruence. }
  assert (Hcp : c ∉ pins). { intros Hin%(ref_pins _ _ _ Hok). rewrite Hc in Hin. by destruct Hin. }
  assert (Hco : forall o, entry i id = Some o -> o <> c) by (intros o Ho ->; by apply (Hcn i id)).
  constructor.
  - intros j k d. rewrite He. case_decide as Hd; [by destruct Hd; subst|apply (ref_home _ _ _ Hok)].
  - intros j k j' k' d. rewrite !He.
    case_decide as H1; case_decide as H2; [destruct H1, H2; congruence|intros [= <-] H; by apply Hcn in H| |].
    { intros H [= <-]. by apply Hcn in H. } apply (ref_once _ _ _ Hok).
  - intros j k d. rewrite He, Hr, occurs_app. case_decide as Hd.
    + intros [= <-]. rewrite decide_True by done. rewrite (occurs_zero c pins Hcp).
      rewrite (occurs_zero c (option_list _)); [done|]. intros Hin%elem_option_list. by apply (Hcn i id).
    + intros Hj. rewrite decide_False by (intros ->; by apply (Hcn j k)).
      rewrite (ref_held _ _ _ Hok _ _ _ Hj). f_equal. rewrite (occurs_zero d (option_list _)); [lia|].
      intros Hin%elem_option_list. apply Hd. pose proof (ref_once _ _ _ Hok _ _ _ _ _ Hj Hin) as ->.
      split; [|done]. rewrite (ref_home _ _ _ Hok _ _ _ Hj). by rewrite (ref_home _ _ _ Hok _ _ _ Hin).
  - intros d n. rewrite Hr. case_decide as Hd.
    + intros [= <-]. subst. left. exists (shardIndex id), id. rewrite He. by rewrite decide_True.
    + intros Hn. destruct (refs_value d n Hn) as [[(j & k & Hj) ->]|[Hno ->]].
      * destruct (decide (j = i /\ k = id)) as [[-> ->]|Hne].
        { right. rewrite occurs_app, Hj. change (option_list (Some d)) with [d]. rewrite occurs_cons, decide_True by done.
          by rewrite (occurs_zero d []) by (by apply not_elem_of_nil). }
        left. exists j, k. rewrite He. by rewrite decide_False.
      * right. rewrite occurs_app, (occurs_zero d (option_list _)); [lia|]. intros Hin%elem_option_list. by apply Hno in Hin.
  - intros d. rewrite Hr. case_decide; [by eexists|]. rewrite elem_of_app. intros [Hin%elem_option_list|Hin].
    + rewrite (ref_held _ _ _ Hok _ _ _ Hin). by eexists.
    + by apply (ref_pins _ _ _ Hok).
Qed.

(** An installation leaves the registry, which drops its reference. *)
Lemma ref_retire entry' refs' i id c n :
  entry i id = Some c -> refs c = Some n ->
  (forall j k, entry' j k = if decide (j = i /\ k = id) then None else entry j k) ->
  (forall d, refs' d = if decide (d = c) then Some (n - 1) else refs d) ->
  ref_ok entry' refs' pins.
Proof.
  intros Hc Hn He Hr.
  assert (Hsub : forall j k d, entry' j k = Some d -> entry j k = Some d /\ d <> c).
  { intros j k d. rewrite He. case_decide as Hd; [done|]. intros Hj. split; [done|]. intros ->.
    pose proof (ref_once _ _ _ Hok _ _ _ _ _ Hj Hc) as ->. apply Hd. split; [|done].
    rewrite (ref_home _ _ _ Hok _ _ _ Hj). by rewrite (ref_home _ _ _ Hok _ _ _ Hc). }
  pose proof (ref_held _ _ _ Hok _ _ _ Hc) as Hc1.
  constructor.
  - intros j k d [Hj _]%Hsub. by apply (ref_home _ _ _ Hok) in Hj.
  - intros j k j' k' d [Hj _]%Hsub [Hj' _]%Hsub. by apply (ref_once _ _ _ Hok) with (1 := Hj) in Hj'.
  - intros j k d [Hj Hd]%Hsub. rewrite Hr, decide_False by done. by apply (ref_held _ _ _ Hok) in Hj.
  - intros d m. rewrite Hr. case_decide as Hd.
    + intros [= <-]. right. subst. assert (n = 1 + occurs c pins) by congruence. lia.
    + intros Hm. destruct (ref_free _ _ _ Hok d m Hm) as [(j & k & Hj)|Hm']; [|by right]. left. exists j, k.
      rewrite He, decide_False; [done|]. intros [-> ->]. congruence.
  - intros d Hd%(ref_pins _ _ _ Hok). rewrite Hr. case_decide; [by eexists|done].
Qed.

(** A packet is admitted. *)
Lemma ref_pin refs' i id c n :
  entry i id = Some c -> refs c = Some n ->
  (forall d, refs' d = if decide (d = c) then Some (n + 1) else refs d) ->
  ref_ok entry refs' (c :: pins).
Proof.
  intros Hc Hn Hr. pose proof (ref_held _ _ _ Hok _ _ _ Hc) as Hc1. constructor.
  - apply (ref_home _ _ _ Hok).
  - apply (ref_once _ _ _ Hok).
  - intros j k d Hj. rewrite Hr, occurs_cons. case_decide as Hd.
    + subst. rewrite decide_True by done. f_equal. assert (n = 1 + occurs c pins) by congruence. lia.
    + rewrite decide_False by done. by apply (ref_held _ _ _ Hok) in Hj.
  - intros d m. rewrite Hr, occurs_cons. case_decide as Hd.
    + intros _. subst. left. by exists i, id.
    + rewrite (decide_False (P := c = d)) by done. apply (ref_free _ _ _ Hok).
  - intros d Hd. rewrite Hr. case_decide; [by eexists|].
    apply elem_of_cons in Hd as [->|Hd]; [done|by apply (ref_pins _ _ _ Hok)].
Qed.

(** A pin is dropped. *)
Lemma ref_release refs' p1 p2 c n :
  pins = p1 ++ c :: p2 -> refs c = Some n ->
  (forall d, refs' d = if decide (d = c) then Some (n - 1) else refs d) ->
  ref_ok entry refs' (p1 ++ p2).
Proof.
  intros Hp Hn Hr.
  assert (Hocc : forall d, occurs d pins = (if decide (d = c) then 1 else 0) + occurs d (p1 ++ p2)).
  { intros d. rewrite Hp, !occurs_app, occurs_cons. destruct (decide (d = c)), (decide (c = d)); congruence || lia. }
  constructor.
  - apply (ref_home _ _ _ Hok).
  - apply (ref_once _ _ _ Hok).
  - intros j k d Hj. pose proof (ref_held _ _ _ Hok _ _ _ Hj) as Hd. rewrite Hocc in Hd. rewrite Hr.
    case_decide; [|by rewrite Hd]. subst. f_equal. assert (n = 1 + (1 + occurs c (p1 ++ p2))) by congruence. lia.
  - intros d m. rewrite Hr. case_decide as Hd.
    + subst d. intros [= <-]. destruct (ref_free _ _ _ Hok c n Hn) as [He|Hm]; [by left|].
      right. rewrite Hocc, decide_True in Hm by done. lia.
    + intros Hm. destruct (ref_free _ _ _ Hok d m Hm) as [He|Hm']; [by left|].
      right. rewrite Hocc, decide_False in Hm' by done. lia.
  - intros d Hd. rewrite Hr. case_decide; [by eexists|]. apply (ref_pins _ _ _ Hok). rewrite Hp. set_solver.
Qed.
End Refs.

(** ** The registry under concurrent use *)

Inductive pin := PinIn (c : nat) | PinOut (c : nat).

Definition pinsIn (p : list pin) : list nat := omap (fun x => match x with PinIn c => Some c | PinOut _ => None end) p.
Definition pinsOut (p : list pin) : list nat := omap (fun x => match x with PinOut c => Some c | PinIn _ => None end) p.

Section Registry.
Context {handler : Type}.
Abbreviation reg_t := (registry (handler := handler)).
Abbreviation in_t := (inboundCircuit (handler := handler)).

Definition entryIn (g : reg_t) (i : nat) (id : Z) : option nat := inbound (shardAt i g) !! id.
Definition entryOut (g : reg_t) (i : nat) (id : Z) : option nat := outbound (shardAt i g) !! id.
Definition refsIn (g : reg_t) (c : nat) : option Z := irefs <$> ins g !! c.
Definition refsOut (g : reg_t) (c : nat) : option Z := orefs <$> outs g !! c.

(** What the last user of a circuit wipes, and what never changes before. *)
Definition wipedIn (x : in_t) : Prop := itransforms x = [] /\ iendpoint x = None /\ ilocal x = None.
Definition wipedOut (x : outboundCircuit) : Prop := otransforms x = [].
Definition sameIn (x y : in_t) : Prop :=
  iowner y = iowner x /\ itransforms y = itransforms x /\ iforward y = iforward x /\
  iendpoint y = iendpoint x /\ ilocal y = ilocal x /\ iexpiresAt y = iexpiresAt x.
Definition sameOut (x y : outboundCircuit) : Prop :=
  oowner y = oowner x /\ firstHop y = firstHop x /\ nextTunnelID y = nextTunnelID x /\
  otransforms y = otransforms x /\ oexpiresAt y = oexpiresAt x.

(** How one object may change: not at all, or, while it is referenced, in its
    count and, with the last reference, by being wiped. *)
Definition becomesIn (x y : in_t) : Prop :=
  y = x \/ 0 < irefs x /\ (irefs y <> 0 /\ sameIn x y \/ irefs y = 0 /\ wipedIn y).
Definition becomesOut (x y : outboundCircuit) : Prop :=
  y = x \/ 0 < orefs x /\ (orefs y <> 0 /\ sameOut x y \/ orefs y = 0 /\ wipedOut y).

Record evolves (g g' : reg_t) : Prop := mkEvolves {
  ev_ins : forall c, option_relation becomesIn (fun _ => False) (fun _ => False) (ins g !! c) (ins g' !! c);
  ev_outs : forall c, option_relation becomesOut (fun _ => False) (fun _ => False) (outs g !! c) (outs g' !! c);
  ev_boxes : forall e, installed <$> endpoints g' !! e = installed <$> endpoints g !! e;
  ev_next : nextRef g' = nextRef g }.

Record contents_ok (g : reg_t) : Prop := mkContents {
  co_in : forall c x, ins g !! c = Some x -> irefs x = 0 -> wipedIn x;
  co_out : forall c x, outs g !! c = Some x -> orefs x = 0 -> wipedOut x;
  co_box : forall c x e, ins g !! c = Some x -> iendpoint x = Some e -> installed <$> endpoints g !! e = Some true;
  co_own : forall c d x y e, ins g !! c = Some x -> ins g !! d = Some y ->
    iendpoint x = Some e -> iendpoint y = Some e -> c = d;
  co_fresh : forall c, (nextRef g <= c)%nat -> ins g !! c = None /\ outs g !! c = None }.

(** Every identifier is held by at most one installation, in one direction; the
    counts are those of the references; the last user has wiped what nobody
    references. *)
Record reg_ok (g : reg_t) (p : list pin) : Prop := mkRegOk {
  reg_shards : length (shards g) = Z.to_nat circuitShards;
  reg_in : ref_ok (entryIn g) (refsIn g) (pinsIn p);
  reg_out : ref_ok (entryOut g) (refsOut g) (pinsOut p);
  reg_excl : forall i id c j d, entryIn g i id = Some c -> entryOut g j id = Some d -> False;
  reg_contents : contents_ok g }.

Lemma becomesIn_refl x : becomesIn x x. Proof. by left. Qed.
Lemma becomesOut_refl x : becomesOut x x. Proof. by left. Qed.

Lemma becomesIn_trans x y z : becomesIn x y -> becomesIn y z -> becomesIn x z.
Proof.
  intros [->|[Hx Hy]]; [done|]. intros [->|[Hp Hz]]; [right; done|]. right. split; [done|].
  destruct Hy as [[Hy Hs]|[Hy Hw]]; [|lia]. destruct Hz as [[Hz Hs']|Hz]; [|by right]. left. split; [done|].
  unfold sameIn in *. intuition congruence.
Qed.

Lemma becomesOut_trans x y z : becomesOut x y -> becomesOut y z -> becomesOut x z.
Proof.
  intros [->|[Hx Hy]]; [done|]. intros [->|[Hp Hz]]; [right; done|]. right. split; [done|].
  destruct Hy as [[Hy Hs]|[Hy Hw]]; [|lia]. destruct Hz as [[Hz Hs']|Hz]; [|by right]. left. split; [done|].
  unfold sameOut in *. intuition congruence.
Qed.

Lemma evolves_refl g : evolves g g.
Proof.
  constructor; [intros c..|done|done].
  - destruct (ins g !! c); [apply becomesIn_refl|done].
  - destruct (outs g !! c); [apply becomesOut_refl|done].
Qed.

Lemma evolves_trans g1 g2 g3 : evolves g1 g2 -> evolves g2 g3 -> evolves g1 g3.
Proof.
  intros [Hi Ho Hb Hn] [Hi' Ho' Hb' Hn']. constructor; [intros c..| |congruence].
  - specialize (Hi c). specialize (Hi' c). destruct (ins g1 !! c), (ins g2 !! c), (ins g3 !! c); try done.
    by eapply becomesIn_trans.
  - specialize (Ho c). specialize (Ho' c). destruct (outs g1 !! c), (outs g2 !! c), (outs g3 !! c); try done.
    by eapply becomesOut_trans.
  - intros e. by rewrite Hb', Hb.
Qed.

Lemma evolves_in g g' c y : evolves g g' -> ins g' !! c = Some y -> exists x, ins g !! c = Some x /\ becomesIn x y.
Proof. intros [Hi _ _ _] Hy. specialize (Hi c). rewrite Hy in Hi. destruct (ins g !! c) as [x|]; [|done]. by exists x. Qed.

Lemma evolves_out g g' c y : evolves g g' -> outs g' !! c = Some y -> exists x, outs g !! c = Some x /\ becomesOut x y.
Proof. intros [_ Ho _ _] Hy. specialize (Ho c). rewrite Hy in Ho. destruct (outs g !! c) as [x|]; [|done]. by exists x. Qed.

Lemma becomesIn_endpoint x y e : becomesIn x y -> iendpoint y = Some e -> iendpoint x = Some e.
Proof.
  intros [->|[_ [[_ (_ & _ & _ & He & _)]|[_ (_ & He & _)]]]]; [done|congruence..].
Qed.

Lemma contents_evolve g g' : contents_ok g -> evolves g g' -> contents_ok g'.
Proof.
  intros [C1 C2 C3 C4 C5] Hev. constructor.
  - intros c y Hy Hz. destruct (evolves_in _ _ _ _ Hev Hy) as (x & Hx & [->|[_ [[? _]|[_ Hw]]]]); [by eapply C1|done|done].
  - intros c y Hy Hz. destruct (evolves_out _ _ _ _ Hev Hy) as (x & Hx & [->|[_ [[? _]|[_ Hw]]]]); [by eapply C2|done|done].
  - intros c y e Hy He. destruct (evolves_in _ _ _ _ Hev Hy) as (x & Hx & Hb).
    rewrite (ev_boxes _ _ Hev). eapply C3; [done|]. by eapply becomesIn_endpoint.
  - intros c d y y' e Hy Hy' He He'.
    destruct (evolves_in _ _ _ _ Hev Hy) as (x & Hx & Hb). destruct (evolves_in _ _ _ _ Hev Hy') as (x' & Hx' & Hb').
    apply (C4 c d x x' e); [done..|by eapply becomesIn_endpoint|by eapply becomesIn_endpoint].
  - intros c Hc. rewrite (ev_next _ _ Hev) in Hc. destruct (C5 c Hc) as [H1 H2]. split.
    + pose proof (ev_ins _ _ Hev c) as H. rewrite H1 in H. by destruct (ins g' !! c).
    + pose proof (ev_outs _ _ Hev c) as H. rewrite H2 in H. by destruct (outs g' !! c).
Qed.
End Registry.

Section Primitives.
Context {handler : Type}.
Context (range : gmap Z partial -> list (Z * partial)).
Context (rangeMeta : gmap Z deliveryMeta -> list (Z * deliveryMeta)).
Abbreviation reg_t := (registry (handler := handler)).

Lemma shardIndex_lt id : (shardIndex id < Z.to_nat circuitShards)%nat.
Proof.
  unfold shardIndex, circuitShards. change (64 - 1) with (Z.ones 6). rewrite Z.land_ones by lia.
  pose proof (Z.mod_pos_bound id (2 ^ 6)). lia.
Qed.

Lemma shardAt_set i j s (g : reg_t) :
  (i < length (shards g))%nat -> shardAt j (setShard i s g) = if decide (j = i) then s else shardAt j g.
Proof.
  intros Hi. unfold shardAt, setShard, set_shards. cbn [shards]. case_decide.
  - subst. by rewrite list_lookup_insert_eq.
  - by rewrite list_lookup_insert_ne.
Qed.

(** The entries after one shard's map changed at one identifier. *)
Lemma entryIn_set i id v (g : reg_t) j k :
  (i < length (shards g))%nat ->
  entryIn (setShard i (set_inbound (partial_alter (fun _ => v) id (inbound (shardAt i g))) (shardAt i g)) g) j k =
    if decide (j = i /\ k = id) then v else entryIn g j k.
Proof.
  intros Hi. unfold entryIn. rewrite shardAt_set by done. destruct (decide (j = i)) as [->|Hj].
  - cbn [set_inbound inbound]. destruct (decide (k = id)) as [->|Hk].
    + rewrite decide_True by done. by rewrite lookup_partial_alter_eq.
    + rewrite decide_False by (intros [? ?]; done). by rewrite lookup_partial_alter_ne.
  - rewrite decide_False by (intros [? ?]; done). done.
Qed.

Lemma entryOut_set i id v (g : reg_t) j k :
  (i < length (shards g))%nat ->
  entryOut (setShard i (set_outbound (partial_alter (fun _ => v) id (outbound (shardAt i g))) (shardAt i g)) g) j k =
    if decide (j = i /\ k = id) then v else entryOut g j k.
Proof.
  intros Hi. unfold entryOut. rewrite shardAt_set by done. destruct (decide (j = i)) as [->|Hj].
  - cbn [set_outbound outbound]. destruct (decide (k = id)) as [->|Hk].
    + rewrite decide_True by done. by rewrite lookup_partial_alter_eq.
    + rewrite decide_False by (intros [? ?]; done). by rewrite lookup_partial_alter_ne.
  - rewrite decide_False by (intros [? ?]; done). done.
Qed.

Lemma entryIn_other i m (g : reg_t) j k :
  (i < length (shards g))%nat -> entryIn (setShard i (set_outbound m (shardAt i g)) g) j k = entryIn g j k.
Proof. intros Hi. unfold entryIn. rewrite shardAt_set by done. by case_decide; subst. Qed.

Lemma entryOut_other i m (g : reg_t) j k :
  (i < length (shards g))%nat -> entryOut (setShard i (set_inbound m (shardAt i g)) g) j k = entryOut g j k.
Proof. intros Hi. unfold entryOut. rewrite shardAt_set by done. by case_decide; subst. Qed.

(** *** Dropping a reference *)

Lemma expireEndpoint_frame cutoff e (g : reg_t) :
  let g' := expireEndpoint range rangeMeta cutoff e g in
  shards g' = shards g /\ ins g' = ins g /\ outs g' = outs g /\ nextRef g' = nextRef g /\
  forall d, installed <$> endpoints g' !! d = installed <$> endpoints g !! d.
Proof.
  unfold expireEndpoint. destruct (endpoints g !! e) as [b|] eqn:E; [|done]. cbn. split_and!; try done.
  intros d. destruct (decide (d = e)) as [->|]; [by rewrite lookup_insert_eq, E|by rewrite lookup_insert_ne].
Qed.

Lemma releaseInbound_spec c x (g : reg_t) :
  ins g !! c = Some x ->
  exists y, let g' := releaseInbound range rangeMeta c g in
    ins g' = <[c := y]> (ins g) /\ irefs y = irefs x - 1 /\
    (irefs y <> 0 /\ sameIn x y \/ irefs y = 0 /\ wipedIn y) /\
    shards g' = shards g /\ outs g' = outs g /\ nextRef g' = nextRef g /\
    forall d, installed <$> endpoints g' !! d = installed <$> endpoints g !! d.
Proof.
  intros Hx. unfold releaseInbound. rewrite Hx. cbn [set_irefs irefs iendpoint]. destruct (irefs x - 1 =? 0) eqn:E; cbn [negb].
  - exists (wipeInbound (set_irefs (irefs x - 1) x)). cbn zeta.
    set (g1 := match iendpoint x with Some e => _ | None => g end).
    assert (Hg1 : shards g1 = shards g /\ ins g1 = ins g /\ outs g1 = outs g /\ nextRef g1 = nextRef g /\
      forall d, installed <$> endpoints g1 !! d = installed <$> endpoints g !! d).
    { unfold g1. destruct (iendpoint x); [apply expireEndpoint_frame|done]. }
    destruct Hg1 as (H1 & H2 & H3 & H4 & H5). cbn. rewrite H2. split_and!; try done. right. split; [lia|done].
  - exists (set_irefs (irefs x - 1) x). cbn. split_and!; try done. left. split; [lia|done].
Qed.

Lemma releaseOutbound_spec c x (g : reg_t) :
  outs g !! c = Some x ->
  exists y, let g' := releaseOutbound c g in
    outs g' = <[c := y]> (outs g) /\ orefs y = orefs x - 1 /\
    (orefs y <> 0 /\ sameOut x y \/ orefs y = 0 /\ wipedOut y) /\
    shards g' = shards g /\ ins g' = ins g /\ nextRef g' = nextRef g /\ endpoints g' = endpoints g.
Proof.
  intros Hx. unfold releaseOutbound. rewrite Hx. cbn [set_orefs orefs]. destruct (orefs x - 1 =? 0) eqn:E; cbn [negb].
  - exists (wipeOutbound (set_orefs (orefs x - 1) x)). cbn. split_and!; try done. right. split; [lia|done].
  - exists (set_orefs (orefs x - 1) x). cbn. split_and!; try done. left. split; [lia|done].
Qed.

(** *** Changing one object *)

Lemma refsIn_insert (g g' : reg_t) c y d :
  ins g' = <[c := y]> (ins g) -> refsIn g' d = if decide (d = c) then Some (irefs y) else refsIn g d.
Proof.
  intros H. unfold refsIn. rewrite H. case_decide; [subst; by rewrite lookup_insert_eq|by rewrite lookup_insert_ne].
Qed.

Lemma refsOut_insert (g g' : reg_t) c y d :
  outs g' = <[c := y]> (outs g) -> refsOut g' d = if decide (d = c) then Some (orefs y) else refsOut g d.
Proof.
  intros H. unfold refsOut. rewrite H. case_decide; [subst; by rewrite lookup_insert_eq|by rewrite lookup_insert_ne].
Qed.

Lemma evolves_change_in (g g' : reg_t) c x y :
  ins g !! c = Some x -> becomesIn x y -> ins g' = <[c := y]> (ins g) -> outs g' = outs g ->
  nextRef g' = nextRef g -> (forall d, installed <$> endpoints g' !! d = installed <$> endpoints g !! d) ->
  evolves g g'.
Proof.
  intros Hx Hb Hi Ho Hn He. constructor; [intros d..|done|done].
  - rewrite Hi. destruct (decide (d = c)) as [->|Hd].
    + by rewrite lookup_insert_eq, Hx.
    + rewrite lookup_insert_ne by done. destruct (ins g !! d); [apply becomesIn_refl|done].
  - rewrite Ho. destruct (outs g !! d); [apply becomesOut_refl|done].
Qed.

Lemma evolves_change_out (g g' : reg_t) c x y :
  outs g !! c = Some x -> becomesOut x y -> outs g' = <[c := y]> (outs g) -> ins g' = ins g ->
  nextRef g' = nextRef g -> (forall d, installed <$> endpoints g' !! d = installed <$> endpoints g !! d) ->
  evolves g g'.
Proof.
  intros Hx Hb Ho Hi Hn He. constructor; [intros d..|done|done].
  - rewrite Hi. destruct (ins g !! d); [apply becomesIn_refl|done].
  - rewrite Ho. destruct (decide (d = c)) as [->|Hd].
    + by rewrite lookup_insert_eq, Hx.
    + rewrite lookup_insert_ne by done. destruct (outs g !! d); [apply becomesOut_refl|done].
Qed.

Lemma held_in (g : reg_t) p i id c :
  reg_ok g p -> entryIn g i id = Some c ->
  exists x, ins g !! c = Some x /\ refsIn g c = Some (irefs x) /\ 0 < irefs x.
Proof.
  intros H He. pose proof (ref_held _ _ _ (reg_in _ _ H) _ _ _ He) as Hr. pose proof Hr as Hr'. unfold refsIn in Hr.
  destruct (ins g !! c) as [x|] eqn:Hx; [|done]. exists x. injection Hr as Hr. pose proof (occurs_nonneg c (pinsIn p)).
  split_and!; [done|unfold refsIn; by rewrite Hx|lia].
Qed.

Lemma held_out (g : reg_t) p i id c :
  reg_ok g p -> entryOut g i id = Some c ->
  exists x, outs g !! c = Some x /\ refsOut g c = Some (orefs x) /\ 0 < orefs x.
Proof.
  intros H He. pose proof (ref_held _ _ _ (reg_out _ _ H) _ _ _ He) as Hr. pose proof Hr as Hr'. unfold refsOut in Hr.
  destruct (outs g !! c) as [x|] eqn:Hx; [|done]. exists x. injection Hr as Hr. pose proof (occurs_nonneg c (pinsOut p)).
  split_and!; [done|unfold refsOut; by rewrite Hx|lia].
Qed.

Lemma pinned_in (g : reg_t) p c :
  reg_ok g p -> c ∈ pinsIn p -> exists x, ins g !! c = Some x /\ refsIn g c = Some (irefs x) /\ 0 < irefs x.
Proof.
  intros H Hc. destruct (ref_pins _ _ _ (reg_in _ _ H) c Hc) as [n Hn]. pose proof (occurs_pos _ _ Hc).
  assert (0 < n) by (destruct (refs_value (reg_in _ _ H) c n Hn) as [[_ ->]|[_ ->]]; lia).
  pose proof Hn as Hn'. unfold refsIn in Hn. destruct (ins g !! c) as [x|] eqn:Hx; [|done]. injection Hn as Hn. subst n. by exists x.
Qed.

Lemma pinned_out (g : reg_t) p c :
  reg_ok g p -> c ∈ pinsOut p -> exists x, outs g !! c = Some x /\ refsOut g c = Some (orefs x) /\ 0 < orefs x.
Proof.
  intros H Hc. destruct (ref_pins _ _ _ (reg_out _ _ H) c Hc) as [n Hn]. pose proof (occurs_pos _ _ Hc).
  assert (0 < n) by (destruct (refs_value (reg_out _ _ H) c n Hn) as [[_ ->]|[_ ->]]; lia).
  pose proof Hn as Hn'. unfold refsOut in Hn. destruct (outs g !! c) as [x|] eqn:Hx; [|done]. injection Hn as Hn. subst n. by exists x.
Qed.

(** Equal entries and counts keep reference counting intact. *)
Lemma ref_ok_ext entry entry' refs refs' pins :
  ref_ok entry refs pins -> (forall i id, entry' i id = entry i id) -> (forall c, refs' c = refs c) ->
  ref_ok entry' refs' pins.
Proof.
  intros [H1 H2 H3 H4 H5] He Hr. constructor.
  - intros i id c. rewrite He. apply H1.
  - intros i id j id' c. rewrite !He. apply H2.
  - intros i id c. rewrite He, Hr. apply H3.
  - intros c n. rewrite Hr. intros [(i & id & E)|E]%H4; [left; exists i, id; by rewrite He|by right].
  - intros c Hc%H5. by rewrite Hr.
Qed.

Lemma retireInbound_ok id c (g : reg_t) p :
  reg_ok g p -> entryIn g (shardIndex id) id = Some c ->
  let g' := retireInbound range rangeMeta id c g in
  reg_ok g' p /\ evolves g g' /\
  (forall j k, entryIn g' j k = if decide (j = shardIndex id /\ k = id) then None else entryIn g j k) /\
  (forall j k, entryOut g' j k = entryOut g j k).
Proof.
  intros H He g'. destruct (held_in g p _ _ c H He) as (x & Hx & Hr & Hpos).
  assert (Hi : (shardIndex id < length (shards g))%nat) by (rewrite (reg_shards _ _ H); apply shardIndex_lt).
  set (g1 := setShard (shardIndex id) (set_inbound (delete id (inbound (shardAt (shardIndex id) g))) (shardAt (shardIndex id) g)) g).
  destruct (releaseInbound_spec c x g1 Hx) as (y & Hins & Hy & Hch & Hsh & Ho & Hn & Hb).
  change (releaseInbound range rangeMeta c g1) with g' in *.
  assert (HeI : forall j k, entryIn g' j k = if decide (j = shardIndex id /\ k = id) then None else entryIn g j k).
  { intros j k. unfold entryIn, shardAt. rewrite Hsh. by apply (entryIn_set (shardIndex id) id None g j k). }
  assert (HeO : forall j k, entryOut g' j k = entryOut g j k).
  { intros j k. unfold entryOut, shardAt. rewrite Hsh. by apply (entryOut_other (shardIndex id) _ g j k). }
  assert (Hev : evolves g g').
  { apply (evolves_change_in g g' c x y); try done. right. split; [done|]. exact Hch. }
  split_and!; [|done..]. constructor.
  - rewrite Hsh. unfold g1, setShard, set_shards. cbn [shards]. rewrite length_insert. apply (reg_shards _ _ H).
  - apply (ref_retire (reg_in _ _ H) _ _ (shardIndex id) id c (irefs x)); try done.
    intros d. rewrite (refsIn_insert g g' c y d Hins). by rewrite Hy.
  - apply (ref_ok_ext _ _ _ _ _ (reg_out _ _ H)); [done|]. intros d. unfold refsOut. by rewrite Ho.
  - intros i k d j e. rewrite HeI, HeO. case_decide; [done|]. apply (reg_excl _ _ H).
  - by apply (contents_evolve g), Hev; apply (reg_contents _ _ H).
Qed.

Lemma retireOutbound_ok id c (g : reg_t) p :
  reg_ok g p -> entryOut g (shardIndex id) id = Some c ->
  let g' := retireOutbound id c g in
  reg_ok g' p /\ evolves g g' /\
  (forall j k, entryOut g' j k = if decide (j = shardIndex id /\ k = id) then None else entryOut g j k) /\
  (forall j k, entryIn g' j k = entryIn g j k).
Proof.
  intros H He g'. destruct (held_out g p _ _ c H He) as (x & Hx & Hr & Hpos).
  assert (Hi : (shardIndex id < length (shards g))%nat) by (rewrite (reg_shards _ _ H); apply shardIndex_lt).
  set (g1 := setShard (shardIndex id) (set_outbound (delete id (outbound (shardAt (shardIndex id) g))) (shardAt (shardIndex id) g)) g).
  destruct (releaseOutbound_spec c x g1 Hx) as (y & Houts & Hy & Hch & Hsh & Hin & Hn & Hb).
  change (releaseOutbound c g1) with g' in *.
  assert (HeO : forall j k, entryOut g' j k = if decide (j = shardIndex id /\ k = id) then None else entryOut g j k).
  { intros j k. unfold entryOut, shardAt. rewrite Hsh. by apply (entryOut_set (shardIndex id) id None g j k). }
  assert (HeI : forall j k, entryIn g' j k = entryIn g j k).
  { intros j k. unfold entryIn, shardAt. rewrite Hsh. by apply (entryIn_other (shardIndex id) _ g j k). }
  assert (Hev : evolves g g').
  { apply (evolves_change_out g g' c x y); try done; [right; split; [done|exact Hch]|by rewrite Hb]. }
  split_and!; [|done..]. constructor.
  - rewrite Hsh. unfold g1, setShard, set_shards. cbn [shards]. rewrite length_insert. apply (reg_shards _ _ H).
  - apply (ref_ok_ext _ _ _ _ _ (reg_in _ _ H)); [done|]. intros d. unfold refsIn. by rewrite Hin.
  - apply (ref_retire (reg_out _ _ H) _ _ (shardIndex id) id c (orefs x)); try done.
    intros d. rewrite (refsOut_insert g g' c y d Houts). by rewrite Hy.
  - intros i k d j e. rewrite HeI, HeO. case_decide; [done|]. apply (reg_excl _ _ H).
  - by apply (contents_evolve g), Hev; apply (reg_contents _ _ H).
Qed.
End Primitives.

Section Pins.
Context {handler : Type}.
Context (range : gmap Z partial -> list (Z * partial)).
Context (rangeMeta : gmap Z deliveryMeta -> list (Z * deliveryMeta)).
Abbreviation reg_t := (registry (handler := handler)).

Lemma pinsIn_app p q : pinsIn (p ++ q) = pinsIn p ++ pinsIn q.
Proof. apply omap_app. Qed.

Lemma pinsOut_app p q : pinsOut (p ++ q) = pinsOut p ++ pinsOut q.
Proof. apply omap_app. Qed.

(** A change of one inbound object that leaves the shards alone. *)
Lemma reg_ok_in (g g' : reg_t) p p' c x y :
  reg_ok g p -> ins g !! c = Some x -> becomesIn x y -> ins g' = <[c := y]> (ins g) ->
  outs g' = outs g -> shards g' = shards g -> nextRef g' = nextRef g ->
  (forall d, installed <$> endpoints g' !! d = installed <$> endpoints g !! d) ->
  pinsOut p' = pinsOut p -> ref_ok (entryIn g) (refsIn g') (pinsIn p') ->
  reg_ok g' p' /\ evolves g g'.
Proof.
  intros H Hx Hb Hi Ho Hs Hn He Hp Hr.
  assert (Hev : evolves g g') by (by apply (evolves_change_in g g' c x y)). split; [|done].
  assert (EI : forall j k, entryIn g' j k = entryIn g j k) by (intros; unfold entryIn, shardAt; by rewrite Hs).
  assert (EO : forall j k, entryOut g' j k = entryOut g j k) by (intros; unfold entryOut, shardAt; by rewrite Hs).
  constructor.
  - rewrite Hs. apply (reg_shards _ _ H).
  - by apply (ref_ok_ext _ _ _ _ _ Hr).
  - rewrite Hp. apply (ref_ok_ext _ _ _ _ _ (reg_out _ _ H)); [done|]. intros d. unfold refsOut. by rewrite Ho.
  - intros i k d j e. rewrite EI, EO. apply (reg_excl _ _ H).
  - by apply (contents_evolve g), Hev; apply (reg_contents _ _ H).
Qed.

Lemma reg_ok_out (g g' : reg_t) p p' c x y :
  reg_ok g p -> outs g !! c = Some x -> becomesOut x y -> outs g' = <[c := y]> (outs g) ->
  ins g' = ins g -> shards g' = shards g -> nextRef g' = nextRef g ->
  (forall d, installed <$> endpoints g' !! d = installed <$> endpoints g !! d) ->
  pinsIn p' = pinsIn p -> ref_ok (entryOut g) (refsOut g') (pinsOut p') ->
  reg_ok g' p' /\ evolves g g'.
Proof.
  intros H Hx Hb Ho Hi Hs Hn He Hp Hr.
  assert (Hev : evolves g g') by (by apply (evolves_change_out g g' c x y)). split; [|done].
  assert (EI : forall j k, entryIn g' j k = entryIn g j k) by (intros; unfold entryIn, shardAt; by rewrite Hs).
  assert (EO : forall j k, entryOut g' j k = entryOut g j k) by (intros; unfold entryOut, shardAt; by rewrite Hs).
  constructor.
  - rewrite Hs. apply (reg_shards _ _ H).
  - rewrite Hp. apply (ref_ok_ext _ _ _ _ _ (reg_in _ _ H)); [done|]. intros d. unfold refsIn. by rewrite Hi.
  - by apply (ref_ok_ext _ _ _ _ _ Hr).
  - intros i k d j e. rewrite EI, EO. apply (reg_excl _ _ H).
  - by apply (contents_evolve g), Hev; apply (reg_contents _ _ H).
Qed.

Lemma releaseIn_ok (g : reg_t) p1 p2 c :
  reg_ok g (p1 ++ PinIn c :: p2) ->
  let g' := releaseInbound range rangeMeta c g in reg_ok g' (p1 ++ p2) /\ evolves g g'.
Proof.
  intros H g'.
  assert (Hp : pinsIn (p1 ++ PinIn c :: p2) = pinsIn p1 ++ c :: pinsIn p2) by (by rewrite pinsIn_app).
  destruct (pinned_in g _ c H) as (x & Hx & Hr & Hpos); [rewrite Hp; set_solver|].
  destruct (releaseInbound_spec range rangeMeta c x g Hx) as (y & Hins & Hy & Hch & Hsh & Ho & Hn & Hb).
  apply (reg_ok_in g g' _ _ c x y H); try done.
  - right. by split.
  - by rewrite !pinsOut_app.
  - rewrite pinsIn_app. apply (ref_release (reg_in _ _ H) _ _ _ c (irefs x) Hp Hr).
    intros d. rewrite (refsIn_insert g g' c y d Hins). by rewrite Hy.
Qed.

Lemma releaseOut_ok (g : reg_t) p1 p2 c :
  reg_ok g (p1 ++ PinOut c :: p2) ->
  let g' := releaseOutbound c g in reg_ok g' (p1 ++ p2) /\ evolves g g'.
Proof.
  intros H g'.
  assert (Hp : pinsOut (p1 ++ PinOut c :: p2) = pinsOut p1 ++ c :: pinsOut p2) by (by rewrite pinsOut_app).
  destruct (pinned_out g _ c H) as (x & Hx & Hr & Hpos); [rewrite Hp; set_solver|].
  destruct (releaseOutbound_spec c x g Hx) as (y & Houts & Hy & Hch & Hsh & Hi & Hn & Hb).
  apply (reg_ok_out g g' _ _ c x y H); try done.
  - right. by split.
  - intros d. change (endpoints g') with (endpoints (releaseOutbound c g)). by rewrite Hb.
  - by rewrite !pinsIn_app.
  - rewrite pinsOut_app. apply (ref_release (reg_out _ _ H) _ _ _ c (orefs x) Hp Hr).
    intros d. rewrite (refsOut_insert g g' c y d Houts). by rewrite Hy.
Qed.

Lemma pinIn_ok (g : reg_t) p i id c :
  reg_ok g p -> entryIn g i id = Some c ->
  let g' := pinInbound c g in reg_ok g' (PinIn c :: p) /\ evolves g g'.
Proof.
  intros H He g'. destruct (held_in g p i id c H He) as (x & Hx & Hr & Hpos).
  assert (Hg : g' = set_ins (<[c := set_irefs (irefs x + 1) x]> (ins g)) g) by (unfold g', pinInbound; by rewrite Hx).
  apply (reg_ok_in g g' _ _ c x (set_irefs (irefs x + 1) x) H); rewrite ?Hg; try done.
  - right. split; [done|]. left. split; [cbn; lia|done].
  - apply (ref_pin (reg_in _ _ H) _ i id c (irefs x) He Hr). intros d. by rewrite (refsIn_insert g _ c (set_irefs (irefs x + 1) x) d).
Qed.

Lemma pinOut_ok (g : reg_t) p i id c :
  reg_ok g p -> entryOut g i id = Some c ->
  let g' := pinOutbound c g in reg_ok g' (PinOut c :: p) /\ evolves g g'.
Proof.
  intros H He g'. destruct (held_out g p i id c H He) as (x & Hx & Hr & Hpos).
  assert (Hg : g' = set_outs (<[c := set_orefs (orefs x + 1) x]> (outs g)) g) by (unfold g', pinOutbound; by rewrite Hx).
  apply (reg_ok_out g g' _ _ c x (set_orefs (orefs x + 1) x) H); rewrite ?Hg; try done.
  - right. split; [done|]. left. split; [cbn; lia|done].
  - apply (ref_pin (reg_out _ _ H) _ i id c (orefs x) He Hr). intros d. by rewrite (refsOut_insert g _ c (set_orefs (orefs x + 1) x) d).
Qed.

(** Endpoint contents play no part in the registry's invariant. *)
Lemma reg_ok_boxes (g : reg_t) m p :
  (forall e, installed <$> m !! e = installed <$> endpoints g !! e) -> reg_ok g p ->
  reg_ok (set_endpoints m g) p /\ evolves g (set_endpoints m g).
Proof.
  intros Hm H.
  assert (Hev : evolves g (set_endpoints m g)).
  { constructor; [apply (evolves_refl g)..|exact Hm|done]. }
  split; [|done]. constructor; try apply H. by apply (contents_evolve g), Hev; apply (reg_contents _ _ H).
Qed.

Lemma expireEndpoint_ok cutoff e (g : reg_t) p :
  reg_ok g p -> let g' := expireEndpoint range rangeMeta cutoff e g in
  reg_ok g' p /\ evolves g g' /\ shards g' = shards g.
Proof.
  intros H g'. pose proof (expireEndpoint_frame range rangeMeta cutoff e g) as (Hs & _ & _ & _ & Hb). unfold g' in *.
  unfold expireEndpoint in *. destruct (endpoints g !! e); [|split; [done|split; [apply evolves_refl|done]]].
  destruct (reg_ok_boxes g _ p Hb H) as [H1 H2]. split_and!; done.
Qed.
End Pins.

(** ** Sweeping one direction of a shard *)

Lemma filter_ext_in {A} (P Q : A -> Prop) `{!forall x, Decision (P x)} `{!forall x, Decision (Q x)} (l : list A) :
  (forall x, x ∈ l -> P x <-> Q x) -> filter P l = filter Q l.
Proof.
  induction l as [|x l IH]; intros Hpq; [done|]. rewrite !filter_cons.
  assert (Hl : filter P l = filter Q l) by (apply IH; intros y Hy; apply Hpq, elem_of_cons; by right).
  assert (Hx : P x <-> Q x) by (apply Hpq, elem_of_cons; by left).
  destruct (decide (P x)), (decide (Q x)); rewrite ?Hl; tauto.
Qed.

Section Sweep.
Context {handler X : Type}.
Abbreviation reg_t := (registry (handler := handler)).
Context (entry other : reg_t -> nat -> Z -> option nat) (content : reg_t -> nat -> option X).
Context (same : X -> X -> Prop) (retire : Z -> nat -> reg_t -> reg_t) (p : list pin).
Context (entry_content : forall g i id c, reg_ok g p -> entry g i id = Some c -> is_Some (content g c)).
Context (entry_home : forall g i id c, reg_ok g p -> entry g i id = Some c -> i = shardIndex id).
Context (entry_once : forall g i id j id' c, reg_ok g p -> entry g i id = Some c -> entry g j id' = Some c -> id = id').
Context (content_same : forall g g' i id c x, reg_ok g' p -> evolves g g' -> entry g' i id = Some c ->
  content g c = Some x -> exists y, content g' c = Some y /\ same x y).
Context (retire_ok : forall id c g, reg_ok g p -> entry g (shardIndex id) id = Some c ->
  reg_ok (retire id c g) p /\ evolves g (retire id c g) /\
  (forall j k, entry (retire id c g) j k = if decide (j = shardIndex id /\ k = id) then None else entry g j k) /\
  (forall j k, other (retire id c g) j k = other g j k)).
Context (sel : X -> bool) (sel_same : forall x y, same x y -> sel y = sel x).

Definition selected (g : reg_t) (c : nat) : bool := from_option sel false (content g c).

Context (f : Z * reg_t -> Z * nat -> Z * reg_t) (i : nat).
Context (f_ok : forall n g id c, reg_ok g p -> entry g i id = Some c ->
  if selected g c then f (n, g) (id, c) = (n + 1, retire id c g)
  else exists g', f (n, g) (id, c) = (n, g') /\ reg_ok g' p /\ evolves g g' /\
    (forall j k, entry g' j k = entry g j k) /\ (forall j k, other g' j k = other g j k)).

(** One item: dropped when selected, kept otherwise. *)
Lemma sweep_item n g id c :
  reg_ok g p -> entry g i id = Some c ->
  exists g', f (n, g) (id, c) = (if selected g c then n + 1 else n, g') /\ reg_ok g' p /\ evolves g g' /\
    (forall j k, entry g' j k = if decide (j = i /\ k = id) then (if selected g c then None else Some c) else entry g j k) /\
    (forall j k, other g' j k = other g j k).
Proof.
  intros H He. pose proof (entry_home g i id c H He) as Hi. pose proof (f_ok n g id c H He) as Hf.
  destruct (selected g c).
  - exists (retire id c g). rewrite Hi in He. destruct (retire_ok id c g H He) as (H1 & H2 & H3 & H4).
    rewrite <- Hi in H3. done.
  - destruct Hf as (g' & Hf & H1 & H2 & H3 & H4). exists g'. split_and!; try done.
    intros j k. rewrite H3. case_decide as Hd; [|done]. by destruct Hd as [-> ->].
Qed.

Lemma selected_same g g' j id c :
  reg_ok g p -> reg_ok g' p -> evolves g g' -> entry g j id = Some c -> entry g' j id = Some c ->
  selected g' c = selected g c.
Proof.
  intros H H' Hev He He'. destruct (entry_content g j id c H He) as [x Hx].
  destruct (content_same g g' j id c x H' Hev He' Hx) as (y & Hy & Hs).
  unfold selected. rewrite Hx, Hy. by apply sel_same.
Qed.

Lemma sweep l : forall n g,
  reg_ok g p -> NoDup l.*1 -> (forall id c, (id, c) ∈ l -> entry g i id = Some c) ->
  let acc := fold_left f l (n, g) in
  reg_ok acc.2 p /\ evolves g acc.2 /\ (forall j k, other acc.2 j k = other g j k) /\
  (forall j k, entry acc.2 j k =
    match entry g j k with
    | Some c => if bool_decide (j = i /\ k ∈ l.*1) && selected g c then None else Some c
    | None => None
    end) /\
  acc.1 = n + len (filter (fun it => selected g it.2 = true) l).
Proof.
  induction l as [|[id c] l IH]; intros n g H Hnd Hl.
  { cbn [fold_left]. cbn zeta. cbn [fst snd]. split_and!; [done|apply evolves_refl|done| |change (len _) with 0; lia].
    intros j k. destruct (entry g j k); [|done]. rewrite bool_decide_false; [done|]. intros [_ Hin]. by apply elem_of_nil in Hin. }
  cbn [fold_left]. cbn [fmap list_fmap fst] in Hnd. apply NoDup_cons in Hnd as [Hid Hnd].
  assert (He : entry g i id = Some c) by (apply Hl, elem_of_cons; by left).
  destruct (sweep_item n g id c H He) as (g1 & -> & H1 & Hev & He1 & Ho1).
  assert (Hrest : forall id' c', (id', c') ∈ l -> id' <> id /\ entry g i id' = Some c' /\ entry g1 i id' = Some c').
  { intros id' c' Hin. assert (Hne : id' <> id).
    { intros ->. apply Hid. apply list_elem_of_fmap. by exists (id, c'). }
    assert (entry g i id' = Some c') as He' by (apply Hl, elem_of_cons; by right).
    split_and!; [done..|]. rewrite He1, decide_False; [done|]. by intros [_ ?]. }
  destruct (IH (if selected g c then n + 1 else n) g1 H1 Hnd) as (H2 & Hev2 & Ho2 & He2 & Hn2).
  { intros id' c' Hin. by apply Hrest. }
  cbn zeta. split_and!; [done|by eapply evolves_trans| | |].
  - intros j k. by rewrite Ho2, Ho1.
  - intros j k. rewrite He2, He1. destruct (decide (j = i /\ k = id)) as [[-> ->]|Hne].
    + cbn [fmap list_fmap fst]. rewrite He, (bool_decide_true (i = i /\ id ∈ id :: l.*1)) by (split; [done|apply elem_of_cons; by left]). cbn [andb].
      destruct (selected g c) eqn:Es; [done|]. rewrite bool_decide_false; [done|]. intros [_ Hin]. done.
    + destruct (entry g j k) as [d|] eqn:Ed; [|done].
      assert (Hb : bool_decide (j = i /\ k ∈ id :: l.*1) = bool_decide (j = i /\ k ∈ l.*1)).
      { apply bool_decide_ext. rewrite elem_of_cons. split; [|tauto]. intros [Hj [Hk|Hk]]; [exfalso; by apply Hne|done]. }
      cbn [fmap list_fmap fst]. rewrite Hb. f_equal.
      rewrite (selected_same g g1 j k d); [done..|]. rewrite He1, decide_False by done. done.
  - rewrite Hn2, filter_cons. cbn [snd].
    assert (Hfl : filter (fun it => selected g1 it.2 = true) l = filter (fun it => selected g it.2 = true) l).
    { apply filter_ext_in. intros [id' c'] Hin. destruct (Hrest id' c' Hin) as (_ & Ha & Hb). cbn [snd].
      by rewrite (selected_same g g1 i id' c'). }
    rewrite Hfl. destruct (selected g c) eqn:Es.
    + rewrite decide_True by done. rewrite len_cons. lia.
    + rewrite decide_False by done. lia.
Qed.
End Sweep.

Section Sweeps.
Context {handler : Type}.
Context (range : gmap Z partial -> list (Z * partial)).
Context (rangeMeta : gmap Z deliveryMeta -> list (Z * deliveryMeta)).
Context (rangeCircuits : gmap Z nat -> list (Z * nat)).
Context (range_all : forall m, rangeCircuits m ≡ₚ map_to_list m).
Abbreviation reg_t := (registry (handler := handler)).
Abbreviation in_t := (inboundCircuit (handler := handler)).

Lemma range_entries m : NoDup (rangeCircuits m).*1 /\ forall id c, (id, c) ∈ rangeCircuits m <-> m !! id = Some c.
Proof.
  split.
  - rewrite range_all. apply NoDup_fst_map_to_list.
  - intros id c. rewrite range_all. apply elem_of_map_to_list.
Qed.

Lemma sameIn_refl (x : in_t) : sameIn x x.
Proof. done. Qed.

Lemma keptIn (g g' : reg_t) p i id c x :
  reg_ok g' p -> evolves g g' -> entryIn g' i id = Some c -> ins g !! c = Some x ->
  exists y, ins g' !! c = Some y /\ sameIn x y.
Proof.
  intros H Hev He Hx. destruct (held_in g' p i id c H He) as (y & Hy & _ & Hpos).
  exists y. split; [done|]. pose proof (ev_ins _ _ Hev c) as Hb. rewrite Hx, Hy in Hb.
  destruct Hb as [->|[_ [[_ Hs]|[? _]]]]; [done|done|lia].
Qed.

Lemma keptOut (g g' : reg_t) p i id c x :
  reg_ok g' p -> evolves g g' -> entryOut g' i id = Some c -> outs g !! c = Some x ->
  exists y, outs g' !! c = Some y /\ sameOut x y.
Proof.
  intros H Hev He Hx. destruct (held_out g' p i id c H He) as (y & Hy & _ & Hpos).
  exists y. split; [done|]. pose proof (ev_outs _ _ Hev c) as Hb. rewrite Hx, Hy in Hb.
  destruct Hb as [->|[_ [[_ Hs]|[? _]]]]; [done|done|lia].
Qed.

(** Whether the circuit behind an entry satisfies a test. *)
Definition testIn (sel : in_t -> bool) (g : reg_t) (c : nat) : bool := from_option sel false (ins g !! c).
Definition testOut (sel : outboundCircuit -> bool) (g : reg_t) (c : nat) : bool := from_option sel false (outs g !! c).

(** The entries a sweep of shard [i] leaves. *)
Definition without (drop : bool) (e : option nat) : option nat := if drop then None else e.

Lemma sweepIn p sel f i n (g : reg_t) :
  (forall x y, sameIn x y -> sel y = sel x) ->
  (forall n g id c, reg_ok g p -> entryIn g i id = Some c ->
    if testIn sel g c then f (n, g) (id, c) = (n + 1, retireInbound range rangeMeta id c g)
    else exists g', f (n, g) (id, c) = (n, g') /\ reg_ok g' p /\ evolves g g' /\
      (forall j k, entryIn g' j k = entryIn g j k) /\ (forall j k, entryOut g' j k = entryOut g j k)) ->
  reg_ok g p ->
  let l := rangeCircuits (inbound (shardAt i g)) in
  let acc := fold_left f l (n, g) in
  reg_ok acc.2 p /\ evolves g acc.2 /\ (forall j k, entryOut acc.2 j k = entryOut g j k) /\
  (forall j k, entryIn acc.2 j k =
    entryIn g j k ≫= fun c => without (bool_decide (j = i) && testIn sel g c) (Some c)) /\
  acc.1 = n + len (filter (fun it => testIn sel g it.2 = true) l).
Proof.
  intros Hsel Hf H l acc. destruct (range_entries (inbound (shardAt i g))) as [Hnd Hl].
  destruct (sweep (handler := handler) entryIn entryOut (fun g c => ins g !! c) sameIn (retireInbound range rangeMeta) p) with
    (sel := sel) (f := f) (i := i) (l := l) (n := n) (g := g) as (H1 & H2 & H3 & H4 & H5); try done.
  - intros g1 j id c Hg He. destruct (held_in g1 p j id c Hg He) as (x & Hx & _). by exists x.
  - intros g1 j id c Hg. apply (ref_home _ _ _ (reg_in _ _ Hg)).
  - intros g1 g2 j id c x. apply keptIn.
  - intros id c g1 Hg He. by apply retireInbound_ok.
  - intros id c. apply Hl.
  - split_and!; try done. intros j k. rewrite H4. destruct (entryIn g j k) as [c|] eqn:Ec; [|done]. cbn [mbind option_bind].
    unfold without. replace (bool_decide (j = i /\ k ∈ l.*1)) with (bool_decide (j = i)); [done|].
    apply bool_decide_ext. split; [|by intros [? _]]. intros ->. split; [done|].
    apply list_elem_of_fmap. exists (k, c). split; [done|]. by apply Hl.
Qed.

Lemma sweepOut p sel f i n (g : reg_t) :
  (forall x y, sameOut x y -> sel y = sel x) ->
  (forall n g id c, reg_ok g p -> entryOut g i id = Some c ->
    if testOut sel g c then f (n, g) (id, c) = (n + 1, retireOutbound id c g)
    else exists g', f (n, g) (id, c) = (n, g') /\ reg_ok g' p /\ evolves g g' /\
      (forall j k, entryOut g' j k = entryOut g j k) /\ (forall j k, entryIn g' j k = entryIn g j k)) ->
  reg_ok g p ->
  let l := rangeCircuits (outbound (shardAt i g)) in
  let acc := fold_left f l (n, g) in
  reg_ok acc.2 p /\ evolves g acc.2 /\ (forall j k, entryIn acc.2 j k = entryIn g j k) /\
  (forall j k, entryOut acc.2 j k =
    entryOut g j k ≫= fun c => without (bool_decide (j = i) && testOut sel g c) (Some c)) /\
  acc.1 = n + len (filter (fun it => testOut sel g it.2 = true) l).
Proof.
  intros Hsel Hf H l acc. destruct (range_entries (outbound (shardAt i g))) as [Hnd Hl].
  destruct (sweep (handler := handler) entryOut entryIn (fun g c => outs g !! c) sameOut retireOutbound p) with
    (sel := sel) (f := f) (i := i) (l := l) (n := n) (g := g) as (H1 & H2 & H3 & H4 & H5); try done.
  - intros g1 j id c Hg He. destruct (held_out g1 p j id c Hg He) as (x & Hx & _). by exists x.
  - intros g1 j id c Hg. apply (ref_home _ _ _ (reg_out _ _ Hg)).
  - intros g1 g2 j id c x. apply keptOut.
  - intros id c g1 Hg He. by apply retireOutbound_ok.
  - intros id c. apply Hl.
  - split_and!; try done. intros j k. rewrite H4. destruct (entryOut g j k) as [c|] eqn:Ec; [|done]. cbn [mbind option_bind].
    unfold without. replace (bool_decide (j = i /\ k ∈ l.*1)) with (bool_decide (j = i)); [done|].
    apply bool_decide_ext. split; [|by intros [? _]]. intros ->. split; [done|].
    apply list_elem_of_fmap. exists (k, c). split; [done|]. by apply Hl.
Qed.
End Sweeps.

Section Sections.
Context {handler : Type}.
Context (range : gmap Z partial -> list (Z * partial)).
Context (rangeMeta : gmap Z deliveryMeta -> list (Z * deliveryMeta)).
Context (rangeCircuits : gmap Z nat -> list (Z * nat)).
Context (range_all : forall m, rangeCircuits m ≡ₚ map_to_list m).
Abbreviation reg_t := (registry (handler := handler)).
Abbreviation in_t := (inboundCircuit (handler := handler)).

(** *** Expiry of a shard *)

(** A deadline at or before [t]; zero is no deadline. *)
Definition passed (expiresAt t : Z) : bool := bool_decide (expiresAt <> 0 /\ expiresAt <= t).

Lemma due_passed expiresAt t : due expiresAt t = passed expiresAt t.
Proof. unfold due, passed. case_bool_decide; lia. Qed.

Definition dueIn (nowMillis : Z) (g : reg_t) (c : nat) : bool := testIn (fun x => passed (iexpiresAt x) nowMillis) g c.
Definition dueOut (nowMillis : Z) (g : reg_t) (c : nat) : bool := testOut (fun x => passed (oexpiresAt x) nowMillis) g c.

(** The due circuits of a shard. *)
Definition dueCount (nowMillis : Z) (g : reg_t) (i : nat) : Z :=
  len (filter (fun it => dueIn nowMillis g it.2 = true) (rangeCircuits (inbound (shardAt i g)))) +
  len (filter (fun it => dueOut nowMillis g it.2 = true) (rangeCircuits (outbound (shardAt i g)))).

Lemma entries_shard_in (g g' : reg_t) i :
  (forall j k, entryIn g' j k = entryIn g j k) -> inbound (shardAt i g') = inbound (shardAt i g).
Proof. intros H. apply map_eq. intros k. apply (H i k). Qed.

Lemma entries_shard_out (g g' : reg_t) i :
  (forall j k, entryOut g' j k = entryOut g j k) -> outbound (shardAt i g') = outbound (shardAt i g).
Proof. intros H. apply map_eq. intros k. apply (H i k). Qed.

Lemma testOut_kept p sel (g g' : reg_t) i id c :
  (forall x y, sameOut x y -> sel y = sel x) -> reg_ok g p -> reg_ok g' p -> evolves g g' ->
  entryOut g i id = Some c -> entryOut g' i id = Some c -> testOut sel g' c = testOut sel g c.
Proof.
  intros Hsel H H' Hev He He'. destruct (held_out g p i id c H He) as (x & Hx & _).
  destruct (keptOut g g' p i id c x H' Hev He' Hx) as (y & Hy & Hs). unfold testOut. rewrite Hx, Hy. by apply Hsel.
Qed.

Lemma testIn_kept p sel (g g' : reg_t) i id c :
  (forall x y, sameIn x y -> sel y = sel x) -> reg_ok g p -> reg_ok g' p -> evolves g g' ->
  entryIn g i id = Some c -> entryIn g' i id = Some c -> testIn sel g' c = testIn sel g c.
Proof.
  intros Hsel H H' Hev He He'. destruct (held_in g p i id c H He) as (x & Hx & _).
  destruct (keptIn g g' p i id c x H' Hev He' Hx) as (y & Hy & Hs). unfold testIn. rewrite Hx, Hy. by apply Hsel.
Qed.

Lemma expireInboundItem_ok t p i n (g : reg_t) id c :
  reg_ok g p -> entryIn g i id = Some c ->
  if dueIn t g c then expireInboundItem range rangeMeta t (n, g) (id, c) = (n + 1, retireInbound range rangeMeta id c g)
  else exists g', expireInboundItem range rangeMeta t (n, g) (id, c) = (n, g') /\ reg_ok g' p /\ evolves g g' /\
    (forall j k, entryIn g' j k = entryIn g j k) /\ (forall j k, entryOut g' j k = entryOut g j k).
Proof.
  intros H He. destruct (held_in g p i id c H He) as (x & Hx & _).
  unfold dueIn, testIn, expireInboundItem. cbn [fst snd]. rewrite Hx. cbn [from_option]. rewrite due_passed.
  destruct (passed (iexpiresAt x) t); [done|].
  destruct (fragmentReassemblyLifetime <=? t); [|exists g; split_and!; try done; apply evolves_refl].
  destruct (iendpoint x) as [e|]; [|exists g; split_and!; try done; apply evolves_refl].
  destruct (expireEndpoint_ok range rangeMeta (t - fragmentReassemblyLifetime) e g p H) as (H1 & H2 & Hs).
  eexists. split; [done|]. split_and!; [done..| |]; intros j k; unfold entryIn, entryOut, shardAt; by rewrite Hs.
Qed.

Lemma expireOutboundItem_ok t p i n (g : reg_t) id c :
  reg_ok g p -> entryOut g i id = Some c ->
  if dueOut t g c then expireOutboundItem t (n, g) (id, c) = (n + 1, retireOutbound id c g)
  else exists g', expireOutboundItem t (n, g) (id, c) = (n, g') /\ reg_ok g' p /\ evolves g g' /\
    (forall j k, entryOut g' j k = entryOut g j k) /\ (forall j k, entryIn g' j k = entryIn g j k).
Proof.
  intros H He. destruct (held_out g p i id c H He) as (x & Hx & _).
  unfold dueOut, testOut, expireOutboundItem. cbn [fst snd]. rewrite Hx. cbn [from_option]. rewrite due_passed.
  destruct (passed (oexpiresAt x) t); [done|]. exists g; split_and!; try done; apply evolves_refl.
Qed.

Lemma due_sameIn t (x y : in_t) : sameIn x y -> passed (iexpiresAt y) t = passed (iexpiresAt x) t.
Proof. intros (_ & _ & _ & _ & _ & ->). done. Qed.

Lemma due_sameOut t x y : sameOut x y -> passed (oexpiresAt y) t = passed (oexpiresAt x) t.
Proof. intros (_ & _ & _ & _ & ->). done. Qed.

Lemma expireShard_ok t i (g : reg_t) p :
  reg_ok g p ->
  let acc := expireShard range rangeMeta rangeCircuits t i g in
  reg_ok acc.2 p /\ evolves g acc.2 /\
  (forall j k, entryIn acc.2 j k = entryIn g j k ≫= fun c => without (bool_decide (j = i) && dueIn t g c) (Some c)) /\
  (forall j k, entryOut acc.2 j k = entryOut g j k ≫= fun c => without (bool_decide (j = i) && dueOut t g c) (Some c)) /\
  acc.1 = dueCount t g i.
Proof.
  intros H. unfold expireShard.
  set (a := fold_left _ (rangeCircuits (inbound (shardAt i g))) (0, g)).
  destruct (sweepIn range rangeMeta rangeCircuits range_all p _ _ i 0 g (due_sameIn t) (expireInboundItem_ok t p i) H)
    as (H1 & E1 & O1 & I1 & N1). fold a in H1, E1, O1, I1, N1.
  destruct (sweepOut rangeCircuits range_all p _ _ i a.1 a.2 (due_sameOut t) (expireOutboundItem_ok t p i) H1)
    as (H2 & E2 & I2 & O2 & N2). rewrite <- surjective_pairing in *.
  assert (Hd : forall j k c, entryOut g j k = Some c -> dueOut t a.2 c = dueOut t g c).
  { intros j k c He. apply (testOut_kept p _ g a.2 j k c (due_sameOut t)); try done. by rewrite O1. }
  cbn zeta. split_and!; [done|by eapply evolves_trans| | |].
  - intros j k. by rewrite I2, I1.
  - intros j k. rewrite O2, O1. destruct (entryOut g j k) as [c|] eqn:Ec; [|done]. cbn [mbind option_bind].
    fold (dueOut t a.2 c). by rewrite (Hd j k c Ec).
  - rewrite N2, N1. unfold dueCount. rewrite (entries_shard_out g a.2 i O1). fold (dueIn t g).
    rewrite Z.add_0_l. f_equal. f_equal. apply filter_ext_in. intros [k c] Hin.
    destruct (range_entries rangeCircuits range_all (outbound (shardAt i g))) as [_ Hl]. apply Hl in Hin.
    cbn [snd]. fold (dueOut t a.2 c). by rewrite (Hd i k c Hin).
Qed.
End Sections.

Section Removal.
Context {handler : Type}.
Context (range : gmap Z partial -> list (Z * partial)).
Context (rangeMeta : gmap Z deliveryMeta -> list (Z * deliveryMeta)).
Context (rangeCircuits : gmap Z nat -> list (Z * nat)).
Context (range_all : forall m, rangeCircuits m ≡ₚ map_to_list m).
Abbreviation reg_t := (registry (handler := handler)).
Abbreviation in_t := (inboundCircuit (handler := handler)).

(** *** Removal by owner *)

(** A sweep that does not count. *)
Lemma fold_uncounted {A G} (test : G -> A -> bool) (h : G -> A -> G) l : forall n g,
  fold_left (fun g it => if test g it then h g it else g) l g =
  (fold_left (fun acc it => if test acc.2 it then (acc.1 + 1, h acc.2 it) else (acc.1, acc.2)) l (n, g)).2.
Proof.
  induction l as [|x l IH]; intros n g; [done|]. cbn [fold_left fst snd]. rewrite (IH (if test g x then n + 1 else n)).
  by destruct (test g x).
Qed.

Lemma owner_sameIn owner (x y : in_t) : sameIn x y -> bytes_eqb (iowner y) owner = bytes_eqb (iowner x) owner.
Proof. intros (-> & _). done. Qed.

Lemma owner_sameOut owner x y : sameOut x y -> bytes_eqb (oowner y) owner = bytes_eqb (oowner x) owner.
Proof. intros (-> & _). done. Qed.

Lemma removeOwnerShard_ok owner i (g : reg_t) p :
  reg_ok g p ->
  let g' := removeOwnerShard range rangeMeta rangeCircuits owner i g in
  reg_ok g' p /\ evolves g g' /\
  (forall j k, entryIn g' j k = entryIn g j k ≫= fun c =>
    without (bool_decide (j = i) && testIn (fun x => bytes_eqb (iowner x) owner) g c) (Some c)) /\
  (forall j k, entryOut g' j k = entryOut g j k ≫= fun c =>
    without (bool_decide (j = i) && testOut (fun x => bytes_eqb (oowner x) owner) g c) (Some c)).
Proof.
  intros H. unfold removeOwnerShard.
  rewrite (fold_uncounted (fun g it => bytes_eqb (ownerIn g it.2) owner) _ _ 0).
  set (a := (fold_left _ _ (0, g)).2).
  rewrite (fold_uncounted (fun g it => bytes_eqb (ownerOut g it.2) owner) _ _ 0).
  destruct (sweepIn range rangeMeta rangeCircuits range_all p (fun x => bytes_eqb (iowner x) owner)
    (fun acc it => if bytes_eqb (ownerIn acc.2 it.2) owner
                   then (acc.1 + 1, retireInbound range rangeMeta it.1 it.2 acc.2) else (acc.1, acc.2)) i 0 g)
    as (H1 & E1 & O1 & I1 & _); [apply owner_sameIn| |done|].
  { intros n g1 id c Hg He. destruct (held_in g1 p i id c Hg He) as (x & Hx & _).
    unfold testIn, ownerIn. cbn [fst snd]. rewrite Hx. cbn [from_option].
    destruct (bytes_eqb (iowner x) owner); [done|]. exists g1. split_and!; try done; apply evolves_refl. }
  fold a in H1, E1, O1, I1.
  destruct (sweepOut rangeCircuits range_all p (fun x => bytes_eqb (oowner x) owner)
    (fun acc it => if bytes_eqb (ownerOut acc.2 it.2) owner
                   then (acc.1 + 1, retireOutbound it.1 it.2 acc.2) else (acc.1, acc.2)) i 0 a)
    as (H2 & E2 & I2 & O2 & _); [apply owner_sameOut| |done|].
  { intros n g1 id c Hg He. destruct (held_out g1 p i id c Hg He) as (x & Hx & _).
    unfold testOut, ownerOut. cbn [fst snd]. rewrite Hx. cbn [from_option].
    destruct (bytes_eqb (oowner x) owner); [done|]. exists g1. split_and!; try done; apply evolves_refl. }
  cbn zeta. split_and!; [done|by eapply evolves_trans| |].
  - intros j k. by rewrite I2, I1.
  - intros j k. rewrite O2, O1. destruct (entryOut g j k) as [c|] eqn:Ec; [|done]. cbn [mbind option_bind].
    rewrite (testOut_kept p _ g a j k c (owner_sameOut owner)); try done. by rewrite O1.
Qed.

(** *** Removal by token *)

Lemma holds_spec m token c : holds m token = Some c <-> m !! tokenID token = Some c /\ generation token = Some c.
Proof.
  unfold holds. destruct (m !! tokenID token) as [d|]; [|naive_solver]. destruct (generation token) as [e|]; [|naive_solver].
  destruct (d =? e)%nat eqn:E; [apply Nat.eqb_eq in E; naive_solver|apply Nat.eqb_neq in E; naive_solver].
Qed.

(** The entry of a token, in either direction. *)
Definition liveToken (g : reg_t) (token : CircuitToken) : Prop :=
  exists c, generation token = Some c /\
    (entryIn g (shardIndex (tokenID token)) (tokenID token) = Some c \/
     entryOut g (shardIndex (tokenID token)) (tokenID token) = Some c).

(** No identifier but the token's changes, and that one only if the token is live. *)
Definition drops (g g' : reg_t) (token : CircuitToken) : Prop :=
  ~ liveToken g' token /\
  (forall j k, entryIn g' j k = entryIn g j k \/ k = tokenID token /\ liveToken g token /\ entryIn g' j k = None) /\
  (forall j k, entryOut g' j k = entryOut g j k \/ k = tokenID token /\ liveToken g token /\ entryOut g' j k = None).

Lemma removeLocked_ok token (g : reg_t) p :
  reg_ok g p ->
  let res := removeLocked range rangeMeta token g in
  reg_ok res.2 p /\ evolves g res.2 /\ (res.1 = true <-> liveToken g token) /\
  (res.1 = false -> res.2 = g) /\ drops g res.2 token.
Proof.
  intros H. unfold removeLocked.
  destruct (holds (inbound (shard (tokenID token) g)) token) as [c|] eqn:Hin.
  - apply holds_spec in Hin as [He Hg]. change (entryIn g (shardIndex (tokenID token)) (tokenID token) = Some c) in He.
    destruct (retireInbound_ok range rangeMeta _ c g p H He) as (H1 & E1 & I1 & O1).
    set (g1 := retireInbound range rangeMeta (tokenID token) c g) in *.
    assert (Hno : forall d, entryOut g1 (shardIndex (tokenID token)) (tokenID token) <> Some d).
    { intros d. rewrite O1. intros Ho. by apply (reg_excl _ _ H _ _ _ _ _ He Ho). }
    destruct (holds (outbound (shard (tokenID token) g1)) token) as [d|] eqn:Hout.
    { apply holds_spec in Hout as [Ho _]. by apply Hno in Ho. }
    assert (Hlive : liveToken g token) by (exists c; split; [done|by left]).
    cbn [fst snd]. split_and!; [done..| |done|].
    + split; [intros _|done]. done.
    + split; [|split].
      * intros (d & _ & [Hd|Hd]); [|by apply Hno in Hd]. rewrite I1, decide_True in Hd; done.
      * intros j k. rewrite I1. case_decide as Hd; [right; by destruct Hd|by left].
      * intros j k. left. apply O1.
  - assert (Hni : forall c, generation token = Some c -> entryIn g (shardIndex (tokenID token)) (tokenID token) <> Some c).
    { intros c Hc He. assert (holds (inbound (shard (tokenID token) g)) token = Some c) as Hh by (by apply holds_spec). congruence. }
    destruct (holds (outbound (shard (tokenID token) g)) token) as [c|] eqn:Hout.
    + apply holds_spec in Hout as [He Hg]. change (entryOut g (shardIndex (tokenID token)) (tokenID token) = Some c) in He.
      destruct (retireOutbound_ok _ c g p H He) as (H1 & E1 & O1 & I1). cbn [fst snd].
      assert (Hlive : liveToken g token) by (exists c; split; [done|by right]).
      split_and!; [done..| |done|].
      * split; [intros _|done]. done.
      * split; [|split].
        -- intros (d & Hgd & [Hd|Hd]); [rewrite I1 in Hd; by apply Hni in Hd|]. rewrite O1, decide_True in Hd; done.
        -- intros j k. left. apply I1.
        -- intros j k. rewrite O1. case_decide as Hd; [right; by destruct Hd|by left].
    + assert (Hdead : ~ liveToken g token).
      { intros (c & Hc & [He|He]); [by apply (Hni c)|].
        assert (holds (outbound (shard (tokenID token) g)) token = Some c) as Hh by (by apply holds_spec). congruence. }
      cbn [fst snd]. split_and!; [done|apply evolves_refl| |done|]; [by split|]. split; [done|]. by split; left.
Qed.
End Removal.

Section Installs.
Context {reader handler senderT world : Type}.
Context (Now : world -> Z * world).
Abbreviation reg_t := (registry (handler := handler)).
Abbreviation in_t := (inboundCircuit (handler := handler)).
Abbreviation Runtime := (Runtime (reader := reader) (handler := handler) (senderT := senderT) (world := world)).

Lemma expired_frame t (r r' : Runtime) res : expired Now t r = (res, r') -> exists b, res = Ok b /\ reg r' = reg r.
Proof.
  unfold expired. destruct (t =? 0); [intros [= <- <-]; by exists false|].
  unfold now. go_unfold. destruct (Now (env r)) as [t' w]. intros [= <- <-]. by eexists.
Qed.

Definition insertOut (id : Z) (x : outboundCircuit) (g : reg_t) : reg_t :=
  let s := shard id g in
  setShard (shardIndex id) (set_outbound (<[id := nextRef g]> (outbound s)) s)
    (mkRegistry (shards g) (ins g) (<[nextRef g := x]> (outs g)) (endpoints g) (S (nextRef g))).

Definition insertIn (id : Z) (x : in_t) (g : reg_t) : reg_t :=
  let s := shard id g in
  setShard (shardIndex id) (set_inbound (<[id := nextRef g]> (inbound s)) s)
    (mkRegistry (shards g) (<[nextRef g := x]> (ins g)) (outs g) (endpoints g) (S (nextRef g))).

Lemma insertOut_ok id x (g : reg_t) p :
  reg_ok g p -> orefs x = 1 -> entryIn g (shardIndex id) id = None ->
  let g' := insertOut id x g in
  reg_ok g' (option_list (PinOut <$> entryOut g (shardIndex id) id) ++ p) /\
  (forall j k, entryOut g' j k = if decide (j = shardIndex id /\ k = id) then Some (nextRef g) else entryOut g j k) /\
  (forall j k, entryIn g' j k = entryIn g j k).
Proof.
  intros H Hx Hno g'. pose proof (reg_contents _ _ H) as [C1 C2 C3 C4 C5]. destruct (C5 (nextRef g) ltac:(lia)) as [Fi Fo].
  assert (Hi : (shardIndex id < length (shards g))%nat) by (rewrite (reg_shards _ _ H); apply shardIndex_lt).
  assert (EO : forall j k, entryOut g' j k = if decide (j = shardIndex id /\ k = id) then Some (nextRef g) else entryOut g j k).
  { intros j k. exact (entryOut_set (shardIndex id) id (Some (nextRef g)) g j k Hi). }
  assert (EI : forall j k, entryIn g' j k = entryIn g j k).
  { intros j k. exact (entryIn_other (shardIndex id) _ g j k Hi). }
  split_and!; [|done..]. constructor.
  - cbn. rewrite length_insert. apply (reg_shards _ _ H).
  - replace (pinsIn _) with (pinsIn p) by (by destruct (entryOut g (shardIndex id) id)).
    by apply (ref_ok_ext _ _ _ _ _ (reg_in _ _ H)).
  - replace (pinsOut _) with (option_list (entryOut g (shardIndex id) id) ++ pinsOut p)
      by (by destruct (entryOut g (shardIndex id) id)).
    apply (ref_install (reg_out _ _ H) _ _ (shardIndex id) id (nextRef g)); try done.
    + unfold refsOut. by rewrite Fo.
    + intros d. rewrite (refsOut_insert g g' (nextRef g) x d) by done. by rewrite Hx.
  - intros i k c j d. rewrite EI, EO. case_decide as Hd; [|apply (reg_excl _ _ H)]. destruct Hd as [-> ->].
    intros He _. pose proof (ref_home _ _ _ (reg_in _ _ H) _ _ _ He) as ->. congruence.
  - constructor; cbn [g' insertOut ins outs endpoints nextRef setShard set_shards]; try done.
    + intros c y Hy Hz. destruct (decide (c = nextRef g)) as [->|Hc].
      * rewrite lookup_insert_eq in Hy. injection Hy as <-. lia.
      * rewrite lookup_insert_ne in Hy by done. by eapply C2.
    + intros c Hc. rewrite lookup_insert_ne by lia. apply C5. lia.
Qed.

Lemma insertIn_ok id x (g : reg_t) p :
  reg_ok g p -> irefs x = 1 -> entryOut g (shardIndex id) id = None ->
  (forall e, iendpoint x = Some e -> installed <$> endpoints g !! e = Some true /\
    forall c y, ins g !! c = Some y -> iendpoint y <> Some e) ->
  let g' := insertIn id x g in
  reg_ok g' (option_list (PinIn <$> entryIn g (shardIndex id) id) ++ p) /\
  (forall j k, entryIn g' j k = if decide (j = shardIndex id /\ k = id) then Some (nextRef g) else entryIn g j k) /\
  (forall j k, entryOut g' j k = entryOut g j k).
Proof.
  intros H Hx Hno Hep g'. pose proof (reg_contents _ _ H) as [C1 C2 C3 C4 C5]. destruct (C5 (nextRef g) ltac:(lia)) as [Fi Fo].
  assert (Hi : (shardIndex id < length (shards g))%nat) by (rewrite (reg_shards _ _ H); apply shardIndex_lt).
  assert (EI : forall j k, entryIn g' j k = if decide (j = shardIndex id /\ k = id) then Some (nextRef g) else entryIn g j k).
  { intros j k. exact (entryIn_set (shardIndex id) id (Some (nextRef g)) g j k Hi). }
  assert (EO : forall j k, entryOut g' j k = entryOut g j k).
  { intros j k. exact (entryOut_other (shardIndex id) _ g j k Hi). }
  split_and!; [|done..]. constructor.
  - cbn. rewrite length_insert. apply (reg_shards _ _ H).
  - replace (pinsIn _) with (option_list (entryIn g (shardIndex id) id) ++ pinsIn p)
      by (by destruct (entryIn g (shardIndex id) id)).
    apply (ref_install (reg_in _ _ H) _ _ (shardIndex id) id (nextRef g)); try done.
    + unfold refsIn. by rewrite Fi.
    + intros d. rewrite (refsIn_insert g g' (nextRef g) x d) by done. by rewrite Hx.
  - replace (pinsOut _) with (pinsOut p) by (by destruct (entryIn g (shardIndex id) id)).
    by apply (ref_ok_ext _ _ _ _ _ (reg_out _ _ H)).
  - intros i k c j d. rewrite EI, EO. case_decide as Hd; [|apply (reg_excl _ _ H)]. destruct Hd as [-> ->].
    intros _ He. pose proof (ref_home _ _ _ (reg_out _ _ H) _ _ _ He) as ->. congruence.
  - assert (Hl : forall c y, ins g' !! c = Some y -> c = nextRef g /\ y = x \/ c <> nextRef g /\ ins g !! c = Some y).
    { intros c y. cbn [g' insertIn ins setShard set_shards]. destruct (decide (c = nextRef g)) as [->|Hc].
      - rewrite lookup_insert_eq. intros [= <-]. by left.
      - rewrite lookup_insert_ne by done. by right. }
    constructor; [| |intros c y e Hy He|intros c d y z e Hy Hz Hey Hez|intros c Hc]; try done.
    + intros c y [[-> ->]|[_ Hy]]%Hl Hz; [lia|by eapply C1].
    + change (endpoints g') with (endpoints g). apply Hl in Hy as [[-> ->]|[_ Hy]]; [by apply Hep|by eapply C3].
    + apply Hl in Hy as [[-> ->]|[Hcy Hy]]; apply Hl in Hz as [[-> ->]|[Hcz Hz]]; [done| | |by eapply C4].
      * exfalso. by apply (proj2 (Hep e Hey) d z Hz).
      * exfalso. by apply (proj2 (Hep e Hez) c y Hy).
    + cbn [g' insertIn ins outs nextRef setShard set_shards] in *. rewrite lookup_insert_ne by lia. apply C5. lia.
Qed.
End Installs.

Section Swaps.
Context {reader handler senderT world : Type}.
Context (Now : world -> Z * world).
Abbreviation reg_t := (registry (handler := handler)).
Abbreviation Runtime := (Runtime (reader := reader) (handler := handler) (senderT := senderT) (world := world)).

(** Nobody holds the identifier, or the token names the one who does, and its owner. *)
Definition admitted (old : option nat) (oldOwner : nat -> bytes) (occupied : bool)
    (previous : CircuitToken) (owner : bytes) : Prop :=
  match generation previous with
  | Some g => old = Some g /\ oldOwner g = owner
  | None => occupied = false
  end.

Lemma admission_ok old oldOwner occupied previous owner :
  admission old oldOwner occupied previous owner = Ok tt <-> admitted old oldOwner occupied previous owner.
Proof.
  unfold admission, admitted. destruct (generation previous) as [g|]; [|by destruct occupied].
  destruct old as [o|]; [|naive_solver]. destruct (o =? g)%nat eqn:E; cbn [negb].
  - apply Nat.eqb_eq in E. subst. unfold bytes_eqb. case_bool_decide; cbn [negb]; naive_solver.
  - apply Nat.eqb_neq in E. split; [done|]. intros [[= ->] _]. done.
Qed.

Lemma admission_total old oldOwner occupied previous owner :
  admission old oldOwner occupied previous owner <> Panic.
Proof. unfold admission. repeat case_match; done. Qed.

Lemma swapOutbound_inv circuit previous (r r' : Runtime) res :
  swapOutbound Now circuit previous r = (res, r') ->
  match res with
  | Ok (c, old) =>
      let g := reg r in
      let id := OID circuit in
      c = nextRef g /\ old = entryOut g (shardIndex id) id /\
      admitted old (ownerOut g) (bool_decide (is_Some old) || bool_decide (is_Some (entryIn g (shardIndex id) id)))
        previous (OOwner circuit) /\
      reg r' = insertOut id (mkOutbound 1 (OOwner circuit) (OFirstHop circuit) (ONextTunnelID circuit)
        (OTransforms circuit) (OExpiresAt circuit) 0) g
  | _ => reg r' = reg r
  end.
Proof.
  unfold swapOutbound. go_unfold. destruct (expired Now (OExpiresAt circuit) r) as [d r1] eqn:Ex.
  apply expired_frame in Ex as (b & -> & Hr1). destruct b; [intros [= <- <-]; done|].
  destruct (admission _ _ _ _ _) as [[]|e|] eqn:Ea; [|intros [= <- <-]; done..].
  intros [= <- <-]. apply admission_ok in Ea. rewrite Hr1 in *. done.
Qed.

Lemma reg_ok_claim (g : reg_t) m p :
  (forall e, installed <$> endpoints g !! e = Some true -> installed <$> m !! e = Some true) -> reg_ok g p ->
  reg_ok (set_endpoints m g) p.
Proof.
  intros Hm H. constructor; try apply H. pose proof (reg_contents _ _ H) as [C1 C2 C3 C4 C5].
  constructor; try done. intros c x e Hc He. by apply Hm, (C3 c x).
Qed.

(** The claim of an endpoint: refused when it is installed already. *)
Lemma claimEndpoint_spec e (g : reg_t) p :
  reg_ok g p -> (forall d, e = Some d -> is_Some (endpoints g !! d)) ->
  exists m, (claimEndpoint e g).2 = set_endpoints m g /\ reg_ok (set_endpoints m g) p /\
    ((claimEndpoint e g).1 = false -> forall d, e = Some d -> installed <$> m !! d = Some true /\
      forall c y, ins g !! c = Some y -> iendpoint y <> Some d).
Proof.
  intros H He. unfold claimEndpoint. destruct e as [d|].
  - destruct (He d eq_refl) as [b Hb]. rewrite Hb. eexists. cbn [fst snd]. split; [done|].
    assert (Hm : forall e, installed <$> endpoints g !! e = Some true ->
      installed <$> (<[d := mkBox true (box b)]> (endpoints g)) !! e = Some true).
    { intros e. destruct (decide (e = d)) as [->|]; [by rewrite lookup_insert_eq|by rewrite lookup_insert_ne]. }
    split; [by apply reg_ok_claim|]. intros Hf d' [= <-]. split; [by rewrite lookup_insert_eq|].
    intros c y Hc Hy. pose proof (co_box _ (reg_contents _ _ H) c y d Hc Hy) as Hi. rewrite Hb in Hi. cbn in Hi. congruence.
  - exists (endpoints g). destruct g as [s i o ep n]. cbn [fst snd set_endpoints shards ins outs endpoints nextRef]. done.
Qed.

Lemma swapInbound_inv circuit previous (r r' : Runtime) res p :
  reg_ok (reg r) p -> (forall e, IEndpoint circuit = Some e -> is_Some (endpoints (reg r) !! e)) ->
  swapInbound Now circuit previous r = (res, r') ->
  exists m, let g := set_endpoints m (reg r) in
    reg_ok g p /\
    match res with
    | Ok (c, old) =>
        let id := IID circuit in
        c = nextRef g /\ old = entryIn g (shardIndex id) id /\
        admitted old (ownerIn g) (bool_decide (is_Some old) || bool_decide (is_Some (entryOut g (shardIndex id) id)))
          previous (IOwner circuit) /\
        (forall d, IEndpoint circuit = Some d -> installed <$> m !! d = Some true /\
          forall c y, ins g !! c = Some y -> iendpoint y <> Some d) /\
        reg r' = insertIn id (mkInbound 1 (IOwner circuit) (ITransforms circuit) (IForward circuit) (IEndpoint circuit)
          (ILocal circuit) (IExpiresAt circuit) 0) g
    | _ => reg r' = g
    end.
Proof.
  intros H He. unfold swapInbound. go_unfold. destruct (expired Now (IExpiresAt circuit) r) as [d r1] eqn:Ex.
  apply expired_frame in Ex as (b & -> & Hr1).
  assert (Hself : set_endpoints (endpoints (reg r)) (reg r) = reg r) by (by destruct (reg r)).
  destruct b; [intros [= <- <-]; exists (endpoints (reg r)); rewrite Hself; done|]. rewrite Hr1.
  destruct (admission _ _ _ _ _) as [[]|e|] eqn:Ea;
    [|intros [= <- <-]; exists (endpoints (reg r)); cbn zeta; rewrite Hself; done..].
  destruct (claimEndpoint_spec (IEndpoint circuit) (reg r) p H He) as (m & Hm & Hok & Hfree).
  destruct (claimEndpoint (IEndpoint circuit) (reg r)) as [taken g1] eqn:Ec. cbn [fst snd] in Hm, Hfree. subst g1.
  apply admission_ok in Ea. intros Heq. exists m. destruct taken; injection Heq as <- <-; [done|]. cbn zeta. split; [done|].
  split; [done|]. split; [done|]. split; [exact Ea|]. split; [by apply Hfree|]. done.
Qed.
End Swaps.

Section Steps.
Context {reader handler senderT world : Type}.
Context (range : gmap Z partial -> list (Z * partial)).
Context (rangeMeta : gmap Z deliveryMeta -> list (Z * deliveryMeta)).
Context (rangeCircuits : gmap Z nat -> list (Z * nat)).
Context (Now : world -> Z * world).
Abbreviation reg_t := (registry (handler := handler)).
Abbreviation Runtime := (Runtime (reader := reader) (handler := handler) (senderT := senderT) (world := world)).

(** The critical sections, in any interleaving.  Parsing changes the contents of
    a pinned circuit's endpoint, and the activity counters are atomic. *)
Inductive step : reg_t * list pin -> reg_t * list pin -> Prop :=
| step_endpoint g p e ep :
    endpoints g !! e = None -> step (g, p) (set_endpoints (<[e := mkBox false ep]> (endpoints g)) g, p)
| step_swap_out circuit previous (r r' : Runtime) c old p :
    swapOutbound Now circuit previous r = (Ok (c, old), r') ->
    step (reg r, p) (reg r', option_list (PinOut <$> old) ++ p)
| step_swap_in circuit previous (r r' : Runtime) c old p :
    (forall e, IEndpoint circuit = Some e -> is_Some (endpoints (reg r) !! e)) ->
    swapInbound Now circuit previous r = (Ok (c, old), r') ->
    step (reg r, p) (reg r', option_list (PinIn <$> old) ++ p)
| step_swap_in_refused circuit previous (r r' : Runtime) e p :
    (forall e, IEndpoint circuit = Some e -> is_Some (endpoints (reg r) !! e)) ->
    swapInbound Now circuit previous r = (Err e, r') -> step (reg r, p) (reg r', p)
| step_remove token g p : step (g, p) ((removeLocked range rangeMeta token g).2, p)
| step_owner owner i g p : step (g, p) (removeOwnerShard range rangeMeta rangeCircuits owner i g, p)
| step_expire t i g p : step (g, p) ((expireShard range rangeMeta rangeCircuits t i g).2, p)
| step_admit_in id (r r' : Runtime) c x p :
    admitInbound Now id r = (Ok (c, x), r') -> step (reg r, p) (reg r', PinIn c :: p)
| step_admit_out id gen (r r' : Runtime) c x p :
    admitOutbound Now id gen r = (Ok (c, x), r') -> step (reg r, p) (reg r', PinOut c :: p)
| step_parse c x e b ep g p :
    PinIn c ∈ p -> ins g !! c = Some x -> iendpoint x = Some e -> endpoints g !! e = Some b ->
    step (g, p) (set_endpoints (<[e := mkBox (installed b) ep]> (endpoints g)) g, p)
| step_active_in c x n g p :
    PinIn c ∈ p -> ins g !! c = Some x ->
    step (g, p) (set_ins (<[c := mkInbound (irefs x) (iowner x) (itransforms x) (iforward x) (iendpoint x)
      (ilocal x) (iexpiresAt x) n]> (ins g)) g, p)
| step_active_out c x n g p :
    PinOut c ∈ p -> outs g !! c = Some x ->
    step (g, p) (set_outs (<[c := mkOutbound (orefs x) (oowner x) (firstHop x) (nextTunnelID x)
      (otransforms x) (oexpiresAt x) n]> (outs g)) g, p)
| step_release_in c p1 p2 g : step (g, p1 ++ PinIn c :: p2) (releaseInbound range rangeMeta c g, p1 ++ p2)
| step_release_out c p1 p2 g : step (g, p1 ++ PinOut c :: p2) (releaseOutbound c g, p1 ++ p2).

(** [NewRuntime]'s registry. *)
Definition newRegistry : reg_t := mkRegistry (replicate (Z.to_nat circuitShards) emptyShard) ∅ ∅ ∅ 0.

Definition reachable (s : reg_t * list pin) : Prop := rtc step (newRegistry, []) s.

(** Circuits are never dropped from the heap, and change only as [becomesIn] allows. *)
Definition keeps (g g' : reg_t) : Prop :=
  (forall c x, ins g !! c = Some x -> exists y, ins g' !! c = Some y /\ becomesIn x y) /\
  (forall c x, outs g !! c = Some x -> exists y, outs g' !! c = Some y /\ becomesOut x y).

Lemma evolves_keeps g g' : evolves g g' -> keeps g g'.
Proof.
  intros [Hi Ho _ _]. split; intros c x Hx.
  - specialize (Hi c). rewrite Hx in Hi. destruct (ins g' !! c) as [y|]; [|done]. by exists y.
  - specialize (Ho c). rewrite Hx in Ho. destruct (outs g' !! c) as [y|]; [|done]. by exists y.
Qed.

Lemma keeps_trans g1 g2 g3 : keeps g1 g2 -> keeps g2 g3 -> keeps g1 g3.
Proof.
  intros [Hi Ho] [Hi' Ho']. split; intros c x Hx.
  - destruct (Hi c x Hx) as (y & Hy & Hxy). destruct (Hi' c y Hy) as (z & Hz & Hyz).
    exists z. split; [done|]. by eapply becomesIn_trans.
  - destruct (Ho c x Hx) as (y & Hy & Hxy). destruct (Ho' c y Hy) as (z & Hz & Hyz).
    exists z. split; [done|]. by eapply becomesOut_trans.
Qed.

Lemma keeps_heaps (g g' : reg_t) : ins g' = ins g -> outs g' = outs g -> keeps g g'.
Proof. intros Hi Ho. split; intros c x Hx; exists x; rewrite ?Hi, ?Ho; (split; [done|by left]). Qed.

Lemma insertOut_keeps id x (g : reg_t) p : reg_ok g p -> keeps g (insertOut id x g).
Proof.
  intros H. split; intros c y Hy; [exists y; split; [done|by left]|]. exists y. split; [|by left].
  cbn [insertOut outs setShard set_shards]. rewrite lookup_insert_ne; [done|]. intros <-.
  destruct (co_fresh _ (reg_contents _ _ H) (nextRef g) ltac:(lia)). congruence.
Qed.

Lemma insertIn_keeps id x (g : reg_t) p : reg_ok g p -> keeps g (insertIn id x g).
Proof.
  intros H. split; intros c y Hy; [|exists y; split; [done|by left]]. exists y. split; [|by left].
  cbn [insertIn ins setShard set_shards]. rewrite lookup_insert_ne; [done|]. intros <-.
  destruct (co_fresh _ (reg_contents _ _ H) (nextRef g) ltac:(lia)). congruence.
Qed.

(** An admitted replacement leaves the other direction free. *)
Lemma admitted_free id oldOwner previous owner (entry other : nat -> Z -> option nat) :
  (forall c d, entry (shardIndex id) id = Some c -> other (shardIndex id) id = Some d -> False) ->
  admitted (entry (shardIndex id) id) oldOwner
    (bool_decide (is_Some (entry (shardIndex id) id)) || bool_decide (is_Some (other (shardIndex id) id))) previous owner ->
  other (shardIndex id) id = None.
Proof.
  intros Hex. unfold admitted. destruct (other (shardIndex id) id) as [d|]; [|done].
  destruct (generation previous) as [c|].
  - intros [Hc _]. exfalso. by apply (Hex c d).
  - rewrite (bool_decide_true (is_Some (Some d))) by done. by rewrite orb_true_r.
Qed.

Context (range_all : forall m, rangeCircuits m ≡ₚ map_to_list m).

Lemma admitInbound_inv id (r r' : Runtime) c x :
  admitInbound Now id r = (Ok (c, x), r') ->
  entryIn (reg r) (shardIndex id) id = Some c /\ ins (reg r) !! c = Some x /\ reg r' = pinInbound c (reg r).
Proof.
  unfold admitInbound. go_unfold. unfold entryIn. change (shardAt (shardIndex id) (reg r)) with (shard id (reg r)).
  destruct (inbound (shard id (reg r)) !! id) as [d|]; [|done].
  destruct (ins (reg r) !! d) as [y|] eqn:Hy; [|done].
  destruct (expired Now (iexpiresAt y) r) as [b r1] eqn:Ex. apply expired_frame in Ex as (b' & -> & Hr1).
  destruct b'; [done|]. unfold update. intros [= <- <- <-]. cbn. by rewrite Hr1.
Qed.

Lemma admitOutbound_inv id gen (r r' : Runtime) c x :
  admitOutbound Now id gen r = (Ok (c, x), r') ->
  entryOut (reg r) (shardIndex id) id = Some c /\ outs (reg r) !! c = Some x /\ reg r' = pinOutbound c (reg r) /\
  (forall d, gen = Some d -> c = d).
Proof.
  unfold admitOutbound. go_unfold. unfold entryOut. change (shardAt (shardIndex id) (reg r)) with (shard id (reg r)).
  destruct (outbound (shard id (reg r)) !! id) as [d|]; [|done].
  destruct (match gen with Some g => negb (d =? g)%nat | None => false end) eqn:Eg; [done|].
  destruct (outs (reg r) !! d) as [y|] eqn:Hy; [|done].
  destruct (expired Now (oexpiresAt y) r) as [b r1] eqn:Ex. apply expired_frame in Ex as (b' & -> & Hr1).
  destruct b'; [done|]. unfold update. intros [= <- <- <-]. cbn. rewrite Hr1. split_and!; try done.
  intros e ->. apply negb_false_iff, Nat.eqb_eq in Eg. done.
Qed.

Lemma elem_pinsIn c p : PinIn c ∈ p <-> c ∈ pinsIn p.
Proof.
  unfold pinsIn. rewrite list_elem_of_omap. split; [intros H; by exists (PinIn c)|].
  intros ([d|d] & H & [= ->]). done.
Qed.

Lemma elem_pinsOut c p : PinOut c ∈ p <-> c ∈ pinsOut p.
Proof.
  unfold pinsOut. rewrite list_elem_of_omap. split; [intros H; by exists (PinOut c)|].
  intros ([d|d] & H & [= ->]). done.
Qed.

(** Storing another activity count. *)
Lemma active_in_ok c x n (g : reg_t) p :
  reg_ok g p -> PinIn c ∈ p -> ins g !! c = Some x ->
  let g' := set_ins (<[c := mkInbound (irefs x) (iowner x) (itransforms x) (iforward x) (iendpoint x)
      (ilocal x) (iexpiresAt x) n]> (ins g)) g in reg_ok g' p /\ evolves g g'.
Proof.
  intros H Hc%elem_pinsIn Hx g'. destruct (pinned_in g p c H Hc) as (y & Hy & Hr & Hpos).
  assert (y = x) as -> by congruence. eapply (reg_ok_in g g' p p c x _ H Hx); try done.
  - right. split; [done|]. left. split; [cbn; lia|done].
  - apply (ref_ok_ext _ _ _ _ _ (reg_in _ _ H)); [done|]. intros d.
    rewrite (refsIn_insert g g' c (mkInbound (irefs x) (iowner x) (itransforms x) (iforward x) (iendpoint x)
      (ilocal x) (iexpiresAt x) n) d) by done. case_decide; [subst; by rewrite Hr|done].
Qed.

Lemma active_out_ok c x n (g : reg_t) p :
  reg_ok g p -> PinOut c ∈ p -> outs g !! c = Some x ->
  let g' := set_outs (<[c := mkOutbound (orefs x) (oowner x) (firstHop x) (nextTunnelID x)
      (otransforms x) (oexpiresAt x) n]> (outs g)) g in reg_ok g' p /\ evolves g g'.
Proof.
  intros H Hc%elem_pinsOut Hx g'. destruct (pinned_out g p c H Hc) as (y & Hy & Hr & Hpos).
  assert (y = x) as -> by congruence. eapply (reg_ok_out g g' p p c x _ H Hx); try done.
  - right. split; [done|]. left. split; [cbn; lia|done].
  - apply (ref_ok_ext _ _ _ _ _ (reg_out _ _ H)); [done|]. intros d.
    rewrite (refsOut_insert g g' c (mkOutbound (orefs x) (oowner x) (firstHop x) (nextTunnelID x)
      (otransforms x) (oexpiresAt x) n) d) by done. case_decide; [subst; by rewrite Hr|done].
Qed.

Lemma swap_out_ok circuit previous (r r' : Runtime) c old p :
  reg_ok (reg r) p -> swapOutbound Now circuit previous r = (Ok (c, old), r') ->
  reg_ok (reg r') (option_list (PinOut <$> old) ++ p) /\ keeps (reg r) (reg r').
Proof.
  intros H (-> & -> & Hadm & ->)%swapOutbound_inv. split; [|by eapply insertOut_keeps].
  apply insertOut_ok; [done..|].
  apply (admitted_free _ _ _ _ (entryOut (reg r)) (entryIn (reg r))) in Hadm; [done|].
  intros d e Hd He. by apply (reg_excl _ _ H _ _ _ _ _ He Hd).
Qed.

Lemma swap_in_ok circuit previous (r r' : Runtime) c old p :
  reg_ok (reg r) p -> (forall e, IEndpoint circuit = Some e -> is_Some (endpoints (reg r) !! e)) ->
  swapInbound Now circuit previous r = (Ok (c, old), r') ->
  reg_ok (reg r') (option_list (PinIn <$> old) ++ p) /\ keeps (reg r) (reg r').
Proof.
  intros H He Hs. destruct (swapInbound_inv Now circuit previous r r' _ p H He Hs) as (m & Hm & -> & -> & Hadm & Hep & ->).
  split; [|eapply keeps_trans; [|by eapply insertIn_keeps]; by apply keeps_heaps].
  apply insertIn_ok; [done..| |done].
  apply (admitted_free _ _ _ _ (entryIn (set_endpoints m (reg r))) (entryOut (set_endpoints m (reg r)))) in Hadm; [done|].
  intros d e Hd Ho. by apply (reg_excl _ _ Hm _ _ _ _ _ Hd Ho).
Qed.

Lemma step_ok s s' : step s s' -> reg_ok s.1 s.2 -> reg_ok s'.1 s'.2 /\ keeps s.1 s'.1.
Proof.
  assert (Hevk : forall g g' p, reg_ok g' p /\ evolves g g' -> reg_ok g' p /\ keeps g g').
  { intros g g' p [H1 H2]. split; [done|by apply evolves_keeps]. }
  destruct 1; cbn [fst snd]; intros H'.
  - split; [|by apply keeps_heaps]. apply reg_ok_claim; [|done]. intros d Hd.
    rewrite lookup_insert_ne; [done|]. intros ->. by rewrite H in Hd.
  - by eapply swap_out_ok.
  - by eapply swap_in_ok.
  - destruct (swapInbound_inv Now circuit previous r r' _ p H' H H0) as (m & Hm & ->). split; [done|by apply keeps_heaps].
  - destruct (removeLocked_ok range rangeMeta token g p H') as (H1 & H2 & _). by apply Hevk.
  - destruct (removeOwnerShard_ok range rangeMeta rangeCircuits range_all owner i g p H') as (H1 & H2 & _). by apply Hevk.
  - destruct (expireShard_ok range rangeMeta rangeCircuits range_all t i g p H') as (H1 & H2 & _). by apply Hevk.
  - apply admitInbound_inv in H as (He & Hx & ->). apply Hevk. by eapply pinIn_ok.
  - apply admitOutbound_inv in H as (He & Hx & -> & _). apply Hevk. by eapply pinOut_ok.
  - apply Hevk, reg_ok_boxes; [|done]. intros d.
    destruct (decide (d = e)) as [->|]; [by rewrite lookup_insert_eq, H2|by rewrite lookup_insert_ne].
  - apply Hevk. by eapply active_in_ok.
  - apply Hevk. by eapply active_out_ok.
  - apply Hevk. by apply releaseIn_ok.
  - apply Hevk. by apply releaseOut_ok.
Qed.

(** An entry is an old one or a fresh identity: identities are never reissued. *)
Definition issues (g g' : reg_t) : Prop :=
  (nextRef g <= nextRef g')%nat /\
  (forall i id c, entryIn g' i id = Some c -> entryIn g i id = Some c \/ (nextRef g <= c)%nat) /\
  (forall i id c, entryOut g' i id = Some c -> entryOut g i id = Some c \/ (nextRef g <= c)%nat).

Lemma issues_trans g1 g2 g3 : issues g1 g2 -> issues g2 g3 -> issues g1 g3.
Proof.
  intros (N1 & I1 & O1) (N2 & I2 & O2). split; [lia|]. split; intros i id c.
  - intros [H|H]%I2; [by apply I1|right; lia].
  - intros [H|H]%O2; [by apply O1|right; lia].
Qed.

Lemma issues_shards (g g' : reg_t) : shards g' = shards g -> nextRef g' = nextRef g -> issues g g'.
Proof.
  intros Hs Hn. split; [lia|]. split; intros i id c; unfold entryIn, entryOut, shardAt; rewrite Hs; by left.
Qed.

Lemma issues_drop (g g' : reg_t) :
  nextRef g' = nextRef g ->
  (forall i id c, entryIn g' i id = Some c -> entryIn g i id = Some c) ->
  (forall i id c, entryOut g' i id = Some c -> entryOut g i id = Some c) -> issues g g'.
Proof. intros Hn HI HO. split; [lia|]. split; intros i id c H; left; [by apply HI|by apply HO]. Qed.

Lemma bind_without (f : nat -> bool) (c : nat) (e : option nat) :
  (e ≫= fun d => without (f d) (Some d)) = Some c -> e = Some c.
Proof. destruct e as [d|]; [|done]. cbn [mbind option_bind]. unfold without. by destruct (f d). Qed.

Lemma insertOut_issues id x (g : reg_t) p :
  reg_ok g p -> orefs x = 1 -> entryIn g (shardIndex id) id = None -> issues g (insertOut id x g).
Proof.
  intros H Hx Hno. destruct (insertOut_ok id x g p H Hx Hno) as (_ & EO & EI). split; [cbn; lia|].
  split; intros i k c; rewrite ?EO, ?EI; [by left|]. case_decide; [intros [= <-]; right; lia|by left].
Qed.

Lemma insertIn_issues id x (g : reg_t) p :
  reg_ok g p -> irefs x = 1 -> entryOut g (shardIndex id) id = None ->
  (forall e, iendpoint x = Some e -> installed <$> endpoints g !! e = Some true /\
    forall c y, ins g !! c = Some y -> iendpoint y <> Some e) -> issues g (insertIn id x g).
Proof.
  intros H Hx Hno Hep. destruct (insertIn_ok id x g p H Hx Hno Hep) as (_ & EI & EO). split; [cbn; lia|].
  split; intros i k c; rewrite ?EO, ?EI; [|by left]. case_decide; [intros [= <-]; right; lia|by left].
Qed.

Lemma swap_in_issues circuit previous (r r' : Runtime) c old p :
  reg_ok (reg r) p -> (forall e, IEndpoint circuit = Some e -> is_Some (endpoints (reg r) !! e)) ->
  swapInbound Now circuit previous r = (Ok (c, old), r') -> issues (reg r) (reg r').
Proof.
  intros H He Hs. destruct (swapInbound_inv Now circuit previous r r' _ p H He Hs) as (m & Hm & -> & -> & Hadm & Hep & ->).
  eapply issues_trans; [apply (issues_shards _ (set_endpoints m (reg r))); done|].
  eapply insertIn_issues; [done..| |done].
  apply (admitted_free _ _ _ _ (entryIn (set_endpoints m (reg r))) (entryOut (set_endpoints m (reg r)))) in Hadm; [done|].
  intros d e Hd Ho. by apply (reg_excl _ _ Hm _ _ _ _ _ Hd Ho).
Qed.

Lemma release_shards c (g : reg_t) :
  issues g (releaseInbound range rangeMeta c g) /\ issues g (releaseOutbound c g).
Proof.
  split.
  - destruct (ins g !! c) as [x|] eqn:Hx.
    + destruct (releaseInbound_spec range rangeMeta c x g Hx) as (y & _ & _ & _ & Hs & _ & Hn & _). by apply issues_shards.
    + unfold releaseInbound. rewrite Hx. by apply issues_shards.
  - destruct (outs g !! c) as [x|] eqn:Hx.
    + destruct (releaseOutbound_spec c x g Hx) as (y & _ & _ & _ & Hs & _ & Hn & _). by apply issues_shards.
    + unfold releaseOutbound. rewrite Hx. by apply issues_shards.
Qed.

Lemma removeLocked_issues token (g : reg_t) p : reg_ok g p -> issues g (removeLocked range rangeMeta token g).2.
Proof.
  intros H. destruct (removeLocked_ok range rangeMeta token g p H) as (H' & Hev & Hb & Hf & Hdead & Hi & Ho).
  apply issues_drop; [apply (ev_next _ _ Hev)|..]; intros i k c Hc.
  - destruct (Hi i k) as [He|(_ & _ & He)]; congruence.
  - destruct (Ho i k) as [He|(_ & _ & He)]; congruence.
Qed.

Lemma step_issues s s' : step s s' -> reg_ok s.1 s.2 -> issues s.1 s'.1.
Proof.
  destruct 1; cbn [fst snd]; intros H'; try (by apply issues_shards).
  - apply swapOutbound_inv in H as (-> & -> & Hadm & ->). eapply insertOut_issues; [done..|].
    apply (admitted_free _ _ _ _ (entryOut (reg r)) (entryIn (reg r))) in Hadm; [done|].
    intros d e Hd He. by apply (reg_excl _ _ H' _ _ _ _ _ He Hd).
  - by eapply swap_in_issues.
  - destruct (swapInbound_inv Now circuit previous r r' _ p H' H H0) as (m & Hm & ->). by apply issues_shards.
  - by eapply removeLocked_issues.
  - destruct (removeOwnerShard_ok range rangeMeta rangeCircuits range_all owner i g p H') as (_ & Hev & HI & HO).
    apply issues_drop; [apply (ev_next _ _ Hev)|..]; intros j k c; [rewrite HI|rewrite HO]; apply bind_without.
  - destruct (expireShard_ok range rangeMeta rangeCircuits range_all t i g p H') as (_ & Hev & HI & HO & _).
    apply issues_drop; [apply (ev_next _ _ Hev)|..]; intros j k c; [rewrite HI|rewrite HO]; apply bind_without.
  - apply admitInbound_inv in H as (He & Hx & ->). unfold pinInbound. rewrite Hx. by apply issues_shards.
  - apply admitOutbound_inv in H as (He & Hx & -> & _). unfold pinOutbound. rewrite Hx. by apply issues_shards.
  - apply release_shards.
  - apply release_shards.
Qed.

Lemma newRegistry_ok : reg_ok newRegistry [].
Proof.
  assert (HI : forall i id, entryIn newRegistry i id = None).
  { intros i id. unfold entryIn, shardAt. cbn [newRegistry shards].
    destruct (replicate (Z.to_nat circuitShards) emptyShard !! i) as [s|] eqn:E; [|apply lookup_empty].
    apply lookup_replicate in E as [-> _]. apply lookup_empty. }
  assert (HO : forall i id, entryOut newRegistry i id = None).
  { intros i id. unfold entryOut, shardAt. cbn [newRegistry shards].
    destruct (replicate (Z.to_nat circuitShards) emptyShard !! i) as [s|] eqn:E; [|apply lookup_empty].
    apply lookup_replicate in E as [-> _]. apply lookup_empty. }
  constructor; [done|..].
  - constructor; try (intros *; rewrite HI; done); [|intros c Hc; by apply elem_of_nil in Hc].
    intros c n. unfold refsIn. cbn [newRegistry ins]. by rewrite lookup_empty.
  - constructor; try (intros *; rewrite HO; done); [|intros c Hc; by apply elem_of_nil in Hc].
    intros c n. unfold refsOut. cbn [newRegistry outs]. by rewrite lookup_empty.
  - intros i id c j d. by rewrite HI.
  - constructor; cbn [newRegistry ins outs endpoints nextRef]; intros *; rewrite ?lookup_empty; done.
Qed.

Lemma run_ok s s' : rtc step s s' -> reg_ok s.1 s.2 ->
  reg_ok s'.1 s'.2 /\ keeps s.1 s'.1 /\ issues s.1 s'.1.
Proof.
  induction 1 as [s|s s1 s2 Hs Hr IH]; intros H.
  - split; [done|]. split; [by apply keeps_heaps|by apply issues_shards].
  - destruct (step_ok _ _ Hs H) as [H1 K1]. pose proof (step_issues _ _ Hs H) as J1.
    destruct (IH H1) as (H2 & K2 & J2). split; [done|]. split; [by eapply keeps_trans|by eapply issues_trans].
Qed.

Lemma reachable_reg_ok s : reachable s -> reg_ok s.1 s.2.
Proof. intros Hr. by apply (run_ok _ _ Hr), newRegistry_ok. Qed.
End Steps.

(** ** Theorems *)

Section Theorems.
Context {reader handler senderT world : Type}.
Context (range : gmap Z partial -> list (Z * partial)).
Context (rangeMeta : gmap Z deliveryMeta -> list (Z * deliveryMeta)).
Context (rangeCircuits : gmap Z nat -> list (Z * nat)).
Context (Now : world -> Z * world).
Context (range_all : forall m, rangeCircuits m ≡ₚ map_to_list m).
Abbreviation reg_t := (registry (handler := handler)).
Abbreviation Runtime := (Runtime (reader := reader) (handler := handler) (senderT := senderT) (world := world)).
Abbreviation step := (step (reader := reader) (handler := handler) (senderT := senderT) range rangeMeta rangeCircuits Now).
Abbreviation reachable := (reachable (reader := reader) (handler := handler) (senderT := senderT) range rangeMeta rangeCircuits Now).

(** Registered, or pinned by a packet in flight. *)
Definition referencedIn (g : reg_t) (p : list pin) (c : nat) : Prop :=
  (exists i id, entryIn g i id = Some c) \/ PinIn c ∈ p.
Definition referencedOut (g : reg_t) (p : list pin) (c : nat) : Prop :=
  (exists i id, entryOut g i id = Some c) \/ PinOut c ∈ p.

Lemma referenced_in (g : reg_t) p c : reg_ok g p -> referencedIn g p c -> exists x, ins g !! c = Some x /\ 0 < irefs x.
Proof.
  intros H [(i & id & He)|Hp].
  - destruct (held_in g p i id c H He) as (x & Hx & _ & Hpos). by exists x.
  - apply elem_pinsIn in Hp. destruct (pinned_in g p c H Hp) as (x & Hx & _ & Hpos). by exists x.
Qed.

Lemma referenced_out (g : reg_t) p c : reg_ok g p -> referencedOut g p c -> exists x, outs g !! c = Some x /\ 0 < orefs x.
Proof.
  intros H [(i & id & He)|Hp].
  - destruct (held_out g p i id c H He) as (x & Hx & _ & Hpos). by exists x.
  - apply elem_pinsOut in Hp. destruct (pinned_out g p c H Hp) as (x & Hx & _ & Hpos). by exists x.
Qed.

Lemma unreferenced_in (g : reg_t) p c x : reg_ok g p -> ins g !! c = Some x -> ~ referencedIn g p c -> irefs x = 0.
Proof.
  intros H Hx Hn. assert (Hr : refsIn g c = Some (irefs x)) by (unfold refsIn; by rewrite Hx).
  destruct (refs_value (reg_in _ _ H) c _ Hr) as [[He _]|[_ ->]]; [exfalso; apply Hn; by left|].
  apply occurs_zero. intros Hp. apply Hn. right. by apply elem_pinsIn.
Qed.

Lemma unreferenced_out (g : reg_t) p c x : reg_ok g p -> outs g !! c = Some x -> ~ referencedOut g p c -> orefs x = 0.
Proof.
  intros H Hx Hn. assert (Hr : refsOut g c = Some (orefs x)) by (unfold refsOut; by rewrite Hx).
  destruct (refs_value (reg_out _ _ H) c _ Hr) as [[He _]|[_ ->]]; [exfalso; apply Hn; by left|].
  apply occurs_zero. intros Hp. apply Hn. right. by apply elem_pinsOut.
Qed.

(** C7: under any interleaving of registrations, replacements, removals, expiry
    and packets, a circuit that is registered or pinned keeps the keys, route,
    endpoint and handler it was installed with, and one that is neither has lost
    its keys, endpoint and handler. *)
Theorem circuit_lifetime g p g' p' :
  reachable (g, p) -> rtc step (g, p) (g', p') ->
  (forall c, referencedIn g p c -> referencedIn g' p' c ->
     exists x y, ins g !! c = Some x /\ ins g' !! c = Some y /\ sameIn x y) /\
  (forall c, referencedOut g p c -> referencedOut g' p' c ->
     exists x y, outs g !! c = Some x /\ outs g' !! c = Some y /\ sameOut x y) /\
  (forall c x, ins g' !! c = Some x -> ~ referencedIn g' p' c -> wipedIn x) /\
  (forall c x, outs g' !! c = Some x -> ~ referencedOut g' p' c -> wipedOut x).
Proof.
  intros Hr Hrun. pose proof (reachable_reg_ok _ _ _ _ range_all _ Hr) as H. cbn [fst snd] in H.
  destruct (run_ok _ _ _ _ range_all _ _ Hrun H) as (H' & [KI KO] & _). cbn [fst snd] in *. split_and!.
  - intros c Hc Hc'. destruct (referenced_in g p c H Hc) as (x & Hx & _).
    destruct (referenced_in g' p' c H' Hc') as (y & Hy & Hpos). destruct (KI c x Hx) as (z & Hz & Hb).
    assert (z = y) as -> by congruence. exists x, y. split_and!; [done..|].
    destruct Hb as [->|[_ [[_ Hs]|[? _]]]]; [done|done|lia].
  - intros c Hc Hc'. destruct (referenced_out g p c H Hc) as (x & Hx & _).
    destruct (referenced_out g' p' c H' Hc') as (y & Hy & Hpos). destruct (KO c x Hx) as (z & Hz & Hb).
    assert (z = y) as -> by congruence. exists x, y. split_and!; [done..|].
    destruct Hb as [->|[_ [[_ Hs]|[? _]]]]; [done|done|lia].
  - intros c x Hx Hn. apply (co_in _ (reg_contents _ _ H') c x Hx). by eapply unreferenced_in.
  - intros c x Hx Hn. apply (co_out _ (reg_contents _ _ H') c x Hx). by eapply unreferenced_out.
Qed.

(** *** The whole operations *)

(** Returns without touching the registry. *)
Definition quiet {A} (m : go Runtime A) : Prop := forall r, exists a r', m r = (Ok a, r') /\ reg r' = reg r.

Lemma quiet_ret {A} (a : A) : quiet (ret a).
Proof. intros r. by exists a, r. Qed.

Lemma quiet_bind {A B} (m : go Runtime A) (f : A -> go Runtime B) : quiet m -> (forall a, quiet (f a)) -> quiet (gbind m f).
Proof.
  intros Hm Hf r. destruct (Hm r) as (a & r1 & H1 & E1). destruct (Hf a r1) as (b & r2 & H2 & E2).
  exists b, r2. unfold gbind. rewrite H1, H2. split; [done|congruence].
Qed.

Lemma quiet_get {B} (f : Runtime -> go Runtime B) : (forall r, quiet (f r)) -> quiet (gbind get f).
Proof. intros H. apply quiet_bind; [|done]. intros r. by exists r, r. Qed.

Lemma quiet_expired t : quiet (expired Now t).
Proof.
  intros r. destruct (expired Now t r) as [res r'] eqn:E. destruct (expired_frame Now t r r' res E) as (b & -> & Hr). by exists b, r'.
Qed.

Lemma quiet_items {A N} (f : A -> N -> go Runtime N) l : (forall x n, quiet (f x n)) -> forall n, quiet (countItems f l n).
Proof.
  intros Hf. induction l as [|x l IH]; intros n; cbn [countItems]; [apply quiet_ret|]. by apply quiet_bind.
Qed.

Lemma quiet_counts : quiet (ActiveTunnelCounts rangeCircuits Now).
Proof.
  apply quiet_items. intros i n. apply quiet_get. intros r. apply quiet_bind; [|intros a; apply quiet_bind; [|intros; apply quiet_ret]].
  - apply quiet_items. intros [id c] k. apply quiet_get. intros r1. cbn [snd].
    destruct (ins (reg r1) !! c) as [x|]; [|apply quiet_ret]. destruct (iforward x); [apply quiet_ret|].
    apply quiet_bind; [apply quiet_expired|]. intros [|]; [apply quiet_ret|]. destruct (bytes_eqb _ _); apply quiet_ret.
  - apply quiet_items. intros [id c] k. apply quiet_get. intros r1. cbn [snd].
    destruct (outs (reg r1) !! c) as [x|]; [|apply quiet_ret].
    apply quiet_bind; [apply quiet_expired|]. intros [|]; [apply quiet_ret|]. destruct (bytes_eqb _ _); apply quiet_ret.
Qed.

Lemma quiet_publish : quiet (publishActiveTunnelCounts rangeCircuits Now).
Proof.
  apply quiet_get. intros r. destruct (metrics r); [|apply quiet_ret]. apply quiet_bind; [apply quiet_counts|].
  intros n r1. unfold gbind, get. destruct (metrics r1) as [m|]; [|by apply quiet_ret].
  eexists _, _. split; [done|done].
Qed.

(** C20: [RemoveCircuit] reports whether the token's installation was the one
    registered, and if so unregisters it and nothing else; no later step, not
    even a registration under the same identifier, makes the token live again. *)
Theorem RemoveCircuit_final (r : Runtime) p token c :
  reachable (reg r, p) -> tokenID token <> 0 -> generation token = Some c -> (c < nextRef (reg r))%nat ->
  exists b r', RemoveCircuit range rangeMeta rangeCircuits Now token r = (Ok b, r') /\
    (b = true <-> liveToken (reg r) token) /\ drops (reg r) (reg r') token /\
    forall s, rtc step (reg r', p) s -> ~ liveToken s.1 token.
Proof.
  intros Hr Hid Hg Hc. pose proof (reachable_reg_ok _ _ _ _ range_all _ Hr) as H. cbn [fst snd] in H.
  destruct (removeLocked_ok range rangeMeta token (reg r) p H) as (H1 & Hev & Hb & _ & Hd).
  assert (Hrm : exists b r', RemoveCircuit range rangeMeta rangeCircuits Now token r = (Ok b, r') /\
    b = (removeLocked range rangeMeta token (reg r)).1 /\ reg r' = (removeLocked range rangeMeta token (reg r)).2).
  { unfold RemoveCircuit. rewrite Hg, (bool_decide_true (is_Some (Some c))) by done.
    replace (tokenID token =? 0) with false by lia. cbn [orb negb]. unfold gbind, get, put.
    destruct (removeLocked range rangeMeta token (reg r)) as [b g]. exists b. cbn [fst snd]. destruct b.
    - destruct (quiet_publish (set_reg g r)) as ([] & r' & Hp & Hreg). exists r'. rewrite Hp. done.
    - by eexists. }
  destruct Hrm as (b & r' & Hrm & -> & Hreg). exists (removeLocked range rangeMeta token (reg r)).1, r'.
  rewrite Hreg. split_and!; [done|exact Hb|exact Hd|].
  intros s Hs. destruct (run_ok _ _ _ _ range_all _ _ Hs H1) as (_ & _ & Hn & HI & HO). cbn [fst] in Hn, HI, HO.
  rewrite (ev_next _ _ Hev) in *. intros (d & Hd' & He). assert (d = c) as -> by congruence.
  destruct Hd as [Hdead _]. apply Hdead. exists c. split; [done|].
  destruct He as [[He|He]%HI|[He|He]%HO]; [by left|lia|by right|lia].
Qed.

Lemma without_compose (e : option nat) (i j : nat) l (a b : nat -> bool) :
  i ∉ l -> (forall c, j ∈ l -> e = Some c -> b c = a c) ->
  ((e ≫= fun c => without (bool_decide (j = i) && a c) (Some c)) ≫= fun c => without (bool_decide (j ∈ l) && b c) (Some c)) =
  e ≫= fun c => without (bool_decide (j ∈ i :: l) && a c) (Some c).
Proof.
  intros Hi Hab. destruct e as [c|]; [|done]. cbn [mbind option_bind]. unfold without.
  destruct (decide (j ∈ l)) as [Hj|Hj].
  - rewrite (bool_decide_false (j = i)) by (by intros ->). cbn [andb mbind option_bind].
    rewrite (bool_decide_true (j ∈ l)), (bool_decide_true (j ∈ i :: l)) by (try apply elem_of_cons; tauto).
    cbn [andb]. by rewrite (Hab c Hj eq_refl).
  - destruct (decide (j = i)) as [->|Hne].
    + rewrite (bool_decide_true (i = i)), (bool_decide_true (i ∈ i :: l)) by (try apply elem_of_cons; tauto).
      cbn [andb]. destruct (a c); [done|]. cbn [mbind option_bind]. by rewrite bool_decide_false.
    + rewrite (bool_decide_false (j = i)), (bool_decide_false (j ∈ i :: l)) by (try rewrite elem_of_cons; tauto).
      cbn [andb mbind option_bind]. by rewrite bool_decide_false.
Qed.

Lemma dueCount_kept t (g g' : reg_t) j :
  (forall k, entryIn g' j k = entryIn g j k) -> (forall k, entryOut g' j k = entryOut g j k) ->
  (forall k c, entryIn g j k = Some c -> dueIn t g' c = dueIn t g c) ->
  (forall k c, entryOut g j k = Some c -> dueOut t g' c = dueOut t g c) ->
  dueCount rangeCircuits t g' j = dueCount rangeCircuits t g j.
Proof.
  intros EI EO HI HO. unfold dueCount.
  replace (inbound (shardAt j g')) with (inbound (shardAt j g)) by (symmetry; apply map_eq, EI).
  replace (outbound (shardAt j g')) with (outbound (shardAt j g)) by (symmetry; apply map_eq, EO).
  f_equal; f_equal; apply filter_ext_in; intros [k c] Hin; cbn [snd]; apply (range_entries rangeCircuits range_all) in Hin.
  - by rewrite (HI k c Hin).
  - by rewrite (HO k c Hin).
Qed.

Lemma foldr_sum_ext (f h : nat -> Z) l : (forall j, j ∈ l -> f j = h j) ->
  foldr (fun i s => f i + s) 0 l = foldr (fun i s => h i + s) 0 l.
Proof.
  induction l as [|j l IH]; intros H; [done|]. cbn [foldr]. rewrite (H j) by (apply elem_of_cons; by left).
  rewrite IH; [done|]. intros k Hk. apply H, elem_of_cons. by right.
Qed.

Lemma expireAll_ok t p l : forall n (r : Runtime),
  reg_ok (reg r) p -> NoDup l ->
  let m := forCount (fun i => fun r => let (n, g) := expireShard range rangeMeta rangeCircuits t i (reg r) in (Ok n, set_reg g r)) l n r in
  m.1 = Ok (n + foldr (fun i s => dueCount rangeCircuits t (reg r) i + s) 0 l) /\
  reg_ok (reg m.2) p /\ evolves (reg r) (reg m.2) /\
  (forall j k, entryIn (reg m.2) j k = entryIn (reg r) j k ≫= fun c =>
    without (bool_decide (j ∈ l) && dueIn t (reg r) c) (Some c)) /\
  (forall j k, entryOut (reg m.2) j k = entryOut (reg r) j k ≫= fun c =>
    without (bool_decide (j ∈ l) && dueOut t (reg r) c) (Some c)).
Proof.
  induction l as [|i l IH]; intros n r H Hnd.
  { cbn [forCount ret fst snd foldr]. cbn zeta. cbn [fst snd]. split_and!; [f_equal; lia|done|apply evolves_refl|..];
      intros j k; [destruct (entryIn (reg r) j k)|destruct (entryOut (reg r) j k)]; done. }
  apply NoDup_cons in Hnd as [Hi Hnd]. cbn [forCount foldr]. unfold gbind.
  destruct (expireShard_ok range rangeMeta rangeCircuits range_all t i (reg r) p H) as (H1 & E1 & I1 & O1 & N1).
  destruct (expireShard range rangeMeta rangeCircuits t i (reg r)) as [n1 g1]. cbn [fst snd] in *.
  destruct (IH (n + n1) (set_reg g1 r) H1 Hnd) as (N2 & H2 & E2 & I2 & O2). cbn [set_reg reg] in *.
  assert (EI : forall j k, j ∈ l -> entryIn g1 j k = entryIn (reg r) j k).
  { intros j k Hj. rewrite I1. rewrite bool_decide_false by (by intros ->). by destruct (entryIn (reg r) j k). }
  assert (EO : forall j k, j ∈ l -> entryOut g1 j k = entryOut (reg r) j k).
  { intros j k Hj. rewrite O1. rewrite bool_decide_false by (by intros ->). by destruct (entryOut (reg r) j k). }
  assert (DI : forall j k c, j ∈ l -> entryIn (reg r) j k = Some c -> dueIn t g1 c = dueIn t (reg r) c).
  { intros j k c Hj He. apply (testIn_kept p _ (reg r) g1 j k c (due_sameIn t)); try done. by rewrite EI. }
  assert (DO : forall j k c, j ∈ l -> entryOut (reg r) j k = Some c -> dueOut t g1 c = dueOut t (reg r) c).
  { intros j k c Hj He. apply (testOut_kept p _ (reg r) g1 j k c (due_sameOut t)); try done. by rewrite EO. }
  split_and!; [|done|by eapply evolves_trans|..].
  - rewrite N2, N1. rewrite <- Z.add_assoc. do 3 f_equal. apply foldr_sum_ext. intros j Hj.
    apply dueCount_kept; intros k; [by apply EI|by apply EO|intros c; by apply DI|intros c; by apply DO].
  - intros j k. rewrite I2, I1. apply without_compose; [done|]. intros c Hj He. by apply (DI j k).
  - intros j k. rewrite O2, O1. apply without_compose; [done|]. intros c Hj He. by apply (DO j k).
Qed.

(** The due circuits of every shard. *)
Definition totalDue (t : Z) (g : reg_t) : Z :=
  foldr (fun i s => dueCount rangeCircuits t g i + s) 0 (seq 0 (Z.to_nat circuitShards)).

(** C21: [Expire] unregisters exactly the circuits whose deadline has passed, in
    every shard and in both directions, and returns their number. *)
Theorem ExpireCircuits_exact (r : Runtime) p t :
  reachable (reg r, p) ->
  exists r', ExpireCircuits range rangeMeta rangeCircuits Now t r = (Ok (totalDue t (reg r)), r') /\
    (forall i id, entryIn (reg r') i id = entryIn (reg r) i id ≫= fun c => without (dueIn t (reg r) c) (Some c)) /\
    (forall i id, entryOut (reg r') i id = entryOut (reg r) i id ≫= fun c => without (dueOut t (reg r) c) (Some c)).
Proof.
  intros Hr. pose proof (reachable_reg_ok _ _ _ _ range_all _ Hr) as H. cbn [fst snd] in H.
  destruct (expireAll_ok t p _ 0 r H (NoDup_seq 0 (Z.to_nat circuitShards))) as (N & _ & _ & I & O). unfold ExpireCircuits, gbind.
  destruct (forCount _ _ 0 r) as [res r1]. cbn [fst snd] in *. subst res. rewrite Z.add_0_l. fold (totalDue t (reg r)).
  assert (Hpub : exists r2, (if totalDue t (reg r) =? 0 then ret tt else publishActiveTunnelCounts rangeCircuits Now) r1 =
    (Ok tt, r2) /\ reg r2 = reg r1).
  { destruct (totalDue t (reg r) =? 0); [by exists r1|]. destruct (quiet_publish r1) as ([] & r2 & Hp & Hreg). by exists r2. }
  destruct Hpub as (r2 & -> & Hreg). exists r2. split; [done|]. rewrite Hreg.
  assert (Hin : forall i id c (e : nat -> Z -> option nat), e i id = Some c -> (i = shardIndex id) ->
    bool_decide (i ∈ seq 0 (Z.to_nat circuitShards)) = true).
  { intros i id c e _ ->. apply bool_decide_true. apply elem_of_seq. pose proof (shardIndex_lt id). lia. }
  split; intros i id.
  - rewrite I. destruct (entryIn (reg r) i id) as [c|] eqn:Ec; [|done]. cbn [mbind option_bind].
    by rewrite (Hin i id c _ Ec (ref_home _ _ _ (reg_in _ _ H) _ _ _ Ec)).
  - rewrite O. destruct (entryOut (reg r) i id) as [c|] eqn:Ec; [|done]. cbn [mbind option_bind].
    by rewrite (Hin i id c _ Ec (ref_home _ _ _ (reg_out _ _ H) _ _ _ Ec)).
Qed.
End Theorems.

(** ** Witnesses *)

(** A router whose clock stands at the time of its environment, with one
    two-hop gateway circuit under identifier 71. *)
Module Demo.

Definition Now (w : Z) : Z * Z := (w, w).

Definition router : Runtime (reader := unit) (handler := unit) (senderT := unit) (world := Z) :=
  mkRuntime (mkGateway (Some tt)) zeroHash (Some tt) 0 None newRegistry Pool.initial 1000 [].

Definition layer (b : Z) : LayerCipher := mkLayer (Some (replicate 32 b)) (Some (replicate 32 (b + 1))) true.

Definition circuit : OutboundCircuit :=
  mkOutboundCircuit 71 zeroHash (replicate 32 9) 5 [layer 1; layer 3] 2000.

Definition registered := (swapOutbound Now circuit noToken router).2.
Definition sending := (admitOutbound Now 71 None registered).2.
Definition token : CircuitToken := mkToken 71 (Some 0%nat).
Definition removed := (removeLocked map_to_list map_to_list token (reg sending)).2.

Abbreviation reachable := (reachable (reader := unit) (handler := unit) (senderT := unit) map_to_list map_to_list map_to_list Now).
Abbreviation step := (step (reader := unit) (handler := unit) (senderT := unit) map_to_list map_to_list map_to_list Now).

Lemma reachable_registered : reachable (reg registered, []).
Proof.
  eapply rtc_l; [|apply rtc_refl].
  apply (step_swap_out map_to_list map_to_list map_to_list Now circuit noToken router registered 0%nat None []).
  vm_compute. reflexivity.
Qed.

Lemma step_sending : step (reg registered, []) (reg sending, [PinOut 0]).
Proof.
  eapply (step_admit_out map_to_list map_to_list map_to_list Now 71 None registered sending 0%nat _ []).
  vm_compute. reflexivity.
Qed.

Lemma reachable_sending : reachable (reg sending, [PinOut 0]).
Proof. eapply rtc_r; [apply reachable_registered|apply step_sending]. Qed.

Lemma step_removed : step (reg sending, [PinOut 0]) (removed, [PinOut 0]).
Proof. apply step_remove. Qed.

Lemma step_released : step (removed, [PinOut 0]) (releaseOutbound 0 removed, []).
Proof. apply (step_release_out map_to_list map_to_list map_to_list Now 0 [] [] removed). Qed.
End Demo.

Lemma circuit_lifetime_witness :
  (exists y, outs Demo.removed !! 0%nat = Some y /\ otransforms y = OTransforms Demo.circuit) /\
  (exists z, outs (releaseOutbound 0 Demo.removed) !! 0%nat = Some z /\ otransforms z = []).
Proof.
  split.
  - destruct (circuit_lifetime map_to_list map_to_list map_to_list Demo.Now (fun m => reflexivity _) _ _ _ _
      Demo.reachable_sending (rtc_once _ _ Demo.step_removed)) as (_ & Hout & _).
    destruct (Hout 0%nat) as (x & y & Hx & Hy & (_ & _ & _ & Ht & _)).
    + right. apply elem_of_cons. by left.
    + right. apply elem_of_cons. by left.
    + exists y. split; [exact Hy|]. rewrite Ht. vm_compute in Hx. injection Hx as <-. vm_compute. reflexivity.
  - eexists. split; [vm_compute; reflexivity|]. reflexivity.
Defined.

Lemma RemoveCircuit_final_witness :
  exists b r', RemoveCircuit map_to_list map_to_list map_to_list Demo.Now Demo.token Demo.registered = (Ok b, r') /\
    b = true /\ ~ liveToken (reg r') Demo.token.
Proof.
  destruct (RemoveCircuit_final map_to_list map_to_list map_to_list Demo.Now (fun m => reflexivity _)
    Demo.registered [] Demo.token 0%nat Demo.reachable_registered) as (b & r' & Hr & Hb & [Hd _] & _).
  - done.
  - done.
  - vm_compute. lia.
  - exists b, r'. split; [exact Hr|]. split; [|exact Hd]. apply Hb. exists 0%nat. split; [done|]. right. vm_compute. reflexivity.
Defined.

Lemma ExpireCircuits_exact_witness :
  exists r', ExpireCircuits map_to_list map_to_list map_to_list Demo.Now 2000 Demo.registered = (Ok 1, r') /\
    entryOut (reg r') (shardIndex 71) 71 = None.
Proof.
  destruct (ExpireCircuits_exact map_to_list map_to_list map_to_list Demo.Now (fun m => reflexivity _)
    Demo.registered [] 2000 Demo.reachable_registered) as (r' & Hr & _ & Hout).
  exists r'. split; [rewrite Hr; vm_compute; reflexivity|]. rewrite Hout. vm_compute. reflexivity.
Defined.
