(* ===== verification/TunnelRuntime.v ===== *)
(** The packet paths of the tunnel runtime, [src/dataplane/internal/tunnel/runtime.go]:
    sending a block into a gateway circuit, relaying or receiving a TunnelData
    message, and delivering what an endpoint reassembled.

    The transport ([Send]), local handlers ([Call]), the clock and the random
    reader are the environment; what is handed to them is recorded in order.
    A handler does not call back into the runtime.  A pooled buffer's bytes are a
    value of the call that acquired it. *)

From S2P Require Import Prelude Wire Sha256 I2NP Buffers TunnelBlocks Reassembly Gateway Chacha TunnelCrypto Endpoint Circuits Registry.

Definition defaultTunnelTTL : Z := 60000.
Definition defaultDeliveryBlocks : Z := Z.quot TunnelPayloadLen 3.

Section Paths.
Context `{A : AES}.
Context {reader handler senderT world : Type} (randReader : reader).
Context (readFull : reader -> Z -> world -> (option error * bytes) * world).
Context (range : gmap Z partial -> list (Z * partial)).
Context (rangeMeta : gmap Z deliveryMeta -> list (Z * deliveryMeta)).
Context (Now : world -> Z * world).
Context (Send : senderT -> bytes -> Message -> world -> option error * world).
Context (Call : handler -> Message -> world -> option error * world).
Context (pick : Pool.leases -> option nat).
Abbreviation Runtime := (Runtime (reader := reader) (handler := handler) (senderT := senderT) (world := world)).

Definition NewRuntime (cfgGateway : option (Gateway_ (reader := reader))) (cfgLocal : bytes) (cfgSender : option senderT)
    (cfgMetrics : option gauges) (seed : option bytes) (p : Pool.leases) (w : world) : Runtime :=
  mkRuntime (default (NewGateway randReader None) cfgGateway) cfgLocal cfgSender
    (match seed with Some s => be_val s | None => 0 end) cfgMetrics
    (mkRegistry (replicate (Z.to_nat circuitShards) emptyShard) ∅ ∅ ∅ 0) p w [].

Definition SetSender (s : option senderT) (r : Runtime) : Runtime :=
  mkRuntime (gateway r) (local r) s (nextID r) (metrics r) (reg r) (pool r) (env r) (handoffs r).

Definition set_nextID (n : Z) (r : Runtime) : Runtime :=
  mkRuntime (gateway r) (local r) (sender r) n (metrics r) (reg r) (pool r) (env r) (handoffs r).

Definition record (h : handoff) (w : world) (r : Runtime) : Runtime :=
  mkRuntime (gateway r) (local r) (sender r) (nextID r) (metrics r) (reg r) (pool r) w (handoffs r ++ [h]).

Definition outcome (e : option error) : res unit := match e with Some e => Err e | None => Ok tt end.

(** [sender.Send(ctx, peer, m)] *)
Definition transmit (s : senderT) (peer : bytes) (m : Message) : go Runtime unit :=
  fun r => let (e, w) := Send s peer m (env r) in (outcome e, record (ToRouter peer m) w r).

(** [local(m)] *)
Definition callLocal (h : handler) (m : Message) : go Runtime unit :=
  fun r => let (e, w) := Call h m (env r) in (outcome e, record (ToLocal h m) w r).

(** [defer]: the cleanup runs whatever the body returned. *)
Definition deferred {B} (cleanup : registry -> registry) (m : go Runtime B) : go Runtime B :=
  fun r => let (a, r) := m r in (a, set_reg (cleanup (reg r)) r).

(** [err := m] *)
Definition attempt (m : go Runtime unit) : go Runtime (option error) :=
  fun r => match m r with
           | (Ok _, r) => (Ok None, r)
           | (Err e, r) => (Ok (Some e), r)
           | (Panic, r) => (Panic, r)
           end.

Definition check (e : option error) : go Runtime unit := lift (outcome e).

(** The counter skips zero, at most once per wrap. *)
Fixpoint messageIDLoop (fuel : nat) : go Runtime Z :=
  match fuel with
  | O => lift Panic
  | S fuel =>
      let! r := get in
      let id := u32 (nextID r + 1) in
      let! _ := put (set_nextID id r) in
      if negb (id =? 0) then ret id else messageIDLoop fuel
  end.

Definition messageID : go Runtime Z := messageIDLoop 2.

Definition sendMessage (s : option senderT) (peer : bytes) (kind : Z) (payload : bytes) : go Runtime unit :=
  match s with
  | None => fail ErrTunnelSender
  | Some s =>
      let! id := messageID in
      let! t := now Now in
      transmit s peer (mkMessage (mkHeader kind id (u64 (t + defaultTunnelTTL))) payload)
  end.

Definition sendTunnelData (s : option senderT) (peer : bytes) (transforms : list LayerCipher) (payload : bytes)
  : go Runtime unit :=
  if negb (len payload =? TunnelDataMessageLen) then fail ErrGatewayPayload
  else
    let! payload := lift (transformAll transforms payload) in
    sendMessage s peer I2NP.TunnelData payload.

(** ** Buffers *)

(** [packet.Acquire(0, n)] *)
Definition acquire (n : Z) : go Runtime (option Packet.Buffer) :=
  fun r => let (b, p) := Packet.Acquire 0 n (pick (pool r)) (pool r) in (Ok b, set_pool p r).

Definition releaseBuffer (b : Packet.Buffer) : go Runtime unit :=
  fun r => (Ok tt, set_pool (Packet.Release b (pool r)).2 r).

Definition releaseBuffers (bs : list (option Packet.Buffer)) : go Runtime unit :=
  forEach (fun b => match b with Some b => releaseBuffer b | None => ret tt end) bs.

(** [Acquire] and [Append] of a whole payload: the buffer and its bytes, or the
    error both failures are reported as. *)
Definition acquirePayload (n : Z) : go Runtime (Packet.Buffer * bytes) :=
  let! b := acquire n in
  match b with
  | None => fail ErrGatewayOutput
  | Some b =>
      match Packet.Append n b with
      | (Ok (Some region), b) => let! s := lift (slice (Packet.buf b) region.1 region.2) in ret (b, s)
      | (Ok None, b) => let! _ := releaseBuffer b in fail ErrGatewayOutput
      | (Err e, _) => fail e
      | (Panic, _) => lift Panic
      end
  end.

Fixpoint acquireAll (count : nat) (got : list (option Packet.Buffer)) : go Runtime (list (option Packet.Buffer)) :=
  match count with
  | O => ret got
  | S count =>
      let! b := acquire TunnelDataMessageLen in
      match b with
      | None => let! _ := releaseBuffers got in fail ErrGatewayOutput
      | Some b => acquireAll count (got ++ [Some b])
      end
  end.

(** ** Sending *)

(** The loop over the fragments: each buffer is released after its hand-over, the
    rest when one fails. *)
Fixpoint sendAll (s : option senderT) (peer : bytes) (transforms : list LayerCipher) (buffers : list (option Packet.Buffer))
  : go Runtime unit :=
  match buffers with
  | [] => ret tt
  | b :: rest =>
      let! payload := lift (match b with Some b => Packet.Payload b | None => Ok None end) in
      match payload with
      | None => let! _ := releaseBuffers [b] in let! _ := releaseBuffers rest in fail ErrGatewayOutput
      | Some payload =>
          let! e := attempt (sendTunnelData s peer transforms payload) in
          let! _ := releaseBuffers [b] in
          match e with
          | Some e => let! _ := releaseBuffers rest in fail e
          | None => sendAll s peer transforms rest
          end
      end
  end.

(** How many payloads the frame takes. *)
Definition fragmentCount (block : Block) (firstHeader : Z) : Z :=
  if len (Data block) >? maxBlockBytes - firstHeader then
    1 + Z.quot (len (Data block) - (maxBlockBytes - firstHeader) + maxBlockBytes - 8) (maxBlockBytes - 7)
  else 1.

Definition runGateway (nextTunnel : Z) (block : Block) (buffers : list (option Packet.Buffer))
  : go Runtime ((Z * option error) * list (option Packet.Buffer)) :=
  fun r =>
    let (res, s) := FragmentBlock randReader readFull (Some (gateway r)) nextTunnel block (env r, buffers) in
    (match res with Ok a => Ok (a, s.2) | Err e => Err e | Panic => Panic end, set_env s.1 r).

Definition bumpOutbound (c : nat) (g : registry (handler := handler)) : registry :=
  match outs g !! c with
  | None => g
  | Some x => set_outs (<[c := mkOutbound (orefs x) (oowner x) (firstHop x) (nextTunnelID x) (otransforms x)
                                 (oexpiresAt x) (u64 (oactivity x + 1))]> (outs g)) g
  end.

Definition bumpInbound (c : nat) (g : registry (handler := handler)) : registry :=
  match ins g !! c with
  | None => g
  | Some x => set_ins (<[c := mkInbound (irefs x) (iowner x) (itransforms x) (iforward x) (iendpoint x) (ilocal x)
                                (iexpiresAt x) (u64 (iactivity x + 1))]> (ins g)) g
  end.

(** [sendBlock] on the admitted circuit. *)
Definition sendOn (c : nat) (x : outboundCircuit) (block : Block) : go Runtime unit :=
  let! r := get in
  match sender r with
  | None => fail ErrTunnelSender
  | Some s =>
      if FollowOn block || (Delivery block >? DeliveryRouter) || (len (Data block) =? 0) ||
         (len (Data block) >? I2PDMaxPayload)
      then fail ErrGatewayBlock
      else
        let! firstHeader := lift (firstBlockLen block true) in
        let count := fragmentCount block firstHeader in
        if count >? 64 then fail ErrGatewayOutput
        else
          let! buffers := acquireAll (Z.to_nat count) [] in
          let! (done, buffers) := runGateway (nextTunnelID x) block buffers in
          match done.2 with
          | Some e => let! _ := releaseBuffers buffers in fail e
          | None =>
              let! _ := sendAll (Some s) (firstHop x) (otransforms x) (take (Z.to_nat done.1) buffers) in
              update (bumpOutbound c)
          end
  end.

Definition sendBlock (circuitID : Z) (gen : option nat) (block : Block) : go Runtime unit :=
  let! (c, x) := admitOutbound Now circuitID gen in
  deferred (releaseOutbound c) (sendOn c x block).

Definition SendBlock (circuitID : Z) (block : Block) : go Runtime unit := sendBlock circuitID None block.

Definition SendBlockPrepared (token : CircuitToken) (block : Block) : go Runtime unit :=
  match generation token with
  | None => fail ErrCircuitNotFound
  | Some g => sendBlock (tokenID token) (Some g) block
  end.

(** The block [HandleGateway] wraps a message in. *)
Definition gatewayBlock (frame : bytes) : Block := mkBlock DeliveryLocal zeroHash 0 0 0 false true frame.

Definition HandleGateway (tunnelID : Z) (message : Message) : go Runtime unit :=
  let! (b, frame) := acquirePayload (EncodedLen message) in
  match MarshalTo message frame with
  | Panic => lift Panic
  | Err e => let! _ := releaseBuffer b in fail e
  | Ok (frame, _) =>
      let! e := attempt (SendBlock tunnelID (gatewayBlock frame)) in
      let! _ := releaseBuffer b in
      check e
  end.

(** ** Receiving *)

Definition selfAddressed (block : Block) (r : Runtime) : bool :=
  negb (bytes_eqb (local r) zeroHash) && bytes_eqb (Gateway block) (local r).

Definition deliverLocal (h : option handler) (m : Message) : go Runtime unit :=
  match h with None => fail ErrDeliveryHandler | Some h => callLocal h m end.

(** A message for the gateway of another tunnel, in a TunnelGateway envelope. *)
Definition deliverTunnel (s : option senderT) (block : Block) (message : Message) : go Runtime unit :=
  match s with
  | None => fail ErrTunnelSender
  | Some _ =>
      let! (b, payload) := acquirePayload (TunnelGatewayHeaderLen + EncodedLen message) in
      let! payload := lift (write payload 0 (be_bytes 4 (TunnelID block))) in
      let! payload := lift (write payload 4 (be_bytes 2 (u16 (EncodedLen message)))) in
      let! body := lift (slice_from payload 6) in
      match MarshalTo message body with
      | Panic => lift Panic
      | Err e => let! _ := releaseBuffer b in fail e
      | Ok (body, _) =>
          let! payload := lift (write payload 6 body) in
          let! e := attempt (sendMessage s (Gateway block) I2NP.TunnelGateway payload) in
          let! _ := releaseBuffer b in
          check e
      end
  end.

Definition deliver (s : option senderT) (h : option handler) (block : Block) : go Runtime unit :=
  let! (message, used) := lift (ParseUnchecked (Data block)) in
  if negb (used =? len (Data block)) then fail I2NP_ErrMalformed
  else
    let! r := get in
    if Delivery block =? DeliveryLocal then deliverLocal h message
    else if Delivery block =? DeliveryRouter then
      if selfAddressed block r then deliverLocal h message
      else match s with None => fail ErrTunnelSender | Some s => transmit s (Gateway block) message end
    else if Delivery block =? DeliveryTunnel then
      if selfAddressed block r then HandleGateway (TunnelID block) message
      else deliverTunnel s block message
    else fail ErrGatewayBlock.

(** The blocks in order, up to the first that fails. *)
Fixpoint deliverAll (s : option senderT) (h : option handler) (blocks : list Block) : go Runtime unit :=
  match blocks with
  | [] => ret tt
  | b :: blocks => let! _ := deliver s h b in deliverAll s h blocks
  end.

(** [circuit.endpoint.Parse(payload, blocks, r.now())]: the parsed blocks. *)
Definition parseAt (e : nat) (payload : bytes) : go Runtime (list Block) :=
  let! t := now Now in
  let! r := get in
  match endpoints (reg r) !! e with
  | None => lift Panic
  | Some b =>
      let (res, s) := Endpoint.Parse range rangeMeta defaultDeliveryBlocks payload t (box b, []) in
      let! _ := update (fun g => set_endpoints (<[e := mkBox (installed b) s.1]> (endpoints g)) g) in
      let! _ := lift res in
      ret s.2
  end.

Definition countForwarded (r : Runtime) : Runtime :=
  match metrics r with
  | None => r
  | Some m => set_metrics (Some (mkGauges (gExploratoryInbound m) (gExploratoryOutbound m) (gClientInbound m)
                (gClientOutbound m) (gActive m) (u64 (gForwarded m + 1)))) r
  end.

(** [HandleContext] on the admitted circuit: the payload's bytes until its buffer
    is released. *)
Definition receiveOn (x : inboundCircuit) (data : TunnelDataMessage) (payload : bytes) : go Runtime unit :=
  let! payload := lift (write payload 0 (be_bytes 4 (TDTunnelID data))) in
  let! payload := lift (copy_at payload 4 (TDData data)) in
  let! payload := lift (transformAll (itransforms x) payload) in
  match iforward x with
  | Some f =>
      let! payload := lift (write payload 0 (be_bytes 4 (FTunnelID f))) in
      let! r := get in
      match sender r with
      | None => fail ErrTunnelSender
      | Some s => sendTunnelData (Some s) (Peer f) [] payload
      end
  | None =>
      match iendpoint x with
      | None => lift Panic
      | Some e =>
          let! blocks := parseAt e payload in
          let! r := get in
          deliverAll (sender r) (ilocal x) blocks
      end
  end.

Definition handleOn (c : nat) (x : inboundCircuit) (data : TunnelDataMessage) : go Runtime unit :=
  let! (b, payload) := acquirePayload TunnelDataMessageLen in
  let! e := attempt (receiveOn x data payload) in
  let! _ := releaseBuffer b in
  let! _ := check e in
  match iforward x with
  | Some _ => fun r => (Ok tt, countForwarded r)
  | None => update (bumpInbound c)
  end.

Definition HandleContext (message : Message) : go Runtime unit :=
  if negb (Type_ (MHeader message) =? I2NP.TunnelData) then fail ErrCircuitDirection
  else
    let! data := lift (ParseTunnelData (Payload message)) in
    let! (c, x) := admitInbound Now (TDTunnelID data) in
    deferred (releaseInbound range rangeMeta c) (handleOn c x data).

(** [HandleContext] with a background context. *)
Definition Handle (message : Message) : go Runtime unit := HandleContext message.
End Paths.

Section Handling.
Context `{A : AES} `{L : !AESLaws A}.
Context {reader handler senderT world : Type} (randReader : reader).
Context (readFull : reader -> Z -> world -> (option error * bytes) * world).
Context (range : gmap Z partial -> list (Z * partial)).
Context (rangeMeta : gmap Z deliveryMeta -> list (Z * deliveryMeta)).
Context (Now : world -> Z * world).
Context (Send : senderT -> bytes -> Message -> world -> option error * world).
Context (Call : handler -> Message -> world -> option error * world).
Context (pick : Pool.leases -> option nat).
Abbreviation Runtime := (Runtime (reader := reader) (handler := handler) (senderT := senderT) (world := world)).

(** What no packet changes. *)
Definition same_config (r r' : Runtime) : Prop :=
  gateway r' = gateway r /\ local r' = local r /\ sender r' = sender r.

(** A step that touches neither the registry nor the hand-offs. *)
Definition calm (r r' : Runtime) : Prop :=
  same_config r r' /\ reg r' = reg r /\ handoffs r' = handoffs r /\
  (Pool.reachable (pool r) -> Pool.reachable (pool r')).

Lemma calm_refl r : calm r r.
Proof. done. Qed.

Lemma calm_trans r1 r2 r3 : calm r1 r2 -> calm r2 r3 -> calm r1 r3.
Proof. unfold calm, same_config. intuition congruence. Qed.

Lemma calm_set_env w (r : Runtime) : calm r (set_env w r).
Proof. done. Qed.

(** The deadline is absent or never reached. *)
Definition unexpired (t : Z) : Prop := t = 0 \/ forall w, (Now w).1 < t.

Lemma expired_calm t (r : Runtime) : unexpired t -> exists r', expired Now t r = (Ok false, r') /\ calm r r'.
Proof.
  intros Ht. unfold expired. destruct (t =? 0) eqn:E; [by exists r|].
  destruct Ht as [?|Ht]; [lia|]. unfold now. go_unfold. specialize (Ht (env r)). destruct (Now (env r)) as [t' w]. cbn [fst] in Ht.
  exists (set_env w r). split; [f_equal; f_equal; lia|done].
Qed.

Lemma messageID_calm (r : Runtime) : exists id r', messageID r = (Ok id, r') /\ calm r r'.
Proof.
  unfold messageID. cbn [messageIDLoop]. go_unfold. destruct (u32 (nextID r + 1) =? 0) eqn:E; cbn [negb].
  - apply Z.eqb_eq in E. rewrite E. cbn [set_nextID nextID]. change (u32 (0 + 1) =? 0) with false. cbn [negb].
    eexists _, _. split; [reflexivity|done].
  - eexists _, _. split; [reflexivity|done].
Qed.

Lemma now_calm (r : Runtime) : exists t r', now Now r = (Ok t, r') /\ calm r r'.
Proof. unfold now. destruct (Now (env r)) as [t w]. by eexists _, _. Qed.

(** A message of [kind] with [payload] goes to [peer]. *)
Definition sends (kind : Z) (payload peer : bytes) (s : senderT) (m : go Runtime unit) : Prop :=
  forall r, exists msg w r', m r = (outcome (Send s peer msg w).1, r') /\ same_config r r' /\ reg r' = reg r /\
    handoffs r' = handoffs r ++ [ToRouter peer msg] /\ Type_ (MHeader msg) = kind /\ Payload msg = payload /\
    (Pool.reachable (pool r) -> Pool.reachable (pool r')).

Lemma sendMessage_ok s peer kind payload : sends kind payload peer s (sendMessage Now Send (Some s) peer kind payload).
Proof.
  intros r. unfold sendMessage. unfold gbind.
  destruct (messageID_calm r) as (id & r1 & -> & C1). destruct (now_calm r1) as (t & r2 & -> & C2).
  pose proof (calm_trans _ _ _ C1 C2) as ((G & Lo & S) & R & H & P).
  set (msg := mkMessage (mkHeader kind id (u64 (t + defaultTunnelTTL))) payload).
  exists msg, (env r2). unfold transmit. destruct (Send s peer msg (env r2)) as [e w]. eexists. split; [done|].
  unfold record, same_config. cbn. rewrite H. done.
Qed.

Lemma sendTunnelData_ok s peer transforms payload payload' :
  len payload = TunnelDataMessageLen -> transformAll transforms payload = Ok payload' ->
  sends I2NP.TunnelData payload' peer s (sendTunnelData Now Send (Some s) peer transforms payload).
Proof.
  intros Hl Ht r. unfold sendTunnelData. replace (len payload =? TunnelDataMessageLen) with true by lia. cbn [negb].
  unfold gbind, lift. rewrite Ht. apply sendMessage_ok.
Qed.

(** *** Pooled buffers *)

Lemma Release_reachable b st : Pool.reachable st -> Pool.reachable (Packet.Release b st).2.
Proof.
  intros H. unfold Packet.Release. destruct (Packet.released b); [done|]. cbn [snd]. destruct (Packet.lease b); [|done].
  eapply rtc_r; [exact H|]. apply Pool.step_release.
Qed.

Lemma Acquire_reachable rs n pk st : Pool.reachable st -> Pool.reachable (Packet.Acquire rs n pk st).2.
Proof.
  intros H. unfold Packet.Acquire. destruct (_ || _ || _); [done|].
  destruct (Pool.AcquireLease (rs + n) pk st) as [[id|] st'] eqn:E.
  - assert (Hs : Pool.reachable st') by (eapply rtc_r; [exact H|]; by eapply Pool.step_acquire).
    destruct (Pool.LeaseBytes id (rs + n) st'); [done|]. cbn [snd]. eapply rtc_r; [exact Hs|]. apply Pool.step_release.
  - eapply rtc_r; [exact H|]. by eapply Pool.step_acquire.
Qed.

Lemma acquire_ok n (r : Runtime) :
  Pool.reachable (pool r) -> 0 <= n <= Packet.maxInt ->
  exists b r', acquire pick n r = (Ok (Some b), r') /\ calm r r' /\ Packet.buf_ok b /\
    Packet.reserved b = 0 /\ Packet.start b = 0 /\ Packet.end_ b = 0 /\ Packet.limit b = n.
Proof.
  intros Hp Hn. unfold acquire.
  pose proof (Packet.Acquire_refused 0 n (pick (pool r)) (pool r) Hp) as Hno.
  pose proof (Acquire_reachable 0 n (pick (pool r)) (pool r) Hp) as Hreach.
  destruct (Packet.Acquire 0 n (pick (pool r)) (pool r)) as [[b|] p] eqn:Ea.
  2:{ cbn [fst] in Hno. destruct Hno as [Hno _]. specialize (Hno eq_refl). lia. }
  destruct (Packet.Acquire_ok _ _ _ _ _ _ Ea) as (Hok & Hres & Habs). cbn [snd] in Hreach.
  exists b, (set_pool p r). split; [done|]. split; [done|].
  unfold Packet.abs in Habs. pose proof Hok as (_ & Hse & Hel & Hll & Hr). injection Habs as H1 H2 H3.
  assert (Hz : len (sub (Packet.start b) (Packet.end_ b) (Packet.buf b)) = 0) by (by rewrite H2).
  rewrite len_sub in Hz by lia. split_and!; [done|done|lia|lia|lia].
Qed.

Lemma releaseBuffer_calm b (r : Runtime) : exists r', releaseBuffer b r = (Ok tt, r') /\ calm r r'.
Proof.
  eexists. split; [done|]. split; [done|]. split; [done|]. split; [done|]. cbn. apply Release_reachable.
Qed.

Lemma acquirePayload_ok n (r : Runtime) :
  Pool.reachable (pool r) -> 0 <= n <= Packet.maxInt ->
  exists b s r', acquirePayload pick n r = (Ok (b, s), r') /\ calm r r' /\ len s = n.
Proof.
  intros Hp Hn. unfold acquirePayload, gbind.
  destruct (acquire_ok n r Hp Hn) as (b & r1 & -> & C & (Hrel & _ & _ & Hlim & _) & H0 & Hs & He & Hl).
  unfold Packet.Append, gbind, get, put, lift, ret. unfold Packet.live. rewrite Hrel, He, Hl. cbn [negb orb]. zbool.
  unfold Packet.set_end. cbn [orb Packet.buf Packet.end_]. rewrite slice_ok by lia. cbn [fst snd Packet.buf].
  rewrite slice_ok by lia. eexists _, _, r1. split; [done|]. split; [done|]. len_lia.
Qed.

(** *** Admission and release *)

Lemma pin_release_in (g : registry (handler := handler)) c x :
  ins g !! c = Some x -> 0 < irefs x -> releaseInbound range rangeMeta c (pinInbound c g) = g.
Proof.
  intros Hx Hpos. unfold pinInbound. rewrite Hx. unfold releaseInbound. cbn [set_ins ins]. rewrite lookup_insert_eq.
  cbn [set_irefs irefs]. replace (irefs x + 1 - 1) with (irefs x) by lia. zbool. cbn [negb].
  rewrite insert_insert_eq, insert_id; [by destruct g|]. rewrite Hx. by destruct x.
Qed.

Lemma pin_release_out (g : registry (handler := handler)) c x :
  outs g !! c = Some x -> 0 < orefs x -> releaseOutbound c (pinOutbound c g) = g.
Proof.
  intros Hx Hpos. unfold pinOutbound. rewrite Hx. unfold releaseOutbound. cbn [set_outs outs]. rewrite lookup_insert_eq.
  cbn [set_orefs orefs]. replace (orefs x + 1 - 1) with (orefs x) by lia. zbool. cbn [negb].
  rewrite insert_insert_eq, insert_id; [by destruct g|]. rewrite Hx. by destruct x.
Qed.

(** An installed, referenced and unexpired circuit under its identifier. *)
Definition active_in (r : Runtime) (tid : Z) (c : nat) (x : inboundCircuit) : Prop :=
  entryIn (reg r) (shardIndex tid) tid = Some c /\ ins (reg r) !! c = Some x /\ 0 < irefs x /\ unexpired (iexpiresAt x).
Definition active_out (r : Runtime) (id : Z) (c : nat) (x : outboundCircuit) : Prop :=
  entryOut (reg r) (shardIndex id) id = Some c /\ outs (reg r) !! c = Some x /\ 0 < orefs x /\ unexpired (oexpiresAt x).

Lemma admit_in_ok r tid c x :
  active_in r tid c x -> exists r', admitInbound Now tid r = (Ok (c, x), set_reg (pinInbound c (reg r)) r') /\ calm r r'.
Proof.
  intros (He & Hx & Hpos & Hexp). unfold admitInbound, gbind, get.
  change (inbound (shard tid (reg r)) !! tid) with (entryIn (reg r) (shardIndex tid) tid). rewrite He, Hx.
  destruct (expired_calm (iexpiresAt x) r Hexp) as (r1 & -> & C). exists r1. unfold update, ret.
  split; [|done]. by rewrite (proj1 (proj2 C)).
Qed.

Lemma admit_out_ok r id c x gen :
  active_out r id c x -> (gen = None \/ gen = Some c) ->
  exists r', admitOutbound Now id gen r = (Ok (c, x), set_reg (pinOutbound c (reg r)) r') /\ calm r r'.
Proof.
  intros (He & Hx & Hpos & Hexp) Hgen. unfold admitOutbound, gbind, get.
  change (outbound (shard id (reg r)) !! id) with (entryOut (reg r) (shardIndex id) id). rewrite He.
  replace (match gen with Some g => negb (c =? g)%nat | None => false end) with false
    by (destruct Hgen as [->| ->]; [done|by rewrite Nat.eqb_refl]).
  rewrite Hx. destruct (expired_calm (oexpiresAt x) r Hexp) as (r1 & -> & C). exists r1. unfold update, ret.
  split; [|done]. by rewrite (proj1 (proj2 C)).
Qed.

(** *** The payload a hop works on *)

Definition frame_of (tid : Z) (p : bytes) : bytes := be_bytes 4 tid ++ p.

Lemma ParseTunnelData_frame tid p :
  0 < tid < 2 ^ 32 -> len p = 1024 -> ParseTunnelData (frame_of tid p) = Ok (mkTunnelDataMessage tid p).
Proof.
  intros Ht Hp. unfold ParseTunnelData, frame_of, TunnelDataMessageLen, TunnelDataPayloadLen.
  replace (len (be_bytes 4 tid ++ p) =? 4 + 1024) with true by (symmetry; apply Z.eqb_eq; len_lia). cbn [negb].
  rewrite slice_ok by len_lia. cbn [bind]. sub_norm. rewrite be_uint_ok by len_lia. rewrite sub_all by len_lia.
  cbn [bind]. rewrite be_val_small by lia. replace (tid =? 0) with false by lia.
  rewrite slice_from_ok by len_lia. cbn [bind]. do 2 f_equal. len_simpl. by sub_norm.
Qed.

(** The buffer a hop works in: readdressed to itself, transformed. *)
Lemma receive_payload s tid p ks enc :
  len s = 1028 -> payload_ok p ->
  (let? s := write s 0 (be_bytes 4 tid) in let? s := copy_at s 4 p in
   transformAll ((fun k => cipher k enc) <$> ks) s) = Ok (frame_of tid (layers ks enc p)).
Proof.
  intros Hs Hp. pose proof Hp as [Hl _]. rewrite (over_nil s). rewrite write_over by len_lia. cbn [bind].
  rewrite copy_at_over by len_lia. cbn [bind]. unfold over. rewrite (sub_empty s) by len_lia. rewrite app_nil_r.
  cbn [app]. apply transformAll_ok; [len_lia|done].
Qed.

(** *** A participant *)

(** How a handled packet ends: the error is reported, else the counter moves. *)
Lemma finish_ok e (m : go Runtime unit) (r r' : Runtime) :
  m r = (Ok tt, r') -> (reg r' = reg r /\ handoffs r' = handoffs r /\ pool r' = pool r /\ same_config r r') ->
  exists r6, gbind (check e) (fun _ => m) r = (outcome e, r6) /\
    reg r6 = reg r /\ handoffs r6 = handoffs r /\ pool r6 = pool r /\ same_config r r6.
Proof.
  intros Hm H. unfold gbind, check, lift. destruct e as [e|]; cbn [outcome]; [by exists r|].
  exists r'. by rewrite Hm.
Qed.

Lemma attempt_outcome (m : go Runtime unit) r e r' : m r = (outcome e, r') -> attempt m r = (Ok e, r').
Proof. intros H. unfold attempt. rewrite H. by destruct e. Qed.

(** The transmission after a registry-neutral prefix. *)
Lemma relay_ok r tid c x f s ks enc h p :
  active_in r tid c x -> iforward x = Some f -> itransforms x = (fun k => cipher k enc) <$> ks ->
  sender r = Some s -> Pool.reachable (pool r) -> 0 < tid < 2 ^ 32 -> payload_ok p -> Type_ h = I2NP.TunnelData ->
  exists msg w r', HandleContext randReader readFull range rangeMeta Now Send Call pick (mkMessage h (frame_of tid p)) r =
      (outcome (Send s (Peer f) msg w).1, r') /\ same_config r r' /\ reg r' = reg r /\
    handoffs r' = handoffs r ++ [ToRouter (Peer f) msg] /\ Type_ (MHeader msg) = I2NP.TunnelData /\
    Payload msg = frame_of (FTunnelID f) (layers ks enc p) /\ Pool.reachable (pool r').
Proof.
  intros Hact Hf Hks Hs Hpool Ht Hp Hty. unfold HandleContext. cbn [MHeader Type_]. rewrite Hty, Z.eqb_refl. cbn [negb Payload].
  unfold gbind at 1, lift. rewrite ParseTunnelData_frame by (done || apply Hp). unfold gbind at 1. cbn [TDTunnelID].
  destruct (admit_in_ok r tid c x Hact) as (r1 & -> & C1). unfold deferred, handleOn.
  set (r2 := set_reg (pinInbound c (reg r)) r1).
  assert (Hp2 : Pool.reachable (pool r2)) by (by apply C1). unfold gbind at 1.
  destruct (acquirePayload_ok TunnelDataMessageLen r2 Hp2) as (b & buf & r3 & -> & C3 & Hbuf); [split; vm_compute; congruence|].
  assert (Hsend : exists msg w r4, receiveOn randReader readFull range rangeMeta Now Send Call pick x (mkTunnelDataMessage tid p) buf r3 =
      (outcome (Send s (Peer f) msg w).1, r4) /\ same_config r3 r4 /\ reg r4 = reg r3 /\
      handoffs r4 = handoffs r3 ++ [ToRouter (Peer f) msg] /\ Type_ (MHeader msg) = I2NP.TunnelData /\
      Payload msg = frame_of (FTunnelID f) (layers ks enc p) /\ (Pool.reachable (pool r3) -> Pool.reachable (pool r4))).
  { pose proof (receive_payload buf tid p ks enc ltac:(rewrite Hbuf; done) Hp) as Hrec. unfold receiveOn. rewrite Hf.
    unfold gbind, lift. cbn [TDTunnelID TDData]. rewrite <- Hks in Hrec.
    destruct (write buf 0 (be_bytes 4 tid)) as [b1| |]; [|done..]. cbn [bind] in Hrec.
    destruct (copy_at b1 4 p) as [b2| |]; [|done..]. cbn [bind] in Hrec. rewrite Hrec.
    unfold frame_of. rewrite write_prefix by len_lia. unfold get.
    replace (sender r3) with (Some s) by (destruct C1 as ((_ & _ & ?) & _), C3 as ((_ & _ & ?) & _); cbn in *; congruence).
    apply sendTunnelData_ok; [|done]. destruct (layers_ok ks enc p Hp) as [Hlp _].
    unfold TunnelDataMessageLen, TunnelDataPayloadLen. len_lia. }
  destruct Hsend as (msg & w & r4 & Hrun & Hcfg & Hreg & Hhand & Hmty & Hpay & Hpl). exists msg, w.
  rewrite (gbind_ok _ _ _ _ _ (attempt_outcome _ _ _ _ Hrun)). destruct (releaseBuffer_calm b r4) as (r5 & Hrel & C5).
  rewrite (gbind_ok _ _ _ _ _ Hrel). rewrite Hf.
  destruct (finish_ok (Send s (Peer f) msg w).1 (fun r => (Ok tt, countForwarded r)) r5 (countForwarded r5) eq_refl)
    as (r6 & -> & R6 & H6 & P6 & (G6 & L6 & S6)); [unfold countForwarded; by destruct (metrics r5)|].
  destruct C1 as ((G1 & L1 & S1) & R1 & H1 & P1), C3 as ((G3 & L3 & S3) & R3 & H3 & P3), C5 as ((G5 & L5 & S5) & R5 & H5 & P5).
  destruct Hcfg as (G4 & L4 & S4). cbn [set_reg gateway local sender reg handoffs pool r2] in *.
  eexists. split; [reflexivity|].
  destruct Hact as (_ & Hx & Hpos & _). unfold same_config. cbn [set_reg gateway local sender reg handoffs pool].
  split_and!; try congruence.
  - rewrite R6, R5, Hreg, R3. by eapply pin_release_in.
  - rewrite P6. by apply P5, Hpl, P3.
Qed.
End Handling.

Section Serving.
Context `{A : AES} `{L : !AESLaws A}.
Context {reader handler senderT world : Type} (randReader : reader).
Context (readFull : reader -> Z -> world -> (option error * bytes) * world).
Context (range : gmap Z partial -> list (Z * partial)).
Context (rangeMeta : gmap Z deliveryMeta -> list (Z * deliveryMeta)).
Context (Now : world -> Z * world).
Context (Send : senderT -> bytes -> Message -> world -> option error * world).
Context (Call : handler -> Message -> world -> option error * world).
Context (pick : Pool.leases -> option nat).
Abbreviation Runtime := (Runtime (reader := reader) (handler := handler) (senderT := senderT) (world := world)).
Abbreviation handle := (HandleContext randReader readFull range rangeMeta Now Send Call pick).
Abbreviation parse := (Endpoint.Parse range rangeMeta defaultDeliveryBlocks).

(** An endpoint circuit under [tid] with the keys [ks]; its reassembly state is [ep]. *)
Definition serves (r : Runtime) (tid : Z) (ks : list (bytes * bytes)) (enc : bool) (h : option handler) (e : nat)
    (ep : Endpoint) : Prop :=
  exists c x bx, active_in Now r tid c x /\ iforward x = None /\ iendpoint x = Some e /\ ilocal x = h /\
    itransforms x = (fun k => cipher k enc) <$> ks /\ endpoints (reg r) !! e = Some bx /\ box bx = ep /\
    Pool.reachable (pool r).

(** Delivering the blocks returns and hands over what [P] says, and does nothing else. *)
Definition hands_over (r : Runtime) (h : option handler) (blocks : list Block) (P : option error -> list handoff -> Prop) : Prop :=
  forall r1, same_config r r1 -> Pool.reachable (pool r1) ->
  exists err r2 hs, deliverAll randReader readFull Now Send Call pick (sender r1) h blocks r1 = (outcome err, r2) /\
    same_config r1 r2 /\ reg r2 = reg r1 /\ Pool.reachable (pool r2) /\
    handoffs r2 = handoffs r1 ++ hs /\ P err hs.

Lemma parseAt_ok e payload bx (r : Runtime) :
  endpoints (reg r) !! e = Some bx ->
  exists t, forall res s, parse payload t (box bx, []) = (res, s) ->
    exists r', parseAt range rangeMeta Now e payload r =
        (match res with Ok _ => Ok s.2 | Err e => Err e | Panic => Panic end, r') /\
      same_config r r' /\ handoffs r' = handoffs r /\ pool r' = pool r /\
      reg r' = set_endpoints (<[e := mkBox (installed bx) s.1]> (endpoints (reg r))) (reg r).
Proof.
  intros He. unfold parseAt. destruct (Now (env r)) as [t w] eqn:En. exists t. intros res s Hs.
  assert (Hnow : now Now r = (Ok t, set_env w r)) by (unfold now; by rewrite En).
  rewrite (gbind_ok _ _ _ _ _ Hnow). unfold gbind, get. cbn [set_env reg]. rewrite He, Hs. unfold update, lift, ret.
  destruct res; eexists; (split; [reflexivity|done]).
Qed.

(** The registry once the endpoint's packet is done. *)
Lemma served_active (g : registry (handler := handler)) c x m (b : bool) :
  ins g !! c = Some x -> 0 < irefs x ->
  let g1 := set_endpoints m (pinInbound c g) in
  exists y, releaseInbound range rangeMeta c (if b then bumpInbound c g1 else g1) = set_ins (<[c := y]> (ins g)) (set_endpoints m g) /\
    irefs y = irefs x /\ sameIn x y.
Proof.
  intros Hx Hpos g1. unfold g1, pinInbound. rewrite Hx. unfold bumpInbound. cbn [set_endpoints set_ins ins].
  rewrite lookup_insert_eq. cbn [set_irefs irefs iowner itransforms iforward iendpoint ilocal iexpiresAt iactivity].
  destruct b; unfold releaseInbound; cbn [set_ins set_endpoints ins]; rewrite ?insert_insert_eq, lookup_insert_eq;
    cbn [set_irefs irefs iowner itransforms iforward iendpoint ilocal iexpiresAt iactivity];
    replace (irefs x + 1 - 1) with (irefs x) by lia; zbool; cbn [negb]; rewrite insert_insert_eq;
    eexists; (split; [reflexivity|done]).
Qed.

Lemma serve_ok r tid ks enc h e ep hd p :
  serves r tid ks enc h e ep -> 0 < tid < 2 ^ 32 -> payload_ok p -> Type_ hd = I2NP.TunnelData ->
  exists t, forall ep' blocks P,
    parse (frame_of tid (layers ks enc p)) t (ep, []) = (Ok tt, (ep', blocks)) -> hands_over r h blocks P ->
    exists err r' hs, handle (mkMessage hd (frame_of tid p)) r = (outcome err, r') /\ same_config r r' /\
      handoffs r' = handoffs r ++ hs /\ P err hs /\ serves r' tid ks enc h e ep'.
Proof.
  intros (c & x & bx & Hact & Hf & He & Hh & Hks & Hbx & Hep & Hpool) Ht Hp Hty.
  destruct (admit_in_ok Now r tid c x Hact) as (r1 & Hadm & ((G1 & L1 & S1) & R1 & H1 & P1)).
  set (r2 := set_reg (pinInbound c (reg r)) r1) in *.
  destruct (acquirePayload_ok pick TunnelDataMessageLen r2 (P1 Hpool)) as (b & buf & r3 & Hacq & ((G3 & L3 & S3) & R3 & H3 & P3) & Hbuf);
    [split; vm_compute; congruence|].
  assert (Hbx3 : endpoints (reg r3) !! e = Some bx).
  { rewrite R3. cbn [r2 set_reg reg]. unfold pinInbound. by destruct (ins (reg r) !! c). }
  destruct (parseAt_ok e (frame_of tid (layers ks enc p)) bx r3 Hbx3) as (t & Hparse).
  exists t. intros ep' blocks P Hres Hover. rewrite <- Hep in Hres. destruct (Hparse _ _ Hres) as (r4 & Hat & (G4 & L4 & S4) & H4 & P4 & R4).
  cbn [r2 set_reg gateway local sender reg handoffs pool fst snd] in *.
  assert (Hcfg4 : same_config r r4) by (unfold same_config; split_and!; congruence).
  assert (Hp4 : Pool.reachable (pool r4)) by (rewrite P4; by apply P3, P1).
  destruct (Hover r4 Hcfg4 Hp4) as (err & r5 & hs & Hdel & (G5 & L5 & S5) & R5 & P5 & H5 & HP).
  assert (Hrec : receiveOn randReader readFull range rangeMeta Now Send Call pick x (mkTunnelDataMessage tid p) buf r3 = (outcome err, r5)).
  { pose proof (receive_payload buf tid p ks enc ltac:(rewrite Hbuf; done) Hp) as Hrec. unfold receiveOn. rewrite Hf, He, Hh.
    cbn [TDTunnelID TDData]. rewrite <- Hks in Hrec.
    destruct (write buf 0 (be_bytes 4 tid)) as [b1| |]; [|done..]. cbn [bind] in Hrec.
    destruct (copy_at b1 4 p) as [b2| |] eqn:Ec; [|done..]. cbn [bind] in Hrec.
    unfold gbind at 1 2 3, lift. rewrite Ec, Hrec. rewrite (gbind_ok _ _ _ _ _ Hat).
    unfold gbind, get. exact Hdel. }
  destruct (releaseBuffer_calm b r5) as (r6 & Hrel & ((G6 & L6 & S6) & R6 & H6 & P6)).
  assert (Hrun : handle (mkMessage hd (frame_of tid p)) r =
    deferred (releaseInbound range rangeMeta c) (gbind (check err) (fun _ => update (bumpInbound c))) r6).
  { unfold HandleContext. cbn [MHeader Type_]. rewrite Hty, Z.eqb_refl. cbn [negb Payload].
    unfold gbind at 1, lift. rewrite ParseTunnelData_frame by (done || apply Hp). rewrite (gbind_ok _ _ _ _ _ Hadm).
    unfold deferred, handleOn. rewrite (gbind_ok _ _ _ _ _ Hacq), (gbind_ok _ _ _ _ _ (attempt_outcome _ _ _ _ Hrec)).
    rewrite (gbind_ok _ _ _ _ _ Hrel). by rewrite Hf. }
  destruct Hact as (Hent & Hx & Hpos & Hexp).
  destruct (served_active (reg r) c x (<[e := mkBox (installed bx) ep']> (endpoints (reg r3)))
    (match err with None => true | Some _ => false end) Hx Hpos) as (y & Hy & Hyr & Hsame).
  assert (Hfinal : exists r', handle (mkMessage hd (frame_of tid p)) r = (outcome err, r') /\ same_config r r' /\
    handoffs r' = handoffs r ++ hs /\ pool r' = pool r6 /\
    reg r' = set_ins (<[c := y]> (ins (reg r))) (set_endpoints (<[e := mkBox (installed bx) ep']> (endpoints (reg r3))) (reg r))).
  { rewrite Hrun, <- Hy. unfold deferred, gbind, check, lift, update. rewrite R3 in R4.
    destruct err as [err|]; cbn [outcome]; eexists; (split; [reflexivity|]); unfold same_config;
      cbn [set_reg gateway local sender reg handoffs pool]; rewrite R6, R5, R4; split_and!; try congruence; rewrite ?R3; done. }
  destruct Hfinal as (r' & Hr' & Hcfg' & Hhand & Hpl & Hreg). exists err, r', hs. split_and!; try done.
  destruct Hsame as (Ho & Htr & Hfw & Hend & Hloc & Hex). exists c, y, (mkBox (installed bx) ep').
  unfold active_in. rewrite Hreg, Hpl, Hex, Hyr, Hfw, Hend, Hloc, Htr. cbn [set_ins set_endpoints ins endpoints].
  rewrite !lookup_insert_eq. split_and!; try done. by apply P6.
Qed.
End Serving.

(** ** The bytes of a sent payload *)

Definition block_bytes (b : Block) : Prop := bytes_ok (Data b) /\ bytes_ok (Gateway b).

Lemma bytes_ok_wire b : TunnelBlocks.block_ok b -> block_bytes b -> bytes_ok (block_wire b).
Proof.
  intros (Hd & Hm & Hg & Hk) [Hdata Hgw]. unfold block_wire. rewrite !bytes_ok_app. split_and!.
  - constructor; [|constructor]. unfold is_byte, block_flag. destruct (FollowOn b); [destruct (Last b); lia|].
    destruct Hk as [Hk _]. destruct (Last b); lia.
  - destruct (FollowOn b); [apply bytes_ok_be|]. rewrite bytes_ok_app. split.
    + unfold address. destruct (Delivery b =? DeliveryTunnel); [apply bytes_ok_app; split; [apply bytes_ok_be|done]|].
      destruct (Delivery b =? DeliveryRouter); [done|constructor].
    + destruct (Last b); [constructor|apply bytes_ok_be].
  - apply bytes_ok_be.
  - done.
Qed.

Lemma follow_blocks_bytes id cs : forall k, Forall bytes_ok cs -> Forall block_bytes (follow_blocks id k cs).
Proof.
  induction cs as [|c cs IH]; intros k Hcs; cbn [follow_blocks]; [constructor|]. apply Forall_cons in Hcs as [Hc Hcs].
  constructor; [|by apply IH]. split; [done|]. apply bytes_ok_check. vm_compute. reflexivity.
Qed.

Lemma fragments_bytes b id : message_block b -> block_bytes b -> Forall block_bytes (fragments b id).
Proof.
  intros Hb [Hd Hg]. unfold fragments. destruct (len (Data b) <=? first_room b) eqn:E.
  - constructor; [done|constructor].
  - pose proof (first_room_bound b). assert (Hp : Forall bytes_ok (pieces b)).
    { assert (Hc : concat (pieces b) = Data b) by (unfold pieces; cbn [concat];
        rewrite chunk_concat by (len_simpl; unfold len; lia); by rewrite sub_split_at by lia).
      unfold bytes_ok in Hd. rewrite <- Hc in Hd. by apply Forall_concat in Hd. }
    constructor; [split; [|done]; by apply bytes_ok_sub|]. apply follow_blocks_bytes.
    destruct (pieces b); [constructor|]. by apply Forall_cons in Hp as [_ Hp].
Qed.

(** A payload that carries a block: 1024 bytes under the tunnel's identifier,
    under any other identifier as well. *)
Lemma carries_data tid blk p :
  carries tid blk p -> TunnelBlocks.block_ok blk -> len (wires [blk]) <= maxBlockBytes -> block_bytes blk ->
  exists d, p = frame_of tid d /\ payload_ok d /\ forall tid', carries tid' blk (frame_of tid' d).
Proof.
  intros (rnd & Hr & -> & Hb) Hok Hfit Hbytes. exists (tunnel_data rnd [blk]). split; [done|].
  revert Hfit. unfold maxBlockBytes, TunnelPayloadLen, TunnelDataPayloadLen, tunnelIVLen, tunnelChecksumLen. intros Hfit.
  split; [split|].
  - rewrite len_tunnel_data by lia. done.
  - unfold tunnel_data. rewrite !bytes_ok_app. split_and!.
    + by apply bytes_ok_sub.
    + apply bytes_ok_sub, Sha256.bytes_ok_Sum256.
    + apply Forall_fmap. eapply Forall_impl; [by apply bytes_ok_sub|]. intros x Hx. unfold is_byte, nonzero in *. cbn.
      destruct (x =? 0) eqn:E; lia.
    + by constructor; [unfold is_byte; lia|].
    + unfold wires. cbn [fmap list_fmap concat]. rewrite app_nil_r. by apply bytes_ok_wire.
  - intros tid'. by exists rnd.
Qed.

Lemma payload_ok_frame tid d : payload_ok d -> len (frame_of tid d) = TunnelDataMessageLen.
Proof. intros [Hl _]. unfold frame_of. len_simpl. rewrite Hl. done. Qed.

Section Sending.
Context `{A : AES} `{L : !AESLaws A}.
Context {reader handler senderT world : Type} (randReader : reader).
Context (readFull : reader -> Z -> world -> (option error * bytes) * world).
Context (readFull_total : forall r n w, 0 <= n ->
  exists b w', readFull r n w = ((None, b), w') /\ len b = n /\ bytes_ok b).
Context (Now : world -> Z * world).
Context (Send : senderT -> bytes -> Message -> world -> option error * world).
Context (pick : Pool.leases -> option nat).
Context (Send_ok : forall s peer m w, (Send s peer m w).1 = None).
Abbreviation Runtime := (Runtime (reader := reader) (handler := handler) (senderT := senderT) (world := world)).

Lemma releaseBuffers_calm bs (r : Runtime) : exists r', releaseBuffers bs r = (Ok tt, r') /\ calm r r'.
Proof.
  unfold releaseBuffers. revert r. induction bs as [|b bs IH]; intros r; cbn [forEach]; [by exists r|].
  destruct b as [b|].
  - destruct (releaseBuffer_calm b r) as (r1 & H1 & C1). rewrite (gbind_ok _ _ _ _ _ H1).
    destruct (IH r1) as (r2 & H2 & C2). exists r2. split; [done|by eapply calm_trans].
  - unfold gbind, ret. apply IH.
Qed.

Lemma acquireAll_ok n : forall got (r : Runtime),
  Pool.reachable (pool r) -> Forall (fun b => exists d, b = Some d /\ fresh d) got ->
  exists bs r', acquireAll pick n got r = (Ok bs, r') /\ calm r r' /\ length bs = (length got + n)%nat /\
    Forall (fun b => exists d, b = Some d /\ fresh d) bs.
Proof.
  induction n as [|n IH]; intros got r Hp Hgot; cbn [acquireAll].
  - exists got, r. split_and!; done || lia.
  - destruct (acquire_ok pick TunnelDataMessageLen r Hp) as (b & r1 & Ha & C1 & (Hrel & _ & _ & Hlim & _) & H0 & Hs & He & Hl);
      [split; vm_compute; congruence|]. rewrite (gbind_ok _ _ _ _ _ Ha).
    assert (Hb : fresh b).
    { unfold fresh, has_room, Packet.live. rewrite Hrel, H0, Hs, He, Hl, <- Hlim, Hl. split_and!; try done; vm_compute; congruence. }
    destruct (IH (got ++ [Some b]) r1) as (bs & r2 & H2 & C2 & Hlen & Hall).
    { by apply C1. }
    { apply Forall_app. split; [done|]. constructor; [by exists b|constructor]. }
    exists bs, r2. split_and!; [done|by eapply calm_trans| |done]. rewrite Hlen, length_app. cbn [length]. lia.
Qed.

(** The buffers' payloads, transformed, go out in order. *)
Lemma sendAll_ok s peer ks enc tid bs : forall ds (r : Runtime),
  Forall2 (fun b d => exists buf, b = Some buf /\ Packet.Payload buf = Ok (Some (frame_of tid d)) /\ payload_ok d) bs ds ->
  exists ms r', sendAll Now Send (Some s) peer ((fun k => cipher k enc) <$> ks) bs r = (Ok tt, r') /\
    same_config r r' /\ reg r' = reg r /\ handoffs r' = handoffs r ++ (ToRouter peer <$> ms) /\
    (Pool.reachable (pool r) -> Pool.reachable (pool r')) /\
    Forall2 (fun m d => Type_ (MHeader m) = I2NP.TunnelData /\ Payload m = frame_of tid (layers ks enc d)) ms ds.
Proof.
  induction bs as [|b bs IH]; intros ds r H; cbn [sendAll].
  { apply Forall2_nil_inv_l in H as ->. exists [], r. rewrite app_nil_r. by split_and!. }
  apply Forall2_cons_inv_l in H as (d & ds' & (buf & -> & Hpay & Hd) & Hrest & ->).
  unfold gbind at 1, lift. rewrite Hpay.
  destruct (sendTunnelData_ok randReader readFull Now Send s peer _ _ _ (payload_ok_frame tid d Hd)
    (transformAll_ok ks enc (be_bytes 4 tid) d ltac:(len_lia) Hd) r)
    as (m & w & r1 & Hsend & (G1 & L1 & S1) & R1 & H1 & Hty & Hpm & P1).
  rewrite (gbind_ok _ _ _ _ _ (attempt_outcome _ _ _ _ Hsend)). rewrite Send_ok.
  destruct (releaseBuffers_calm [Some buf] r1) as (r2 & Hrel & ((G2 & L2 & S2) & R2 & H2 & P2)).
  rewrite (gbind_ok _ _ _ _ _ Hrel).
  destruct (IH ds' r2 Hrest) as (ms & r3 & -> & (G3 & L3 & S3) & R3 & H3 & P3 & Hms).
  exists (m :: ms), r3. unfold same_config. split_and!; try congruence; [|tauto|by constructor].
  rewrite H3, H2, H1, <- app_assoc. done.
Qed.

(** The data of the payloads of a block, one per fragment. *)
Lemma sent_data tid b id dst dst' :
  message_block b -> block_bytes b -> 0 < id < 2 ^ 32 ->
  sent tid 0 (fragments b id) dst dst' ->
  (forall j, (j < length (fragments b id))%nat -> exists d, dst !! j = Some (Some d) /\ fresh d) ->
  exists ds, Forall2 (fun blk d => payload_ok d /\ forall tid', carries tid' blk (frame_of tid' d)) (fragments b id) ds /\
    forall j d, ds !! j = Some d -> exists buf, dst' !! j = Some (Some buf) /\ Packet.Payload buf = Ok (Some (frame_of tid d)).
Proof.
  intros Hb Hbytes Hid Hsent Hfresh. pose proof (fragments_fit b id Hb Hid) as Hfit.
  destruct (sent_payloads tid _ dst dst' Hsent Hfresh Hfit) as (ps & Hps & Hpay).
  assert (Hall : Forall (fun blk => TunnelBlocks.block_ok blk /\ len (wires [blk]) <= maxBlockBytes /\ block_bytes blk) (fragments b id)).
  { pose proof (fragments_bytes b id Hb Hbytes) as Hby. apply Forall_lookup_2. intros j blk Hj.
    pose proof (Forall_lookup_1 _ _ _ _ Hby Hj) as Hbl. pose proof (Forall_lookup_1 _ _ _ _ Hfit Hj) as Hfl.
    split_and!; [|exact Hfl|apply Hbl..].
    destruct (decide (first_room b < len (Data b))) as [Hbig|Hsmall]; [by eapply fragment_fits|].
    unfold fragments in Hj. revert Hj. zbool. intros Hj. apply list_lookup_singleton_Some in Hj as [_ <-].
    destruct Hb as (Hok & _). apply set_data_ok; [done|apply Hok]. }
  clear Hsent Hfresh Hfit. revert ps Hps Hpay. generalize (fragments b id) Hall. intros blks Hblks. clear Hall. revert dst'.
  induction Hblks as [|blk blks (Hok & Hfit & Hby) _ IH]; intros dst' ps Hps Hpay.
  { exists []. split; [constructor|done]. }
  apply Forall2_cons_inv_l in Hps as (p & ps' & Hp & Hps & ->).
  destruct (carries_data tid blk p Hp Hok Hfit Hby) as (d & -> & Hd & Hc).
  destruct (IH (tail dst') ps' Hps) as (ds & Hds & Hbuf).
  { intros j q Hq. destruct (Hpay (S j) q Hq) as (buf & H1 & H2). exists buf. split; [|done]. by destruct dst'. }
  exists (d :: ds). split; [by constructor|]. intros [|j] q Hq.
  - cbn in Hq. injection Hq as <-. by apply Hpay.
  - destruct (Hbuf j q Hq) as (buf & H1 & H2). exists buf. split; [|done]. by destruct dst'.
Qed.

Lemma sent_length tid blocks dst dst' : sent tid 0 blocks dst dst' -> length dst' = length dst.
Proof.
  intros [Hout Hin]. apply Nat.le_antisymm; apply Nat.nlt_ge; intros Hlt.
  - destruct (decide (length blocks <= length dst)%nat) as [Hle|Hgt].
    + destruct (lookup_lt_is_Some_2 dst' (length dst) Hlt) as [o Ho].
      rewrite Hout, lookup_ge_None_2 in Ho; [done|lia|]. by right.
    + destruct (lookup_lt_is_Some_2 blocks (length dst)) as [b Hb]; [lia|].
      destruct (Hin _ _ Hb) as (d & rnd & Hd & _). by rewrite lookup_ge_None_2 in Hd by (cbn; lia).
  - destruct (decide (length blocks <= length dst')%nat) as [Hle|Hgt].
    + destruct (lookup_lt_is_Some_2 dst (length dst') Hlt) as [o Ho].
      rewrite <- Hout, lookup_ge_None_2 in Ho; [done|lia|]. by right.
    + destruct (lookup_lt_is_Some_2 blocks (length dst')) as [b Hb]; [lia|].
      destruct (Hin _ _ Hb) as (d & rnd & _ & _ & _ & Hd). by rewrite lookup_ge_None_2 in Hd by (cbn; lia).
Qed.

Lemma fragmentCount_ok b : message_block b -> fragmentCount b (1003 - first_room b) = len (fragments b 0).
Proof.
  intros Hb. unfold fragmentCount, maxBlockBytes, TunnelPayloadLen, TunnelDataPayloadLen, tunnelIVLen, tunnelChecksumLen.
  replace (1024 - 16 - 4 - 1 - (1003 - first_room b)) with (first_room b) by lia.
  destruct (len (Data b) >? first_room b) eqn:E.
  - rewrite fragments_count by lia. destruct (pieces_count b Hb ltac:(lia)) as [-> _].
    f_equal. f_equal; lia.
  - unfold fragments. replace (len (Data b) <=? first_room b) with true by lia. done.
Qed.

Lemma fragments_same_length b id : length (fragments b id) = length (fragments b 0).
Proof.
  unfold fragments. destruct (len (Data b) <=? first_room b); [done|]. cbn [length].
  pose proof (len_follow_blocks id (tail (pieces b)) 1). pose proof (len_follow_blocks 0 (tail (pieces b)) 1). unfold len in *. lia.
Qed.

(** The payloads that leave for the first hop: one per fragment, under the
    next tunnel's identifier and the circuit's layers. *)
Definition departs (x : outboundCircuit) (ks : list (bytes * bytes)) (enc : bool) (m : Message) (d : bytes) : Prop :=
  Type_ (MHeader m) = I2NP.TunnelData /\ Payload m = frame_of (nextTunnelID x) (layers ks enc d).

Lemma sendOn_ok (r : Runtime) c x s ks enc padding b :
  otransforms x = (fun k => cipher k enc) <$> ks -> sender r = Some s ->
  gateway r = NewGateway randReader padding -> 0 < nextTunnelID x < 2 ^ 32 ->
  message_block b -> block_bytes b -> Pool.reachable (pool r) ->
  exists id ds ms r', sendOn randReader readFull Now Send pick c x b r = (Ok tt, r') /\ 0 < id < 2 ^ 32 /\
    same_config r r' /\ reg r' = bumpOutbound c (reg r) /\ Pool.reachable (pool r') /\
    handoffs r' = handoffs r ++ (ToRouter (firstHop x) <$> ms) /\ Forall2 (departs x ks enc) ms ds /\
    Forall2 (fun blk d => payload_ok d /\ forall tid, carries tid blk (frame_of tid d)) (fragments b id) ds.
Proof.
  intros Hks Hs Hg Htid Hb Hbytes Hpool. pose proof Hb as ((Hd & _ & _ & Hkind) & Hf & Hmax).
  rewrite Hf in Hkind. destruct Hkind as [Hdel _].
  unfold sendOn, gbind at 1, get. rewrite Hs, Hf.
  replace (false || (Delivery b >? DeliveryRouter) || (len (Data b) =? 0) || (len (Data b) >? I2PDMaxPayload)) with false
    by (unfold DeliveryRouter; symmetry; rewrite !orb_false_iff; split_and!; lia).
  unfold gbind at 1, lift. rewrite firstBlockLen_ok by done. rewrite fragmentCount_ok by done.
  pose proof (fragments_length b 0 Hb) as H63. replace (len (fragments b 0) >? 64) with false by (unfold len; lia).
  destruct (acquireAll_ok (length (fragments b 0)) [] r Hpool) as (bs & r1 & Hacq & ((G1 & L1 & S1) & R1 & H1 & P1) & Hlen & Hall);
    [constructor|]. unfold len at 1. rewrite Nat2Z.id, (gbind_ok _ _ _ _ _ Hacq).
  assert (Hfresh : forall j, (j < length (fragments b 0))%nat -> exists d, bs !! j = Some (Some d) /\ fresh d).
  { intros j Hj. destruct (lookup_lt_is_Some_2 bs j) as [o Ho]; [cbn in Hlen; lia|].
    destruct (Forall_lookup_1 _ _ _ _ Hall Ho) as (d & -> & Hd'). by exists d. }
  destruct (Fragment_sends randReader readFull readFull_total padding (nextTunnelID x) b (env r1) bs Htid Hb)
    as (id & w' & dst' & Hid & _ & Hfrag & Hsent).
  { intros j Hj. destruct (Hfresh j Hj) as (d & Hdj & Hfd & _). by exists d. }
  destruct (sent_data (nextTunnelID x) b id bs dst' Hb Hbytes Hid Hsent) as (ds & Hds & Hbuf).
  { intros j Hj. apply Hfresh. by rewrite <- (fragments_same_length b id). }
  assert (Hrun : runGateway randReader readFull (nextTunnelID x) b bs r1 =
    (Ok ((len (fragments b id), None), dst'), set_env w' r1)).
  { unfold runGateway. rewrite G1, Hg, Hfrag. done. }
  rewrite (gbind_ok _ _ _ _ _ Hrun). cbn [fst snd].
  assert (Hbufs : Forall2 (fun o d => exists buf, o = Some buf /\ Packet.Payload buf = Ok (Some (frame_of (nextTunnelID x) d)) /\ payload_ok d)
    (take (Z.to_nat (len (fragments b id))) dst') ds).
  { pose proof (sent_length _ _ _ _ Hsent) as Hdl.
    assert (Hl2 : length ds = length (fragments b 0)) by (rewrite <- (Forall2_length _ _ _ Hds); apply fragments_same_length).
    assert (Hl3 : Z.to_nat (len (fragments b id)) = length (fragments b 0)) by (unfold len; rewrite fragments_same_length; lia).
    cbn [length Nat.add] in Hlen.
    apply Forall2_same_length_lookup_2; [rewrite length_take, Hl3, Hdl, Hlen, Hl2; lia|].
    intros j o d Ho Hd'. apply lookup_take_Some in Ho as [Ho _]. destruct (Hbuf j d Hd') as (buf & Hb1 & Hb2).
    rewrite Hb1 in Ho. injection Ho as <-. exists buf. split_and!; try done.
    destruct (Forall2_lookup_r _ _ _ _ _ Hds Hd') as (blk & _ & Hp & _). done. }
  rewrite Hks. destruct (sendAll_ok s (firstHop x) ks enc (nextTunnelID x) _ ds (set_env w' r1) Hbufs)
    as (ms & r2 & Hsend & (G2 & L2 & S2) & R2 & H2 & P2 & Hms).
  rewrite (gbind_ok _ _ _ _ _ Hsend). cbn [set_env gateway local sender reg handoffs pool] in *.
  exists id, ds, ms. eexists. split; [unfold update; reflexivity|]. unfold same_config. cbn [set_reg gateway local sender reg handoffs pool].
  split_and!; try done; try congruence; [lia|lia|tauto].
Qed.
End Sending.
