(* ===== verification/TunnelPath.v ===== *)
(** A message through a tunnel, router by router: the creator's runtime sends it,
    the participants' runtimes relay it, the endpoint's runtime reassembles and
    delivers it.  The routers are those of
    [src/dataplane/internal/tunnel/runtime.go] with the circuits the build manager
    [src/controlplane/internal/tunnel/build_manager.go] installs: decryptors of
    all hops' keys in reverse order at the creator, one encryptor at each hop. *)

From S2P Require Import Prelude Wire Sha256 I2NP Buffers TunnelBlocks Reassembly Gateway Chacha TunnelCrypto Endpoint Circuits Registry TunnelRuntime.

Section Path.
Context `{A : AES} `{L : !AESLaws A}.
Context {reader handler senderT world : Type} (randReader : reader).
Context (readFull : reader -> Z -> world -> (option error * bytes) * world).
Context (range : gmap Z partial -> list (Z * partial)).
Context (rangeMeta : gmap Z deliveryMeta -> list (Z * deliveryMeta)).
Context (Now : world -> Z * world).
Context (Send : senderT -> bytes -> Message -> world -> option error * world).
Context (Call : handler -> Message -> world -> option error * world).
Context (pick : Pool.leases -> option nat).
Abbreviation Runtime := (Runtime (reader := reader) (handler := handler) (senderT := senderT) (world := world)).
Abbreviation handle := (HandleContext randReader readFull range rangeMeta Now Send Call pick).

(** A participant's part of a tunnel: its identifier there and its layer keys. *)
Record hop := mkHop { htid : Z; hkey : bytes * bytes }.

(** The circuit [installTransitCircuit] makes of it: what it forwards goes to the
    router [peer] under the identifier [next]. *)
Definition relays (r : Runtime) (h : hop) (peer : bytes) (next : Z) : Prop :=
  0 < htid h < 2 ^ 32 /\
  exists c x s, active_in Now r (htid h) c x /\ iforward x = Some (mkForward peer next) /\
    itransforms x = (fun k => cipher k true) <$> [hkey h] /\ sender r = Some s /\ Pool.reachable (pool r).

Definition first_tid (hops : list hop) (last : Z) : Z := match hops with [] => last | h :: _ => htid h end.

Definition first_router (rs : list Runtime) (last : bytes) : bytes := match rs with [] => last | r :: _ => local r end.

(** The participants' routers, each forwarding to the next one's address, the
    last one to the endpoint's. *)
Fixpoint chain (rs : list Runtime) (hops : list hop) (lastRouter : bytes) (last : Z) : Prop :=
  match rs, hops with
  | [], [] => True
  | r :: rs, h :: hops => relays r h (first_router rs lastRouter) (first_tid hops last) /\ chain rs hops lastRouter last
  | _, _ => False
  end.

(** A message along the participants: the transport delivers it to the router it
    is sent to, and to no other; a participant hands over one message.  Where the
    message is and to whom it is addressed when they have all passed it on. *)
Fixpoint pass (rs : list Runtime) (peer : bytes) (m : Message) : option (bytes * Message) * list Runtime :=
  match rs with
  | [] => (Some (peer, m), [])
  | r :: rs =>
      if bool_decide (peer = local r) then
        match handle m r with
        | (Ok _, r') =>
            match drop (length (handoffs r)) (handoffs r') with
            | [ToRouter peer' m'] => let (o, rs') := pass rs peer' m' in (o, r' :: rs')
            | _ => (None, r' :: rs)
            end
        | (_, r') => (None, r' :: rs)
        end
      else (None, r :: rs)
  end.

Fixpoint passAll (rs : list Runtime) (peer : bytes) (ms : list Message) : list (option (bytes * Message)) * list Runtime :=
  match ms with
  | [] => ([], rs)
  | m :: ms =>
      let (o, rs) := pass rs peer m in
      let (os, rs) := passAll rs peer ms in (o :: os, rs)
  end.

(** The messages of [order] handled one after the other. *)
Fixpoint receiveAll (ns : list Message) (order : list nat) (r : Runtime) : list (res unit) * Runtime :=
  match order with
  | [] => ([], r)
  | j :: order =>
      let (a, r) := handle (default (mkMessage (mkHeader 0 0 0) []) (ns !! j)) r in
      let (rest, r) := receiveAll ns order r in (a :: rest, r)
  end.

Context (Send_ok : forall s peer m w, (Send s peer m w).1 = None).

Lemma first_router_config rs rs' last : local <$> rs' = local <$> rs -> first_router rs' last = first_router rs last.
Proof. destruct rs, rs'; try done. cbn. by intros [= -> _]. Qed.

Lemma pass_ok lastRouter last rs : forall hops hd p,
  chain rs hops lastRouter last -> Type_ hd = I2NP.TunnelData -> payload_ok p ->
  exists hd' rs', pass rs (first_router rs lastRouter) (mkMessage hd (frame_of (first_tid hops last) p)) =
      (Some (lastRouter, mkMessage hd' (frame_of last (layers (hkey <$> hops) true p))), rs') /\
    Type_ hd' = I2NP.TunnelData /\ chain rs' hops lastRouter last /\ local <$> rs' = local <$> rs.
Proof.
  induction rs as [|r rs IH]; intros [|h hops] hd p Hc Hty Hp; cbn [chain] in Hc; try done.
  { exists hd, []. done. }
  destruct Hc as [(Htid & c & x & s & Hact & Hf & Hks & Hs & Hpool) Hc]. cbn [first_tid first_router pass].
  rewrite bool_decide_true by done.
  destruct (relay_ok randReader readFull range rangeMeta Now Send Call pick r (htid h) c x _ s [hkey h] true hd p
    Hact Hf Hks Hs Hpool Htid Hp Hty) as (msg & w & r1 & -> & (G & Lo & S) & R & H & Hmty & Hpay & P).
  rewrite Send_ok. cbn [outcome]. rewrite H, drop_app_length.
  destruct msg as [mh mp]. cbn [MHeader Payload FTunnelID Peer] in *. subst mp.
  destruct (IH hops mh (layers [hkey h] true p) Hc Hmty (layers_ok _ _ _ Hp)) as (hd' & rs' & -> & Hty' & Hc' & Hl).
  exists hd', (r1 :: rs'). split; [done|]. split; [done|]. cbn [chain]. rewrite (first_router_config rs rs') by done.
  split; [split; [|done]|by rewrite !fmap_cons, Hl, Lo].
  split; [done|]. exists c, x, s. unfold active_in in *. rewrite R, S. done.
Qed.

Lemma passAll_ok lastRouter last hops ms : forall rs ps,
  chain rs hops lastRouter last ->
  Forall2 (fun m p => Type_ (MHeader m) = I2NP.TunnelData /\ Payload m = frame_of (first_tid hops last) p /\ payload_ok p) ms ps ->
  exists ns rs', passAll rs (first_router rs lastRouter) ms = ((fun n => Some (lastRouter, n)) <$> ns, rs') /\ chain rs' hops lastRouter last /\
    Forall2 (fun n p => Type_ (MHeader n) = I2NP.TunnelData /\ Payload n = frame_of last (layers (hkey <$> hops) true p)) ns ps.
Proof.
  induction ms as [|m ms IH]; intros rs ps Hc H; cbn [passAll].
  { apply Forall2_nil_inv_l in H as ->. exists [], rs. done. }
  apply Forall2_cons_inv_l in H as (p & ps' & (Hty & Hpay & Hp) & Hrest & ->).
  destruct m as [mh mp]. cbn [MHeader Payload] in *. subst mp.
  destruct (pass_ok lastRouter last rs hops mh p Hc Hty Hp) as (hd' & rs1 & -> & Hty' & Hc1 & Hl).
  destruct (IH rs1 ps' Hc1 Hrest) as (ns & rs2 & Hrun & Hc2 & Hns). rewrite (first_router_config rs rs1) in Hrun by done. rewrite Hrun.
  exists (mkMessage hd' (frame_of last (layers (hkey <$> hops) true p)) :: ns), rs2. split; [done|]. split; [done|]. by constructor.
Qed.

(** *** At the endpoint *)

Context (tid : Z) (Htid : 0 < tid < 2 ^ 32) (ks : list (bytes * bytes)) (enc : bool) (h : option handler) (e : nat).
Abbreviation serving := (fun r ep => serves Now r tid ks enc h e ep).
Abbreviation parseAll := (parseAll range rangeMeta defaultDeliveryBlocks).

(** Messages that, decrypted, are the payloads [ps]. *)
Definition arrive (ns : list Message) (ps : list bytes) : Prop :=
  Forall2 (fun n p => exists q, Type_ (MHeader n) = I2NP.TunnelData /\ Payload n = frame_of tid q /\ payload_ok q /\
    p = frame_of tid (layers ks enc q)) ns ps.

Lemma arrive_serve ns ps j n p r ep :
  arrive ns ps -> ns !! j = Some n -> ps !! j = Some p -> serving r ep ->
  exists t, forall ep' blocks P,
    Endpoint.Parse range rangeMeta defaultDeliveryBlocks p t (ep, []) = (Ok tt, (ep', blocks)) ->
    hands_over randReader readFull Now Send Call pick r h blocks P ->
    exists err r' hs, handle n r = (outcome err, r') /\ same_config r r' /\
      handoffs r' = handoffs r ++ hs /\ P err hs /\ serving r' ep'.
Proof.
  intros Harr Hn Hp Hs. destruct (Forall2_lookup_lr _ _ _ _ _ _ Harr Hn Hp) as (q & Hty & Hpay & Hq & ->).
  destruct n as [hd np]. cbn [MHeader Payload] in *. subst np.
  by apply serve_ok.
Qed.

(** Payloads that deliver nothing hand nothing over. *)
Lemma receive_run ns ps : arrive ns ps -> forall order r ep,
  serving r ep -> Forall (fun j => (j < length ps)%nat) order ->
  (forall arrivals, arrivals.*1 = order -> Forall (fun o => o = (Ok tt, [])) (parseAll ps arrivals ep).1) ->
  exists arrivals r', arrivals.*1 = order /\ receiveAll ns order r = (replicate (length order) (Ok tt), r') /\
    same_config r r' /\ handoffs r' = handoffs r /\ serving r' (parseAll ps arrivals ep).2.
Proof.
  intros Harr. induction order as [|j order IH]; intros r ep Hs Hlt Hall.
  { exists [], r. done. }
  apply Forall_cons in Hlt as [Hj Hlt]. destruct (lookup_lt_is_Some_2 ps j Hj) as [p Hp].
  destruct (lookup_lt_is_Some_2 ns j) as [n Hn]; [by rewrite (Forall2_length _ _ _ Harr)|].
  destruct (arrive_serve ns ps j n p r ep Harr Hn Hp Hs) as (t & Ht).
  destruct (Endpoint.Parse range rangeMeta defaultDeliveryBlocks p t (ep, [])) as [res [ep1 blocks]] eqn:Eparse.
  assert (Hstep : forall rest, rest.*1 = order ->
    (res, blocks) = (Ok tt, []) /\ Forall (fun o => o = (Ok tt, [])) (parseAll ps rest ep1).1).
  { intros rest Hrest. specialize (Hall ((j, t) :: rest)). cbn [fmap list_fmap fst Endpoint.parseAll] in Hall.
    rewrite Hp in Hall. cbn [default from_option] in Hall. unfold Datatypes.id in Hall. rewrite Eparse in Hall. cbn [fst snd] in Hall.
    destruct (parseAll ps rest ep1) as [outs e2] eqn:Eo. cbn [fst] in Hall |- *.
    specialize (Hall ltac:(by rewrite Hrest)). apply Forall_cons in Hall as [H1 H2]. done. }
  destruct (Hstep ((fun j => (j, 0)) <$> order)) as [[= -> ->] _].
  { rewrite <- list_fmap_compose. apply list_fmap_id. }
  destruct (Ht ep1 [] (fun err hs => err = None /\ hs = []) eq_refl) as (err & r1 & hs & Hh & Hcfg & Hhand & [-> ->] & Hs1).
  { intros r1 Hc Hpl. exists None, r1, []. rewrite app_nil_r. done. }
  destruct (IH r1 ep1 Hs1 Hlt) as (arrivals & r2 & Harrs & Hrun & Hcfg2 & Hhand2 & Hs2).
  { intros rest Hrest. by apply Hstep. }
  exists ((j, t) :: arrivals), r2. cbn [fmap list_fmap fst]. rewrite Harrs. split; [done|].
  cbn [receiveAll]. rewrite Hn. cbn [default from_option]. unfold Datatypes.id. rewrite Hh. cbn [outcome]. rewrite Hrun. split; [done|].
  split; [unfold same_config in *; intuition congruence|]. split; [rewrite Hhand2, Hhand; apply app_nil_r|].
  cbn [Endpoint.parseAll]. rewrite Hp. cbn [default from_option]. unfold Datatypes.id. rewrite Eparse. cbn [fst snd].
  destruct (parseAll ps arrivals ep1) as [outs e2]. done.
Qed.
End Path.

Section Handover.
Context `{A : AES} `{L : !AESLaws A}.
Context {reader handler senderT world : Type} (randReader : reader).
Context (readFull : reader -> Z -> world -> (option error * bytes) * world).
Context (Now : world -> Z * world).
Context (Send : senderT -> bytes -> Message -> world -> option error * world).
Context (Call : handler -> Message -> world -> option error * world).
Context (pick : Pool.leases -> option nat).
Context (Send_ok : forall s peer m w, (Send s peer m w).1 = None).
Context (Call_ok : forall f m w, (Call f m w).1 = None).
Abbreviation Runtime := (Runtime (reader := reader) (handler := handler) (senderT := senderT) (world := world)).

(** What the instructions of [b] ask the endpoint's router to do with [m]. *)
Definition handed (r : Runtime) (h : option handler) (b : Block) (m : Message) (hs : list handoff) : Prop :=
  if (Delivery b =? DeliveryLocal) || (Delivery b =? DeliveryRouter) && selfAddressed b r
  then exists f, h = Some f /\ hs = [ToLocal f m]
  else if Delivery b =? DeliveryRouter then hs = [ToRouter (Gateway b) m]
  else exists gh, Type_ gh = I2NP.TunnelGateway /\
    hs = [ToRouter (Gateway b) (mkMessage gh (be_bytes 4 (TunnelID b) ++ be_bytes 2 (len (Data b)) ++ Data b))].

(** A block of a standard message. *)
Definition message_of (b : Block) (m : Message) : Prop :=
  message_block b /\ Data b = frame (MHeader m) (Payload m) /\ header_ok (MHeader m).

Lemma message_of_parse b m : message_of b m -> ParseUnchecked (Data b) = Ok (m, len (Data b)).
Proof.
  intros ((Hok & Hf & Hmax) & Hd & Hh). rewrite Hd in *. rewrite len_frame in *. unfold ParseUnchecked.
  unfold I2PDMaxPayload, I2PDMessageBufferBytes, I2PDReservedPrefix, StandardHeaderLen in *.
  rewrite <- (app_nil_r (frame _ _)) at 1. rewrite parseStandard_frame; [by destruct m|done|lia|unfold MaxWirePayload; lia].
Qed.

Lemma transmit_ok s peer m (r : Runtime) :
  exists r', transmit Send s peer m r = (Ok tt, r') /\ same_config r r' /\ reg r' = reg r /\ pool r' = pool r /\
    handoffs r' = handoffs r ++ [ToRouter peer m].
Proof.
  unfold transmit. pose proof (Send_ok s peer m (env r)) as He. destruct (Send s peer m (env r)) as [o w]. cbn [fst] in He. subst o.
  eexists. split; [reflexivity|]. done.
Qed.

Lemma deliverLocal_ok f m (r : Runtime) :
  exists r', deliverLocal Call (Some f) m r = (Ok tt, r') /\ same_config r r' /\ reg r' = reg r /\ pool r' = pool r /\
    handoffs r' = handoffs r ++ [ToLocal f m].
Proof.
  unfold deliverLocal, callLocal. pose proof (Call_ok f m (env r)) as He. destruct (Call f m (env r)) as [o w]. cbn [fst] in He. subst o.
  eexists. split; [reflexivity|]. done.
Qed.

(** The envelope [deliverTunnel] builds. *)
Lemma envelope_ok s b m payload :
  message_of b m -> len payload = TunnelGatewayHeaderLen + EncodedLen m -> EncodedLen m = len (Data b) ->
  exists body,
    (let? p := write payload 0 (be_bytes 4 (TunnelID s)) in
     let? p := write p 4 (be_bytes 2 (u16 (EncodedLen m))) in
     let? q := slice_from p 6 in
     let? (q, _) := MarshalTo m q in write p 6 q) = Ok body /\
    body = be_bytes 4 (TunnelID s) ++ be_bytes 2 (len (Data b)) ++ Data b.
Proof.
  intros ((Hok & Hf & Hmax) & Hd & Hh) Hl He. destruct Hok as ((Hpos & Hlt) & _).
  unfold TunnelGatewayHeaderLen in Hl. rewrite He in *.
  assert (Hpl : len (Payload m) = len (Data b) - 16) by (rewrite Hd, len_frame; lia).
  rewrite (over_nil payload). rewrite write_over by len_lia. cbn [bind app]. rewrite write_over by len_lia. cbn [bind].
  rewrite slice_from_ok by (rewrite len_over by len_lia; len_lia). cbn [bind].
  rewrite len_over by len_lia. rewrite over_suffix by len_lia.
  unfold MarshalTo. rewrite marshalStandard_frame.
  2:{ unfold I2PDMaxPayload, I2PDMessageBufferBytes, I2PDReservedPrefix, StandardHeaderLen in *. lia. }
  2:{ vm_compute. congruence. }
  2:{ len_lia. }
  cbn [bind]. replace (over (frame (MHeader m) (Payload m)) (sub 6 (len payload) payload)) with (Data b).
  2:{ unfold over. rewrite <- Hd, sub_empty by len_lia. by rewrite app_nil_r. }
  rewrite write_over by len_lia. eexists. split; [reflexivity|]. unfold over.
  rewrite (sub_empty payload) by len_lia. rewrite app_nil_r, <- app_assoc.
  unfold u16. rewrite Z.mod_small by lia. done.
Qed.

Lemma message_of_len b m : message_of b m -> EncodedLen m = len (Data b).
Proof. intros (_ & Hd & _). unfold EncodedLen, StandardHeaderLen. by rewrite Hd, len_frame. Qed.

Lemma deliverTunnel_ok s ob b m (r : Runtime) :
  message_of b m -> Pool.reachable (pool r) ->
  exists gh r', deliverTunnel Now Send pick (Some s) ob m r = (Ok tt, r') /\ same_config r r' /\ reg r' = reg r /\
    Pool.reachable (pool r') /\ Type_ gh = I2NP.TunnelGateway /\
    handoffs r' = handoffs r ++ [ToRouter (Gateway ob)
      (mkMessage gh (be_bytes 4 (TunnelID ob) ++ be_bytes 2 (len (Data b)) ++ Data b))].
Proof.
  intros Hm Hpool. pose proof (message_of_len b m Hm) as He. pose proof Hm as ((((Hpos & Hlt) & _) & _) & _).
  unfold deliverTunnel.
  destruct (acquirePayload_ok pick (TunnelGatewayHeaderLen + EncodedLen m) r Hpool)
    as (buf & p0 & r1 & Hacq & ((G1 & L1 & S1) & R1 & H1 & P1) & Hl0).
  { rewrite He. unfold TunnelGatewayHeaderLen, Packet.maxInt. lia. }
  rewrite (gbind_ok _ _ _ _ _ Hacq). cbn [fst snd].
  destruct (envelope_ok ob b m p0 Hm Hl0 He) as (body & Hrun & ->). unfold gbind at 1 2 3, lift.
  destruct (write p0 0 (be_bytes 4 (TunnelID ob))) as [p1| |]; [|done..]. cbn [bind] in Hrun.
  destruct (write p1 4 (be_bytes 2 (u16 (EncodedLen m)))) as [p2| |]; [|done..]. cbn [bind] in Hrun.
  destruct (slice_from p2 6) as [q| |]; [|done..]. cbn [bind] in Hrun.
  destruct (MarshalTo m q) as [[q' n]| |]; [|done..]. cbn [bind] in Hrun. unfold gbind at 1. rewrite Hrun.
  destruct (sendMessage_ok randReader readFull Now Send s (Gateway ob) I2NP.TunnelGateway
    (be_bytes 4 (TunnelID ob) ++ be_bytes 2 (len (Data b)) ++ Data b) r1)
    as (msg & w & r2 & Hs & (G2 & L2 & S2) & R2 & H2 & Hty & Hpay & P2).
  rewrite (gbind_ok _ _ _ _ _ (attempt_outcome _ _ _ _ Hs)). rewrite Send_ok.
  destruct (releaseBuffer_calm buf r2) as (r3 & Hrel & ((G3 & L3 & S3) & R3 & H3 & P3)).
  rewrite (gbind_ok _ _ _ _ _ Hrel). destruct msg as [gh gp]. cbn [MHeader Payload] in *. subst gp.
  exists gh, r3. unfold same_config. split_and!; try congruence; [done|tauto].
Qed.

Lemma deliver_ok (r : Runtime) h b ob m s :
  message_of b m -> same_delivery b ob -> sender r = Some s -> is_Some h ->
  (Delivery b = DeliveryTunnel -> selfAddressed b r = false) ->
  hands_over randReader readFull Now Send Call pick r h [ob] (fun err hs => err = None /\ handed r h b m hs).
Proof.
  intros Hm (HD & HG & HT & Hdata & _) Hs [f ->] Hself r1 (G1 & L1 & S1) Hpool. exists None.
  pose proof Hm as (((_ & _ & _ & Hkind) & Hf & _) & _). rewrite Hf in Hkind. destruct Hkind as [Hdel _].
  cbn [deliverAll]. unfold deliver, gbind at 2, lift. rewrite Hdata, (message_of_parse b m Hm), Z.eqb_refl. cbn [negb fst snd].
  assert (Hsa : Delivery b <> DeliveryLocal -> selfAddressed ob r1 = selfAddressed b r).
  { intros Hne. unfold selfAddressed. rewrite L1, HG; [done|]. unfold DeliveryLocal, DeliveryTunnel, DeliveryRouter in *. lia. }
  rewrite HD, S1, Hs. unfold handed.
  assert (Hfin : forall (k : go Runtime unit) P, (exists r', k r1 = (Ok tt, r') /\ same_config r1 r' /\ reg r' = reg r1 /\
      Pool.reachable (pool r') /\ exists hs, handoffs r' = handoffs r1 ++ hs /\ P hs) ->
    exists r2 hs, gbind k (fun _ => ret tt) r1 = (outcome None, r2) /\ same_config r1 r2 /\ reg r2 = reg r1 /\
      Pool.reachable (pool r2) /\ handoffs r2 = handoffs r1 ++ hs /\ None = @None error /\ P hs).
  { intros k P (r' & Hk & Hc & Hr & Hp & hs & Hh & HP). exists r', hs. unfold gbind. rewrite Hk. done. }
  unfold gbind at 2, get. apply Hfin.
  destruct (Delivery b =? DeliveryLocal) eqn:E0; cbn [orb].
  { destruct (deliverLocal_ok f m r1) as (r2 & Hk & Hc & Hr & Hp & Hh). exists r2. rewrite Hp. split_and!; try apply Hc; try done.
    exists [ToLocal f m]. split; [done|by exists f]. }
  apply Z.eqb_neq in E0. rewrite (Hsa E0). destruct (Delivery b =? DeliveryRouter) eqn:E2; cbn [andb].
  - destruct (selfAddressed b r).
    + destruct (deliverLocal_ok f m r1) as (r2 & Hk & Hc & Hr & Hp & Hh). exists r2. rewrite Hp. split_and!; try apply Hc; try done.
      exists [ToLocal f m]. split; [done|by exists f].
    + destruct (transmit_ok s (Gateway ob) m r1) as (r2 & Hk & Hc & Hr & Hp & Hh). exists r2. rewrite Hp. split_and!; try apply Hc; try done.
      exists [ToRouter (Gateway ob) m]. split; [done|]. rewrite HG; [done|]. right. by apply Z.eqb_eq.
  - assert (E1 : Delivery b = DeliveryTunnel) by (unfold DeliveryLocal, DeliveryTunnel, DeliveryRouter in *; lia).
    rewrite E1, Z.eqb_refl, Hself by done.
    destruct (deliverTunnel_ok s ob b m r1 Hm Hpool) as (gh & r2 & Hk & Hc & Hr & Hp & Hty & Hh).
    exists r2. split_and!; try apply Hc; try done. eexists. split; [exact Hh|]. exists gh. rewrite HG, HT by auto. done.
Qed.
End Handover.

(** ** The whole way *)

Section Tunnel.
Context `{A : AES} `{L : !AESLaws A}.
Context {reader handler senderT world : Type} (randReader : reader).
Context (readFull : reader -> Z -> world -> (option error * bytes) * world).
Context (readFull_total : forall r n w, 0 <= n ->
  exists b w', readFull r n w = ((None, b), w') /\ len b = n /\ bytes_ok b).
Context (range : gmap Z partial -> list (Z * partial)).
Context (rangeMeta : gmap Z deliveryMeta -> list (Z * deliveryMeta)).
Context (Now : world -> Z * world).
Context (Send : senderT -> bytes -> Message -> world -> option error * world).
Context (Call : handler -> Message -> world -> option error * world).
Context (pick : Pool.leases -> option nat).
Context (Send_ok : forall s peer m w, (Send s peer m w).1 = None).
Context (Call_ok : forall f m w, (Call f m w).1 = None).
Abbreviation Runtime := (Runtime (reader := reader) (handler := handler) (senderT := senderT) (world := world)).
Abbreviation handle := (HandleContext randReader readFull range rangeMeta Now Send Call pick).

(** The keys of a circuit's transforms, and whether they encrypt. *)
Abbreviation keying := (list (bytes * bytes) * bool)%type.

(** The circuit a message is sent into; it leads to the router [firstRouter]. *)
Definition enters (r : Runtime) (cid : Z) (x : outboundCircuit) (ks : keying) (firstRouter : bytes) (first : Z) : Prop :=
  exists c s padding, active_out Now r cid c x /\ otransforms x = (fun k => cipher k ks.2) <$> ks.1 /\
    firstHop x = firstRouter /\ nextTunnelID x = first /\ sender r = Some s /\ gateway r = NewGateway randReader padding /\ Pool.reachable (pool r).

(** How the layers are dealt out.  Outbound: the creator decrypts with every
    hop's keys in reverse order and each hop, the endpoint with [k] last,
    encrypts.  Inbound: the gateway with [k] and each hop encrypt, and the creator
    at the end decrypts in reverse order. *)
Definition layering (hops : list hop) (k : bytes * bytes) (gw ep : keying) : Prop :=
  gw = (rev ((hkey <$> hops) ++ [k]), false) /\ ep = ([k], true) \/
  gw = ([k], true) /\ ep = (rev (k :: (hkey <$> hops)), false).

Lemma layers_app ks ks' enc p : layers (ks ++ ks') enc p = layers ks' enc (layers ks enc p).
Proof. apply fold_left_app. Qed.

Lemma layering_cancels hops k gw ep p :
  layering hops k gw ep -> payload_ok p ->
  layers ep.1 ep.2 (layers (hkey <$> hops) true (layers gw.1 gw.2 p)) = p.
Proof.
  intros [[-> ->]|[-> ->]] Hp; cbn [fst snd]; rewrite <- !layers_app.
  - by apply (layers_cancel _ true).
  - pose proof (layers_cancel (rev ([k] ++ (hkey <$> hops))) false p Hp) as Hc. by rewrite rev_involutive in Hc.
Qed.

Lemma SendBlock_ok r cid x ks firstRouter first b :
  enters r cid x ks firstRouter first -> 0 < first < 2 ^ 32 -> message_block b -> block_bytes b ->
  exists id ds ms r', SendBlock randReader readFull Now Send pick cid b r = (Ok tt, r') /\ 0 < id < 2 ^ 32 /\
    handoffs r' = handoffs r ++ (ToRouter (firstHop x) <$> ms) /\ Forall2 (departs x ks.1 ks.2) ms ds /\
    Forall2 (fun blk d => payload_ok d /\ forall tid, carries tid blk (frame_of tid d)) (fragments b id) ds.
Proof.
  intros (c & s & padding & Hact & Hks & _ & Hfirst & Hs & Hg & Hpool) Ht Hb Hbytes. unfold SendBlock, sendBlock.
  destruct (admit_out_ok Now r cid c x None Hact (or_introl eq_refl)) as (r1 & Hadm & ((G1 & L1 & S1) & R1 & H1 & P1)).
  rewrite (gbind_ok _ _ _ _ _ Hadm). unfold deferred.
  destruct (sendOn_ok randReader readFull readFull_total Now Send pick Send_ok (set_reg (pinOutbound c (reg r)) r1) c x s ks.1 ks.2 padding b)
    as (id & ds & ms & r2 & -> & Hid & _ & _ & _ & H2 & Hms & Hds); try done.
  - cbn. congruence.
  - cbn. congruence.
  - by rewrite Hfirst.
  - by apply P1.
  - exists id, ds, ms. eexists. split; [reflexivity|]. cbn [set_reg handoffs] in *. rewrite H2, H1. done.
Qed.

Lemma first_tid_ok (rs : list Runtime) hops lastRouter last : chain Now rs hops lastRouter last -> 0 < last < 2 ^ 32 -> 0 < first_tid hops last < 2 ^ 32.
Proof. destruct rs, hops; try done. intros [[Ht _] _] _. done. Qed.

(** The last arrival after all the others. *)
Definition last_missing (n i : nat) (order : list nat) : Prop :=
  (i < n)%nat /\ Forall (fun j => j <> i /\ (j < n)%nat) order /\ forall j, (j < n)%nat -> j <> i -> j ∈ order.

Lemma all_but_order n i order arrivals : last_missing n i order -> arrivals.*1 = order -> all_but n i arrivals.
Proof.
  intros (Hi & Hall & Hcov) <-. split; [done|]. split; [|done]. by apply Forall_fmap in Hall.
Qed.

(** The endpoint's side: any order of the payloads' arrival. *)
Lemma endpoint_side tid (ks : keying) h e ep (r : Runtime) ns ps b id m s i order :
  0 < tid < 2 ^ 32 -> serves Now r tid ks.1 ks.2 h e ep -> arrive tid ks.1 ks.2 ns ps ->
  Forall2 (carries tid) (fragments b id) ps -> 0 < id < 2 ^ 32 -> ready ep id b -> message_of b m ->
  sender r = Some s -> is_Some h -> (Delivery b = DeliveryTunnel -> selfAddressed b r = false) ->
  last_missing (length ns) i order ->
  exists r1 r2 hs, receiveAll randReader readFull range rangeMeta Now Send Call pick ns order r =
      (replicate (length order) (Ok tt), r1) /\ handoffs r1 = handoffs r /\
    (exists n, ns !! i = Some n /\ handle n r1 = (Ok tt, r2)) /\
    handoffs r2 = handoffs r ++ hs /\ handed r h b m hs.
Proof.
  intros Ht Hs Harr Hps Hid Hready Hm Hsend Hh Hself Hmiss. pose proof (Forall2_length _ _ _ Harr) as Hlen.
  assert (Hroom : 0 < defaultDeliveryBlocks) by (vm_compute; congruence).
  assert (Hany : forall arrivals, arrivals.*1 = order -> forall now, _) by
    (intros arrivals Ha now; exact (payloads_any_order range rangeMeta defaultDeliveryBlocks Hroom b id tid ps i arrivals now ep
      (proj1 Hm) Hid Ht Hps Hready ltac:(rewrite <- Hlen; by eapply all_but_order))).
  destruct (receive_run randReader readFull range rangeMeta Now Send Call pick tid Ht ks.1 ks.2 h e ns ps Harr order r ep Hs)
    as (arrivals & r1 & Ha & Hrun & (G1 & L1 & S1) & Hh1 & Hs1).
  { destruct Hmiss as (_ & Hall & _). eapply Forall_impl; [exact Hall|]. intros j [_ Hj]. by rewrite <- Hlen. }
  { intros arrivals Ha. apply (Hany arrivals Ha 0). }
  destruct Hmiss as (Hi & _). destruct (lookup_lt_is_Some_2 ns i Hi) as [n Hn].
  destruct (lookup_lt_is_Some_2 ps i) as [p Hp]; [by rewrite <- Hlen|].
  destruct (arrive_serve randReader readFull range rangeMeta Now Send Call pick tid Ht ks.1 ks.2 h e ns ps i n p r1 _ Harr Hn Hp Hs1) as (t & Hserve).
  destruct (Hany arrivals Ha t) as (_ & e' & ob & Hparse & Hsame). rewrite Hp in Hparse. cbn [default from_option] in Hparse.
  unfold Datatypes.id in Hparse.
  destruct (Hserve e' [ob] (fun err hs => err = None /\ handed r1 h b m hs) Hparse) as (err & r2 & hs & Hhandle & _ & Hh2 & [-> Hhanded] & _).
  { apply (deliver_ok randReader readFull Now Send Call pick Send_ok Call_ok r1 h b ob m s Hm Hsame); try done; [congruence|].
    intros HD. unfold selfAddressed. rewrite L1. by apply Hself. }
  exists r1, r2, hs. split; [done|]. split; [done|]. split; [by exists n|]. split; [by rewrite Hh2, Hh1|].
  revert Hhanded. unfold handed, selfAddressed. by rewrite L1.
Qed.

End Tunnel.

(** ** Witness: a tunnel with one participant *)

Module Sample.
Import Rotation.

Definition Now (w : Z) : Z * Z := (w, w).
Definition Send (_ : unit) (_ : bytes) (_ : Message) (w : Z) : option error * Z := (None, w).
Definition Call (_ : unit) (_ : Message) (w : Z) : option error * Z := (None, w).

Definition router (address : bytes) (ep : gmap nat endpointBox) : Runtime (reader := unit) (handler := unit) (senderT := unit) (world := Z) :=
  mkRuntime (NewGateway tt None) address (Some tt) 0 None
    (mkRegistry (replicate (Z.to_nat circuitShards) emptyShard) ∅ ∅ ep 0) Pool.initial 0 [].

Definition key (n : Z) : bytes * bytes := (replicate 32 n, replicate 32 (n + 1)).

(** The creator, the participant and the endpoint. *)
Definition creator := (RegisterOutbound map_to_list Now (mkOutboundCircuit 70 zeroHash (replicate 32 1) 71
  [cipher (key 5) false; cipher (key 3) false] 0) (router (replicate 32 9) ∅)).2.
Definition participant := (RegisterInbound map_to_list map_to_list map_to_list Now (mkInboundCircuit 71 zeroHash
  [cipher (key 3) true] (Some (mkForward (replicate 32 2) 72)) None None 0) (router (replicate 32 1) ∅)).2.
Definition endpoint := (RegisterInbound map_to_list map_to_list map_to_list Now (mkInboundCircuit 72 zeroHash
  [cipher (key 5) true] None (Some 0%nat) (Some tt) 0) (router (replicate 32 2) {[0%nat := mkBox false (NewEndpoint 4 0)]})).2.

Definition message : Message := mkMessage (mkHeader I2NP.Garlic 7 1700000000123) (replicate 2500 9).
Definition block : Block := mkBlock DeliveryLocal zeroHash 0 0 0 false true (frame (MHeader message) (Payload message)).

Definition hops : list hop := [mkHop 71 (key 3)].

Lemma length_passAll (rs : list (Runtime (reader := unit) (handler := unit) (senderT := unit) (world := Z))) peer ms :
  length (passAll tt sevens map_to_list map_to_list Now Send Call (fun _ => None) rs peer ms).1 = length ms.
Proof.
  revert rs. induction ms as [|m ms IH]; intros rs; [done|]. cbn [passAll].
  destruct (pass tt sevens map_to_list map_to_list Now Send Call (fun _ => None) rs peer m) as [o rs1].
  specialize (IH rs1). destruct (passAll tt sevens map_to_list map_to_list Now Send Call (fun _ => None) rs1 peer ms) as [os rs2].
  cbn [fst length] in *. by rewrite IH.
Qed.

Lemma three_fragments :
  length (handoffs (SendBlock tt sevens Now Send (fun _ => None) 70 block creator).2) = 3%nat.
Proof. vm_compute. reflexivity. Qed.

Lemma block_message : message_of block message /\ block_bytes block.
Proof.
  assert (Hb : bytes_ok (Data block)) by (apply bytes_ok_check; vm_compute; reflexivity).
  assert (Hz : bytes_ok zeroHash) by (apply bytes_ok_check; vm_compute; reflexivity).
  split; [|done]. split; [|split; [done|]].
  - split; [|split; [done|vm_compute; congruence]]. split; [vm_compute; done|]. split; [vm_compute; split; congruence|]. split; [done|].
    change (0 <= DeliveryLocal <= 2 /\ (DeliveryLocal = DeliveryTunnel -> 0 < 0 < 2 ^ 32)). unfold DeliveryLocal, DeliveryTunnel. lia.
  - unfold header_ok, is_byte. vm_compute. intuition congruence.
Qed.
End Sample.

