(* ===== verification/CircuitRuntime.v ===== *)
(** The interface between tunnel building and the circuit registry: the
    operations of [CircuitRuntime] in [src/dataplane/internal/tunnel/circuits.go]
    that the builder calls, the laws it relies on, and the registry of Circuits
    as their implementation. *)

From S2P Require Import Prelude Wire Sha256 I2NP Buffers TunnelBlocks Reassembly Gateway Chacha TunnelCrypto Endpoint Circuits Registry.

(** What is registered under an identifier. *)
Inductive installation {handler : Type} :=
| InstalledIn (c : InboundCircuit (handler := handler))
| InstalledOut (c : OutboundCircuit).
Arguments installation : clear implicits.

(** [newEndpoint] is the allocation by [NewEndpoint], whose result a circuit
    holds by reference. *)
Class CircuitRuntime (T handler : Type) := {
  newEndpoint : Z -> Z -> T -> nat * T;
  registerOutbound : OutboundCircuit -> go T CircuitToken;
  registerInbound : InboundCircuit (handler := handler) -> go T CircuitToken;
  removeCircuit : CircuitToken -> go T bool;
  inspectCircuit : Z -> T -> option CircuitInfo }.

Section Laws.
Context {T handler : Type}.

(** The result of registering [c] under [id]: it is there, alone changed, and
    the token names it; or nothing changed. *)
Definition registered (ok : T -> Prop) (view : Z -> T -> option (installation handler)) (names : CircuitToken -> T -> Prop)
    (id : Z) (c : installation handler) (t : T) (r : res CircuitToken) (t' : T) : Prop :=
  ok t' /\
  match r with
  | Ok token => tokenID token = id /\ names token t' /\ view id t = None /\
      forall k, view k t' = if decide (k = id) then Some c else view k t
  | Err _ => forall k, view k t' = view k t
  | Panic => False
  end.
End Laws.

Class CircuitRuntimeLaws (T handler : Type) `{!CircuitRuntime T handler} := {
  table_ok : T -> Prop;
  view : Z -> T -> option (installation handler);
  names : CircuitToken -> T -> Prop;
  allocated : nat -> T -> Prop;
  newEndpoint_law n m t : table_ok t ->
    let (e, t') := newEndpoint n m t in table_ok t' /\ allocated e t' /\ forall k, view k t' = view k t;
  registerOutbound_law c t r t' : table_ok t -> registerOutbound c t = (r, t') ->
    registered table_ok view names (OID c) (InstalledOut c) t r t';
  registerInbound_law c t r t' : table_ok t -> (forall e, IEndpoint c = Some e -> allocated e t) ->
    registerInbound c t = (r, t') -> registered table_ok view names (IID c) (InstalledIn c) t r t';
  removeCircuit_law token t : table_ok t -> names token t ->
    exists t', removeCircuit token t = (Ok true, t') /\ table_ok t' /\
      forall k, view k t' = if decide (k = tokenID token) then None else view k t;
  removeCircuit_none t : removeCircuit noToken t = (Ok false, t);
  inspectCircuit_law id t : table_ok t -> inspectCircuit id t = None -> id <> 0 -> view id t = None }.

(** ** The registry *)

Section Implementation.
Context {reader handler senderT world : Type}.
Context (range : gmap Z partial -> list (Z * partial)).
Context (rangeMeta : gmap Z deliveryMeta -> list (Z * deliveryMeta)).
Context (rangeCircuits : gmap Z nat -> list (Z * nat)).
Context (Now : world -> Z * world).
Abbreviation reg_t := (registry (handler := handler)).
Abbreviation Runtime := (Runtime (reader := reader) (handler := handler) (senderT := senderT) (world := world)).

(** An unused address for the endpoint. *)
Definition allocEndpoint (n m : Z) (r : Runtime) : nat * Runtime :=
  let g := reg r in
  let e : nat := base.fresh (dom (endpoints g) : gset nat) in
  (e, set_reg (set_endpoints (<[e := mkBox false (NewEndpoint n m)]> (endpoints g)) g) r).

#[local] Instance registry_runtime : CircuitRuntime Runtime handler := {|
  newEndpoint := allocEndpoint;
  registerOutbound := RegisterOutbound rangeCircuits Now;
  registerInbound := RegisterInbound range rangeMeta rangeCircuits Now;
  removeCircuit := RemoveCircuit range rangeMeta rangeCircuits Now;
  inspectCircuit id r := InspectCircuit id (reg r) |}.

Definition viewReg (id : Z) (g : reg_t) : option (installation handler) :=
  match entryIn g (shardIndex id) id with
  | Some c =>
      x ← ins g !! c;
      Some (InstalledIn (mkInboundCircuit id (iowner x) (itransforms x) (iforward x) (iendpoint x) (ilocal x) (iexpiresAt x)))
  | None =>
      c ← entryOut g (shardIndex id) id;
      x ← outs g !! c;
      Some (InstalledOut (mkOutboundCircuit id (oowner x) (firstHop x) (nextTunnelID x) (otransforms x) (oexpiresAt x)))
  end.

Lemma view_claim (g : reg_t) m id : viewReg id (set_endpoints m g) = viewReg id g.
Proof. done. Qed.

Lemma view_none (g : reg_t) p id : reg_ok g p -> viewReg id g = None <->
  entryIn g (shardIndex id) id = None /\ entryOut g (shardIndex id) id = None.
Proof.
  intros H. unfold viewReg. destruct (entryIn g (shardIndex id) id) as [c|] eqn:Ei.
  - destruct (held_in g p _ id c H Ei) as (x & -> & _). cbn. naive_solver.
  - destruct (entryOut g (shardIndex id) id) as [c|] eqn:Eo; [|done].
    destruct (held_out g p _ id c H Eo) as (x & Hx & _). cbn. rewrite Hx. cbn. naive_solver.
Qed.

(** Objects that are referenced keep what the view shows. *)
Lemma view_same (g g' : reg_t) p p' id : reg_ok g p -> reg_ok g' p' ->
  entryIn g' (shardIndex id) id = entryIn g (shardIndex id) id -> entryOut g' (shardIndex id) id = entryOut g (shardIndex id) id ->
  (forall c x, entryIn g (shardIndex id) id = Some c -> ins g !! c = Some x -> exists y, ins g' !! c = Some y /\ sameIn x y) ->
  (forall c x, entryOut g (shardIndex id) id = Some c -> outs g !! c = Some x -> exists y, outs g' !! c = Some y /\ sameOut x y) ->
  viewReg id g' = viewReg id g.
Proof.
  intros H H' EI EO Hin Hout. unfold viewReg. rewrite EI, EO. destruct (entryIn g (shardIndex id) id) as [c|] eqn:Ei.
  - destruct (held_in g p _ id c H Ei) as (x & Hx & _). destruct (Hin c x eq_refl Hx) as (y & Hy & Hs).
    rewrite Hx, Hy. destruct Hs as (? & ? & ? & ? & ? & ?). cbn. congruence.
  - destruct (entryOut g (shardIndex id) id) as [c|] eqn:Eo; [|done].
    destruct (held_out g p _ id c H Eo) as (x & Hx & _). destruct (Hout c x eq_refl Hx) as (y & Hy & Hs). cbn.
    rewrite Hx, Hy. destruct Hs as (? & ? & ? & ? & ?). cbn. congruence.
Qed.

Definition ok_table (r : Runtime) : Prop := exists p, reg_ok (reg r) p.
Definition names_token (token : CircuitToken) (r : Runtime) : Prop := tokenID token <> 0 /\ liveToken (reg r) token.

Lemma insertOut_view id x (g : reg_t) p :
  reg_ok g p -> orefs x = 1 -> viewReg id g = None ->
  reg_ok (insertOut id x g) p /\ entryOut (insertOut id x g) (shardIndex id) id = Some (nextRef g) /\
  forall k, viewReg k (insertOut id x g) =
    if decide (k = id) then
      Some (InstalledOut (mkOutboundCircuit id (oowner x) (firstHop x) (nextTunnelID x) (otransforms x) (oexpiresAt x)))
    else viewReg k g.
Proof.
  intros H Hx [Hi Ho]%(view_none g p id H). destruct (insertOut_ok id x g p H Hx Hi) as (H' & EO & EI).
  rewrite Ho in H'. cbn in H'. pose proof (insertOut_keeps id x g p H) as [_ Hk]. split; [done|]. split.
  { by rewrite EO, decide_True. }
  intros k. case_decide as Hd.
  - subst k. unfold viewReg. rewrite EI, EO, Hi, decide_True by done. cbn.
    by rewrite lookup_insert_eq.
  - apply (view_same g _ p p); try done; [by rewrite EO, decide_False by naive_solver|by eexists|].
    intros c y _ Hy. exists y. split; [|done]. cbn. rewrite lookup_insert_ne; [done|]. intros <-.
    destruct (co_fresh _ (reg_contents _ _ H) (nextRef g) ltac:(lia)). congruence.
Qed.

Lemma insertIn_view id x (g : reg_t) p :
  reg_ok g p -> irefs x = 1 -> viewReg id g = None ->
  (forall e, iendpoint x = Some e -> installed <$> endpoints g !! e = Some true /\
    forall c y, ins g !! c = Some y -> iendpoint y <> Some e) ->
  reg_ok (insertIn id x g) p /\ entryIn (insertIn id x g) (shardIndex id) id = Some (nextRef g) /\
  forall k, viewReg k (insertIn id x g) =
    if decide (k = id) then
      Some (InstalledIn (mkInboundCircuit id (iowner x) (itransforms x) (iforward x) (iendpoint x) (ilocal x) (iexpiresAt x)))
    else viewReg k g.
Proof.
  intros H Hx [Hi Ho]%(view_none g p id H) He. destruct (insertIn_ok id x g p H Hx Ho He) as (H' & EI & EO).
  rewrite Hi in H'. cbn in H'. split; [done|]. split.
  { by rewrite EI, decide_True. }
  intros k. case_decide as Hd.
  - subst k. unfold viewReg. rewrite EI, decide_True by done. cbn. by rewrite lookup_insert_eq.
  - apply (view_same g _ p p); try done; [by rewrite EI, decide_False by naive_solver| |by eexists].
    intros c y _ Hy. exists y. split; [|apply sameIn_refl]. cbn. rewrite lookup_insert_ne; [done|]. intros <-.
    destruct (co_fresh _ (reg_contents _ _ H) (nextRef g) ltac:(lia)). congruence.
Qed.

Lemma unoccupied (a b : option nat) : bool_decide (is_Some a) || bool_decide (is_Some b) = false -> a = None /\ b = None.
Proof.
  intros [Ha%bool_decide_eq_false Hb%bool_decide_eq_false]%orb_false_iff. split; by apply eq_None_not_Some.
Qed.

Lemma RegisterOutbound_law c (r r' : Runtime) res : ok_table r -> RegisterOutbound rangeCircuits Now c r = (res, r') ->
  registered ok_table (fun k r => viewReg k (reg r)) names_token (OID c) (InstalledOut c) r res r'.
Proof.
  intros [p H]. unfold RegisterOutbound, installOutbound.
  destruct ((OID c =? 0) || (ONextTunnelID c =? 0)) eqn:Ez; [intros [= <- <-]; split; [by exists p|done]|].
  apply orb_false_iff in Ez as [Ez _]. unfold gbind at 1.
  destruct (swapOutbound Now c noToken r) as [sw r1] eqn:Es. pose proof Es as Hs. apply swapOutbound_inv in Hs.
  destruct sw as [[n old]|e|]; [|intros [= <- <-]; split; [exists p; congruence|]; intros k; by rewrite Hs|].
  - destruct Hs as (-> & Hold & Hadm & Hreg). cbn [snd fst]. unfold admitted in Hadm. cbn [generation noToken] in Hadm.
    apply unoccupied in Hadm as [-> Hin]. symmetry in Hold. cbn [fst].
    assert (Hv : viewReg (OID c) (reg r) = None) by (by apply (view_none _ p)).
    destruct (insertOut_view (OID c) (mkOutbound 1 (OOwner c) (OFirstHop c) (ONextTunnelID c) (OTransforms c) (OExpiresAt c) 0)
      (reg r) p H eq_refl Hv) as (H' & He & Hview). rewrite <- Hreg in *.
    unfold gbind at 1, ret at 1. destruct (quiet_publish rangeCircuits Now r1) as ([] & r2 & Hp & Hr2).
    unfold gbind. rewrite Hp. intros [= <- <-]. split; [exists p; by rewrite Hr2|]. rewrite Hr2. split; [done|].
    split; [split; [cbn; lia|]|].
    + exists (nextRef (reg r)). split; [done|]. right. by rewrite Hr2.
    + split; [done|]. intros k. rewrite Hview. by destruct c.
  - exfalso. revert Es. unfold swapOutbound. go_unfold. destruct (expired Now (OExpiresAt c) r) as [d r2] eqn:Ex.
    apply expired_frame in Ex as (b & -> & _). destruct b; [done|].
    match goal with |- context [admission ?a ?b ?c ?d ?e] => pose proof (admission_total a b c d e); destruct (admission a b c d e) end; done.
Qed.

Lemma RegisterInbound_law c (r r' : Runtime) res :
  ok_table r -> (forall e, IEndpoint c = Some e -> is_Some (endpoints (reg r) !! e)) ->
  RegisterInbound range rangeMeta rangeCircuits Now c r = (res, r') ->
  registered ok_table (fun k r => viewReg k (reg r)) names_token (IID c) (InstalledIn c) r res r'.
Proof.
  intros [p H] Hep. unfold RegisterInbound, installInbound, gbind at 1, lift.
  destruct (inboundShape c) as [[]|e|] eqn:Esh; [|intros [= <- <-]; split; [by exists p|done]|].
  2: { exfalso. revert Esh. unfold inboundShape. repeat case_match; done. }
  assert (Ez : IID c <> 0) by (revert Esh; unfold inboundShape; destruct (Z.eqb_spec (IID c) 0); done).
  unfold gbind at 1. destruct (swapInbound Now c noToken r) as [sw r1] eqn:Es.
  destruct (swapInbound_inv Now c noToken r r1 sw p H Hep Es) as (m & Hm & Hs).
  destruct sw as [[n old]|e|]; [|intros [= <- <-]; split; [exists p; congruence|]; intros k; by rewrite Hs|].
  - destruct Hs as (-> & Hold & Hadm & Hfree & Hreg). cbn [snd fst]. unfold admitted in Hadm. cbn [generation noToken] in Hadm.
    apply unoccupied in Hadm as [-> Hout]. symmetry in Hold. cbn [fst]. set (g := set_endpoints m (reg r)) in *.
    assert (Hv : viewReg (IID c) g = None) by (by apply (view_none _ p)).
    destruct (insertIn_view (IID c) (mkInbound 1 (IOwner c) (ITransforms c) (IForward c) (IEndpoint c) (ILocal c) (IExpiresAt c) 0)
      g p Hm eq_refl Hv Hfree) as (H' & He & Hview). rewrite <- Hreg in *.
    unfold gbind at 1, ret at 1. destruct (quiet_publish rangeCircuits Now r1) as ([] & r2 & Hp & Hr2).
    unfold gbind. rewrite Hp. intros [= <- <-]. split; [exists p; by rewrite Hr2|]. rewrite Hr2. split; [done|].
    split; [split; [done|]|].
    + exists (nextRef g). split; [done|]. left. by rewrite Hr2.
    + split; [done|]. intros k. rewrite Hview. by destruct c.
  - exfalso. revert Es. unfold swapInbound. go_unfold. destruct (expired Now (IExpiresAt c) r) as [d r2] eqn:Ex.
    apply expired_frame in Ex as (b & -> & _). destruct b; [done|].
    match goal with |- context [admission ?a ?b ?c ?d ?e] => pose proof (admission_total a b c d e); destruct (admission a b c d e) end; [|done..].
    by destruct (claimEndpoint (IEndpoint c) (reg r2)) as [[] ?].
Qed.

Lemma RemoveCircuit_law token (r : Runtime) : ok_table r -> names_token token r ->
  exists r', RemoveCircuit range rangeMeta rangeCircuits Now token r = (Ok true, r') /\ ok_table r' /\
    forall k, viewReg k (reg r') = if decide (k = tokenID token) then None else viewReg k (reg r).
Proof.
  intros [p H] [Hid Hlive]. destruct (removeLocked_ok range rangeMeta token (reg r) p H) as (H1 & Hev & Hb & _ & Hd & HI & HO).
  pose proof Hlive as (c & Hg & Hc). unfold RemoveCircuit. rewrite Hg, (bool_decide_true (is_Some (Some c))) by done.
  replace (tokenID token =? 0) with false by lia. cbn [orb negb]. unfold gbind, get, put.
  apply Hb in Hlive as Ht. destruct (removeLocked range rangeMeta token (reg r)) as [b g]. cbn [fst snd] in *. subst b.
  destruct (quiet_publish rangeCircuits Now (set_reg g r)) as ([] & r' & Hp & Hreg). exists r'. rewrite Hp. split; [done|].
  cbn in Hreg. rewrite Hreg. split; [exists p; by rewrite Hreg|]. intros k. case_decide as Hk.
  - subst k. apply (view_none _ p); [done|]. destruct (HI (shardIndex (tokenID token)) (tokenID token)) as [EI|(_ & _ & EI)];
      destruct (HO (shardIndex (tokenID token)) (tokenID token)) as [EO|(_ & _ & EO)]; rewrite ?EI, ?EO; try done.
    + exfalso. apply Hd. exists c. by rewrite EI, EO.
    + split; [|done]. destruct Hc as [Hc|Hc].
      * exfalso. apply Hd. exists c. split; [done|]. left. by rewrite EI.
      * apply eq_None_not_Some. intros [d Hd']. by apply (reg_excl _ _ H _ _ _ _ _ Hd' Hc).
    + split; [done|]. destruct Hc as [Hc|Hc].
      * apply eq_None_not_Some. intros [d Hd']. by apply (reg_excl _ _ H _ _ _ _ _ Hc Hd').
      * exfalso. apply Hd. exists c. split; [done|]. right. by rewrite EO.
  - assert (EI : entryIn g (shardIndex k) k = entryIn (reg r) (shardIndex k) k) by (by destruct (HI (shardIndex k) k) as [?|(? & _)]).
    assert (EO : entryOut g (shardIndex k) k = entryOut (reg r) (shardIndex k) k) by (by destruct (HO (shardIndex k) k) as [?|(? & _)]).
    apply (view_same (reg r) g p p); try done; intros d x He Hx.
    + eapply keptIn; [exact H1|exact Hev|by rewrite EI|done].
    + eapply keptOut; [exact H1|exact Hev|by rewrite EO|done].
Qed.

#[export] Instance registry_laws : CircuitRuntimeLaws Runtime handler.
Proof.
  refine {| table_ok := ok_table; view k r := viewReg k (reg r); names := names_token;
    allocated e r := is_Some (endpoints (reg r) !! e) |}.
  - intros n m r [p H]. cbn. set (e := base.fresh _). split; [|split; [by rewrite lookup_insert_eq|done]].
    exists p. apply reg_ok_claim; [|done]. intros d Hd. cbn. rewrite lookup_insert_ne; [done|]. intros <-.
    pose proof (is_fresh (dom (endpoints (reg r)) : gset nat)) as Hf. fold e in Hf. apply Hf, elem_of_dom.
    destruct (endpoints (reg r) !! e); done.
  - intros c r res r'. apply RegisterOutbound_law.
  - intros c r res r'. apply RegisterInbound_law.
  - apply RemoveCircuit_law.
  - done.
  - intros id r [p H] Hi Hid. apply (view_none _ p); [done|]. revert Hi. cbn. unfold InspectCircuit.
    replace (id =? 0) with false by lia. unfold entryIn, entryOut, shard. destruct (inbound _ !! id) as [c|] eqn:Ei.
    + destruct (held_in (reg r) p (shardIndex id) id c H Ei) as (x & -> & _). done.
    + destruct (outbound _ !! id) as [c|] eqn:Eo; [|done].
      destruct (held_out (reg r) p (shardIndex id) id c H Eo) as (x & Hx & _). cbn. by rewrite Hx.
Defined.
End Implementation.
