(* ===== verification/BuildRecord.v ===== *)
(** Short tunnel build records, [src/controlplane/internal/tunnel/build_record.go]
    and the option codec of [build_manager.go]: the request a creator seals for
    each hop, the layers that hide later records, what a hop does to a build
    message, and how the creator opens the replies.

    X25519 ([crypto/ecdh]) and the ChaCha20 primitives are parameters.  A buffer
    a function writes is returned with its contents after the call; after an
    error the callers discard their buffers, and the model does not return
    them.  A random reader is a parameter with a state: what [io.ReadFull] and
    [GenerateKey] answer in it.  [nil] keys and options are [None]. *)

From S2P Require Import Prelude Sha256 Wire Chacha NTCP2 Noise Identity.
From Stdlib Require Strings.String.
Import String.StringSyntax.

Definition ShortBuildRecordSize : Z := 218.
Definition ShortBuildRequestPlainSize : Z := 154.
Definition ShortBuildReplyPlainSize : Z := 202.
Definition shortBuildPeerSize : Z := 16.
Definition shortBuildEphemeralSize : Z := 32.
Definition shortBuildCipherOffset : Z := shortBuildPeerSize + shortBuildEphemeralSize.
Definition shortBuildFlagOffset : Z := 40.
Definition shortBuildGatewayFlag : Z := Z.shiftl 1 7.
Definition shortBuildEndpointFlag : Z := Z.shiftl 1 6.
Definition shortBuildOptionsOffset : Z := 56.
Definition shortBuildMaxOptionsSize : Z := 98.
Definition shortBuildLifetime : Z := 600.
Definition shortBuildProtocol : bytes := str "Noise_N_25519_ChaChaPoly_SHA256".

(** ** Bandwidth options *)

Record ShortBuildOptions := mkOptions { Minimum : Z; Requested : Z; Limit : Z }.

Definition validShortBuildOptions (options : ShortBuildOptions) (gateway : bool) : bool :=
  if negb (Limit options =? 0) && negb gateway then false
  else if negb (Minimum options =? 0) && negb (Requested options =? 0) && (Minimum options >? Requested options) then false
  else if negb (Requested options =? 0) && negb (Limit options =? 0) && (Requested options >? Limit options) then false
  else (Minimum options =? 0) || (Limit options =? 0) || (Minimum options <=? Limit options).

(** [strconv.ParseUint(s, 10, 32)]: [None] for a syntax or range error. *)
Fixpoint parseDigits (n : Z) (s : bytes) : option Z :=
  match s with
  | [] => Some n
  | c :: s =>
      if (c <? 48) || (c >? 57) then None
      else if n >=? 1844674407370955162 then None
      else let n1 := n * 10 + (c - 48) in
           if n1 >? 2 ^ 32 - 1 then None else parseDigits n1 s
  end.

Definition ParseUint32 (s : bytes) : option Z :=
  match s with [] => None | _ => parseDigits 0 s end.

(** [strconv.FormatUint(v, 10)]: the digits, [fuel] of them at most. *)
Fixpoint formatDigits (fuel : nat) (v : Z) (tail : bytes) : bytes :=
  match fuel with
  | O => tail
  | S fuel => if v <? 10 then (48 + v) :: tail else formatDigits fuel (v / 10) (48 + v mod 10 :: tail)
  end.

Definition FormatUint (v : Z) : bytes := formatDigits 20 v [].

(** [None] when every option is zero. *)
Definition marshalShortBuildOptions (options : ShortBuildOptions) : res (option bytes) :=
  if (Minimum options =? 0) && (Requested options =? 0) && (Limit options =? 0) then Ok None
  else
    let entry k v := if negb (v =? 0) then [mkEntry (Some k) (FormatUint v)] else [] in
    let entries := entry (str "l") (Limit options) ++ entry (str "m") (Minimum options) ++ entry (str "r") (Requested options) in
    let? size := MappingEncodedLen entries in
    let? (wire, _) := MarshalMappingTo (make_bytes size) entries in
    Ok (Some wire).

(** The loop of [parseShortBuildOptions] over the unread entries; [None] where
    the code returns false. *)
Fixpoint optionsLoop (fuel : nat) (rest : bytes) (options : ShortBuildOptions) : res (option ShortBuildOptions) :=
  match fuel with
  | O => Panic
  | S fuel =>
      match NextEntry rest with
      | Panic => Panic
      | Err _ => Ok None
      | Ok (None, _) => Ok (Some options)
      | Ok (Some (key, value), rest) =>
          let set f :=
            match ParseUint32 value with
            | Some parsed => if parsed =? 0 then Ok None else optionsLoop fuel rest (f parsed)
            | None => Ok None
            end in
          if bytes_eqb key (str "l") then set (fun v => mkOptions (Minimum options) (Requested options) v)
          else if bytes_eqb key (str "m") then set (fun v => mkOptions v (Requested options) (Limit options))
          else if bytes_eqb key (str "r") then set (fun v => mkOptions (Minimum options) v (Limit options))
          else optionsLoop fuel rest options
      end
  end.

Definition parseShortBuildOptions (mapping : bytes) (gateway : bool) : res (option ShortBuildOptions) :=
  let? rest := Iterator mapping in
  let? options := optionsLoop (S (length rest)) rest (mkOptions 0 0 0) in
  match options with
  | Some options => if validShortBuildOptions options gateway then Ok (Some options) else Ok None
  | None => Ok None
  end.

(** ** Requests *)

(** [Options] is the parsed mapping, its bytes. *)
Record ShortBuildRequest := mkRequest {
  ReceiveTunnelID : Z; NextTunnelID : Z; NextRouter : bytes; Gateway : bool; Endpoint : bool;
  RequestMinutes : Z; LifetimeSeconds : Z; NextMessageID : Z; Options : bytes; Bandwidth : ShortBuildOptions }.

Section Marshal.
Context {R : Type} (ReadFull : Z -> go R bytes).

(** The fields before the padding; [hasRandom] when the reader is not nil. *)
Definition requestFields (dst : bytes) (request : ShortBuildRequest) (options : bytes) : res bytes :=
  let? dst := write dst 0 (make_bytes ShortBuildRequestPlainSize) in
  let? dst := write dst 0 (be_bytes 4 (ReceiveTunnelID request)) in
  let? dst := write dst 4 (be_bytes 4 (NextTunnelID request)) in
  let? dst := write dst 8 (NextRouter request) in
  let? dst := if Gateway request then write dst shortBuildFlagOffset [shortBuildGatewayFlag] else Ok dst in
  let? dst := if Endpoint request then write dst shortBuildFlagOffset [shortBuildEndpointFlag] else Ok dst in
  let? dst := write dst 44 (be_bytes 4 (RequestMinutes request)) in
  let? dst := write dst 48 (be_bytes 4 (LifetimeSeconds request)) in
  let? dst := write dst 52 (be_bytes 4 (NextMessageID request)) in
  copy_at dst shortBuildOptionsOffset options.

Definition marshalShortBuildRequest (dst : bytes) (request : ShortBuildRequest) (options : option bytes) (hasRandom : bool) :
    go R bytes :=
  if (len dst <? ShortBuildRequestPlainSize) || (ReceiveTunnelID request =? 0) || (NextTunnelID request =? 0) ||
     (NextMessageID request =? 0) || Gateway request && Endpoint request ||
     negb (LifetimeSeconds request =? shortBuildLifetime) || negb hasRandom then fail ErrShortBuildRecord
  else
    let options := default [0; 0] options in
    match ParseMapping options with
    | Panic => lift Panic
    | Err _ => fail ErrShortBuildRecord
    | Ok (mapping, used) =>
        if negb (used =? len options) || (len mapping >? shortBuildMaxOptionsSize) then fail ErrShortBuildRecord
        else
          let! dst := lift (requestFields dst request options) in
          let! padding := ReadFull (ShortBuildRequestPlainSize - (shortBuildOptionsOffset + len options)) in
          lift (write dst (shortBuildOptionsOffset + len options) padding)
    end.
End Marshal.

Definition ParseShortBuildRequest (plaintext : bytes) : res ShortBuildRequest :=
  fail_if negb (len plaintext =? ShortBuildRequestPlainSize) with ErrShortBuildRecord ;;
  let? flags := index plaintext shortBuildFlagOffset in
  let? b41 := index plaintext 41 in
  let? b42 := index plaintext 42 in
  let? b43 := index plaintext 43 in
  let both := Z.lor shortBuildGatewayFlag shortBuildEndpointFlag in
  fail_if negb (Z.land flags (255 - both) =? 0) || (Z.land flags both =? both) ||
          negb (b41 =? 0) || negb (b42 =? 0) || negb (b43 =? 0) with ErrShortBuildRecord ;;
  let? f := slice plaintext 0 4 in
  let? receive := be_uint 4 f in
  let? f := slice plaintext 4 8 in
  let? next := be_uint 4 f in
  let gateway := negb (Z.land flags shortBuildGatewayFlag =? 0) in
  let endpoint := negb (Z.land flags shortBuildEndpointFlag =? 0) in
  let? f := slice plaintext 44 48 in
  let? minutes := be_uint 4 f in
  let? f := slice plaintext 48 52 in
  let? lifetime := be_uint 4 f in
  let? f := slice plaintext 52 56 in
  let? message := be_uint 4 f in
  fail_if (receive =? 0) || (next =? 0) || (message =? 0) || negb (lifetime =? shortBuildLifetime) with ErrShortBuildRecord ;;
  let? router := slice plaintext 8 40 in
  let? tail := slice_from plaintext shortBuildOptionsOffset in
  match ParseMapping tail with
  | Panic => Panic
  | Err _ => Err ErrShortBuildRecord
  | Ok (mapping, used) =>
      fail_if used >? shortBuildMaxOptionsSize with ErrShortBuildRecord ;;
      let? bandwidth := parseShortBuildOptions mapping gateway in
      match bandwidth with
      | None => Err ErrShortBuildRecord
      | Some bandwidth => Ok (mkRequest receive next router gateway endpoint minutes lifetime message mapping bandwidth)
      end
  end.

(** ** Key derivation *)

(** The specialised HMACs: [pad] is a 64-byte block of [b] with the key mixed
    into its first 32 bytes. *)
Definition pad (b : Z) (key : bytes) : bytes := xor (replicate 32 b) key ++ replicate 32 b.

Definition outerHash (key innerHash : bytes) : bytes := Sha256.Sum256 (pad 0x5c key ++ innerHash).

Definition shortBuildHMACBytes (key data : bytes) : res bytes :=
  let inner := pad 0x36 key ++ make_bytes 64 in
  let? inner := copy_at inner 64 data in
  let? message := slice inner 0 (64 + len data) in
  Ok (outerHash key (Sha256.Sum256 message)).

Definition shortBuildHMAC2 (key first : bytes) (counter : Z) : bytes :=
  outerHash key (Sha256.Sum256 (pad 0x36 key ++ first ++ [counter])).

Definition shortBuildHMAC (key : bytes) (prefix : option bytes) (info : bytes) (counter : Z) : res bytes :=
  let inner := pad 0x36 key ++ make_bytes 64 in
  let offset := 64 in
  let? inner := match prefix with Some p => copy_at inner offset p | None => Ok inner end in
  let offset := offset + match prefix with Some _ => 32 | None => 0 end in
  let? inner := copy_at inner offset info in
  let offset := offset + len info in
  let? inner := if negb (counter =? 0) then write inner offset [counter] else Ok inner in
  let offset := offset + if negb (counter =? 0) then 1 else 0 in
  let? message := slice inner 0 offset in
  Ok (outerHash key (Sha256.Sum256 message)).

Definition shortBuildKDF2 (key input : bytes) : res (bytes * bytes) :=
  let? temp := shortBuildHMACBytes key input in
  let? first := shortBuildHMACBytes temp [1] in
  Ok (first, shortBuildHMAC2 temp first 2).

Definition tunnelKDF (salt info : bytes) : res (bytes * bytes) :=
  let? prk := shortBuildHMAC salt None [] 0 in
  let? first := shortBuildHMAC prk None info 1 in
  let? second := shortBuildHMAC prk (Some first) info 2 in
  Ok (first, second).

Record ShortBuildKeys := mkKeys {
  ReplyKey : bytes; LayerKey : bytes; IVKey : bytes; GarlicKey : bytes; GarlicTag : bytes;
  TranscriptHash : bytes; HasGarlicKeys : bool }.

Definition deriveShortBuildKeys (chain hash : bytes) (endpoint : bool) : res ShortBuildKeys :=
  let? (chain, replyKey) := tunnelKDF chain (str "SMTunnelReplyKey") in
  let? (chain, layerKey) := tunnelKDF chain (str "SMTunnelLayerKey") in
  if endpoint then
    let? (chain, ivKey) := tunnelKDF chain (str "TunnelLayerIVKey") in
    let? (chain, garlicKey) := tunnelKDF chain (str "RGarlicKeyAndTag") in
    let? tag := slice chain 0 8 in
    Ok (mkKeys replyKey layerKey ivKey garlicKey tag hash true)
  else Ok (mkKeys replyKey layerKey chain (make_bytes 32) (make_bytes 8) hash false).

(** ** The transcript *)

Record shortBuildState := mkBuildState { bchain : bytes; bhash : bytes }.

(** Both branches of [mixHash] hash the concatenation. *)
Definition mixHash (data : bytes) (s : shortBuildState) : shortBuildState :=
  mkBuildState (bchain s) (Sha256.Sum256 (bhash s ++ data)).

Definition newShortBuildState (static ephemeral : bytes) : shortBuildState :=
  let hash := shortBuildProtocol ++ make_bytes (32 - len shortBuildProtocol) in
  mixHash ephemeral (mixHash static (mixHash [] (mkBuildState hash hash))).

Definition shortBuildNonce (index : Z) : bytes := make_bytes 4 ++ le_bytes 8 index.

Section Code.
Context `{P : Primitives} `{C : Curve} {R : Type} (ReadFull : Z -> go R bytes) (GenerateKey : go R bytes).

(** [e != nil] of an [ecdh] call becomes [ErrShortBuildKey]. *)
Definition agree (private public : bytes) : res bytes :=
  match ecdh private public with Err _ => Err ErrShortBuildKey | r => r end.

Definition endpointFlag (plaintext : bytes) : res bool :=
  let? flags := index plaintext shortBuildFlagOffset in Ok (negb (Z.land flags shortBuildEndpointFlag =? 0)).

(** The record for a fresh [ephemeral] key: [dst] after the call and the keys. *)
Definition sealRequest (dst hop hopStatic plaintext ephemeral : bytes) : res (bytes * ShortBuildKeys) :=
  let? peer := slice hop 0 shortBuildPeerSize in
  let? dst := write dst 0 peer in
  let? dst := write dst shortBuildPeerSize (publicOf ephemeral) in
  let state := newShortBuildState hopStatic (publicOf ephemeral) in
  let? shared := agree ephemeral hopStatic in
  let? (chain, cipherKey) := shortBuildKDF2 (bchain state) shared in
  let state := mkBuildState chain (bhash state) in
  let? region := slice dst shortBuildCipherOffset ShortBuildRecordSize in
  match SealChaCha20Poly1305To region cipherKey (make_bytes 12) plaintext (bhash state) with
  | Panic => Panic
  | Err _ => Err ErrShortBuildRecord
  | Ok ciphertext =>
      let? dst := write dst shortBuildCipherOffset ciphertext in
      let state := mixHash ciphertext state in
      let? endpoint := endpointFlag plaintext in
      let? keys := deriveShortBuildKeys (bchain state) (bhash state) endpoint in
      Ok (dst, keys)
  end.

Definition encryptShortBuildRequest (dst hop hopStatic plaintext : bytes) (hasRandom : bool) : go R (bytes * ShortBuildKeys) :=
  if (len dst <? ShortBuildRecordSize) || negb (len hopStatic =? shortBuildEphemeralSize) ||
     negb (len plaintext =? ShortBuildRequestPlainSize) || negb hasRandom then fail ErrShortBuildRecord
  else
    let! ephemeral := GenerateKey in
    lift (sealRequest dst hop hopStatic plaintext ephemeral).

(** The plaintext, written to the start of [dst], and the keys. *)
Definition decryptShortBuildRequestWithPrivate (dst record local : bytes) (private : option bytes) :
    res (bytes * ShortBuildKeys) :=
  match private with
  | None => Err ErrShortBuildRecord
  | Some private =>
      fail_if (len dst <? ShortBuildRequestPlainSize) || negb (len record =? ShortBuildRecordSize) with ErrShortBuildRecord ;;
      let? a := slice record 0 shortBuildPeerSize in
      let? b := slice local 0 shortBuildPeerSize in
      fail_if negb (bytes_eqb a b) with ErrShortBuildRecord ;;
      let? ephemeral := slice record shortBuildPeerSize shortBuildCipherOffset in
      let state := newShortBuildState (publicOf private) ephemeral in
      let? shared := agree private ephemeral in
      let? (chain, cipherKey) := shortBuildKDF2 (bchain state) shared in
      let state := mkBuildState chain (bhash state) in
      let? ciphertext := slice_from record shortBuildCipherOffset in
      let? region := slice dst 0 ShortBuildRequestPlainSize in
      match OpenChaCha20Poly1305To region cipherKey (make_bytes 12) ciphertext (bhash state) with
      | Panic => Panic
      | Err _ => Err ErrShortBuildRecord
      | Ok plaintext =>
          let state := mixHash ciphertext state in
          let? endpoint := endpointFlag plaintext in
          let? keys := deriveShortBuildKeys (bchain state) (bhash state) endpoint in
          Ok (plaintext, keys)
      end
  end.

Definition DecryptShortBuildRequest (dst record local staticPrivate : bytes) : res (bytes * ShortBuildKeys) :=
  fail_if negb (len staticPrivate =? shortBuildEphemeralSize) with ErrShortBuildRecord ;;
  let? private := match NewPrivateKey staticPrivate with Err _ => Err ErrShortBuildKey | r => r end in
  decryptShortBuildRequestWithPrivate dst record local (Some private).

(** ** Replies and layers *)

(** [dst] after the call. *)
Definition SealShortBuildReply (dst plaintext : bytes) (keys : ShortBuildKeys) (recordIndex : Z) : res bytes :=
  fail_if (recordIndex >=? 8) || (len dst <? ShortBuildRecordSize) || negb (len plaintext =? ShortBuildReplyPlainSize)
    with ErrShortBuildRecord ;;
  let? region := slice dst 0 ShortBuildRecordSize in
  let? region := SealChaCha20Poly1305To region (ReplyKey keys) (shortBuildNonce recordIndex) plaintext (TranscriptHash keys) in
  write dst 0 region.

(** The plaintext, written to the start of [dst]. *)
Definition OpenShortBuildReply (dst ciphertext : bytes) (keys : ShortBuildKeys) (recordIndex : Z) : res bytes :=
  fail_if (recordIndex >=? 8) || (len dst <? ShortBuildReplyPlainSize) || negb (len ciphertext =? ShortBuildRecordSize)
    with ErrShortBuildRecord ;;
  let? region := slice dst 0 ShortBuildReplyPlainSize in
  match OpenChaCha20Poly1305To region (ReplyKey keys) (shortBuildNonce recordIndex) ciphertext (TranscriptHash keys) with
  | Panic => Panic
  | Err _ => Err ErrShortBuildRecord
  | Ok plaintext => Ok plaintext
  end.

(** [dst] after the call; the stream already counts from block one. *)
Definition TransformShortBuildRecord (dst src replyKey : bytes) (recordIndex : Z) : res bytes :=
  fail_if (recordIndex >=? 8) || (len dst <? ShortBuildRecordSize) || negb (len src =? ShortBuildRecordSize)
    with ErrShortBuildRecord ;;
  let? stream := NewChaCha20Stream replyKey (shortBuildNonce recordIndex) in
  write dst 0 (XORKeyStream stream src).

(** [records[slot*218:(slot+1)*218]], and that region after it was written. *)
Definition recordAt (records : bytes) (slot : Z) : res bytes :=
  slice records (slot * ShortBuildRecordSize) ((slot + 1) * ShortBuildRecordSize).
Definition putRecord (records : bytes) (slot : Z) (record : bytes) : res bytes :=
  write records (slot * ShortBuildRecordSize) record.

(** A record transformed in place with each of the keys. *)
Fixpoint transformWith (keys : list ShortBuildKeys) (record : bytes) (slot : Z) : res bytes :=
  match keys with
  | [] => Ok record
  | k :: keys =>
      let? record := TransformShortBuildRecord record record (ReplyKey k) slot in
      transformWith keys record slot
  end.

(** *** The creator, before sending *)

Fixpoint checkPositions (count : Z) (used positions : list Z) : res unit :=
  match positions with
  | [] => Ok tt
  | position :: positions =>
      fail_if (position >=? count) || bool_decide (position ∈ used) with ErrShortBuildRecord ;;
      checkPositions count (position :: used) positions
  end.

(** [for later := ...; later < len(keys); later++], [n] rounds. *)
Fixpoint preprocessLoop (n : nat) (later : Z) (records : bytes) (keys : list ShortBuildKeys) (positions : list Z) : res bytes :=
  match n with
  | O => Ok records
  | S n =>
      let? slot := index positions later in
      let? record := recordAt records slot in
      let? record := transformWith (take (Z.to_nat later) keys) record slot in
      let? records := putRecord records slot record in
      preprocessLoop n (later + 1) records keys positions
  end.

Definition PreprocessShortBuildRecords (records : bytes) (keys : list ShortBuildKeys) (positions : list Z) : res bytes :=
  fail_if (len keys =? 0) || negb (len keys =? len positions) || negb (len records mod ShortBuildRecordSize =? 0)
    with ErrShortBuildRecord ;;
  let count := len records / ShortBuildRecordSize in
  fail_if (count <? len keys) || (count >? 8) with ErrShortBuildRecord ;;
  let? _ := checkPositions count [] positions in
  preprocessLoop (length keys - 1) 1 records keys positions.

(** *** A hop *)

(** The search for the record addressed to [local], from [index] on, [n]
    records; [found] is -1 until there is one, a second one is [again]. *)
Fixpoint findRecord (again : error) (n : nat) (index : Z) (records local : bytes) (found : Z) : res Z :=
  match n with
  | O => Ok found
  | S n =>
      let? record := recordAt records index in
      let? a := slice record 0 shortBuildPeerSize in
      let? b := slice local 0 shortBuildPeerSize in
      if bytes_eqb a b then
        fail_if found >=? 0 with again ;;
        findRecord again n (index + 1) records local index
      else findRecord again n (index + 1) records local found
  end.

(** The reply layer on every record but [found]. *)
Fixpoint layerOthers (n : nat) (index : Z) (records replyKey : bytes) (found : Z) : res bytes :=
  match n with
  | O => Ok records
  | S n =>
      if index =? found then layerOthers n (index + 1) records replyKey found
      else
        let? other := recordAt records index in
        let? other := TransformShortBuildRecord other other replyKey index in
        let? records := putRecord records index other in
        layerOthers n (index + 1) records replyKey found
  end.

(** The slot of the hop's own record, the record, its request and the keys. *)
Definition openOwnRecord (records plaintextDst local : bytes) (private : option bytes) :
    res (Z * bytes * ShortBuildRequest * ShortBuildKeys) :=
  let count := len records / ShortBuildRecordSize in
  let? found := findRecord ErrShortBuildRecord (Z.to_nat count) 0 records local (-1) in
  fail_if found <? 0 with ErrShortBuildRecord ;;
  let? record := recordAt records found in
  let? (plaintext, derived) := decryptShortBuildRequestWithPrivate plaintextDst record local private in
  let? request := ParseShortBuildRequest plaintext in
  Ok (found, record, request, derived).

(** The reply sealed over the hop's own record, and its layer on the others. *)
Definition answerRecords (records record reply : bytes) (keys : ShortBuildKeys) (found : Z) : res bytes :=
  let count := len records / ShortBuildRecordSize in
  let? record := SealShortBuildReply record reply keys found in
  let? records := putRecord records found record in
  layerOthers (Z.to_nat count) 0 records (ReplyKey keys) found.

(** The records after the call, the request, the keys and the slot. *)
Definition processShortBuildRecordsWithPrivate (records plaintextDst local : bytes) (private : option bytes) (accept : bool)
    (hasRandom : bool) : go R (bytes * ShortBuildRequest * ShortBuildKeys * Z) :=
  if negb (len records mod ShortBuildRecordSize =? 0) || (len plaintextDst <? ShortBuildRequestPlainSize) ||
     bool_decide (private = None) || negb hasRandom then fail ErrShortBuildRecord
  else
    let count := len records / ShortBuildRecordSize in
    if (count <? 1) || (count >? 8) then fail ErrShortBuildRecord
    else
      let! (found, record, request, derived) := lift (openOwnRecord records plaintextDst local private) in
      let! padding := ReadFull (ShortBuildReplyPlainSize - 3) in
      let reply := [0; 0] ++ padding ++ [if accept then 0 else 30] in
      let! records := lift (answerRecords records record reply derived found) in
      ret (records, request, derived, found).

Definition ProcessShortBuildRecords (records plaintextDst local staticPrivate : bytes) (accept hasRandom : bool) :
    go R (bytes * ShortBuildRequest * ShortBuildKeys * Z) :=
  if negb (len staticPrivate =? shortBuildEphemeralSize) then fail ErrShortBuildRecord
  else
    match NewPrivateKey staticPrivate with
    | Ok private => processShortBuildRecordsWithPrivate records plaintextDst local (Some private) accept hasRandom
    | Err _ => fail ErrShortBuildKey
    | Panic => lift Panic
    end.

(** *** The creator, on the replies *)

(** From path position [hop] on; [dst] after the call. *)
Fixpoint openLoop (hop : Z) (positions : list Z) (replies : bytes) (keys : list ShortBuildKeys) (dst : bytes) : res bytes :=
  match positions with
  | [] => Ok dst
  | slot :: positions =>
      fail_if slot >=? len replies / ShortBuildRecordSize with ErrShortBuildRecord ;;
      let? record := recordAt replies slot in
      let? record := transformWith (drop (Z.to_nat (hop + 1)) keys) record slot in
      let? region := slice dst (hop * ShortBuildReplyPlainSize) ((hop + 1) * ShortBuildReplyPlainSize) in
      let? k := index keys hop in
      let? plaintext := OpenShortBuildReply region record k slot in
      let? dst := write dst (hop * ShortBuildReplyPlainSize) plaintext in
      match ParseMapping plaintext with
      | Panic => Panic
      | Err _ => Err ErrShortBuildRecord
      | Ok (mapping, used) =>
          fail_if (used >? ShortBuildReplyPlainSize - 1) || (len mapping >? ShortBuildReplyPlainSize - 1) with ErrShortBuildRecord ;;
          let? replyCode := index plaintext (ShortBuildReplyPlainSize - 1) in
          fail_if negb (replyCode =? 0) && negb (replyCode =? 30) with ErrShortBuildRecord ;;
          openLoop (hop + 1) positions replies keys dst
      end
  end.

Definition OpenShortBuildReplies (replies : bytes) (keys : list ShortBuildKeys) (positions : list Z) (dst : bytes) : res bytes :=
  fail_if (len keys =? 0) || negb (len keys =? len positions) || negb (len replies mod ShortBuildRecordSize =? 0) ||
          (len dst <? len keys * ShortBuildReplyPlainSize) with ErrShortBuildRecord ;;
  openLoop 0 positions replies keys dst.
End Code.

(** ** Whole buffers *)

Lemma write_whole (dst src : bytes) : len src = len dst -> write dst 0 src = Ok src.
Proof. intros H. pose proof (write_prefix dst [] src H) as Hw. by rewrite !app_nil_r in Hw. Qed.

(** ** Numbers and options *)

Lemma digit_step n d s : 0 <= d < 10 -> 0 <= n -> n * 10 + d < 2 ^ 32 ->
  parseDigits n (48 + d :: s) = parseDigits (n * 10 + d) s.
Proof.
  intros Hd Hn Hlt. cbn [parseDigits]. replace (48 + d <? 48) with false by lia. replace (48 + d >? 57) with false by lia.
  replace (n >=? 1844674407370955162) with false by lia. cbn [orb]. replace (48 + d - 48) with d by lia.
  by replace (n * 10 + d >? 2 ^ 32 - 1) with false by lia.
Qed.

Lemma parse_format fuel : forall v tail, 0 <= v < 2 ^ 32 -> v < 10 ^ Z.of_nat fuel -> (0 < fuel)%nat ->
  parseDigits 0 (formatDigits fuel v tail) = parseDigits v tail.
Proof.
  induction fuel as [|fuel IH]; intros v tail Hv Hf Hpos; [lia|]. cbn [formatDigits].
  destruct (Z.ltb_spec v 10) as [Hs|Hs]; [rewrite digit_step by lia; done|].
  assert (Hdiv : 10 * (v / 10) + v mod 10 = v) by (symmetry; apply Z.div_mod; lia).
  pose proof (Z.mod_pos_bound v 10 ltac:(lia)).
  replace (Z.of_nat (S fuel)) with (Z.succ (Z.of_nat fuel)) in Hf by lia. rewrite Z.pow_succ_r in Hf by lia.
  destruct fuel as [|fuel]; [cbn in Hf; lia|]. rewrite IH by lia. rewrite digit_step by lia. f_equal. lia.
Qed.

Lemma format_shape fuel : forall v tail, 0 <= v < 10 ^ Z.of_nat fuel ->
  len (formatDigits fuel v tail) <= Z.of_nat fuel + len tail /\
  (bytes_ok tail -> bytes_ok (formatDigits fuel v tail)) /\ (tail <> [] \/ (0 < fuel)%nat -> formatDigits fuel v tail <> []).
Proof.
  induction fuel as [|fuel IH]; intros v tail Hv; cbn [formatDigits].
  { split; [lia|]. split; [done|]. intros [H|H]; [done|lia]. }
  destruct (Z.ltb_spec v 10) as [Hs|Hs].
  { split; [rewrite len_cons; lia|]. split; [|done]. intros Ht. constructor; [unfold is_byte; lia|done]. }
  pose proof (Z.mod_pos_bound v 10 ltac:(lia)).
  replace (Z.of_nat (S fuel)) with (Z.succ (Z.of_nat fuel)) in * by lia. rewrite Z.pow_succ_r in Hv by lia.
  destruct (IH (v / 10) (48 + v mod 10 :: tail)) as (Hl & Hb & Hn).
  { split; [apply Z.div_pos; lia|]. apply Z.div_lt_upper_bound; lia. }
  rewrite len_cons in Hl. split; [lia|]. split.
  - intros Ht. apply Hb. constructor; [unfold is_byte; lia|done].
  - intros _. apply Hn. by left.
Qed.

Lemma format_short fuel n : forall v tail, 0 <= v < 10 ^ Z.of_nat n -> (n <= fuel)%nat -> (0 < n)%nat ->
  formatDigits fuel v tail = formatDigits n v tail.
Proof.
  revert n. induction fuel as [|fuel IH]; intros n v tail Hv Hle Hpos; [lia|]. destruct n as [|n]; [lia|]. cbn [formatDigits].
  destruct (Z.ltb_spec v 10) as [Hs|Hs]; [done|].
  replace (Z.of_nat (S n)) with (Z.succ (Z.of_nat n)) in * by lia. rewrite Z.pow_succ_r in Hv by lia.
  destruct n as [|n]; [cbn in Hv; lia|]. apply IH; [|lia|lia].
  split; [apply Z.div_pos; lia|]. apply Z.div_lt_upper_bound; lia.
Qed.

Lemma format_ok v : 0 <= v < 2 ^ 32 ->
  ParseUint32 (FormatUint v) = Some v /\ len (FormatUint v) <= 10 /\ bytes_ok (FormatUint v).
Proof.
  intros Hv. unfold FormatUint.
  assert (E : formatDigits 20 v [] = formatDigits 10 v []) by (apply format_short; lia).
  destruct (format_shape 10 v []) as (Hl & Hb & Hn); [lia|]. rewrite E. split; [|split; [exact Hl|by apply Hb; constructor]].
  assert (Hne : formatDigits 10 v [] <> []) by (apply Hn; right; lia).
  unfold ParseUint32. destruct (formatDigits 10 v []) as [|c s] eqn:Ef; [done|]. rewrite <- Ef.
  rewrite parse_format by lia. done.
Qed.

(** The options in the order they are written. *)
Definition option_entries (o : ShortBuildOptions) : list (bytes * bytes) :=
  let entry k v := if negb (v =? 0) then [(k, FormatUint v)] else [] in
  entry (str "l") (Limit o) ++ entry (str "m") (Minimum o) ++ entry (str "r") (Requested o).

Definition options_ok (o : ShortBuildOptions) : Prop :=
  0 <= Minimum o < 2 ^ 32 /\ 0 <= Requested o < 2 ^ 32 /\ 0 <= Limit o < 2 ^ 32.

Lemma entry_present k v : 0 <= v < 2 ^ 32 -> len k = 1 -> bytes_ok k ->
  let es := if negb (v =? 0) then [(k, FormatUint v)] else [] in Forall entry_ok es /\ len (entries_wire es) <= 15.
Proof.
  intros Hv Hk Hb. destruct (format_ok v Hv) as (_ & Hl & Hfb). destruct (v =? 0); cbn [negb]; [done|].
  split; [constructor; [|done]; unfold entry_ok; cbn [fst snd]; split_and!; done || lia|].
  rewrite entries_wire_cons, len_app, len_entry_wire. cbn [fst snd]. change (len (entries_wire [])) with 0. lia.
Qed.

Lemma entries_wire_app es es' : entries_wire (es ++ es') = entries_wire es ++ entries_wire es'.
Proof. unfold entries_wire. by rewrite fmap_app, concat_app. Qed.

Lemma entries_ok o : options_ok o -> Forall entry_ok (option_entries o) /\ len (entries_wire (option_entries o)) <= 45 /\
  increasing None (option_entries o).*1.
Proof.
  intros (H1 & H2 & H3). unfold option_entries.
  destruct (entry_present (str "l") (Limit o) H3) as [Fl Ll]; [done|by apply bytes_ok_check|].
  destruct (entry_present (str "m") (Minimum o) H1) as [Fm Lm]; [done|by apply bytes_ok_check|].
  destruct (entry_present (str "r") (Requested o) H2) as [Fr Lr]; [done|by apply bytes_ok_check|]. cbv zeta in *.
  split; [apply Forall_app; split; [exact Fl|apply Forall_app; split; [exact Fm|exact Fr]]|]. split; [rewrite !entries_wire_app, !len_app; lia|].
  destruct (Limit o =? 0), (Minimum o =? 0), (Requested o =? 0); cbn; done.
Qed.

Lemma marshalOptions_ok o : options_ok o ->
  marshalShortBuildOptions o =
    Ok (if (Minimum o =? 0) && (Requested o =? 0) && (Limit o =? 0) then None else Some (mapping_wire (option_entries o))).
Proof.
  intros Ho. destruct (entries_ok o Ho) as (Hall & Hl & Hinc). unfold marshalShortBuildOptions.
  destruct ((Minimum o =? 0) && (Requested o =? 0) && (Limit o =? 0)); [done|].
  set (es := _ ++ _ ++ _).
  assert (Hes : es = as_entries (option_entries o)).
  { unfold es, option_entries, as_entries. rewrite !fmap_app. by destruct (Limit o =? 0), (Minimum o =? 0), (Requested o =? 0). }
  rewrite Hes. pose proof (len_nonneg (mapping_wire (option_entries o))).
  destruct (marshal_increasing (option_entries o) (make_bytes (len (mapping_wire (option_entries o)))) Hall Hinc) as [He Hm];
    [lia|len_lia|].
  rewrite He. cbn [bind]. rewrite Hm. cbn [bind]. unfold over. by rewrite sub_empty, app_nil_r by len_lia.
Qed.

(** What reading the entries one after the other makes of the options. *)
Definition apply_entry (o : ShortBuildOptions) (e : bytes * bytes) : option ShortBuildOptions :=
  let set f := match ParseUint32 e.2 with Some v => if v =? 0 then None else Some (f v) | None => None end in
  if bytes_eqb e.1 (str "l") then set (fun v => mkOptions (Minimum o) (Requested o) v)
  else if bytes_eqb e.1 (str "m") then set (fun v => mkOptions v (Requested o) (Limit o))
  else if bytes_eqb e.1 (str "r") then set (fun v => mkOptions (Minimum o) v (Limit o))
  else Some o.

Fixpoint apply_entries (es : list (bytes * bytes)) (o : ShortBuildOptions) : option ShortBuildOptions :=
  match es with [] => Some o | e :: es => o' ← apply_entry o e; apply_entries es o' end.

Lemma optionsLoop_wire es : Forall entry_ok es -> forall fuel o, (length es < fuel)%nat ->
  optionsLoop fuel (entries_wire es) o = Ok (apply_entries es o).
Proof.
  induction 1 as [|[k v] es He _ IH]; intros [|fuel] o Hf; cbn [length] in Hf; try lia; [done|].
  cbn [optionsLoop apply_entries]. rewrite entries_wire_cons, NextEntry_wire by done. unfold apply_entry. cbn [fst snd].
  destruct (bytes_eqb k (str "l")); [|destruct (bytes_eqb k (str "m")); [|destruct (bytes_eqb k (str "r"))]];
    try (destruct (ParseUint32 v) as [n|]; [|done]; destruct (n =? 0); [done|]); cbn [mbind option_bind]; apply IH; lia.
Qed.

Lemma options_read o : options_ok o -> apply_entries (option_entries o) (mkOptions 0 0 0) = Some o.
Proof.
  intros (H1 & H2 & H3). destruct o as [a b c]. cbn [Minimum Requested Limit] in *. unfold option_entries. cbn [Minimum Requested Limit].
  destruct (format_ok a H1) as (Ea & _), (format_ok b H2) as (Eb & _), (format_ok c H3) as (Ec & _).
  destruct (Z.eqb_spec a 0) as [->|Ha], (Z.eqb_spec b 0) as [->|Hb], (Z.eqb_spec c 0) as [->|Hc];
    cbn [negb app apply_entries]; unfold apply_entry; cbn [fst snd];
    repeat match goal with |- context [bytes_eqb (str ?x) (str ?y)] =>
      let t := eval vm_compute in (bytes_eqb (str x) (str y)) in change (bytes_eqb (str x) (str y)) with t end;
    cbv iota; rewrite ?Ea, ?Eb, ?Ec, ?(proj2 (Z.eqb_neq a 0) Ha), ?(proj2 (Z.eqb_neq b 0) Hb), ?(proj2 (Z.eqb_neq c 0) Hc); done.
Qed.

Lemma parseOptions_ok o gateway : options_ok o ->
  parseShortBuildOptions (mapping_wire (option_entries o)) gateway =
    Ok (if validShortBuildOptions o gateway then Some o else None).
Proof.
  intros Ho. destruct (entries_ok o Ho) as (Hall & Hl & _). unfold parseShortBuildOptions, Iterator, mapping_wire.
  len_pos. zbool. rewrite slice_from_ok by len_lia. cbn [bind]. sub_norm.
  rewrite optionsLoop_wire; [|done|pose proof (length_entries_wire (option_entries o)); lia].
  cbn [bind]. rewrite options_read by done. by destruct (validShortBuildOptions o gateway).
Qed.

(** ** Requests *)

Lemma bind_bind {A B C} (m : res A) (f : A -> res B) (g : B -> res C) : bind (bind m f) g = bind m (fun a => bind (f a) g).
Proof. by destruct m. Qed.

Definition request_ok (r : ShortBuildRequest) : Prop :=
  0 < ReceiveTunnelID r < 2 ^ 32 /\ 0 < NextTunnelID r < 2 ^ 32 /\ 0 < NextMessageID r < 2 ^ 32 /\ len (NextRouter r) = 32 /\
  0 <= RequestMinutes r < 2 ^ 32 /\ LifetimeSeconds r = 600 /\ Gateway r && Endpoint r = false.

Definition flag_of (r : ShortBuildRequest) : Z := if Gateway r then 128 else if Endpoint r then 64 else 0.

(** The plaintext of a request with the mapping [m], and then its padding. *)
Definition request_head (r : ShortBuildRequest) (m : bytes) : bytes :=
  be_bytes 4 (ReceiveTunnelID r) ++ be_bytes 4 (NextTunnelID r) ++ NextRouter r ++ [flag_of r] ++ [0; 0; 0] ++
  be_bytes 4 (RequestMinutes r) ++ be_bytes 4 (LifetimeSeconds r) ++ be_bytes 4 (NextMessageID r) ++ m.

Definition request_wire (r : ShortBuildRequest) (m padding : bytes) : bytes := request_head r m ++ padding.

Lemma len_request_head r m : request_ok r -> len (request_head r m) = 56 + len m.
Proof. intros (_ & _ & _ & Hr & _). unfold request_head. len_lia. Qed.

Lemma fields_ok r m : request_ok r -> len m <= 98 ->
  requestFields (make_bytes 154) r m =
    Ok (request_wire r m (make_bytes (98 - len m))).
Proof.
  intros (H1 & H2 & H3 & H4 & H5 & H6 & H7) Hm. len_pos.
  unfold requestFields, ShortBuildRequestPlainSize, shortBuildOptionsOffset, shortBuildFlagOffset.
  rewrite (write_whole (make_bytes 154)) by done. cbn [bind].
  change (make_bytes 154) with (make_bytes 4 ++ make_bytes 4 ++ make_bytes 32 ++ [0] ++ [0; 0; 0] ++ make_bytes 4 ++ make_bytes 4 ++ make_bytes 4 ++ make_bytes 98).
  rewrite write_prefix by done. cbn [bind]. rewrite write_middle by done. cbn [bind].
  rewrite (app_assoc (be_bytes 4 _)), write_middle by (len_simpl; done || lia). cbn [bind]. rewrite <- app_assoc.
  set (front := be_bytes 4 (ReceiveTunnelID r) ++ be_bytes 4 (NextTunnelID r) ++ NextRouter r).
  assert (Hfront : len front = 40) by (unfold front; len_lia).
  set (tail := [0; 0; 0] ++ make_bytes 4 ++ make_bytes 4 ++ make_bytes 4 ++ make_bytes 98).
  assert (Hflag : (let? dst := if Gateway r then write (front ++ [0] ++ tail) 40 [shortBuildGatewayFlag] else Ok (front ++ [0] ++ tail) in
                   if Endpoint r then write dst 40 [shortBuildEndpointFlag] else Ok dst) = Ok (front ++ [flag_of r] ++ tail)).
  { unfold flag_of. revert H7. destruct (Gateway r), (Endpoint r); intros H7; try done; cbn [bind]; rewrite ?write_middle by (lia || done); cbn [bind]; rewrite ?write_middle by (lia || done); done. }
  replace (be_bytes 4 (ReceiveTunnelID r) ++ be_bytes 4 (NextTunnelID r) ++ NextRouter r ++ [0] ++ tail)
    with (front ++ [0] ++ tail) by (unfold front; by rewrite <- !app_assoc).
  rewrite <- bind_bind, Hflag. cbn [bind]. unfold tail. rewrite (app_assoc front), (app_assoc (front ++ _)).
  rewrite write_middle by len_lia. cbn [bind]. rewrite (app_assoc _ (be_bytes 4 (RequestMinutes r))).
  rewrite write_middle by len_lia. cbn [bind]. rewrite (app_assoc _ (be_bytes 4 (LifetimeSeconds r))).
  rewrite write_middle by len_lia. cbn [bind]. rewrite (app_assoc _ (be_bytes 4 (NextMessageID r))).
  rewrite copy_at_app by len_lia. f_equal. unfold request_wire, request_head, front. rewrite <- !app_assoc.
  do 10 f_equal. unfold sub, make_bytes. rewrite drop_replicate, take_replicate. f_equal. len_lia.
Qed.

Lemma marshal_request {R} (ReadFull : Z -> go R bytes) st st' r es options padding :
  request_ok r -> Forall entry_ok es -> len (mapping_wire es) <= 98 -> default [0; 0] options = mapping_wire es ->
  ReadFull (154 - (56 + len (mapping_wire es))) st = (Ok padding, st') -> len padding = 98 - len (mapping_wire es) ->
  marshalShortBuildRequest ReadFull (make_bytes 154) r options true st = (Ok (request_wire r (mapping_wire es) padding), st').
Proof.
  intros Hr Hall Hm Hopt Hread Hpad. pose proof Hr as (H1 & H2 & H3 & H4 & H5 & H6 & H7). len_pos.
  unfold marshalShortBuildRequest, ShortBuildRequestPlainSize, shortBuildMaxOptionsSize, shortBuildLifetime, shortBuildOptionsOffset.
  rewrite Hopt. change (len (make_bytes 154) <? 154) with false. rewrite H6, H7, Z.eqb_refl. zbool. cbn [orb negb].
  pose proof (ParseMapping_wire es []) as Hp. rewrite app_nil_r in Hp.
  assert (Hsz : len (entries_wire es) < 2 ^ 16) by (revert Hm; unfold mapping_wire; len_lia).
  rewrite Hp by done. rewrite Z.eqb_refl. zbool. cbn [orb negb].
  go_lift (fields_ok r (mapping_wire es) Hr Hm). go_call Hread. unfold lift. f_equal.
  pose proof (len_request_head r (mapping_wire es) Hr) as Hhead. unfold request_wire.
  rewrite write_app by len_lia. by rewrite sub_empty, app_nil_r by len_lia.
Qed.

Lemma parse_request r o es padding :
  request_ok r -> Forall entry_ok es -> len (entries_wire es) <= 96 -> len (mapping_wire es ++ padding) = 98 ->
  parseShortBuildOptions (mapping_wire es) (Gateway r) = Ok (Some o) ->
  ParseShortBuildRequest (request_wire r (mapping_wire es) padding) =
    Ok (mkRequest (ReceiveTunnelID r) (NextTunnelID r) (NextRouter r) (Gateway r) (Endpoint r) (RequestMinutes r)
          (LifetimeSeconds r) (NextMessageID r) (mapping_wire es) o).
Proof.
  intros (H1 & H2 & H3 & H4 & H5 & H6 & H7) Hall Hes Hlen Ho. len_simpl_in Hlen. len_pos.
  unfold ParseShortBuildRequest, request_wire, request_head, ShortBuildRequestPlainSize, shortBuildMaxOptionsSize, shortBuildLifetime, shortBuildOptionsOffset, shortBuildFlagOffset.
  rewrite <- !app_assoc. set (l := be_bytes 4 _ ++ _). assert (Hl : len l = 154) by (unfold l; len_lia). rewrite Hl. cbn [Z.eqb Pos.eqb negb].
  assert (I40 : index l 40 = Ok (flag_of r)).
  { unfold l. rewrite !index_app_r by len_lia. rewrite index_app_l by len_lia. len_simpl. rewrite H4. done. }
  assert (I3 : forall i, 41 <= i < 44 -> index l i = Ok 0).
  { intros i Hi. unfold l. do 4 rewrite index_app_r by len_lia. rewrite index_app_l by len_lia. len_simpl. rewrite H4.
    change (4%nat) with 4%nat. assert (i = 41 \/ i = 42 \/ i = 43) as [->|[->| ->]] by lia; done. }
  rewrite I40, !I3 by lia. cbn [bind].
  assert (Hf : negb (Z.land (flag_of r) (255 - Z.lor shortBuildGatewayFlag shortBuildEndpointFlag) =? 0) ||
     (Z.land (flag_of r) (Z.lor shortBuildGatewayFlag shortBuildEndpointFlag) =? Z.lor shortBuildGatewayFlag shortBuildEndpointFlag) = false /\
     negb (Z.land (flag_of r) shortBuildGatewayFlag =? 0) = Gateway r /\ negb (Z.land (flag_of r) shortBuildEndpointFlag =? 0) = Endpoint r).
  { unfold flag_of. revert H7. destruct (Gateway r), (Endpoint r); intros H7; done. }
  destruct Hf as (Hf & Hg & He). rewrite Hf, Hg, He. cbn [Z.eqb negb orb].
  assert (Hv : forall lo hi v, 0 <= v < 2 ^ 32 -> 0 <= lo <= 150 -> hi = lo + 4 -> sub lo hi l = be_bytes 4 v ->
    bind (slice l lo hi) (be_uint 4) = Ok v).
  { intros lo hi v Hb Hlo -> Hs. rewrite slice_ok by lia. cbn [bind]. rewrite Hs, be_uint_ok by len_lia.
    rewrite sub_all by len_lia. by rewrite be_val_small by lia. }
  rewrite <- (bind_bind (slice l 0 4) (be_uint 4)), (Hv 0 4 (ReceiveTunnelID r)) by (lia || (unfold l; sub_norm; done)). cbn [bind].
  rewrite <- (bind_bind (slice l 4 8) (be_uint 4)), (Hv 4 8 (NextTunnelID r)) by (lia || (unfold l; sub_norm; done)). cbn [bind].
  rewrite <- (bind_bind (slice l 44 48) (be_uint 4)), (Hv 44 48 (RequestMinutes r)) by (lia || (unfold l; sub_norm; done)). cbn [bind].
  rewrite <- (bind_bind (slice l 48 52) (be_uint 4)), (Hv 48 52 (LifetimeSeconds r)) by (lia || (unfold l; sub_norm; done)). cbn [bind].
  rewrite <- (bind_bind (slice l 52 56) (be_uint 4)), (Hv 52 56 (NextMessageID r)) by (lia || (unfold l; sub_norm; done)). cbn [bind].
  zbool. rewrite H6. cbn [Z.eqb Pos.eqb orb negb]. rewrite slice_ok, slice_from_ok by lia. cbn [bind].
  replace (sub 8 40 l) with (NextRouter r) by (unfold l; sub_norm; done).
  replace (sub 56 (len l) l) with (mapping_wire es ++ padding) by (unfold l; sub_norm; done).
  rewrite ParseMapping_wire by (done || lia). zbool. rewrite Ho. done.
Qed.

(** What a hop reads of the request [r] with options [o]. *)
Definition received (r : ShortBuildRequest) (o : ShortBuildOptions) : ShortBuildRequest :=
  mkRequest (ReceiveTunnelID r) (NextTunnelID r) (NextRouter r) (Gateway r) (Endpoint r) (RequestMinutes r)
    (LifetimeSeconds r) (NextMessageID r) (mapping_wire (option_entries o)) o.

(** A reader that never fails. *)
Definition reads {R} (ReadFull : Z -> go R bytes) : Prop :=
  forall n st, 0 <= n -> exists b st', ReadFull n st = (Ok b, st') /\ len b = n /\ bytes_ok b.

Lemma no_options o : (Minimum o =? 0) && (Requested o =? 0) && (Limit o =? 0) = true -> option_entries o = [].
Proof.
  unfold option_entries. rewrite !andb_true_iff. intros [[-> ->] ->]. done.
Qed.

Lemma request_roundtrip {R} (ReadFull : Z -> go R bytes) st r o :
  reads ReadFull -> request_ok r -> options_ok o -> validShortBuildOptions o (Gateway r) = true ->
  exists options plain st', marshalShortBuildOptions o = Ok options /\
    marshalShortBuildRequest ReadFull (make_bytes 154) r options true st = (Ok plain, st') /\
    len plain = 154 /\ ParseShortBuildRequest plain = Ok (received r o).
Proof.
  intros Hread Hr Ho Hval. destruct (entries_ok o Ho) as (Hall & Hl & _). pose proof (parseOptions_ok o (Gateway r) Ho) as Hparse.
  rewrite Hval in Hparse. pose proof (marshalOptions_ok o Ho) as Hm. remember (if (Minimum o =? 0) && (Requested o =? 0) && (Limit o =? 0) then None else Some (mapping_wire (option_entries o))) as options eqn:Eo.
  assert (Hopt : default [0; 0] options = mapping_wire (option_entries o)).
  { rewrite Eo. destruct ((Minimum o =? 0) && (Requested o =? 0) && (Limit o =? 0)) eqn:E; [|done]. by rewrite (no_options o E). }
  assert (Hlm : len (mapping_wire (option_entries o)) = 2 + len (entries_wire (option_entries o))) by (unfold mapping_wire; len_lia).
  len_pos. destruct (Hread (154 - (56 + len (mapping_wire (option_entries o)))) st) as (padding & st' & Hpad & Hlp & _); [lia|].
  exists options, (request_wire r (mapping_wire (option_entries o)) padding), st'. split; [done|].
  split; [apply marshal_request; [done|done|lia|done|done|lia]|].
  split; [unfold request_wire; rewrite len_app, len_request_head by done; lia|].
  apply parse_request; [done|done|lia|rewrite len_app; lia|done].
Qed.

(** ** The specialised HMACs are HMAC-SHA256 *)

Lemma xor_zeros b n : xor (replicate n 0) (replicate n b) = replicate n b.
Proof. unfold xor. by rewrite zip_with_replicate by done. Qed.

Lemma xor_app a b c d : length a = length c -> xor (a ++ b) (c ++ d) = xor a c ++ xor b d.
Proof. intros H. unfold xor. by rewrite zip_with_app. Qed.

Lemma hmac_pad b key : len key = 32 -> xor (hmacKey key) (replicate 64 b) = pad b key.
Proof.
  intros Hk. unfold hmacKey, pad. rewrite Hk. cbn [Z.gtb Z.compare Pos.compare Pos.compare_cont].
  rewrite Hk. change (make_bytes (64 - 32)) with (replicate 32 0). change (replicate 64 b) with (replicate 32 b ++ replicate 32 b).
  rewrite xor_app by (rewrite length_replicate; unfold len in Hk; lia). by rewrite xor_comm, xor_zeros.
Qed.

Lemma hmac_inner key message : len key = 32 ->
  outerHash key (Sha256.Sum256 (pad 0x36 key ++ message)) = hmacSHA256 key message.
Proof. intros Hk. unfold outerHash, hmacSHA256. by rewrite !hmac_pad. Qed.

Lemma len_pad b key : len key = 32 -> len (pad b key) = 64.
Proof.
  intros Hk. unfold pad. rewrite len_app, xor_comm, len_xor by (rewrite Hk; done). rewrite Hk. done.
Qed.

(** Copying after the pad and cutting there. *)
Lemma inner_copy block acc data off : off = len block + len acc -> len acc + len data <= 64 ->
  copy_at (over (block ++ acc) (block ++ make_bytes 64)) off data =
    Ok (over (block ++ acc ++ data) (block ++ make_bytes 64)).
Proof. intros -> H. rewrite copy_at_over by len_lia. by rewrite app_assoc. Qed.

Lemma inner_slice block acc hi : hi = len block + len acc -> len acc <= 64 ->
  slice (over (block ++ acc) (block ++ make_bytes 64)) 0 hi = Ok (block ++ acc).
Proof.
  intros -> H. rewrite slice_ok by (rewrite ?len_over; len_lia). f_equal. unfold over. apply sub_app_exact. len_lia.
Qed.

Lemma inner_start block : block ++ make_bytes 64 = over (block ++ []) (block ++ make_bytes 64).
Proof. unfold over. rewrite app_nil_r. f_equal. rewrite sub_app_r by lia. rewrite Z.sub_diag. symmetry. apply sub_all. len_lia. Qed.

Lemma HMACBytes_ok key data : len key = 32 -> len data <= 64 ->
  shortBuildHMACBytes key data = Ok (hmacSHA256 key data).
Proof.
  intros Hk Hd. unfold shortBuildHMACBytes. pose proof (len_pad 0x36 key Hk) as Hp.
  rewrite inner_start, inner_copy by len_lia. cbn [bind app]. rewrite inner_slice by lia. cbn [bind]. by rewrite hmac_inner.
Qed.

Lemma HMAC2_ok key first counter : len key = 32 ->
  shortBuildHMAC2 key first counter = hmacSHA256 key (first ++ [counter]).
Proof. intros Hk. apply hmac_inner, Hk. Qed.

Lemma HMAC_ok key prefix info counter : len key = 32 ->
  (forall p, prefix = Some p -> len p = 32) -> len info <= 31 ->
  shortBuildHMAC key prefix info counter =
    Ok (hmacSHA256 key (default [] prefix ++ info ++ if counter =? 0 then [] else [counter])).
Proof.
  intros Hk Hpre Hi. unfold shortBuildHMAC. pose proof (len_pad 0x36 key Hk) as Hp. set (block := pad 0x36 key) in *.
  rewrite inner_start.
  replace (match prefix with Some p => copy_at _ 64 p | None => _ end)
    with (Ok (over (block ++ default [] prefix) (block ++ make_bytes 64))).
  2:{ destruct prefix as [p|]; [|done]. pose proof (Hpre p eq_refl). rewrite inner_copy by len_lia. done. }
  assert (Hl : match prefix with Some _ => 32 | None => 0 end = len (default [] prefix))
    by (destruct prefix as [p|]; [symmetry; exact (Hpre p eq_refl)|done]).
  assert (Hl' : len (default [] prefix) <= 32) by (destruct prefix; lia). rewrite Hl. len_pos.
  cbn [bind]. rewrite inner_copy by lia. cbn [bind]. destruct (counter =? 0) eqn:E; cbn [negb bind].
  - rewrite inner_slice by len_lia. cbn [bind]. by rewrite hmac_inner, app_nil_r.
  - rewrite write_over by len_lia. cbn [bind]. rewrite <- !app_assoc, inner_slice by len_lia. cbn [bind]. by rewrite hmac_inner.
Qed.

(** HKDF-Expand to two blocks of the extracted key (RFC 5869, empty input). *)
Definition hkdf (salt info : bytes) : bytes * bytes :=
  let prk := hmacSHA256 salt [] in
  let first := hmacSHA256 prk (info ++ [1]) in
  (first, hmacSHA256 prk (first ++ info ++ [2])).

(** The keys of a hop as the specification derives them. *)
Definition keys_of (chain hash : bytes) (endpoint : bool) : ShortBuildKeys :=
  let (chain, replyKey) := hkdf chain (str "SMTunnelReplyKey") in
  let (chain, layerKey) := hkdf chain (str "SMTunnelLayerKey") in
  if endpoint then
    let (chain, ivKey) := hkdf chain (str "TunnelLayerIVKey") in
    let (chain, garlicKey) := hkdf chain (str "RGarlicKeyAndTag") in
    mkKeys replyKey layerKey ivKey garlicKey (sub 0 8 chain) hash true
  else mkKeys replyKey layerKey chain (make_bytes 32) (make_bytes 8) hash false.

Lemma KDF2_ok key input : len key = 32 -> len input <= 64 -> shortBuildKDF2 key input = Ok (kdf2 key input).
Proof.
  intros Hk Hi. unfold shortBuildKDF2, kdf2. rewrite HMACBytes_ok by done. cbn [bind].
  rewrite HMACBytes_ok by (apply len_hmac || done). cbn [bind]. by rewrite HMAC2_ok by apply len_hmac.
Qed.

Lemma tunnelKDF_ok salt info : len salt = 32 -> len info <= 31 -> tunnelKDF salt info = Ok (hkdf salt info).
Proof.
  intros Hs Hi. unfold tunnelKDF, hkdf. rewrite HMAC_ok by done. cbn [bind].
  rewrite HMAC_ok by (done || apply len_hmac). cbn [bind]. rewrite HMAC_ok; [done|apply len_hmac| |done].
  intros p [= <-]. apply len_hmac.
Qed.

Lemma derive_ok chain hash endpoint : len chain = 32 ->
  deriveShortBuildKeys chain hash endpoint = Ok (keys_of chain hash endpoint).
Proof.
  intros Hc. unfold deriveShortBuildKeys, keys_of. rewrite tunnelKDF_ok by done. cbn [bind].
  unfold hkdf at 1 3. cbv beta iota zeta. rewrite tunnelKDF_ok by (apply len_hmac || done). cbn [bind].
  unfold hkdf at 1 2. cbv beta iota zeta. destruct endpoint; [|done].
  rewrite tunnelKDF_ok by (apply len_hmac || done). cbn [bind]. unfold hkdf at 1 2. cbv beta iota zeta.
  rewrite tunnelKDF_ok by (apply len_hmac || done). cbn [bind]. unfold hkdf. cbv beta iota zeta.
  rewrite slice_ok by (rewrite ?len_hmac; lia). done.
Qed.

(** C40: The key schedule.  The unrolled HMACs over fixed blocks compute
    HMAC-SHA256, so that the handshake's derivation is the one of the Noise state
    and a hop's keys are the chain of HKDF expansions of the specification; no
    buffer overruns for keys and inputs of the sizes in use. *)
Theorem build_keys_exact key input chain hash endpoint :
  len key = 32 -> len input <= 64 -> len chain = 32 ->
  shortBuildKDF2 key input = Ok (kdf2 key input) /\
  deriveShortBuildKeys chain hash endpoint = Ok (keys_of chain hash endpoint).
Proof. intros Hk Hi Hc. split; [by apply KDF2_ok|by apply derive_ok]. Qed.

Lemma build_keys_exact_witness :
  shortBuildKDF2 (replicate 32 1) (replicate 32 2) = Ok (kdf2 (replicate 32 1) (replicate 32 2)) /\
  deriveShortBuildKeys (replicate 32 3) (replicate 32 4) true = Ok (keys_of (replicate 32 3) (replicate 32 4) true).
Proof. apply (build_keys_exact (replicate 32 1) (replicate 32 2) (replicate 32 3) (replicate 32 4) true); reflexivity || done. Defined.

Definition keys_shape (keys : ShortBuildKeys) : Prop :=
  len (ReplyKey keys) = 32 /\ len (LayerKey keys) = 32 /\ len (IVKey keys) = 32.

Lemma keys_of_shape chain hash endpoint :
  keys_shape (keys_of chain hash endpoint) /\ HasGarlicKeys (keys_of chain hash endpoint) = endpoint.
Proof.
  unfold keys_of, hkdf, keys_shape. cbv zeta beta iota. destruct endpoint; cbn [ReplyKey LayerKey IVKey HasGarlicKeys]; by rewrite !len_hmac.
Qed.

(** ** Records in a build message *)

Lemma insert_middle {A} (a b : list A) x y : <[length a := y]> (a ++ x :: b) = a ++ y :: b.
Proof. rewrite <- (Nat.add_0_r (length a)), insert_app_r. done. Qed.

Definition records_ok (rs : list bytes) : Prop := Forall (fun r => len r = 218) rs.

Lemma len_records rs : records_ok rs -> len (concat rs) = 218 * len rs.
Proof.
  induction 1 as [|r rs Hr _ IH]; [done|]. cbn [concat]. rewrite len_app, IH, len_cons. lia.
Qed.

Lemma records_split rs i r : records_ok rs -> rs !! i = Some r ->
  exists a b, rs = a ++ r :: b /\ length a = i /\ records_ok a /\ len r = 218.
Proof.
  intros Hall Hi. apply list_elem_of_split_length in Hi as (a & b & -> & ->). exists a, b.
  apply Forall_app in Hall as [Ha [Hr _]%Forall_cons]. done.
Qed.

Lemma recordAt_ok rs i r : records_ok rs -> rs !! i = Some r -> recordAt (concat rs) (Z.of_nat i) = Ok r.
Proof.
  intros Hall Hi. destruct (records_split rs i r Hall Hi) as (a & b & -> & <- & Ha & Hr).
  pose proof (len_records a Ha) as Hla. unfold len at 2 in Hla.
  unfold recordAt, ShortBuildRecordSize. rewrite concat_app. cbn [concat]. len_pos.
  rewrite slice_ok by len_lia. f_equal. sub_norm. done.
Qed.

Lemma putRecord_ok rs i r r' : records_ok rs -> rs !! i = Some r -> len r' = 218 ->
  putRecord (concat rs) (Z.of_nat i) r' = Ok (concat (<[i := r']> rs)).
Proof.
  intros Hall Hi Hr'. destruct (records_split rs i r Hall Hi) as (a & b & -> & <- & Ha & Hr).
  pose proof (len_records a Ha) as Hla. unfold len at 2 in Hla.
  unfold putRecord, ShortBuildRecordSize. rewrite insert_middle, !concat_app. cbn [concat]. apply write_middle; lia.
Qed.

Lemma records_insert rs i r : records_ok rs -> len r = 218 -> records_ok (<[i := r]> rs).
Proof. intros H Hr. by apply Forall_insert. Qed.

(** ** Layers *)

Section Layers.
Context `{P : Primitives} {L : PrimitivesLaws P}.

Definition layer (key : bytes) (slot : Z) (record : bytes) : bytes :=
  xor record (keystream key (shortBuildNonce slot) 1 218).
Definition layers (ks : list ShortBuildKeys) (slot : Z) (record : bytes) : bytes :=
  foldl (fun r k => layer (ReplyKey k) slot r) record ks.
Definition keys_ok (ks : list ShortBuildKeys) : Prop := Forall (fun k => len (ReplyKey k) = 32) ks.

Lemma len_layer key slot r : len r = 218 -> len (layer key slot r) = 218.
Proof. intros H. unfold layer. rewrite len_xor; [done|]. rewrite len_keystream; lia. Qed.

Lemma layer_twice key slot r : len r = 218 -> layer key slot (layer key slot r) = r.
Proof. intros H. unfold layer. apply xor_xor. rewrite len_keystream; lia. Qed.

Lemma layer_comm k1 k2 slot r : layer k1 slot (layer k2 slot r) = layer k2 slot (layer k1 slot r).
Proof. unfold layer. rewrite !xor_assoc. f_equal. apply xor_comm. Qed.

Lemma layer_layers k ks slot r : layer k slot (layers ks slot r) = layers ks slot (layer k slot r).
Proof.
  revert r. induction ks as [|k' ks IH]; intros r; [done|].
  change (layer k slot (layers ks slot (layer (ReplyKey k') slot r)) = layers ks slot (layer (ReplyKey k') slot (layer k slot r))).
  by rewrite IH, layer_comm.
Qed.

Lemma len_layers ks slot r : len r = 218 -> len (layers ks slot r) = 218.
Proof. revert r. induction ks as [|k ks IH]; intros r H; [done|]. apply IH. by apply len_layer. Qed.

Lemma layers_twice ks slot r : len r = 218 -> layers ks slot (layers ks slot r) = r.
Proof.
  revert r. induction ks as [|k ks IH]; intros r H; [done|].
  change (layers ks slot (layer (ReplyKey k) slot (layers ks slot (layer (ReplyKey k) slot r))) = r).
  rewrite layer_layers, IH by (by apply len_layer, len_layer). by apply layer_twice.
Qed.

Lemma TransformRecord_ok key slot r : 0 <= slot < 8 -> len key = 32 -> len r = 218 ->
  TransformShortBuildRecord r r key slot = Ok (layer key slot r).
Proof.
  intros Hs Hk Hr. unfold TransformShortBuildRecord, NewChaCha20Stream, ShortBuildRecordSize.
  assert (Hn : len (shortBuildNonce slot) = 12) by (unfold shortBuildNonce; len_lia).
  rewrite Hr, Hk, Hn. zbool. cbn [orb negb Z.eqb Pos.eqb bind]. unfold XORKeyStream. cbn [skey snonce scounter]. rewrite Hr.
  fold (layer key slot r). pose proof (len_layer key slot r Hr) as Hl.
  apply write_whole. lia.
Qed.

Lemma transformWith_ok ks slot r : 0 <= slot < 8 -> keys_ok ks -> len r = 218 ->
  transformWith ks r slot = Ok (layers ks slot r).
Proof.
  intros Hs Hks. revert r. induction Hks as [|k ks Hk _ IH]; intros r Hr; [done|]. cbn [transformWith].
  rewrite TransformRecord_ok by done. cbn [bind]. apply IH. by apply len_layer.
Qed.

(** The reply layer on the records from [start] on, except at [found]. *)
Definition relayer (key : bytes) (found start : nat) (rs : list bytes) : list bytes :=
  imap (fun i r => if (start + i =? found)%nat then r else layer key (Z.of_nat (start + i)) r) rs.

Lemma layerOthers_ok key found : len key = 32 -> forall todo done_, records_ok (done_ ++ todo) ->
  (length (done_ ++ todo) <= 8)%nat ->
  layerOthers (length todo) (Z.of_nat (length done_)) (concat (done_ ++ todo)) key (Z.of_nat found) =
    Ok (concat (done_ ++ relayer key found (length done_) todo)).
Proof.
  intros Hk. induction todo as [|r todo IH]; intros done_ Hall Hl; [done|]. cbn [length layerOthers].
  assert (Hi : (done_ ++ r :: todo) !! length done_ = Some r) by (by rewrite list_lookup_middle).
  assert (Hr : len r = 218) by (by apply Forall_app in Hall as [_ [? _]%Forall_cons]).
  assert (Hnext : forall r', len r' = 218 ->
    layerOthers (length todo) (Z.of_nat (length done_) + 1) (concat (done_ ++ r' :: todo)) key (Z.of_nat found) =
    Ok (concat (done_ ++ r' :: relayer key found (length done_ + 1) todo))).
  { intros r' Hr'. specialize (IH (done_ ++ [r'])). rewrite <- !app_assoc, !length_app in IH. cbn [app length] in IH.
    replace (Z.of_nat (length done_) + 1) with (Z.of_nat (length done_ + 1)) by lia. apply IH.
    - apply Forall_app in Hall as [Ha [_ Hb]%Forall_cons]. apply Forall_app. split; [done|by constructor].
    - rewrite length_app in *. cbn [length] in *. lia. }
  assert (Hrel : forall r', (if (length done_ =? found)%nat then r else layer key (Z.of_nat (length done_)) r) = r' ->
    relayer key found (length done_) (r :: todo) = r' :: relayer key found (length done_ + 1) todo).
  { intros r' <-. unfold relayer. cbn [imap]. rewrite Nat.add_0_r. f_equal. apply imap_ext. intros i x _. unfold compose.
    by replace (length done_ + S i)%nat with (length done_ + 1 + i)%nat by lia. }
  destruct (Nat.eqb_spec (length done_) found) as [E|E].
  - rewrite (proj2 (Z.eqb_eq _ _)) by lia. by rewrite (Hrel r), Hnext.
  - rewrite (proj2 (Z.eqb_neq _ _)) by lia. rewrite (recordAt_ok _ _ r) by done. cbn [bind].
    rewrite length_app in Hl. cbn [length] in Hl. rewrite TransformRecord_ok by (done || lia). cbn [bind].
    rewrite (putRecord_ok _ _ r) by (done || by apply len_layer). cbn [bind].
    rewrite insert_middle. rewrite (Hrel _ eq_refl). apply Hnext. by apply len_layer.
Qed.
End Layers.

(** ** One hop's request and reply *)

Section Hop.
Context `{P : Primitives} {L : PrimitivesLaws P} `{C : Curve} {CL : CurveLaws C}.

(** [record] is what the creator seals for the hop, [keys] what both derive. *)
Definition seals_request (private hash plain ephemeral record : bytes) (keys : ShortBuildKeys) : Prop :=
  len record = 218 /\ sub 0 16 record = sub 0 16 hash /\ keys_shape keys /\ endpointFlag plain = Ok (HasGarlicKeys keys) /\
  (forall dst, len dst = 218 -> sealRequest dst hash (publicOf private) plain ephemeral = Ok (record, keys)) /\
  (forall dst, 154 <= len dst -> decryptShortBuildRequestWithPrivate dst record hash (Some private) = Ok (plain, keys)).

Lemma endpointFlag_ok plain : len plain = 154 -> exists b, endpointFlag plain = Ok b.
Proof.
  intros Hl. unfold endpointFlag, shortBuildFlagOffset. destruct (index_ok plain 40) as (x & -> & _); [lia|]. by eexists.
Qed.

Ltac peel := match goal with
  | |- bind ?m _ = Ok _ -> _ => destruct m; cbn [bind]; [|done..]
  | |- (if ?b then _ else _) = Ok _ -> _ => destruct b; [done|]
  | |- match ?m with Ok _ => _ | Err _ => _ | Panic => _ end = Ok _ -> _ => destruct m as [[? ?]|?|]; [|done..]
  | |- match ?o with Some _ => _ | None => _ end = Ok _ -> _ => destruct o; [|done]
  end.

Lemma parse_endpoint plain request : ParseShortBuildRequest plain = Ok request -> endpointFlag plain = Ok (Endpoint request).
Proof.
  unfold ParseShortBuildRequest, endpointFlag. destruct (negb _); [done|]. destruct (index plain shortBuildFlagOffset) as [x|e|]; [|done..].
  cbn [bind]. repeat peel. by intros [= <-].
Qed.

Lemma len_newState static e : len (bchain (newShortBuildState static e)) = 32.
Proof. reflexivity. Qed.

Lemma request_sealed private hash plain ephemeral secret :
  len private = 32 -> 16 <= len hash -> len plain = 154 -> len ephemeral = 32 ->
  sharedWith ephemeral (publicOf private) = Some secret ->
  exists record keys, seals_request private hash plain ephemeral record keys.
Proof.
  intros Hp Hh Hl He Hsec. pose proof (len_publicOf private Hp) as Hpp. pose proof (len_publicOf ephemeral He) as Hpe.
  pose proof (len_shared ephemeral (publicOf private) secret He Hpp Hsec) as Hls.
  pose proof Hsec as Hsec'. rewrite (shared_agree ephemeral private He Hp) in Hsec'.
  set (s := newShortBuildState (publicOf private) (publicOf ephemeral)). destruct (kdf2 (bchain s) secret) as [chain key] eqn:Ek.
  assert (Hkd : shortBuildKDF2 (bchain s) secret = Ok (chain, key)) by (rewrite <- Ek; apply KDF2_ok; [done|lia]).
  destruct (len_kdf2 (bchain s) secret) as [Hc Hkey]. rewrite Ek in Hc, Hkey. cbn [fst snd] in Hc, Hkey.
  destruct (oneoff_ok key (make_bytes 12) plain (bhash s) Hkey eq_refl) as (ct & Hct & Hseal & Hopen).
  destruct (endpointFlag_ok plain Hl) as (ep & Hep).
  set (keys := keys_of chain (bhash (mixHash ct (mkBuildState chain (bhash s)))) ep).
  assert (Hder : deriveShortBuildKeys chain (bhash (mixHash ct (mkBuildState chain (bhash s)))) ep = Ok keys) by (by apply derive_ok).
  assert (Hsub : len (sub 0 16 hash) = 16) by len_lia.
  exists (sub 0 16 hash ++ publicOf ephemeral ++ ct), keys. split; [len_lia|].
  destruct (keys_of_shape chain (bhash (mixHash ct (mkBuildState chain (bhash s)))) ep) as [Hshape Hgarlic]. fold keys in Hshape, Hgarlic.
  split; [by rewrite sub_app_exact|]. split; [done|]. split; [by rewrite Hgarlic|].
  unfold sealRequest, decryptShortBuildRequestWithPrivate, agree, ecdh, ShortBuildRecordSize,
    ShortBuildRequestPlainSize, shortBuildEphemeralSize, shortBuildPeerSize, shortBuildCipherOffset, shortBuildPeerSize, shortBuildEphemeralSize.
  split; intros dst Hd.
  - rewrite slice_ok by lia. cbn [bind]. rewrite (over_nil dst), write_over by len_lia. cbn [bind app].
    rewrite write_over by len_lia. cbn [bind]. rewrite Hsec. cbn [bind]. fold s. rewrite Hkd. cbn [bind].
    change (16 + 32) with 48. set (acc := sub 0 16 hash ++ publicOf ephemeral) in *.
    assert (Hacc : len acc = 48) by (unfold acc; len_lia).
    rewrite slice_ok by (rewrite ?len_over; lia). cbn [bind bhash].
    assert (Hreg : len (sub 48 218 (over acc dst)) = 170) by (rewrite len_sub; rewrite ?len_over; lia).
    rewrite Hseal by lia.
    replace (over ct (sub 48 218 (over acc dst))) with ct
      by (unfold over at 1; rewrite sub_empty, app_nil_r; [done|lia]).
    rewrite write_over by lia. cbn [bind]. rewrite Hep. cbn [bind bchain mixHash bhash] in *.
    rewrite Hder. cbn [bind]. unfold over. rewrite sub_empty, app_nil_r by (rewrite len_app; lia). unfold acc. by rewrite <- app_assoc.
  - set (rec := sub 0 16 hash ++ publicOf ephemeral ++ ct). assert (Hrec : len rec = 218) by (unfold rec; len_lia).
    rewrite Hrec. replace (len dst <? 154) with false by lia. cbn [Z.eqb Pos.eqb negb orb].
    rewrite !slice_ok by lia. cbn [bind].
    assert (E1 : sub 0 16 rec = sub 0 16 hash) by (unfold rec; by rewrite sub_app_exact).
    assert (E2 : sub 16 (16 + 32) rec = publicOf ephemeral) by (unfold rec; sub_norm; done).
    assert (E3 : slice_from rec (16 + 32) = Ok ct) by (rewrite slice_from_ok by lia; rewrite Hrec; unfold rec; sub_norm; done).
    rewrite E1, E2, E3. unfold bytes_eqb. rewrite bool_decide_true by done. cbn [negb]. rewrite Hsec'. cbn [bind]. fold s.
    rewrite Hkd. cbn [bind bhash]. rewrite Hopen by len_lia. rewrite Hep. cbn [bind]. cbn [bchain mixHash bhash] in *. rewrite Hder. done.
Qed.

Definition seals_reply (plain : bytes) (keys : ShortBuildKeys) (slot : Z) (record : bytes) : Prop :=
  len record = 218 /\
  (forall dst, len dst = 218 -> SealShortBuildReply dst plain keys slot = Ok record) /\
  (forall dst, 202 <= len dst -> OpenShortBuildReply dst record keys slot = Ok plain).

Lemma reply_sealed plain keys slot : len plain = 202 -> len (ReplyKey keys) = 32 -> 0 <= slot < 8 ->
  exists record, seals_reply plain keys slot record.
Proof.
  intros Hl Hk Hs. assert (Hn : len (shortBuildNonce slot) = 12) by (unfold shortBuildNonce; len_lia).
  destruct (oneoff_ok (ReplyKey keys) (shortBuildNonce slot) plain (TranscriptHash keys) Hk Hn) as (ct & Hct & Hseal & Hopen).
  exists ct. unfold seals_reply, SealShortBuildReply, OpenShortBuildReply, ShortBuildRecordSize, ShortBuildReplyPlainSize.
  rewrite Hl in Hct. split; [done|]. replace (slot >=? 8) with false by lia. split; intros dst Hd.
  - rewrite Hd, Hl. cbn [Z.ltb Z.compare Pos.compare Pos.compare_cont Z.eqb Pos.eqb negb orb].
    rewrite slice_ok by lia. rewrite (sub_all dst) by lia. cbn [bind]. rewrite Hseal by lia. cbn [bind].
    unfold over. rewrite sub_empty, app_nil_r by lia. apply write_whole. lia.
  - rewrite Hct. replace (len dst <? 202) with false by lia. cbn [Z.eqb Pos.eqb negb orb]. rewrite slice_ok by lia. cbn [bind].
    rewrite Hopen by len_lia. done.
Qed.
End Hop.

(** ** What a hop does to the records *)

Section Process.
Context `{P : Primitives} {L : PrimitivesLaws P} `{C : Curve} {CL : CurveLaws C}.

(** Only the record in [slot] begins with the hop's hash. *)
Definition addressed (hash : bytes) (slot : nat) (rs : list bytes) : Prop :=
  forall i r, rs !! i = Some r -> sub 0 16 r = sub 0 16 hash <-> i = slot.

Lemma findRecord_ok again hash slot rs : 16 <= len hash -> records_ok rs -> addressed hash slot rs ->
  forall n i, (i + n = length rs)%nat ->
  findRecord again n (Z.of_nat i) (concat rs) hash (if (slot <? i)%nat then Z.of_nat slot else -1) =
    Ok (if (slot <? length rs)%nat then Z.of_nat slot else -1).
Proof.
  intros Hh Hall Haddr n. induction n as [|n IH]; intros i Hi; cbn [findRecord].
  { by replace (length rs) with i by lia. }
  destruct (lookup_lt_is_Some_2 rs i) as [r Hr]; [lia|]. rewrite (recordAt_ok rs i r) by done. cbn [bind].
  pose proof (proj1 (Forall_lookup _ rs) Hall i r Hr) as Hlen. cbn beta in Hlen. unfold shortBuildPeerSize.
  rewrite !slice_ok by lia. cbn [bind]. specialize (IH (S i) ltac:(lia)).
  replace (Z.of_nat i + 1) with (Z.of_nat (S i)) by lia. unfold bytes_eqb. case_bool_decide as Hm.
  - apply (Haddr i r Hr) in Hm as ->. rewrite (proj2 (Nat.ltb_ge slot slot)) by lia. cbn [Z.geb Z.compare].
    by rewrite (proj2 (Nat.ltb_lt slot (S slot))) in IH by lia.
  - assert (i <> slot) by (intros ->; by apply Hm, (Haddr slot r)).
    by replace (slot <? i)%nat with (slot <? S i)%nat by (destruct (Nat.ltb_spec slot i), (Nat.ltb_spec slot (S i)); done || lia).
Qed.

(** The reply a hop writes. *)
Definition reply_plain (accept : bool) (padding : bytes) : bytes := [0; 0] ++ padding ++ [if accept then 0 else 30].

Lemma len_relayer key found start rs : length (relayer key found start rs) = length rs.
Proof. apply length_imap. Qed.

Lemma relayer_lookup key found rs i r : rs !! i = Some r ->
  relayer key found 0 rs !! i = Some (if (i =? found)%nat then r else layer key (Z.of_nat i) r).
Proof. intros Hi. unfold relayer. rewrite list_lookup_imap, Hi. done. Qed.

Lemma relayer_ok key found start rs : records_ok rs -> records_ok (relayer key found start rs).
Proof.
  intros Hall. apply Forall_lookup. intros i r Hi. unfold relayer in Hi. rewrite list_lookup_imap in Hi.
  destruct (rs !! i) as [x|] eqn:Hx; [|done]. cbn in Hi. injection Hi as <-.
  pose proof (proj1 (Forall_lookup _ rs) Hall i x Hx) as Hl. cbn beta in Hl. destruct (_ =? _)%nat; [done|]. by apply len_layer.
Qed.

(** A hop finds its record and seals its reply in it. *)
Lemma search_ok again hash slot rs : 16 <= len hash -> records_ok rs -> (slot < length rs)%nat -> addressed hash slot rs ->
  findRecord again (length rs) 0 (concat rs) hash (-1) = Ok (Z.of_nat slot).
Proof.
  intros Hh Hall Hlt Haddr. pose proof (findRecord_ok again hash slot rs Hh Hall Haddr (length rs) 0 ltac:(lia)) as Hfind.
  by rewrite (proj2 (Nat.ltb_ge slot 0)), (proj2 (Nat.ltb_lt slot (length rs))) in Hfind by lia.
Qed.

Lemma count_ok rs : records_ok rs -> len (concat rs) / 218 = Z.of_nat (length rs).
Proof. intros Hall. rewrite (len_records rs Hall), Z.mul_comm, Z.div_mul by lia. done. Qed.

Lemma answer_ok rs slot record plain keys reply :
  records_ok rs -> (length rs <= 8)%nat -> rs !! slot = Some record -> len (ReplyKey keys) = 32 ->
  seals_reply plain keys (Z.of_nat slot) reply ->
  answerRecords (concat rs) record plain keys (Z.of_nat slot) =
    Ok (concat (relayer (ReplyKey keys) slot 0 (<[slot := reply]> rs))).
Proof.
  intros Hall Hl Hslot Hkey (Hrep & Hseal & _). unfold answerRecords, ShortBuildRecordSize. rewrite count_ok, Nat2Z.id by done.
  pose proof (proj1 (Forall_lookup _ rs) Hall slot record Hslot) as Hrec. cbn beta in Hrec.
  rewrite Hseal by done. cbn [bind]. rewrite (putRecord_ok rs slot record) by done. cbn [bind].
  pose proof (layerOthers_ok (ReplyKey keys) slot Hkey (<[slot:=reply]> rs) []) as Hlay. cbn [app length] in Hlay.
  rewrite length_insert in Hlay. change (Z.of_nat 0) with 0 in Hlay. rewrite Hlay; [done|by apply records_insert|done].
Qed.

Lemma process_ok {R} (ReadFull : Z -> go R bytes) st st' rs slot hash private plain ephemeral request record keys accept padding reply dst :
  records_ok rs -> (length rs <= 8)%nat -> 16 <= len hash -> 154 <= len dst ->
  rs !! slot = Some record -> addressed hash slot rs ->
  seals_request private hash plain ephemeral record keys -> ParseShortBuildRequest plain = Ok request ->
  ReadFull 199 st = (Ok padding, st') -> seals_reply (reply_plain accept padding) keys (Z.of_nat slot) reply ->
  processShortBuildRecordsWithPrivate ReadFull (concat rs) dst hash (Some private) accept true st =
    (Ok (concat (relayer (ReplyKey keys) slot 0 (<[slot := reply]> rs)), request, keys, Z.of_nat slot), st').
Proof.
  intros Hall Hl Hh Hd Hslot Haddr (Hrec & _ & (Hkey & _) & _ & _ & Hdec) Hparse Hread Hrep.
  pose proof (lookup_lt_Some _ _ _ Hslot) as Hlt. pose proof (len_records rs Hall) as Hlen. unfold len at 2 in Hlen.
  assert (Hown : openOwnRecord (concat rs) dst hash (Some private) = Ok (Z.of_nat slot, record, request, keys)).
  { unfold openOwnRecord, ShortBuildRecordSize. rewrite count_ok, Nat2Z.id, (search_ok _ _ slot) by done. cbn [bind].
    replace (Z.of_nat slot <? 0) with false by lia.
    rewrite (recordAt_ok rs slot record) by done. cbn [bind]. rewrite Hdec by lia. cbn [bind]. rewrite Hparse. done. }
  unfold processShortBuildRecordsWithPrivate, ShortBuildRecordSize, ShortBuildRequestPlainSize, ShortBuildReplyPlainSize.
  rewrite count_ok by done. rewrite Hlen, Z.mul_comm, Z.mod_mul by lia. cbn [Z.eqb negb orb]. zbool. cbn [orb].
  rewrite bool_decide_false by done. cbn [orb negb]. go_lift Hown. change (202 - 3) with 199. go_call Hread.
  fold (reply_plain accept padding). go_lift (answer_ok rs slot record _ keys reply Hall Hl Hslot Hkey Hrep). reflexivity.
Qed.
End Process.
