(* ===== verification/BuildManager.v ===== *)
(** Tunnel building, [src/controlplane/internal/tunnel/build_manager.go]: how a
    creator prepares the build message of a path, and the helpers that draw its
    identifiers and record slots.

    The random reader is a parameter with a state, as in BuildRecord. *)

From S2P Require Import Prelude Sha256 Wire I2NP TunnelBlocks Chacha NTCP2 Noise Identity TunnelCrypto Circuits GarlicTags BuildRecord.

Definition buildMessageLifetime : Z := 60000.

Definition saturatingDeadline (now delay : Z) : Z :=
  if 2 ^ 64 - 1 - now <? delay then 2 ^ 64 - 1 else now + delay.

Record ShortBuildHop := mkShortHop {
  Router : bytes; StaticKey : bytes; HReceiveTunnelID : Z; HOptions : ShortBuildOptions }.

(** [validateShortBuildHops]; the loop body for the hop at [index]. *)
Definition hopRejected (previous : list ShortBuildHop) (hop : ShortBuildHop) : bool :=
  (HReceiveTunnelID hop =? 0) || bytes_eqb (Router hop) zeroHash || bytes_eqb (StaticKey hop) (make_bytes 32) ||
  existsb (fun p => bytes_eqb (Router p) (Router hop) || (HReceiveTunnelID p =? HReceiveTunnelID hop)) previous.

Fixpoint validateLoop (previous hops : list ShortBuildHop) : res unit :=
  match hops with
  | [] => Ok tt
  | hop :: hops =>
      fail_if hopRejected previous hop with ErrBuildConfig ;;
      validateLoop (previous ++ [hop]) hops
  end.

Definition validateShortBuildHops (hops : list ShortBuildHop) : res unit := validateLoop [] hops.

Record OutboundBuild := mkOutboundBuild {
  CircuitID : Z; Hops : list ShortBuildHop; ReplyRouter : bytes; ReplyTunnelID : Z; ExpiresAt : Z; AllowCoalescedReply : bool }.

Section Validation.
Context (staticKeyLookup : option (bytes -> option bytes)).

Definition validHopStaticKey (hop : ShortBuildHop) : bool :=
  match staticKeyLookup with
  | None => true
  | Some lookup => match lookup (Router hop) with Some key => bytes_eqb key (StaticKey hop) | None => true end
  end.

(** The hop loop of [StartOutbound]. *)
Fixpoint outboundHops (previous hops : list ShortBuildHop) : res unit :=
  match hops with
  | [] => Ok tt
  | hop :: hops =>
      fail_if (HReceiveTunnelID hop =? 0) || bytes_eqb (Router hop) zeroHash || bytes_eqb (StaticKey hop) (make_bytes 32) ||
        negb (validShortBuildOptions (HOptions hop) false) || negb (validHopStaticKey hop) with ErrBuildConfig ;;
      fail_if existsb (fun p => bytes_eqb (Router p) (Router hop) || (HReceiveTunnelID p =? HReceiveTunnelID hop)) previous with ErrBuildConfig ;;
      outboundHops (previous ++ [hop]) hops
  end.

Definition validateOutbound (build : OutboundBuild) (now : Z) : res unit :=
  fail_if (CircuitID build =? 0) || (len (Hops build) <? 1) || (len (Hops build) >? MaxVariableBuildRecords) ||
    bytes_eqb (ReplyRouter build) zeroHash || (ReplyTunnelID build =? 0) ||
    negb (AllowCoalescedReply build) &&
      match last (Hops build) with Some hop => bytes_eqb (Router hop) (ReplyRouter build) | None => false end ||
    (ExpiresAt build <=? now) with ErrBuildConfig ;;
  outboundHops [] (Hops build).
End Validation.

Section Code.
Context `{P : Primitives} `{C : Curve} {R : Type} (ReadFull : Z -> go R bytes) (GenerateKey : go R bytes).

(** ** Random draws *)

Definition randomUint32 : go R Z :=
  let! wire := ReadFull 4 in lift (be_uint 4 wire).

(** [for range 16], [n] rounds left. *)
Fixpoint uniqueLoop (n : nat) (existing : list Z) : go R Z :=
  match n with
  | O => fail ErrBuildConfig
  | S n =>
      let! id := randomUint32 in
      if id =? 0 then uniqueLoop n existing
      else if negb (bool_decide (id ∈ existing)) then ret id
      else uniqueLoop n existing
  end.

Definition uniqueMessageID (existing : list Z) : go R Z := uniqueLoop 16 existing.

(** [for index := range messageIDs]: the identifiers drawn after [ids]. *)
Fixpoint messageIDLoop (n : nat) (ids : list Z) : go R (list Z) :=
  match n with
  | O => ret ids
  | S n => let! id := uniqueMessageID ids in messageIDLoop n (ids ++ [id])
  end.

(** [for index := slots - 1; index > 0; index--]. *)
Fixpoint shuffleLoop (idx : nat) (shuffled : list Z) : go R (list Z) :=
  match idx with
  | O => ret shuffled
  | S below =>
      let! value := randomUint32 in
      let swap := value mod (Z.of_nat idx + 1) in
      let! a := lift (index shuffled (Z.of_nat idx)) in
      let! b := lift (index shuffled swap) in
      let! shuffled := lift (write shuffled (Z.of_nat idx) [b]) in
      let! shuffled := lift (write shuffled swap [a]) in
      shuffleLoop below shuffled
  end.

Definition randomPositions (hops slots : Z) : go R (list Z) :=
  if (hops <? 1) || (hops >? slots) || (slots >? MaxVariableBuildRecords) then fail ErrBuildConfig
  else
    let shuffled := (Z.of_nat <$> seq 0 (Z.to_nat slots)) ++ make_bytes (8 - slots) in
    let! shuffled := shuffleLoop (Z.to_nat (slots - 1)) shuffled in
    lift (slice shuffled 0 hops).

(** ** The build message *)

(** The request for a hop of an outbound tunnel; [rest] are the hops after it. *)
Definition outboundRequest (hop : ShortBuildHop) (rest : list ShortBuildHop) (replyRouter : bytes) (replyTunnelID minutes id : Z) :
    ShortBuildRequest :=
  let (nextRouter, nextTunnel) :=
    match rest with next :: _ => (Router next, HReceiveTunnelID next) | [] => (replyRouter, replyTunnelID) end in
  mkRequest (HReceiveTunnelID hop) nextTunnel nextRouter false (match rest with [] => true | _ => false end)
    minutes shortBuildLifetime id [] (mkOptions 0 0 0).

(** [for index, hop := range build.Hops]: [ids] are the message identifiers
    from the hop's successor on.  The payload after the loop and the keys. *)
Fixpoint sealHops (hops : list ShortBuildHop) (ids positions : list Z) (replyRouter : bytes) (replyTunnelID minutes : Z)
    (payload : bytes) : go R (bytes * list ShortBuildKeys) :=
  match hops, ids, positions with
  | [], _, _ => ret (payload, [])
  | hop :: rest, id :: ids, position :: positions =>
      let request := outboundRequest hop rest replyRouter replyTunnelID minutes id in
      let! options := lift (marshalShortBuildOptions (HOptions hop)) in
      let! plaintext := marshalShortBuildRequest ReadFull (make_bytes ShortBuildRequestPlainSize) request options true in
      let offset := 1 + position * ShortBuildRecordSize in
      let! region := lift (slice payload offset (offset + ShortBuildRecordSize)) in
      let! (region, keys) := encryptShortBuildRequest GenerateKey region (Router hop) (StaticKey hop) plaintext true in
      let! payload := lift (write payload offset region) in
      let! (payload, ks) := sealHops rest ids positions replyRouter replyTunnelID minutes payload in
      ret (payload, keys :: ks)
  | _, _, _ => lift Panic
  end.

(** The part of [StartOutbound] that makes the message, once the build was
    validated: the identifiers, the slots, the payload and the keys. *)
Definition prepareOutbound (hops : list ShortBuildHop) (replyRouter : bytes) (replyTunnelID now : Z) :
    go R (list Z * list Z * bytes * list ShortBuildKeys) :=
  let! messageIDs := messageIDLoop (length hops + 1) [] in
  let recordCount := Z.max 4 (len hops) in
  let! positions := randomPositions (len hops) recordCount in
  let payload := make_bytes (1 + recordCount * ShortBuildRecordSize) in
  let! payload := lift (write payload 0 [recordCount]) in
  let! fill := ReadFull (recordCount * ShortBuildRecordSize) in
  let! payload := lift (write payload 1 fill) in
  let! ids := lift (slice_from messageIDs 1) in
  let! (payload, keys) := sealHops hops ids positions replyRouter replyTunnelID (u32 (now / 60000)) payload in
  let! records := lift (slice_from payload 1) in
  let! records := lift (PreprocessShortBuildRecords records keys positions) in
  let! payload := lift (write payload 1 records) in
  ret (messageIDs, positions, payload, keys).

(** ** The replies *)

(** What [HandleReply] uses of a pending build. *)
Record pendingOutboundBuild := mkPending {
  pbuild : OutboundBuild; pkeys : list ShortBuildKeys; ppositions : list Z; precordCount : Z; pdeadline : Z }.

(** What [StartOutbound] has in hand when the message is made: the identifier of
    the reply, the pending build, the key the endpoint wraps the reply with, and
    the message with the router it goes to.  The tables it enters the first two
    in, and their refusals, are not modelled. *)
Record dispatch := mkDispatch {
  replyID : Z; pending : pendingOutboundBuild; replyKey : ReplyKeys.GarlicReplyKey; firstRouter : bytes; firstMessage : Message }.

Definition dispatchOutbound (build : OutboundBuild) (messageIDs positions : list Z) (payload : bytes) (keys : list ShortBuildKeys)
    (now messageDeadline : Z) : res dispatch :=
  let? reply := index messageIDs (len messageIDs - 1) in
  let? endpointKeys := index keys (len keys - 1) in
  fail_if negb (HasGarlicKeys endpointKeys) with ErrBuildConfig ;;
  let? id := index messageIDs 0 in
  let? first := index (Hops build) 0 in
  Ok (mkDispatch reply (mkPending build keys positions (u8 (Z.max 4 (len (Hops build)))) (ExpiresAt build))
    (ReplyKeys.mkKey (GarlicTag endpointKeys) (GarlicKey endpointKeys) (saturatingDeadline now (2 * buildMessageLifetime)))
    (Router first) (mkMessage (mkHeader ShortTunnelBuild id messageDeadline) payload)).

(** [for hop := range pending.keys], [n] hops from [hop] on. *)
Fixpoint checkCodes (n : nat) (hop : Z) (replies : bytes) : res unit :=
  match n with
  | O => Ok tt
  | S n =>
      let? code := index replies ((hop + 1) * ShortBuildReplyPlainSize - 1) in
      fail_if negb (code =? 0) with ErrBuildRejected ;;
      checkCodes n (hop + 1) replies
  end.

Fixpoint decryptors (keys : list ShortBuildKeys) : res (list LayerCipher) :=
  match keys with
  | [] => Ok []
  | key :: keys =>
      let? c := NewLayerDecryptor (LayerKey key) (IVKey key) in
      let? cs := decryptors keys in
      Ok (c :: cs)
  end.

(** The part of [HandleReply] from the taken pending build to the circuit it
    registers. *)
Definition openOutboundReply (pending : pendingOutboundBuild) (message : Message) (owner : bytes) (now : Z) : res OutboundCircuit :=
  let? records := ParseBuildRecords (Type_ (MHeader message)) (Payload message) in
  fail_if (pdeadline pending <=? now) || negb (BRCount records =? precordCount pending) with ErrBuildPending ;;
  let? replies := OpenShortBuildReplies (BRRecords records) (pkeys pending) (ppositions pending)
                    (make_bytes (len (pkeys pending) * ShortBuildReplyPlainSize)) in
  let? _ := checkCodes (length (pkeys pending)) 0 replies in
  let? transforms := decryptors (rev (pkeys pending)) in
  let? first := index (Hops (pbuild pending)) 0 in
  Ok (mkOutboundCircuit (CircuitID (pbuild pending)) owner (Router first) (HReceiveTunnelID first) transforms (ExpiresAt (pbuild pending))).
End Code.

(** ** Slots and identifiers *)

Section Random.
Context {R : Type} (ReadFull : Z -> go R bytes) (Hread : reads ReadFull).

Lemma randomUint32_ok st : exists v st', randomUint32 ReadFull st = (Ok v, st') /\ 0 <= v < 2 ^ 32.
Proof.
  unfold randomUint32. destruct (Hread 4 st) as (b & st' & E & Hl & Hb); [lia|]. rewrite (gbind_ok _ _ _ _ _ E). unfold lift.
  rewrite be_uint_ok by lia. rewrite sub_all by lia. eexists _, _. split; [done|].
  pose proof (be_val_bound b Hb) as Hr. by rewrite Hl in Hr.
Qed.

(** Two entries of a list exchanged. *)
Lemma swap_permutes {A} (l : list A) i j a b : l !! i = Some a -> l !! j = Some b -> <[j := a]> (<[i := b]> l) ≡ₚ l.
Proof.
  intros Hi Hj. apply Permutation_inj. split; [by rewrite !length_insert|].
  pose proof (lookup_lt_Some _ _ _ Hi). pose proof (lookup_lt_Some _ _ _ Hj).
  exists (fun k => if decide (k = j) then i else if decide (k = i) then j else k). split.
  - intros x y. repeat case_decide; subst; congruence.
  - intros k. case_decide as H1; [subst; by rewrite list_lookup_insert_eq by (by rewrite length_insert)|].
    rewrite list_lookup_insert_ne by done. case_decide as H2; [subst; by rewrite list_lookup_insert_eq|].
    by rewrite list_lookup_insert_ne.
Qed.

Lemma index_lookup {A} (l : list A) i a : l !! i = Some a -> index l (Z.of_nat i) = Ok a.
Proof. intros H. unfold index. rewrite (proj2 (Z.leb_le 0 _)) by lia. by rewrite Nat2Z.id, H. Qed.

Lemma write_insert {A} (l : list A) i a : (i < length l)%nat -> write l (Z.of_nat i) [a] = Ok (<[i := a]> l).
Proof.
  intros [x Hx]%lookup_lt_is_Some_2. apply list_elem_of_split_length in Hx as (u & v & -> & ->).
  rewrite insert_middle. apply (write_middle u [x] v [a]); done.
Qed.

Lemma shuffleLoop_ok tail : forall idx l st, (idx < length l)%nat ->
  exists l' st', shuffleLoop ReadFull idx (l ++ tail) st = (Ok (l' ++ tail), st') /\ l' ≡ₚ l.
Proof.
  induction idx as [|idx IH]; intros l st Hlt; cbn [shuffleLoop]; [by exists l, st|].
  destruct (randomUint32_ok st) as (v & st1 & E & _). rewrite (gbind_ok _ _ _ _ _ E). cbv beta iota zeta.
  pose proof (Z.mod_pos_bound v (Z.of_nat (S idx) + 1) ltac:(lia)) as Hb. set (swap := v mod _) in *.
  destruct (lookup_lt_is_Some_2 l (S idx) Hlt) as [a Ha]. destruct (lookup_lt_is_Some_2 l (Z.to_nat swap)) as [b Hb']; [lia|].
  replace swap with (Z.of_nat (Z.to_nat swap)) by lia. set (j := Z.to_nat swap) in *.
  assert (Ia : index (l ++ tail) (Z.of_nat (S idx)) = Ok a) by (apply index_lookup; by apply lookup_app_l_Some).
  assert (Ib : index (l ++ tail) (Z.of_nat j) = Ok b) by (apply index_lookup; by apply lookup_app_l_Some).
  rewrite (gbind_ok _ _ _ _ _ (lift_ok _ _ st1 Ia)), (gbind_ok _ _ _ _ _ (lift_ok _ _ st1 Ib)). cbv beta iota.
  pose proof (lookup_lt_Some _ _ _ Hb') as Hj.
  rewrite (gbind_ok _ _ _ _ _ (lift_ok _ _ st1 (write_insert (l ++ tail) (S idx) b ltac:(rewrite length_app; lia)))).
  rewrite insert_app_l by done.
  rewrite (gbind_ok _ _ _ _ _ (lift_ok _ _ st1 (write_insert (<[S idx := b]> l ++ tail) j a ltac:(rewrite length_app, length_insert; lia)))).
  rewrite insert_app_l by (by rewrite length_insert).
  destruct (IH (<[j := a]> (<[S idx := b]> l)) st1) as (l' & st' & Hl & Hp); [rewrite !length_insert; lia|].
  exists l', st'. split; [done|]. rewrite Hp. by apply swap_permutes.
Qed.

Lemma randomPositions_ok hops slots st : 1 <= hops <= slots -> slots <= 8 ->
  exists positions st', randomPositions ReadFull hops slots st = (Ok positions, st') /\
    len positions = hops /\ NoDup positions /\ Forall (fun p => 0 <= p < slots) positions.
Proof.
  intros Hh Hs. unfold randomPositions, MaxVariableBuildRecords. zbool. cbn [orb].
  set (l := Z.of_nat <$> seq 0 (Z.to_nat slots)).
  assert (Hl : length l = Z.to_nat slots) by (unfold l; by rewrite length_fmap, length_seq).
  destruct (shuffleLoop_ok (make_bytes (8 - slots)) (Z.to_nat (slots - 1)) l st) as (l' & st' & E & Hp); [lia|].
  go_call E. assert (Hlen : length l' = length l) by (by apply Permutation_length).
  assert (Hsl : slice (l' ++ make_bytes (8 - slots)) 0 hops = Ok (take (Z.to_nat hops) l')).
  { rewrite slice_ok by (len_pos; unfold len; rewrite ?length_app; lia). f_equal. unfold sub. rewrite Z.sub_0_r, drop_0.
    by rewrite take_app_le by lia. }
  exists (take (Z.to_nat hops) l'), st'. split; [unfold lift; by rewrite Hsl|].
  assert (Hnd : NoDup l') by (rewrite Hp; apply NoDup_fmap_2; [apply _|apply NoDup_seq]).
  assert (Hall : Forall (fun p => 0 <= p < slots) l').
  { rewrite Hp. apply Forall_fmap, Forall_seq. cbn. lia. }
  split; [unfold len; rewrite length_take; lia|]. split; [|by apply Forall_take].
  by apply (sublist_NoDup _ l'), sublist_take.
Qed.
End Random.

Section Ids.
Context {R : Type} (ReadFull : Z -> go R bytes) (Hread : reads ReadFull).

Definition id_ok (id : Z) : Prop := 0 < id < 2 ^ 32.

Lemma uniqueLoop_inv n : forall existing st id st', uniqueLoop ReadFull n existing st = (Ok id, st') -> id_ok id /\ id ∉ existing.
Proof.
  induction n as [|n IH]; intros existing st id st'; cbn [uniqueLoop]; [done|]. unfold gbind.
  destruct (randomUint32_ok ReadFull Hread st) as (v & st1 & -> & Hv).
  destruct (Z.eqb_spec v 0); [apply IH|]. case_bool_decide as Hin; cbn [negb]; [apply IH|]. intros [= <- <-]. unfold id_ok. split; [lia|done].
Qed.

Lemma messageIDLoop_inv n : forall ids st ids' st', messageIDLoop ReadFull n ids st = (Ok ids', st') ->
  NoDup ids -> Forall id_ok ids ->
  NoDup ids' /\ Forall id_ok ids' /\ len ids' = len ids + Z.of_nat n.
Proof.
  induction n as [|n IH]; intros ids st ids' st'; cbn [messageIDLoop]; [intros [= <- <-] ? ?; split_and!; [done..|lia]|].
  unfold gbind. destruct (uniqueMessageID ReadFull ids st) as [[id|e|] st1] eqn:E; [|done..].
  apply uniqueLoop_inv in E as [Hid Hnew]. intros Hl Hnd Hall. destruct (IH _ _ _ _ Hl) as (H1 & H2 & H3).
  - apply NoDup_app. split; [done|]. split; [|apply NoDup_singleton]. intros x Hx ->%list_elem_of_singleton. done.
  - apply Forall_app. split; [done|by constructor].
  - split_and!; [done..|]. rewrite H3, len_app. cbn [len length]. unfold len. cbn [length]. lia.
Qed.
End Ids.
