(* ===== verification/Transit.v ===== *)
(** The transit side of tunnel building, in
    [src/controlplane/internal/tunnel/build_manager.go]: a hop that receives a
    short build message finds and opens its record, decides, installs the
    circuit, seals its reply over the record, puts its layer on the others and
    passes the message on.

    The circuit runtime is used through its interface.  The random reader, the
    admission and bandwidth callbacks and the two senders are parameters over a
    world they may read and change; what the hop hands to the senders is logged.
    Peer profiles, metrics and logging are not represented. *)

From S2P Require Import Prelude Sha256 Wire I2NP TunnelBlocks Chacha NTCP2.
From S2P Require Import Noise Identity TunnelCrypto Circuits CircuitRuntime GarlicTags BuildRecord BuildManager.
From Stdlib Require Strings.String.
Import String.StringSyntax.

Definition shortBuildPastSkew : Z := 8 * 60000.
Definition shortBuildFutureSkew : Z := 5 * 60000.
Definition shortBuildReplayLifetime : Z := 10 * 60000.
Definition nextHopSendTimeout : Z := 25000.

Record BuildSource := mkSource { SRouter : bytes; Direct : bool }.

(** What a hop hands to the transport or to the reply sender. *)
Inductive buildHandoff :=
| Forwarded (router : bytes) (message : Message)
| Replied (router : bytes) (tunnel : Z) (key : ReplyKeys.GarlicReplyKey) (message : Message).

(** ** Replay protection *)

Record reservations := mkReservations { transit : gmap Z Z; transitRecords : gmap bytes Z }.

Definition live (now : Z) (m : Z) : bool := negb (m <=? now).

Definition reserveTransit (maxPending id : Z) (recordHash : bytes) (now : Z) (s : reservations) : bool * reservations :=
  if id =? 0 then (false, s)
  else
    let t := filter (fun item => live now item.2 = true) (transit s) in
    let r := filter (fun item => live now item.2 = true) (transitRecords s) in
    match t !! id, r !! recordHash with
    | None, None =>
        if Z.of_nat (size r) >=? maxPending then (false, mkReservations t r)
        else (true, mkReservations (<[id := u64 (now + buildMessageLifetime)]> t)
                (<[recordHash := u64 (now + shortBuildReplayLifetime)]> r))
    | _, _ => (false, mkReservations t r)
    end.

Definition releaseTransit (id : Z) (recordHash : bytes) (s : reservations) : reservations :=
  mkReservations (delete id (transit s)) (delete recordHash (transitRecords s)).

Section Transit.
Context `{P : Primitives} `{C : Curve} {T handler W : Type} `{!CircuitRuntime T handler}.

(** The manager's configuration. *)
Record manager := mkManager {
  mlocal : bytes; staticPrivateKey : option bytes; maxPending : Z;
  admitRequest : option (ShortBuildRequest -> W -> bool * W);
  bandwidth : option (ShortBuildRequest -> W -> Z * W);
  localDelivery : option handler;
  mrandom : Z -> go W bytes;
  sender : bytes -> Message -> W -> option error * W;
  replySender : option (bytes -> Z -> ReplyKeys.GarlicReplyKey -> Message -> W -> option error * W) }.

(** Its state. *)
Record node := mkNode { reserved : reservations; runtime : T; world : W; sent : list buildHandoff }.

Definition set_reserved (s : reservations) (n : node) : node := mkNode s (runtime n) (world n) (sent n).
Definition set_runtime (t : T) (n : node) : node := mkNode (reserved n) t (world n) (sent n).
Definition set_world (w : W) (n : node) : node := mkNode (reserved n) (runtime n) w (sent n).
Definition log (h : buildHandoff) (n : node) : node := mkNode (reserved n) (runtime n) (world n) (sent n ++ [h]).

(** A call of the runtime, of a callback, and of the reader. *)
Definition onRuntime {A} (m : go T A) : go node A := fun n => let (r, t) := m (runtime n) in (r, set_runtime t n).
Definition onWorld {A} (f : W -> A * W) : go node A := fun n => let (a, w) := f (world n) in (Ok a, set_world w n).
Definition onReader {A} (m : go W A) : go node A := fun n => let (r, w) := m (world n) in (r, set_world w n).

Definition validTransitRequest (m : manager) (request : ShortBuildRequest) (keys : ShortBuildKeys) (now : Z) (source : BuildSource) : bool :=
  let requestTime := RequestMinutes request * 60000 in
  let roundedNow := now - now mod 60000 in
  if negb (Direct source) || bytes_eqb (SRouter source) zeroHash || bytes_eqb (SRouter source) (mlocal m) ||
     negb (BuildRecord.Gateway request) && negb (Endpoint request) && bytes_eqb (NextRouter request) (SRouter source) then false
  else if negb (LifetimeSeconds request =? shortBuildLifetime) || (ReceiveTunnelID request =? 0) || (NextTunnelID request =? 0) ||
     (NextMessageID request =? 0) || bytes_eqb (NextRouter request) zeroHash ||
     negb (Endpoint request) && bytes_eqb (NextRouter request) (mlocal m) ||
     (ReceiveTunnelID request =? NextTunnelID request) then false
  else if (u64 (roundedNow + shortBuildFutureSkew) <? requestTime) || (u64 (requestTime + shortBuildPastSkew) <? roundedNow) then false
  else if negb (validShortBuildOptions (Bandwidth request) (BuildRecord.Gateway request)) then false
  else negb (Endpoint request) || bool_decide (is_Some (replySender m)) && bool_decide (is_Some (localDelivery m)) && HasGarlicKeys keys.

Definition installTransitCircuit (m : manager) (request : ShortBuildRequest) (keys : ShortBuildKeys) (now : Z) : go node CircuitToken :=
  let expiresAt := u64 (now + LifetimeSeconds request * 1000) in
  if expiresAt <? now then fail ErrBuildTransit
  else if BuildRecord.Gateway request then
    let! encryptor := lift (NewLayerEncryptor (LayerKey keys) (IVKey keys)) in
    onRuntime (registerOutbound (mkOutboundCircuit (ReceiveTunnelID request) zeroHash (NextRouter request) (NextTunnelID request)
      [encryptor] expiresAt))
  else
    let! encryptor := lift (NewLayerEncryptor (LayerKey keys) (IVKey keys)) in
    let! (forward, endpoint, deliver) :=
      if Endpoint request then
        let! e := onRuntime (fun t => let (e, t) := newEndpoint 128 0 t in (Ok e, t)) in
        ret (None, Some e, localDelivery m)
      else ret (Some (mkForward (NextRouter request) (NextTunnelID request)), None, None) in
    onRuntime (registerInbound (mkInboundCircuit (ReceiveTunnelID request) zeroHash [encryptor] forward endpoint deliver expiresAt)).

(** The record after the call. *)
Definition sealBuildReply (m : manager) (record : bytes) (keys : ShortBuildKeys) (slot code available : Z) (includeBandwidth : bool) :
    go node bytes :=
  let! (reply, optionsLen) :=
    if includeBandwidth then
      lift (MarshalMappingTo (make_bytes ShortBuildReplyPlainSize) [mkEntry (Some (str "b")) (FormatUint available)])
    else ret (make_bytes ShortBuildReplyPlainSize, 2) in
  let! fill := onReader (mrandom m (ShortBuildReplyPlainSize - 1 - optionsLen)) in
  let! reply := lift (write reply optionsLen fill) in
  let! reply := lift (write reply (ShortBuildReplyPlainSize - 1) [code]) in
  lift (SealShortBuildReply record reply keys slot).

(** Whether the hop takes part, and the bandwidth it has for the tunnel. *)
Definition decideTransit (m : manager) (request : ShortBuildRequest) : go node (bool * Z) :=
  let options := Bandwidth request in
  let needsBandwidth := negb (Minimum options =? 0) || negb (Requested options =? 0) in
  let! available :=
    match bandwidth m with
    | Some f => if needsBandwidth then onWorld (f request) else ret 0
    | None => ret 0
    end in
  let accept := negb needsBandwidth || negb (available =? 0) && (Minimum options <=? available) in
  let! accept :=
    match admitRequest m with
    | Some f => if accept then onWorld (f request) else ret accept
    | None => ret accept
    end in
  ret (accept, available).

(** The hop's record: its slot, the record, the request and the keys. *)
Definition openTransit (m : manager) (private : bytes) (records : BuildRecords) : res (Z * bytes * ShortBuildRequest * ShortBuildKeys) :=
  let? slot := findRecord ErrBuildTransit (Z.to_nat (BRCount records)) 0 (BRRecords records) (mlocal m) (-1) in
  fail_if slot <? 0 with ErrBuildTransit ;;
  let? record := recordAt (BRRecords records) slot in
  let? (plaintext, keys) := decryptShortBuildRequestWithPrivate (make_bytes ShortBuildRequestPlainSize) record (mlocal m) (Some private) in
  let? request := ParseShortBuildRequest plaintext in
  Ok (slot, record, request, keys).

(** [err != nil] of a send. *)
Definition check (e : option error) : go node unit := match e with Some e => fail e | None => ret tt end.

(** The end of [handleTransit], with the answered [payload]. *)
Definition passOn (m : manager) (request : ShortBuildRequest) (keys : ShortBuildKeys) (now : Z) (accept : bool) (payload : bytes) :
    go node unit :=
  let deadline := saturatingDeadline now nextHopSendTimeout in
  let! _ :=
    if Endpoint request then
      match replySender m with
      | Some send =>
          if bytes_eqb (NextRouter request) zeroHash || (NextTunnelID request =? 0) ||
             negb (bytes_eqb (NextRouter request) (mlocal m) || HasGarlicKeys keys) then fail ErrBuildRejected
          else
            let reply := mkMessage (mkHeader OutboundTunnelBuildReply (NextMessageID request) deadline) payload in
            let key := ReplyKeys.mkKey (GarlicTag keys) (GarlicKey keys) deadline in
            let! e := onWorld (send (NextRouter request) (NextTunnelID request) key reply) in
            let! n := get in
            let! _ := put (log (Replied (NextRouter request) (NextTunnelID request) key reply) n) in
            check e
      | None => fail ErrBuildRejected
      end
    else
      let forward := mkMessage (mkHeader ShortTunnelBuild (NextMessageID request) deadline) payload in
      let! e := onWorld (sender m (NextRouter request) forward) in
      let! n := get in
      let! _ := put (log (Forwarded (NextRouter request) forward) n) in
      check e in
  if accept then ret tt else fail ErrBuildRejected.

(** The rest of [handleTransit] once a circuit may be [installed]; its deferred
    function removes the circuit when the call fails. *)
Definition answerTransit (m : manager) (payload : bytes) (records : BuildRecords) (record : bytes) (request : ShortBuildRequest) (keys : ShortBuildKeys)
    (slot now : Z) (accept : bool) (available : Z) : go node unit :=
  let options := Bandwidth request in
  let needsBandwidth := negb (Minimum options =? 0) || negb (Requested options =? 0) in
  let! record := sealBuildReply m record keys slot (if accept then 0 else 30) available (accept && needsBandwidth) in
  let! answered := lift (putRecord (BRRecords records) slot record) in
  let! answered := lift (layerOthers (Z.to_nat (BRCount records)) 0 answered (ReplyKey keys) slot) in
  let! payload := lift (write payload 1 answered) in
  passOn m request keys now accept payload.

Definition cleanup (installed : CircuitToken) (body : go node unit) : go node unit := fun n =>
  match body n with
  | (Err e, n) => (let! _ := onRuntime (removeCircuit installed) in fail e) n
  | r => r
  end.

Definition handleTransit (m : manager) (source : BuildSource) (now : Z) (message : Message) : go node unit :=
  match staticPrivateKey m with
  | None => fail ErrBuildConfig
  | Some private =>
      if bytes_eqb (mlocal m) zeroHash then fail ErrBuildConfig
      else
        let! records := lift (ParseBuildRecords ShortTunnelBuild (Payload message)) in
        let! (slot, record, request, keys) := lift (openTransit m private records) in
        if negb (validTransitRequest m request keys now source) then fail ErrBuildRejected
        else
          let id := ID (MHeader message) in
          let replayHash := Sha256.Sum256 record in
          let! n := get in
          let (fresh, s) := reserveTransit (maxPending m) id replayHash now (reserved n) in
          let! _ := put (set_reserved s n) in
          if negb fresh then fail ErrBuildTransit
          else
            let! n := get in
            match inspectCircuit (ReceiveTunnelID request) (runtime n) with
            | Some _ =>
                let! _ := put (set_reserved (releaseTransit id replayHash (reserved n)) n) in
                fail ErrBuildRejected
            | None =>
                let! (accept, available) := decideTransit m request in
                let! installed :=
                  if accept then
                    fun n => match installTransitCircuit m request keys now n with
                             | (Ok token, n) => (Ok (Some token), n)
                             | (Err _, n) => (Ok None, n)
                             | (Panic, n) => (Panic, n)
                             end
                  else ret None in
                cleanup (default noToken installed)
                  (answerTransit m (Payload message) records record request keys slot now
                     (bool_decide (is_Some installed)) available)
            end
  end.
End Transit.

(** ** Frames *)

Ltac settle := intros [= <- <-]; split_and!; try done; try (by left); try (by right).

Section Frames.
Context `{P : Primitives} `{C : Curve} {T handler W : Type} `{!CircuitRuntime T handler}.
Abbreviation node := (node (T := T) (W := W)).
Abbreviation manager := (manager (handler := handler) (W := W)).

(** Only the world changes. *)
Definition silent {A} (f : go node A) : Prop := forall n r n', f n = (r, n') -> exists w, n' = set_world w n.

Lemma set_world_same (n : node) : n = set_world (world n) n.
Proof. by destruct n. Qed.

Lemma silent_const {A} (r : res A) : silent (fun n => (r, n)).
Proof. intros n r' n' [= <- <-]. exists (world n). apply set_world_same. Qed.

Lemma silent_bind {A B} (f : go node A) (g : A -> go node B) : silent f -> (forall a, silent (g a)) -> silent (gbind f g).
Proof.
  intros Hf Hg n r n'. unfold gbind. destruct (f n) as [a n1] eqn:Ef. destruct (Hf _ _ _ Ef) as [w ->].
  destruct a as [a|e|]; [|intros [= <- <-]; by eexists..]. intros Hr. destruct (Hg a _ _ _ Hr) as [w' ->]. by exists w'.
Qed.

Lemma silent_world {A} (f : W -> A * W) : silent (onWorld (T := T) f).
Proof. intros n r n'. unfold onWorld. destruct (f (world n)) as [a w]. intros [= <- <-]. by exists w. Qed.

Lemma silent_reader {A} (f : go W A) : silent (onReader (T := T) f).
Proof. intros n r n'. unfold onReader. destruct (f (world n)) as [a w]. intros [= <- <-]. by exists w. Qed.

Lemma silent_decide (m : manager) request : silent (decideTransit (T := T) m request).
Proof.
  apply silent_bind.
  - destruct (bandwidth m); [|apply silent_const]. destruct (_ || _); [apply silent_world|apply silent_const].
  - intros a. apply silent_bind; [|intros b; apply silent_const].
    destruct (admitRequest m); [|apply silent_const]. destruct (_ || _); [apply silent_world|apply silent_const].
Qed.

Lemma silent_seal (m : manager) record keys slot code available b :
  silent (sealBuildReply (T := T) m record keys slot code available b).
Proof.
  apply silent_bind; [destruct b; apply silent_const|]. intros [reply l].
  apply silent_bind; [apply silent_reader|]. intros fill. do 2 (apply silent_bind; [apply silent_const|]; intros ?). apply silent_const.
Qed.

(** The message that goes on, with the answered payload. *)
Definition onward (request : ShortBuildRequest) (keys : ShortBuildKeys) (now : Z) (payload : bytes) : buildHandoff :=
  let deadline := saturatingDeadline now nextHopSendTimeout in
  if Endpoint request then
    Replied (NextRouter request) (NextTunnelID request) (ReplyKeys.mkKey (GarlicTag keys) (GarlicKey keys) deadline)
      (mkMessage (mkHeader OutboundTunnelBuildReply (NextMessageID request) deadline) payload)
  else Forwarded (NextRouter request) (mkMessage (mkHeader ShortTunnelBuild (NextMessageID request) deadline) payload).

Lemma passOn_inv (m : manager) request keys now accept payload (n n' : node) r :
  passOn m request keys now accept payload n = (r, n') ->
  reserved n' = reserved n /\ runtime n' = runtime n /\
  (sent n' = sent n \/ sent n' = sent n ++ [onward request keys now payload]) /\
  (r = Ok tt -> accept = true /\ sent n' = sent n ++ [onward request keys now payload]).
Proof.
  unfold passOn, onward. go_unfold. unfold onWorld.
  destruct (Endpoint request).
  - destruct (replySender m) as [send|]; [|settle]. destruct (_ || _); [settle|].
    destruct (send _ _ _ _ _) as [[e|] w]; cbn; [settle|].
    destruct accept; settle.
  - destruct (sender m _ _ _) as [[e|] w]; cbn; [settle|]. destruct accept; settle.
Qed.

Lemma answerTransit_inv (m : manager) payload records record request keys slot now accept available (n n' : node) r :
  answerTransit m payload records record request keys slot now accept available n = (r, n') ->
  reserved n' = reserved n /\ runtime n' = runtime n /\
  (sent n' = sent n \/ exists payload', sent n' = sent n ++ [onward request keys now payload']) /\
  (r = Ok tt -> accept = true /\ exists payload', sent n' = sent n ++ [onward request keys now payload']).
Proof.
  unfold answerTransit, gbind at 1. destruct (sealBuildReply _ _ _ _ _ _ _ n) as [a n1] eqn:Es.
  destruct (silent_seal _ _ _ _ _ _ _ _ _ _ Es) as [w ->]. destruct a as [a|e|]; [|settle..].
  unfold lift, gbind. destruct (putRecord _ _ _) as [rs|e|]; [|settle..].
  destruct (layerOthers _ _ _ _ _) as [rs'|e|]; [|settle..].
  destruct (write _ _ _) as [p|e|]; [|settle..].
  intros (H1 & H2 & H3 & H4)%passOn_inv. split_and!; [done|done| |].
  - destruct H3; [by left|right; by eexists].
  - intros Hr. destruct (H4 Hr). split; [done|by eexists].
Qed.
End Frames.

(** ** Circuits *)

Section Circuit.
Context `{P : Primitives} `{C : Curve} {T handler W : Type} `{!CircuitRuntime T handler} `{!CircuitRuntimeLaws T handler}.
Abbreviation node := (node (T := T) (W := W)).
Abbreviation manager := (manager (handler := handler) (W := W)).

(** The circuit a hop installs for an accepted request; [e] is the endpoint
    made for it. *)
Definition transitCircuit (m : manager) (request : ShortBuildRequest) (keys : ShortBuildKeys) (now : Z) (e : nat) : installation handler :=
  let id := ReceiveTunnelID request in
  let layers := [cipher (LayerKey keys, IVKey keys) true] in
  let expiresAt := u64 (now + LifetimeSeconds request * 1000) in
  if BuildRecord.Gateway request then InstalledOut (mkOutboundCircuit id zeroHash (NextRouter request) (NextTunnelID request) layers expiresAt)
  else if Endpoint request then InstalledIn (mkInboundCircuit id zeroHash layers None (Some e) (localDelivery m) expiresAt)
  else InstalledIn (mkInboundCircuit id zeroHash layers (Some (mkForward (NextRouter request) (NextTunnelID request))) None None expiresAt).

(** [n'] has the circuit of the request and is otherwise as [n]. *)
Definition installs (m : manager) (request : ShortBuildRequest) (keys : ShortBuildKeys) (now : Z) (t t' : T) : Prop :=
  exists e, view (ReceiveTunnelID request) t = None /\
    forall k, view k t' = if decide (k = ReceiveTunnelID request) then Some (transitCircuit m request keys now e) else view k t.

Lemma newLayer_inv key iv enc r : newLayer key iv enc = r ->
  match r with Ok c => c = cipher (key, iv) enc | Err _ => True | Panic => False end.
Proof. intros <-. unfold newLayer. by destruct (_ || _). Qed.

Lemma installTransitCircuit_inv (m : manager) request keys now (n n' : node) r :
  table_ok (runtime n) -> installTransitCircuit m request keys now n = (r, n') ->
  n' = set_runtime (runtime n') n /\ table_ok (runtime n') /\
  match r with
  | Ok token => tokenID token = ReceiveTunnelID request /\ names token (runtime n') /\
      installs m request keys now (runtime n) (runtime n')
  | Err _ => forall k, view k (runtime n') = view k (runtime n)
  | Panic => False
  end.
Proof.
  intros Hok. unfold installTransitCircuit.
  assert (Hfail : forall e : error, (Err e, n) = (r, n') -> n' = set_runtime (runtime n') n /\ table_ok (runtime n') /\
    match r with Ok _ => False | Err _ => forall k, view k (runtime n') = view k (runtime n) | Panic => False end).
  { intros e [= <- <-]. split; [by destruct n|done]. }
  destruct (_ <? now). { intros H%Hfail. destruct r; tauto. }
  unfold gbind at 1, lift. unfold NewLayerEncryptor. destruct (newLayer _ _ _) as [c|e|] eqn:El; [| |]; apply newLayer_inv in El; [subst c| |done].
  2: { destruct (BuildRecord.Gateway request); intros H%Hfail; destruct r; tauto. }
  destruct (BuildRecord.Gateway request) eqn:Eg.
  - unfold onRuntime. destruct (registerOutbound _ (runtime n)) as [a t] eqn:Er. intros [= <- <-].
    destruct (registerOutbound_law _ _ _ _ Hok Er) as [Ht Ha]. cbn. split; [done|]. split; [done|].
    destruct a as [token|e|]; [|done..]. destruct Ha as (Hid & Hnames & Hnone & Hview). cbn in *. split; [done|]. split; [done|].
    exists 0%nat. split; [done|]. intros k. rewrite Hview. unfold transitCircuit. by rewrite Eg.
  - destruct (Endpoint request) eqn:Ee.
    + unfold gbind, onRuntime, ret. pose proof (newEndpoint_law 128 0 (runtime n) Hok) as Hnew.
      destruct (newEndpoint 128 0 (runtime n)) as [e t]. destruct Hnew as (Ht & Halloc & Hsame). cbn.
      destruct (registerInbound _ t) as [a t'] eqn:Er. intros [= <- <-].
      edestruct registerInbound_law as [Ht' Ha]; [exact Ht| |exact Er|]; [by intros e0 [= <-]|]. cbn. split; [done|]. split; [done|].
      destruct a as [token|er|]; [|intros k; by rewrite Ha|done]. destruct Ha as (Hid & Hnames & Hnone & Hview). cbn in *.
      split; [done|]. split; [done|]. exists e. rewrite <- Hsame. split; [done|]. intros k. rewrite Hview, Hsame. unfold transitCircuit. by rewrite Eg, Ee.
    + unfold gbind, onRuntime, ret. destruct (registerInbound _ (runtime n)) as [a t'] eqn:Er. intros [= <- <-].
      edestruct registerInbound_law as [Ht' Ha]; [exact Hok| |exact Er|]; [done|]. cbn. split; [done|]. split; [done|].
      destruct a as [token|er|]; [|done..]. destruct Ha as (Hid & Hnames & Hnone & Hview). cbn in *.
      split; [done|]. split; [done|]. exists 0%nat. split; [done|]. intros k. rewrite Hview. unfold transitCircuit. by rewrite Eg, Ee.
Qed.
End Circuit.

(** ** Whole calls *)

Section Calls.
Context `{P : Primitives} `{C : Curve} {T handler W : Type} `{!CircuitRuntime T handler} `{!CircuitRuntimeLaws T handler}.
Abbreviation node := (node (T := T) (W := W)).
Abbreviation manager := (manager (handler := handler) (W := W)).

(** The reservations a call leaves that does not get past them. *)
Definition turnedAway (m : manager) (now : Z) (s s' : reservations) : Prop :=
  s' = s \/ exists id hash b s1, reserveTransit (maxPending m) id hash now s = (b, s1) /\
    s' = if b then releaseTransit id hash s1 else s1.

(** The record a hop finds in a message. *)
Definition ownRecord (m : manager) (message : Message) : res bytes :=
  let? records := ParseBuildRecords ShortTunnelBuild (Payload message) in
  let? slot := findRecord ErrBuildTransit (Z.to_nat (BRCount records)) 0 (BRRecords records) (mlocal m) (-1) in
  recordAt (BRRecords records) slot.

(** What a call has found when it gets past the reservations. *)
Definition passes (m : manager) (source : BuildSource) (now : Z) (message : Message) (n : node)
    (private : bytes) (records : BuildRecords) (slot : Z) (record : bytes) (request : ShortBuildRequest) (keys : ShortBuildKeys)
    (s : reservations) : Prop :=
  staticPrivateKey m = Some private /\ ParseBuildRecords ShortTunnelBuild (Payload message) = Ok records /\
  openTransit m private records = Ok (slot, record, request, keys) /\
  validTransitRequest m request keys now source = true /\
  reserveTransit (maxPending m) (ID (MHeader message)) (Sha256.Sum256 record) now (reserved n) = (true, s) /\
  inspectCircuit (ReceiveTunnelID request) (runtime n) = None.

Lemma decideTransit_ok (m : manager) request (n : node) : exists accept available w,
  decideTransit m request n = (Ok (accept, available), set_world w n).
Proof.
  unfold decideTransit, onWorld. go_unfold. destruct n as [s t w l].
  destruct (bandwidth m) as [f|]; [destruct (negb _ || negb _); [destruct (f request _) as [a w']|]|];
    (destruct (admitRequest m) as [g|]; [destruct (_ || _); [destruct (g _ _) as [b w2]|]|]); by eexists _, _, _.
Qed.

(** The last stage: the decision, the circuit and the answer. *)
Lemma late_inv (m : manager) now payload (records : BuildRecords) slot record request keys (n n' : node) r :
  table_ok (runtime n) ->
  (let! (accept, available) := decideTransit m request in
   let! installed :=
     if accept then
       fun n => match installTransitCircuit m request keys now n with
                | (Ok token, n) => (Ok (Some token), n)
                | (Err _, n) => (Ok None, n)
                | (Panic, n) => (Panic, n)
                end
     else ret None in
   cleanup (default noToken installed)
     (answerTransit m payload records record request keys slot now (bool_decide (is_Some installed)) available)) n = (r, n') ->
  reserved n' = reserved n /\ table_ok (runtime n') /\
  (sent n' = sent n \/ exists payload', sent n' = sent n ++ [onward request keys now payload']) /\
  match r with
  | Ok tt => installs m request keys now (runtime n) (runtime n') /\ exists payload', sent n' = sent n ++ [onward request keys now payload']
  | Err _ => forall k, view k (runtime n') = view k (runtime n)
  | Panic => True
  end.
Proof.
  intros Hok. destruct (decideTransit_ok m request n) as (accept & available & w & E). rewrite (gbind_ok _ _ _ _ _ E). cbv beta iota.
  set (n1 := set_world w n). assert (H1 : reserved n1 = reserved n /\ runtime n1 = runtime n /\ sent n1 = sent n) by done.
  destruct H1 as (Hres & Hrun & Hsent). rewrite <- Hres, <- Hrun, <- Hsent in *. clearbody n1. clear dependent n.
  assert (Hi : exists installed n2, (if accept then
       fun n => match installTransitCircuit m request keys now n with
                | (Ok token, n) => (Ok (Some token), n) | (Err _, n) => (Ok None, n) | (Panic, n) => (Panic, n) end
     else ret None) n1 = (Ok installed, n2) /\ n2 = set_runtime (runtime n2) n1 /\ table_ok (runtime n2) /\
     match installed with
     | Some token => tokenID token = ReceiveTunnelID request /\ names token (runtime n2) /\ installs m request keys now (runtime n1) (runtime n2)
     | None => forall k, view k (runtime n2) = view k (runtime n1)
     end).
  { destruct accept; [|exists None, n1; split; [done|]; split; [by destruct n1|done]].
    destruct (installTransitCircuit m request keys now n1) as [a n2] eqn:Ei.
    destruct (installTransitCircuit_inv m request keys now n1 n2 a Hok Ei) as (Hn2 & Ht2 & Ha).
    destruct a as [token|e|]; [exists (Some token), n2|exists None, n2|done]; done. }
  destruct Hi as (installed & n2 & Hi & Hn2 & Ht2 & Hview). rewrite (gbind_ok _ _ _ _ _ Hi). cbv beta iota.
  assert (Hres2 : reserved n2 = reserved n1) by (by rewrite Hn2). assert (Hsent2 : sent n2 = sent n1) by (by rewrite Hn2).
  unfold cleanup. destruct (answerTransit _ _ _ _ _ _ _ _ _ _ n2) as [a n3] eqn:Ea.
  apply answerTransit_inv in Ea as (Hres3 & Hrun3 & Hs3 & Hok3). rewrite Hsent2 in *. rewrite Hres2 in Hres3.
  destruct a as [[]|e|].
  - intros [= <- <-]. destruct (Hok3 eq_refl) as [Hacc Hs]. apply bool_decide_eq_true in Hacc as [token ->].
    rewrite Hrun3. split_and!; [done|done|done|apply Hview|done].
  - unfold gbind, onRuntime, fail. rewrite Hrun3. destruct installed as [token|]; cbn [default from_option id].
    + destruct Hview as (Hid & Hnames & e0 & Hnone & Hview). destruct (removeCircuit_law token (runtime n2) Ht2 Hnames) as (t' & -> & Ht' & Hv).
      intros [= <- <-]. cbn. split_and!; [done|done|done|]. intros k. rewrite Hv, Hid, Hview. case_decide; [by subst|done].
    + rewrite removeCircuit_none. intros [= <- <-]. cbn. split_and!; done.
  - intros [= <- <-]. rewrite Hrun3. by split_and!.
Qed.
Lemma handleTransit_inv (m : manager) source now message (n n' : node) r :
  table_ok (runtime n) -> handleTransit m source now message n = (r, n') ->
  (r <> Ok tt /\ exists s, n' = set_reserved s n /\ turnedAway m now (reserved n) s) \/
  (exists private records slot record request keys s,
     passes m source now message n private records slot record request keys s /\
     reserved n' = s /\ table_ok (runtime n') /\
     (sent n' = sent n \/ exists payload', sent n' = sent n ++ [onward request keys now payload']) /\
     match r with
     | Ok tt => installs m request keys now (runtime n) (runtime n') /\ exists payload', sent n' = sent n ++ [onward request keys now payload']
     | Err _ => forall k, view k (runtime n') = view k (runtime n)
     | Panic => True
     end).
Proof.
  intros Hok. assert (Hstop : forall e, e <> Ok tt -> (e, n) = (r, n') ->
    (r <> Ok tt /\ exists s, n' = set_reserved s n /\ turnedAway m now (reserved n) s)).
  { intros e He [= <- <-]. split; [done|]. exists (reserved n). split; [by destruct n|by left]. }
  unfold handleTransit. destruct (staticPrivateKey m) as [private|] eqn:Ek; [|intros H; left; eapply Hstop; [|exact H]; done].
  destruct (bytes_eqb (mlocal m) zeroHash); [intros H; left; eapply Hstop; [|exact H]; done|].
  unfold gbind at 1, lift at 1. destruct (ParseBuildRecords ShortTunnelBuild (Payload message)) as [records|e|] eqn:Ep;
    [|intros H; left; eapply Hstop; [|exact H]; done..].
  unfold gbind at 1, lift at 1. destruct (openTransit m private records) as [[[[slot record] request] keys]|e|] eqn:Eo;
    [|intros H; left; eapply Hstop; [|exact H]; done..].
  destruct (validTransitRequest m request keys now source) eqn:Ev; cbn [negb]; [|intros H; left; eapply Hstop; [|exact H]; done].
  unfold gbind at 1, get at 1.
  destruct (reserveTransit (maxPending m) (ID (MHeader message)) (Sha256.Sum256 record) now (reserved n)) as [b s] eqn:Er.
  unfold gbind at 1, put at 1. destruct b; cbn [negb].
  2: { intros [= <- <-]. left. split; [done|]. exists s. split; [done|]. right. by eexists _, _, _, _. }
  unfold gbind at 1, get at 1. destruct (inspectCircuit _ _) as [info|] eqn:Ei.
  { unfold gbind, put, fail. intros [= <- <-]. left. split; [done|]. eexists. split; [done|]. right. by eexists _, _, _, _. }
  intros Hl. right. apply late_inv in Hl as (Hres & Ht & Hs & Hm); [|done].
  exists private, records, slot, record, request, keys, s. done.
Qed.

(** C8: A transit call that succeeds has installed exactly the circuit of the
    request in the hop's record, with the layer keys derived from that record,
    under an identifier that was free, and has handed on exactly one message; a
    call that fails for any reason, rejection, replay, a failing sender, leaves
    every circuit as it was. *)
Theorem transit_installs (m : manager) source now message (n n' : node) r :
  table_ok (runtime n) -> handleTransit m source now message n = (r, n') ->
  match r with
  | Ok tt => exists private records slot record request keys payload',
      staticPrivateKey m = Some private /\ ParseBuildRecords ShortTunnelBuild (Payload message) = Ok records /\
      openTransit m private records = Ok (slot, record, request, keys) /\
      installs m request keys now (runtime n) (runtime n') /\ sent n' = sent n ++ [onward request keys now payload']
  | Err _ => forall k, view k (runtime n') = view k (runtime n)
  | Panic => True
  end.
Proof.
  intros Hok [(Hr & s & -> & _)|(private & records & slot & record & request & keys & s & (Hk & Hp & Ho & _) & _ & _ & _ & Hm)]%handleTransit_inv;
    [|destruct r as [[]|e|]; [|done..]|done].
  - destruct r as [[]|e|]; done.
  - destruct Hm as (Hi & payload' & Hs). by exists private, records, slot, record, request, keys, payload'.
Qed.

(** ** Replays *)

Lemma sweep_live (now : Z) (m : gmap bytes Z) (h : bytes) (d : Z) : m !! h = Some d -> now < d ->
  filter (fun item => live now item.2 = true) m !! h = Some d.
Proof. intros Hh Hd. apply map_lookup_filter_Some. split; [done|]. cbn. unfold live. by replace (d <=? now) with false by lia. Qed.

Lemma reserve_keeps cap id hash now s b s' h d :
  reserveTransit cap id hash now s = (b, s') -> transitRecords s !! h = Some d -> now < d ->
  transitRecords s' !! h = Some d /\ (b = true -> hash <> h).
Proof.
  intros Hr Hh Hd. pose proof (sweep_live now _ h d Hh Hd) as Hl. revert Hr. unfold reserveTransit.
  destruct (id =? 0); [intros [= <- <-]; done|]. destruct (_ !! id); [intros [= <- <-]; by split|].
  destruct (filter _ (transitRecords s) !! hash) eqn:Eh; [intros [= <- <-]; by split|].
  assert (hash <> h) by (intros ->; congruence).
  destruct (_ >=? _); intros [= <- <-]; (split; [|done]); cbn; [done|]. by rewrite lookup_insert_ne.
Qed.

Lemma turnedAway_keeps (m : manager) now s s' h d :
  turnedAway m now s s' -> transitRecords s !! h = Some d -> now < d -> transitRecords s' !! h = Some d.
Proof.
  intros [->|(id & hash & b & s1 & Hr & ->)] Hh Hd; [done|]. destruct (reserve_keeps _ _ _ _ _ _ _ _ _ Hr Hh Hd) as [Hk Hne].
  destruct b; [|done]. cbn. rewrite lookup_delete_ne; [done|]. by apply Hne.
Qed.

Lemma opened_record (m : manager) message private records slot record request keys :
  ParseBuildRecords ShortTunnelBuild (Payload message) = Ok records -> openTransit m private records = Ok (slot, record, request, keys) ->
  ownRecord m message = Ok record.
Proof.
  intros Hp. unfold openTransit, ownRecord. rewrite Hp. cbn [bind]. destruct (findRecord _ _ _ _ _ _) as [i|e|]; [|done..]. cbn [bind].
  destruct (i <? 0); [done|]. destruct (recordAt (BRRecords records) i) as [r|e|] eqn:Er; [|done..]. cbn [bind].
  destruct (decryptShortBuildRequestWithPrivate _ _ _ _) as [[p k]|e|]; [|done..]. cbn [bind].
  destruct (ParseShortBuildRequest p) as [q|e|]; [|done..]. cbn. by intros [= <- <- <- <-].
Qed.

(** The calls one after another. *)
Definition calls (m : manager) (l : list (BuildSource * Z * Message)) (n : node) : node :=
  foldl (fun n c => (handleTransit m c.1.1 c.1.2 c.2 n).2) n l.

Lemma call_keeps (m : manager) source now message (n n' : node) r h d :
  table_ok (runtime n) -> handleTransit m source now message n = (r, n') ->
  transitRecords (reserved n) !! h = Some d -> now < d ->
  table_ok (runtime n') /\ transitRecords (reserved n') !! h = Some d /\
  (forall record, ownRecord m message = Ok record -> Sha256.Sum256 record = h ->
     r <> Ok tt /\ sent n' = sent n /\ runtime n' = runtime n).
Proof.
  intros Hok Hc Hh Hd. destruct (handleTransit_inv m source now message n n' r Hok Hc)
    as [(Hr & s & -> & Ht)|(private & records & slot & record & request & keys & s & Hpass & Hs & Ht & _)].
  - split; [done|]. split; [by eapply turnedAway_keeps|done].
  - destruct Hpass as (_ & Hp & Ho & _ & Hres & _). rewrite Hs.
    destruct (reserve_keeps _ _ _ _ _ _ _ _ _ Hres Hh Hd) as [Hk Hne]. split; [done|]. split; [done|].
    intros record' Hown. rewrite (opened_record m message private records slot record request keys Hp Ho) in Hown.
    injection Hown as <-. intros E. exfalso. by apply Hne.
Qed.

(** C9: A record that was passed on is not processed again for ten minutes: until
    then, whatever messages the hop has handled in between, every message that
    carries the record, under any message identifier, is refused without a
    change of the circuits and without being passed on. *)
Theorem no_replay (m : manager) source t message (n n0 : node) r record l source' t' message' :
  table_ok (runtime n) -> 0 <= t < 2 ^ 63 ->
  handleTransit m source t message n = (r, n0) -> ownRecord m message = Ok record -> sent n0 <> sent n ->
  Forall (fun c => c.1.2 < t + 600000) l -> t' < t + 600000 -> ownRecord m message' = Ok record ->
  let n1 := calls m l n0 in
  let (r', n2) := handleTransit m source' t' message' n1 in
  r' <> Ok tt /\ sent n2 = sent n1 /\ runtime n2 = runtime n1.
Proof.
  intros Hok Ht Hc Hown Hsent Hl Ht' Hown'.
  assert (H0 : table_ok (runtime n0) /\ transitRecords (reserved n0) !! Sha256.Sum256 record = Some (t + 600000)).
  { destruct (handleTransit_inv m source t message n n0 r Hok Hc)
      as [(_ & s & -> & _)|(private & records & slot & rec & request & keys & s & (_ & Hp & Ho & _ & Hres & _) & Hs & Ht0 & _)]; [done|].
    rewrite (opened_record m message private records slot rec request keys Hp Ho) in Hown. injection Hown as ->.
    split; [done|]. rewrite Hs. revert Hres. unfold reserveTransit. destruct (_ =? 0); [done|]. repeat case_match; try done.
    intros [= <-]. cbn. rewrite lookup_insert_eq. f_equal. unfold shortBuildReplayLifetime, u64. rewrite Z.mod_small; lia. }
  intros n1. assert (H1 : table_ok (runtime n1) /\ transitRecords (reserved n1) !! Sha256.Sum256 record = Some (t + 600000)).
  { unfold n1, calls. clear -H0 Hl. revert n0 H0. induction Hl as [|c l Hc Hl IH]; intros n0 [Hok Hh]; [done|]. cbn [foldl]. apply IH.
    destruct (handleTransit m c.1.1 c.1.2 c.2 n0) as [r n'] eqn:E.
    destruct (call_keeps _ _ _ _ _ _ _ _ _ Hok E Hh Hc) as (? & ? & _). done. }
  destruct (handleTransit m source' t' message' n1) as [r' n2] eqn:E. destruct H1 as [Hok1 Hh].
  destruct (call_keeps _ _ _ _ _ _ _ _ _ Hok1 E Hh Ht') as (_ & _ & Hrep). by apply (Hrep record).
Qed.
End Calls.
