(* ===== verification/BuildPath.v ===== *)
(** Building a tunnel end to end: the creator seals the records and hides the
    later ones, the message passes the hops, and the creator opens the replies
    and has the circuit.

    The records of a message are a list here; [arrived] says what they are when
    the message has passed a number of hops. *)

From S2P Require Import Prelude Sha256 Wire I2NP TunnelBlocks Chacha NTCP2 Noise Identity.
From S2P Require Import TunnelCrypto NTCP2Handshake Circuits Registry CircuitRuntime GarlicTags BuildRecord BuildManager Transit.
From Stdlib Require Strings.String.
Import String.StringSyntax.

(** ** The sealed records *)

Section Sealed.
Context `{P : Primitives} {L : PrimitivesLaws P} `{C : Curve} {CL : CurveLaws C}.

(** The record sealed for a hop: the hop's key and hash, the request, the slot,
    and the keys both sides derive. *)
Record sealed := mkSealed {
  sprivate : bytes; shash : bytes; splain : bytes; srequest : ShortBuildRequest; sephemeral : bytes; sslot : nat;
  srecord : bytes; skeys : ShortBuildKeys }.

Definition sealed_ok (s : sealed) : Prop :=
  (sslot s < 8)%nat /\ 16 <= len (shash s) /\
  seals_request (sprivate s) (shash s) (splain s) (sephemeral s) (srecord s) (skeys s) /\
  ParseShortBuildRequest (splain s) = Ok (srequest s).

(** The records with the sealed ones in their slots. *)
Definition place (ss : list sealed) (rs : list bytes) : list bytes := foldl (fun rs s => <[sslot s := srecord s]> rs) rs ss.

Lemma place_cons s ss rs : place (s :: ss) rs = place ss (<[sslot s := srecord s]> rs).
Proof. done. Qed.

Lemma length_place ss : forall rs, length (place ss rs) = length rs.
Proof. induction ss as [|s ss IH]; intros rs; [done|]. by rewrite place_cons, IH, length_insert. Qed.

Lemma place_ok ss : forall rs, Forall sealed_ok ss -> records_ok rs -> records_ok (place ss rs).
Proof.
  induction ss as [|s ss IH]; intros rs Hall Hrs; [done|]. apply Forall_cons in Hall as [(_ & _ & (Hl & _) & _) Hall]. rewrite place_cons. apply IH; [done|].
  by apply records_insert.
Qed.

Lemma place_other ss i : forall rs, i ∉ (sslot <$> ss) -> place ss rs !! i = rs !! i.
Proof.
  induction ss as [|s ss IH]; intros rs Hi; [done|]. apply not_elem_of_cons in Hi as [Hne Hi].
  rewrite place_cons, IH by done. by rewrite list_lookup_insert_ne.
Qed.

Lemma place_lookup ss : forall rs j s, NoDup (sslot <$> ss) -> Forall (fun s => (sslot s < length rs)%nat) ss -> ss !! j = Some s ->
  place ss rs !! sslot s = Some (srecord s).
Proof.
  induction ss as [|x ss IH]; intros rs j s Hnd Hlt Hj; [done|]. cbn [fmap list_fmap] in Hnd. apply NoDup_cons in Hnd as [Hx Hnd].
  apply Forall_cons in Hlt as [Hx' Hlt]. rewrite place_cons. destruct j as [|j].
  - injection Hj as ->. rewrite place_other by done. by apply list_lookup_insert_eq.
  - apply (IH _ j); [done| |done]. eapply Forall_impl; [exact Hlt|]. intros y. cbn. by rewrite length_insert.
Qed.

(** ** The creator's loop *)

Lemma slice_shift {A} (a l : list A) lo hi : 0 <= lo <= hi -> hi <= len l -> slice (a ++ l) (len a + lo) (len a + hi) = slice l lo hi.
Proof. intros H1 H2. len_pos. rewrite !slice_ok by len_lia. f_equal. rewrite sub_app_r by lia. f_equal; lia. Qed.

Lemma payload_record c rs p r : records_ok rs -> rs !! p = Some r ->
  slice ([c] ++ concat rs) (1 + Z.of_nat p * 218) (1 + Z.of_nat p * 218 + 218) = Ok r.
Proof.
  intros Hall Hp. pose proof (recordAt_ok rs p r Hall Hp) as Hr. unfold recordAt, ShortBuildRecordSize in Hr.
  pose proof (lookup_lt_Some _ _ _ Hp). pose proof (len_records rs Hall) as Hl. unfold len at 2 in Hl.
  replace (1 + Z.of_nat p * 218 + 218) with (len [c] + (Z.of_nat p + 1) * 218) by (cbn [len length]; unfold len; cbn [length]; lia).
  change (1 + Z.of_nat p * 218) with (len [c] + Z.of_nat p * 218). rewrite slice_shift by lia. done.
Qed.

Lemma payload_write c rs p r r' : records_ok rs -> rs !! p = Some r -> len r' = 218 ->
  write ([c] ++ concat rs) (1 + Z.of_nat p * 218) r' = Ok ([c] ++ concat (<[p := r']> rs)).
Proof.
  intros Hall Hp Hr'. destruct (records_split rs p r Hall Hp) as (a & b & -> & <- & Ha & Hr).
  pose proof (len_records a Ha) as Hla. unfold len at 2 in Hla. rewrite insert_middle, !concat_app. cbn [concat].
  rewrite !(app_assoc [c]). apply write_middle; len_lia.
Qed.

Section Sealing.
Context {R : Type} (ReadFull : Z -> go R bytes) (GenerateKey : go R bytes).
Context (Hread : reads ReadFull) (Hgen : forall st, exists e st', GenerateKey st = (Ok e, st') /\ len e = 32).
Context (replyRouter : bytes) (replyTunnelID minutes : Z).

(** What the hops are to read, [routers] and [tunnels] being those after each:
    every hop is told the router and the tunnel of the next, the last one those
    of the reply and that it is the endpoint; [ids] name the message each hop
    sends on. *)
Definition request_of (hop : ShortBuildHop) (router : bytes) (tunnel : Z) (last : bool) (id : Z) : ShortBuildRequest :=
  {| ReceiveTunnelID := HReceiveTunnelID hop; NextTunnelID := tunnel; NextRouter := router; BuildRecord.Gateway := false; Endpoint := last;
     RequestMinutes := minutes; LifetimeSeconds := 600; NextMessageID := id;
     Options := mapping_wire (option_entries (HOptions hop)); Bandwidth := HOptions hop |}.

Definition requests (hops : list ShortBuildHop) (ids : list Z) : list ShortBuildRequest :=
  let routers := drop 1 (Router <$> hops) ++ [replyRouter] in
  let tunnels := drop 1 (HReceiveTunnelID <$> hops) ++ [replyTunnelID] in
  let lasts := replicate (length hops - 1) false ++ [true] in
  (fun '(hop, router, tunnel, last, id) => request_of hop router tunnel last id) <$>
    zip (zip (zip (zip hops routers) tunnels) lasts) ids.

Lemma requests_cons hop rest id ids :
  requests (hop :: rest) (id :: ids) =
    received (outboundRequest hop rest replyRouter replyTunnelID minutes id) (HOptions hop) :: requests rest ids.
Proof.
  unfold requests. destruct rest as [|next rest]; [by destruct ids|].
  cbn [length]. rewrite !Nat.sub_succ, !Nat.sub_0_r. done.
Qed.

(** A hop in the shape of its Go types, with bandwidth options for a participant. *)
Definition hop_shape (hop : ShortBuildHop) : Prop :=
  0 < HReceiveTunnelID hop < 2 ^ 32 /\ len (Router hop) = 32 /\ options_ok (HOptions hop) /\
  validShortBuildOptions (HOptions hop) false = true.

(** The key a hop publishes; agreement with it does not fail. *)
Definition hop_key (hop : ShortBuildHop) (private : bytes) : Prop :=
  StaticKey hop = publicOf private /\ len private = 32 /\ forall e, len e = 32 -> sharedWith e (publicOf private) <> None.

Context (Hrouter : len replyRouter = 32) (Htunnel : 0 < replyTunnelID < 2 ^ 32) (Hminutes : 0 <= minutes < 2 ^ 32).

Lemma outbound_request_ok hop rest id : hop_shape hop -> Forall hop_shape rest -> id_ok id ->
  request_ok (outboundRequest hop rest replyRouter replyTunnelID minutes id).
Proof.
  intros (Hid & _) Hrest Hm. unfold outboundRequest, request_ok. unfold id_ok in Hm.
  destruct rest as [|next rest]; cbn [ReceiveTunnelID NextTunnelID NextMessageID NextRouter RequestMinutes LifetimeSeconds BuildRecord.Gateway Endpoint];
    [by repeat split; try lia|]. apply Forall_cons in Hrest as [(Hn & Hr & _) _]. by repeat split; try lia.
Qed.

Lemma sealHops_ok c hops : forall privates ids positions rs st,
  Forall2 hop_key hops privates -> Forall hop_shape hops -> Forall id_ok ids -> length ids = length hops ->
  length positions = length hops -> Forall (fun p => 0 <= p < len rs) positions -> records_ok rs -> (length rs <= 8)%nat ->
  exists ss st', sealHops ReadFull GenerateKey hops ids positions replyRouter replyTunnelID minutes ([c] ++ concat rs) st =
      (Ok ([c] ++ concat (place ss rs), skeys <$> ss), st') /\
    Forall sealed_ok ss /\ (fun s => Z.of_nat (sslot s)) <$> ss = positions /\
    sprivate <$> ss = privates /\ shash <$> ss = Router <$> hops /\ srequest <$> ss = requests hops ids.
Proof.
  induction hops as [|hop hops IH]; intros privates ids positions rs st Hkeys Hshape Hids Hli Hlp Hpos Hrs Hl.
  { apply Forall2_nil_inv_l in Hkeys as ->. destruct ids; [|done]. destruct positions; [|done]. by exists [], st. }
  apply Forall2_cons_inv_l in Hkeys as (private & privates' & (Hstatic & Hpl & Hagree) & Hkeys & ->).
  apply Forall_cons in Hshape as [Hs Hshape]. destruct ids as [|id ids]; [done|]. destruct positions as [|p positions]; [done|].
  apply Forall_cons in Hids as [Hid Hids]. apply Forall_cons in Hpos as [Hp Hpos]. cbn [sealHops].
  pose proof (outbound_request_ok hop hops id Hs Hshape Hid) as Hreq. destruct Hs as (Hrecv & Hrouter' & Hopts & Hval).
  set (request := outboundRequest hop hops replyRouter replyTunnelID minutes id) in *.
  assert (Hgw : BuildRecord.Gateway request = false) by (unfold request, outboundRequest; by destruct hops).
  destruct (request_roundtrip ReadFull st request (HOptions hop) Hread Hreq Hopts ltac:(by rewrite Hgw))
    as (options & plain & st1 & Hmo & Hmr & Hplain & Hparse).
  rewrite (gbind_ok _ _ _ _ _ (lift_ok _ _ st Hmo)). change ShortBuildRequestPlainSize with 154.
  rewrite (gbind_ok _ _ _ _ _ Hmr). cbv beta iota zeta. change ShortBuildRecordSize with 218.
  destruct (lookup_lt_is_Some_2 rs (Z.to_nat p)) as [r Hr]; [unfold len in Hp; lia|].
  replace p with (Z.of_nat (Z.to_nat p)) by lia. set (q := Z.to_nat p) in *.
  rewrite (gbind_ok _ _ _ _ _ (lift_ok _ _ st1 (payload_record c rs q r Hrs Hr))).
  destruct (Hgen st1) as (e & st2 & Hge & Hle). destruct (sharedWith e (publicOf private)) as [secret|] eqn:Hsec; [|by apply Hagree in Hsec].
  destruct (request_sealed private (Router hop) plain e secret Hpl ltac:(lia) Hplain Hle Hsec) as (record & keys & Hsealed).
  pose proof (proj1 (Forall_lookup _ rs) Hrs q r Hr) as Hlr. cbn beta in Hlr.
  assert (Henc : encryptShortBuildRequest GenerateKey r (Router hop) (StaticKey hop) plain true st1 = (Ok (record, keys), st2)).
  { unfold encryptShortBuildRequest, ShortBuildRecordSize, shortBuildEphemeralSize, ShortBuildRequestPlainSize.
    rewrite Hstatic, Hlr, Hplain, (len_publicOf private Hpl). cbn [Z.ltb Z.compare Pos.compare Pos.compare_cont Z.eqb Pos.eqb negb orb].
    rewrite (gbind_ok _ _ _ _ _ Hge). unfold lift. destruct Hsealed as (_ & _ & _ & _ & Hseal & _). by rewrite Hseal. }
  rewrite (gbind_ok _ _ _ _ _ Henc). cbv beta iota. pose proof Hsealed as (Hlrec & _).
  rewrite (gbind_ok _ _ _ _ _ (lift_ok _ _ st2 (payload_write c rs q r record Hrs Hr Hlrec))).
  injection Hli as Hli. injection Hlp as Hlp.
  destruct (IH privates' ids positions (<[q := record]> rs) st2) as (ss & st' & E & Hok & Hslots & Hpr & Hhash & Hrq);
    [done..| |by apply records_insert|by rewrite length_insert|].
  { by unfold len; rewrite length_insert. }
  rewrite (gbind_ok _ _ _ _ _ E). exists (mkSealed private (Router hop) plain (received request (HOptions hop)) e q record keys :: ss), st'.
  split; [done|]. split; [constructor; [|done]; split_and!; cbn; [unfold q, len in *; lia|lia|done|done]|].
  cbn [fmap list_fmap sslot sprivate shash srequest]. rewrite requests_cons, Hslots, Hpr, Hhash, Hrq. split_and!; try done.
Qed.
End Sealing.
End Sealed.

(** ** The layers on the way *)

Section Layers.
Context `{P : Primitives} {L : PrimitivesLaws P} `{C : Curve} {CL : CurveLaws C}.

(** The keys from position [a] up to [b] of the path. *)
Definition seg {A} (a b : nat) (ks : list A) : list A := take (b - a) (drop a ks).

Lemma seg_snoc {A} a j (ks : list A) k : (a <= j)%nat -> ks !! j = Some k -> seg a (S j) ks = seg a j ks ++ [k].
Proof.
  intros Ha Hj. unfold seg. replace (S j - a)%nat with (S (j - a)) by lia.
  apply (take_S_r _ _ k). rewrite lookup_drop. by replace (a + (j - a))%nat with j by lia.
Qed.

Lemma seg_cons {A} j i (ks : list A) k : (j < i)%nat -> ks !! j = Some k -> seg j i ks = k :: seg (S j) i ks.
Proof.
  intros Hi Hj. unfold seg. rewrite (drop_S ks k j Hj). replace (i - j)%nat with (S (i - S j)) by lia. done.
Qed.

(** A hop of the path with the answer it gives: whether it takes part, the reply
    and the record that seals it. *)
Record hop := mkHop { hsealed : sealed; haccept : bool; hanswer : bytes; hreply : bytes }.
Definition hslot (h : hop) : nat := sslot (hsealed h).
Definition hkeys (h : hop) : ShortBuildKeys := skeys (hsealed h).
Definition hrecord (h : hop) : bytes := srecord (hsealed h).

(** A reply as the creator accepts it. *)
Definition reply_shape (accept : bool) (plain : bytes) : Prop :=
  len plain = 202 /\ index plain 201 = Ok (if accept then 0 else 30) /\
  exists mapping used, ParseMapping plain = Ok (mapping, used) /\ used <= 201 /\ len mapping <= 201.

Definition hop_ok (h : hop) : Prop :=
  sealed_ok (hsealed h) /\ reply_shape (haccept h) (hanswer h) /\
  seals_reply (hanswer h) (hkeys h) (Z.of_nat (hslot h)) (hreply h).

(** The record of hop [i] when the message has passed [j] hops. *)
Definition expected (hs : list hop) (j i : nat) (h : hop) : bytes :=
  if (i <? j)%nat then layers (seg (S i) j (hkeys <$> hs)) (Z.of_nat (hslot h)) (hreply h)
  else layers (seg j i (hkeys <$> hs)) (Z.of_nat (hslot h)) (hrecord h).

Definition arrived (hs : list hop) (j : nat) (rs : list bytes) : Prop :=
  records_ok rs /\ (length rs <= 8)%nat /\ forall i h, hs !! i = Some h -> rs !! hslot h = Some (expected hs j i h).

Lemma slots_inj hs i j h h' : NoDup (hslot <$> hs) -> hs !! i = Some h -> hs !! j = Some h' -> hslot h = hslot h' -> i = j.
Proof.
  intros Hnd Hi Hj E. apply (proj1 (NoDup_alt _) Hnd i j (hslot h)); rewrite list_lookup_fmap; [by rewrite Hi|].
  by rewrite Hj, E.
Qed.

Lemma lookup_keys (hs : list hop) (j : nat) h : hs !! j = Some h -> (hkeys <$> hs) !! j = Some (hkeys h).
Proof. intros Hj. by rewrite list_lookup_fmap, Hj. Qed.

Lemma expected_step hs j i h hj r : NoDup (hslot <$> hs) -> hs !! i = Some h -> hs !! j = Some hj ->
  len (hrecord h) = 218 -> len (hreply h) = 218 -> r = expected hs j i h ->
  (if (hslot h =? hslot hj)%nat then hreply hj else layer (ReplyKey (hkeys hj)) (Z.of_nat (hslot h)) r) = expected hs (S j) i h.
Proof.
  intros Hnd Hi Hj Hrec Hrep ->. unfold expected. destruct (Nat.eqb_spec (hslot h) (hslot hj)) as [E|E].
  - assert (i = j) as -> by (by apply (slots_inj hs i j h hj)). rewrite Hi in Hj. injection Hj as ->.
    rewrite (proj2 (Nat.ltb_lt j (S j))) by lia. unfold seg. by rewrite Nat.sub_diag.
  - assert (i <> j) by (intros ->; rewrite Hi in Hj; injection Hj as ->; done).
    destruct (Nat.ltb_spec i j).
    + rewrite (proj2 (Nat.ltb_lt i (S j))) by lia. rewrite (seg_snoc (S i) j _ (hkeys hj)) by (lia || by apply lookup_keys).
      unfold layers. by rewrite foldl_app.
    + rewrite (proj2 (Nat.ltb_ge i (S j))) by lia. rewrite (seg_cons j i _ (hkeys hj)) by (lia || by apply lookup_keys).
      rewrite layer_layers. set (s := Z.of_nat (hslot h)). set (k := ReplyKey (hkeys hj)).
      change (layers (seg (S j) i (hkeys <$> hs)) s (layer k s (layer k s (hrecord h))) = layers (seg (S j) i (hkeys <$> hs)) s (hrecord h)).
      by rewrite layer_twice.
Qed.

Lemma arrived_step hs j h rs : NoDup (hslot <$> hs) -> Forall hop_ok hs -> arrived hs j rs -> hs !! j = Some h ->
  arrived hs (S j) (relayer (ReplyKey (hkeys h)) (hslot h) 0 (<[hslot h := hreply h]> rs)).
Proof.
  intros Hnd Hok (Hall & Hl & Hexp) Hj. pose proof (proj1 (Forall_lookup _ _) Hok) as Hops.
  destruct (Hops j h Hj) as (_ & _ & Hrep & _).
  split; [apply relayer_ok; by apply records_insert|]. split; [by rewrite len_relayer, length_insert|].
  intros i hi Hi. destruct (Hops i hi Hi) as ((_ & _ & (Hrec & _) & _) & _ & Hrepi & _). specialize (Hexp i hi Hi).
  rewrite <- (expected_step hs j i hi h _ Hnd Hi Hj Hrec Hrepi eq_refl).
  destruct (Nat.eqb_spec (hslot hi) (hslot h)) as [E|E].
  - rewrite E in *. erewrite relayer_lookup by (rewrite list_lookup_insert_eq; [done|by eapply lookup_lt_Some]).
    by rewrite Nat.eqb_refl.
  - erewrite relayer_lookup by (by rewrite list_lookup_insert_ne by done). by rewrite (proj2 (Nat.eqb_neq _ _)).
Qed.

(** The hop's own record has lost all layers when the message reaches it. *)
Lemma arrived_own hs j h rs : arrived hs j rs -> hs !! j = Some h -> rs !! hslot h = Some (hrecord h).
Proof.
  intros (_ & _ & Hexp) Hj. rewrite (Hexp j h Hj). unfold expected, seg. by rewrite (proj2 (Nat.ltb_ge j j)), Nat.sub_diag by lia.
Qed.
End Layers.

(** ** The creator, before sending *)

Section Creator.
Context `{P : Primitives} {L : PrimitivesLaws P} `{C : Curve} {CL : CurveLaws C}.

Definition slots (ss : list sealed) : list Z := (fun s => Z.of_nat (sslot s)) <$> ss.

Lemma checkPositions_ok count positions : forall used,
  NoDup positions -> Forall (fun p => p < count) positions -> (forall p, p ∈ positions -> p ∉ used) ->
  checkPositions count used positions = Ok tt.
Proof.
  induction positions as [|p positions IH]; intros used Hnd Hlt Hused; [done|]. cbn [checkPositions].
  apply Forall_cons in Hlt as [Hh Hlt]. apply NoDup_cons in Hnd as [Hnotin Hnd].
  rewrite bool_decide_false by (apply Hused; left). replace (_ >=? count) with false by lia. cbn [orb].
  apply IH; [done|done|]. intros q Hin [->|Hin']%elem_of_cons; [done|]. apply (Hused q); [by right|done].
Qed.

(** The records when the first [later] of the sealed ones have their layers. *)
Definition prepared (ss : list sealed) (later : nat) (rs : list bytes) : Prop :=
  records_ok rs /\ (length rs <= 8)%nat /\
  forall i s, ss !! i = Some s ->
    rs !! sslot s = Some (if (i <? later)%nat then layers (seg 0 i (skeys <$> ss)) (Z.of_nat (sslot s)) (srecord s) else srecord s).

Lemma sealed_keys_ok ss : Forall sealed_ok ss -> keys_ok (skeys <$> ss).
Proof. intros Hok. apply Forall_fmap. eapply Forall_impl; [exact Hok|]. by intros x (_ & _ & (_ & _ & (Hk & _) & _) & _). Qed.

Lemma preprocessLoop_ok ss : NoDup (sslot <$> ss) -> Forall sealed_ok ss ->
  forall n later rs, (later + n = length ss)%nat -> prepared ss later rs ->
  exists rs', preprocessLoop n (Z.of_nat later) (concat rs) (skeys <$> ss) (slots ss) = Ok (concat rs') /\
    prepared ss (length ss) rs' /\ length rs' = length rs /\ forall i, i ∉ (sslot <$> ss) -> rs' !! i = rs !! i.
Proof.
  intros Hnd Hok n. pose proof (proj1 (Forall_lookup _ _) Hok) as Hops.
  induction n as [|n IH]; intros later rs Hn Hpre; cbn [preprocessLoop].
  { exists rs. replace (length ss) with later by lia. done. }
  destruct (lookup_lt_is_Some_2 ss later) as [s Hs]; [lia|]. destruct (Hops later s Hs) as (Hslot & _ & (Hrec & _) & _).
  assert (Hidx : index (slots ss) (Z.of_nat later) = Ok (Z.of_nat (sslot s))).
  { apply index_lookup. unfold slots. by rewrite list_lookup_fmap, Hs. }
  rewrite Hidx. cbn [bind]. pose proof Hpre as (Hall & Hl & Hexp). pose proof (Hexp later s Hs) as Hr.
  rewrite (proj2 (Nat.ltb_ge later later)) in Hr by lia.
  rewrite (recordAt_ok rs (sslot s) (srecord s)) by done. cbn [bind].
  assert (Hseg : take later (skeys <$> ss) = seg 0 later (skeys <$> ss)) by (unfold seg; by rewrite Nat.sub_0_r, drop_0).
  rewrite Nat2Z.id, transformWith_ok; [|lia|by apply Forall_take, sealed_keys_ok|done]. cbn [bind]. rewrite Hseg.
  set (r' := layers _ _ _). assert (Hr' : len r' = 218) by (by apply len_layers).
  rewrite (putRecord_ok rs (sslot s) (srecord s)) by done. cbn [bind].
  assert (Hinj : forall i si, ss !! i = Some si -> sslot si = sslot s -> i = later).
  { intros i si Hi E. apply (proj1 (NoDup_alt _) Hnd i later (sslot s)); rewrite list_lookup_fmap; [by rewrite Hi, <- E|by rewrite Hs]. }
  destruct (IH (S later) (<[sslot s := r']> rs)) as (rs' & Hloop & Hpre' & Hlen & Hother).
  - lia.
  - split; [by apply records_insert|]. split; [by rewrite length_insert|]. intros i si Hi.
    destruct (Nat.eqb_spec i later) as [->|Hne].
    + rewrite Hs in Hi. injection Hi as <-. rewrite list_lookup_insert_eq by (by eapply lookup_lt_Some).
      by rewrite (proj2 (Nat.ltb_lt later (S later))) by lia.
    + rewrite list_lookup_insert_ne by (intros E; by apply Hne, (Hinj i si)). rewrite (Hexp i si Hi).
      by replace (i <? S later)%nat with (i <? later)%nat by (destruct (Nat.ltb_spec i later), (Nat.ltb_spec i (S later)); done || lia).
  - exists rs'. replace (Z.of_nat later + 1) with (Z.of_nat (S later)) by lia. rewrite Hloop. rewrite length_insert in Hlen.
    split_and!; [done..|]. intros i Hi. rewrite Hother by done. apply list_lookup_insert_ne. intros <-.
    apply Hi, list_elem_of_fmap. exists s. split; [done|]. by eapply list_elem_of_lookup_2.
Qed.

Lemma slots_NoDup ss : NoDup (slots ss) -> NoDup (sslot <$> ss).
Proof. intros H. apply (NoDup_fmap_1 Z.of_nat). by rewrite <- list_fmap_compose. Qed.

Lemma Preprocess_ok ss rs : ss <> [] -> NoDup (slots ss) -> Forall sealed_ok ss ->
  Forall (fun s => (sslot s < length rs)%nat) ss -> (length ss <= length rs)%nat -> prepared ss 0 rs ->
  exists rs', PreprocessShortBuildRecords (concat rs) (skeys <$> ss) (slots ss) = Ok (concat rs') /\
    prepared ss (length ss) rs' /\ length rs' = length rs /\ forall i, i ∉ (sslot <$> ss) -> rs' !! i = rs !! i.
Proof.
  intros Hne Hnd Hok Hslots Hle Hpre. pose proof Hpre as (Hall & Hl & Hexp).
  pose proof (len_records rs Hall) as Hlen. unfold len at 2 in Hlen.
  unfold PreprocessShortBuildRecords, ShortBuildRecordSize. rewrite Hlen.
  unfold slots at 1. rewrite !len_fmap. unfold len. rewrite Z.mul_comm, Z.mod_mul, Z.div_mul, Z.eqb_refl by lia.
  assert (0 < length ss)%nat by (destruct ss; [done|cbn; lia]). zbool. cbn [Z.eqb orb negb].
  rewrite checkPositions_ok; [|done| |intros; apply not_elem_of_nil].
  2: { apply Forall_fmap. eapply Forall_impl; [exact Hslots|]. cbn. lia. }
  cbn [bind]. rewrite length_fmap. change 1 with (Z.of_nat 1).
  apply (preprocessLoop_ok ss (slots_NoDup ss Hnd) Hok (length ss - 1) 1 rs); [lia|].
  split; [done|]. split; [done|]. intros i s Hi. rewrite (Hexp i s Hi). destruct i as [|i]; [|done]. done.
Qed.

Lemma prepared_arrived hs rs : prepared (hsealed <$> hs) (length hs) rs -> arrived hs 0 rs.
Proof.
  intros (Hall & Hl & Hexp). split; [done|]. split; [done|]. intros i h Hi.
  pose proof (lookup_lt_Some _ _ _ Hi). unfold hslot. rewrite (Hexp i (hsealed h)) by (by rewrite list_lookup_fmap, Hi).
  rewrite (proj2 (Nat.ltb_lt i (length hs))) by lia. unfold expected. rewrite (proj2 (Nat.ltb_ge i 0)) by lia.
  by rewrite <- list_fmap_compose.
Qed.

Lemma chop n : forall l : bytes, len l = Z.of_nat n * 218 -> exists rs, concat rs = l /\ records_ok rs /\ length rs = n.
Proof.
  induction n as [|n IH]; intros l Hl; [destruct l; [exists []; split; [done|]; split; [constructor|done]|revert Hl; len_lia]|].
  destruct (IH (drop 218 l)) as (rs & Hc & Hok & Hn); [unfold len in *; rewrite length_drop; lia|].
  exists (take 218 l :: rs). cbn [concat length]. rewrite Hc, take_drop. split_and!; [done| |lia].
  constructor; [unfold len in *; rewrite length_take; lia|done].
Qed.

Section Prepare.
Context {R : Type} (ReadFull : Z -> go R bytes) (GenerateKey : go R bytes).
Context (Hread : reads ReadFull) (Hgen : forall st, exists e st', GenerateKey st = (Ok e, st') /\ len e = 32).

(** The creator's message: the sealed records with their layers, in distinct
    slots, among random ones. *)
Lemma prepareOutbound_ok hops privates replyRouter replyTunnelID now st ids st1 :
  1 <= len hops <= 8 -> Forall2 hop_key hops privates -> Forall hop_shape hops -> len replyRouter = 32 -> 0 < replyTunnelID < 2 ^ 32 ->
  messageIDLoop ReadFull (length hops + 1) [] st = (Ok ids, st1) ->
  exists ss fill rs st2 st3, let count := Z.max 4 (len hops) in
    prepareOutbound ReadFull GenerateKey hops replyRouter replyTunnelID now st =
      (Ok (ids, slots ss, [count] ++ concat rs, skeys <$> ss), st3) /\
    (exists st', ReadFull (count * 218) st2 = (Ok fill, st')) /\ len rs = count /\
    Forall sealed_ok ss /\ NoDup (slots ss) /\ sprivate <$> ss = privates /\ shash <$> ss = Router <$> hops /\
    srequest <$> ss = requests replyRouter replyTunnelID (u32 (now / 60000)) hops (drop 1 ids) /\
    prepared ss (length ss) rs /\
    forall i, i ∉ (sslot <$> ss) -> (i < length rs)%nat -> recordAt fill (Z.of_nat i) = recordAt (concat rs) (Z.of_nat i).
Proof.
  intros Hlen Hkeys Hshape Hrouter Htunnel Hids.
  destruct (messageIDLoop_inv ReadFull Hread _ _ _ _ _ Hids) as (_ & Hidok & Hlids); [constructor|constructor|].
  set (count := Z.max 4 (len hops)). assert (Hcount : 4 <= count <= 8 /\ len hops <= count) by (unfold count; lia).
  destruct (randomPositions_ok ReadFull Hread (len hops) count st1) as (positions & st2 & Epos & Hlp & Hnd & Hrange); [lia|lia|].
  assert (E0 : write (make_bytes (1 + count * 218)) 0 [count] = Ok ([count] ++ make_bytes (count * 218))).
  { replace (make_bytes (1 + count * 218)) with ([0] ++ make_bytes (count * 218)) by (unfold make_bytes; by rewrite Z2Nat.inj_add by lia).
    by apply write_prefix. }
  destruct (Hread (count * 218) st2) as (fill & st3 & Efill & Hlf & _); [lia|].
  assert (E1 : write ([count] ++ make_bytes (count * 218)) 1 fill = Ok ([count] ++ fill)).
  { rewrite write_app by len_lia. by rewrite sub_empty, app_nil_r by len_lia. }
  destruct ids as [|id0 ids']; [cbn in Hlids; lia|]. apply Forall_cons in Hidok as [_ Hidok].
  assert (E2 : slice_from (id0 :: ids') 1 = Ok ids').
  { rewrite slice_from_ok by len_lia. change (id0 :: ids') with ([id0] ++ ids'). rewrite sub_app_r by len_lia. by rewrite sub_all by len_lia. }
  destruct (chop (Z.to_nat count) fill) as (rs0 & Hc & Hrs0 & Hn0); [lia|]. subst fill.
  assert (Hlen0 : len rs0 = count) by (unfold len; lia).
  destruct (sealHops_ok ReadFull GenerateKey Hread Hgen replyRouter replyTunnelID (u32 (now / 60000)) Hrouter Htunnel
    ltac:(unfold u32; apply Z.mod_pos_bound; lia) count hops privates ids' positions rs0 st3 Hkeys Hshape Hidok)
    as (ss & st4 & Eseal & Hss & Hslots & Hpriv & Hhash & Hreqs); [|by unfold len in *; lia|by rewrite Hlen0|done|lia|].
  { rewrite len_cons in Hlids. unfold len in *. cbn [length] in *. lia. }
  fold (slots ss) in Hslots. subst positions. rename Hnd into Hndz. pose proof (slots_NoDup ss Hndz) as Hnd.
  assert (Hlt : Forall (fun s => (sslot s < length rs0)%nat) ss).
  { unfold slots in Hrange. rewrite Forall_fmap in Hrange. eapply Forall_impl; [exact Hrange|]. cbn. unfold len in *. lia. }
  assert (Hlss : length ss = length hops) by (apply (f_equal length) in Hhash; by rewrite !length_fmap in Hhash).
  pose proof (place_ok ss rs0 Hss Hrs0) as Hplace. set (rs1 := place ss rs0) in *.
  assert (Hl1 : length rs1 = length rs0) by apply length_place.
  destruct (Preprocess_ok ss rs1) as (rs & Epre & Hprep & Hlrs & Hother).
  - intros ->. destruct hops; [unfold len in Hlen; cbn in Hlen; lia|done].
  - done.
  - done.
  - by rewrite Hl1.
  - unfold len in *. lia.
  - split; [done|]. split; [lia|]. intros i s Hi. by apply (place_lookup ss rs0 i).
  - assert (E3 : slice_from ([count] ++ concat rs1) 1 = Ok (concat rs1)).
    { rewrite slice_from_ok by len_lia. rewrite sub_app_r by len_lia. by rewrite sub_all by len_lia. }
    pose proof Hprep as (Hrs & _).
    assert (E4 : write ([count] ++ concat rs1) 1 (concat rs) = Ok ([count] ++ concat rs)).
    { pose proof (len_records rs Hrs). pose proof (len_records rs1 Hplace). unfold len in *.
      rewrite write_app by (unfold len; cbn [length]; lia). rewrite sub_empty, app_nil_r; [done|]. unfold len. lia. }
    exists ss, (concat rs0), rs, st2, st4. cbn zeta. split.
    { unfold prepareOutbound. go_call Hids. cbv beta zeta. fold count. go_call Epos. change ShortBuildRecordSize with 218.
      go_lift E0. go_call Efill. go_lift E1. go_lift E2. go_call Eseal. go_lift E3. go_lift Epre. go_lift E4. reflexivity. }
    split; [by exists st3|]. split; [unfold len in *; lia|].
    split_and!; try done. intros i Hi Hil. destruct (lookup_lt_is_Some_2 rs i Hil) as [r Hr].
    rewrite (recordAt_ok rs i r), (recordAt_ok rs0 i r); try done.
    transitivity (rs1 !! i); [symmetry; by apply place_other|]. by rewrite <- Hother.
Qed.
End Prepare.
End Creator.

(** ** The creator, on the reply *)

Section Replies.
Context `{P : Primitives} {L : PrimitivesLaws P} `{C : Curve} {CL : CurveLaws C}.

(** The replies in path order. *)
Definition answers (hs : list hop) : list bytes := hanswer <$> hs.

Lemma len_answers hs : Forall hop_ok hs -> len (concat (answers hs)) = 202 * len hs.
Proof.
  induction 1 as [|h hs (_ & (Hh & _) & _) _ IH]; [done|]. cbn [answers fmap list_fmap concat]. rewrite len_app, len_cons.
  unfold answers in IH. rewrite IH. lia.
Qed.

Lemma answers_snoc hs j h : hs !! j = Some h -> concat (answers (take (S j) hs)) = concat (answers (take j hs)) ++ hanswer h.
Proof.
  intros Hj. rewrite (take_S_r _ _ h Hj). unfold answers. rewrite fmap_app, concat_app. cbn [fmap list_fmap concat].
  by rewrite app_nil_r.
Qed.

Lemma hop_keys_ok hs : Forall hop_ok hs -> keys_ok (hkeys <$> hs).
Proof. intros Hok. apply Forall_fmap. eapply Forall_impl; [exact Hok|]. by intros x ((_ & _ & (_ & _ & (Hk & _) & _) & _) & _). Qed.

Lemma openLoop_ok hs rs : Forall hop_ok hs -> arrived hs (length hs) rs ->
  forall todo j dst, drop j hs = todo -> (j <= length hs)%nat -> 202 * len hs <= len dst ->
  openLoop (Z.of_nat j) ((fun h => Z.of_nat (hslot h)) <$> todo) (concat rs) (hkeys <$> hs) (over (concat (answers (take j hs))) dst) =
    Ok (over (concat (answers hs)) dst).
Proof.
  intros Hok (Hall & Hl & Hexp) todo. induction todo as [|h todo IH]; intros j dst Hdrop Hle Hdst.
  { apply (f_equal length) in Hdrop. rewrite length_drop in Hdrop. cbn in Hdrop. by rewrite take_ge by lia. }
  assert (Hj : hs !! j = Some h) by (rewrite <- (Nat.add_0_r j), <- lookup_drop, Hdrop; done).
  assert (Hdrop' : drop (S j) hs = todo) by (rewrite (drop_S hs h j Hj) in Hdrop; by injection Hdrop).
  pose proof (lookup_lt_Some _ _ _ Hj) as Hlt. pose proof (Hexp j h Hj) as Hr.
  destruct (proj1 (Forall_lookup _ _) Hok j h Hj) as ((Hs & _) & (Hplain & Hcode & m & used & Hmap & Hused & Hm) & (Hrep & _ & Hopen)).
  change (sslot (hsealed h)) with (hslot h) in Hs.
  pose proof (lookup_lt_Some _ _ _ Hr) as Hslot. pose proof (len_records rs Hall) as Hlen. unfold len at 2 in Hlen.
  assert (Hacc : len (concat (answers (take j hs))) = 202 * Z.of_nat j).
  { rewrite len_answers by (by apply Forall_take). unfold len. rewrite length_take. lia. }
  assert (Hhs : len hs = Z.of_nat (length hs)) by done.
  cbn [fmap list_fmap openLoop]. unfold ShortBuildRecordSize, ShortBuildReplyPlainSize.
  rewrite Hlen, Z.mul_comm, Z.div_mul by lia. replace (_ >=? _) with false by lia.
  rewrite (recordAt_ok rs (hslot h) _ Hall Hr). cbn [bind].
  assert (Hseg : drop (Z.to_nat (Z.of_nat j + 1)) (hkeys <$> hs) = seg (S j) (length hs) (hkeys <$> hs)).
  { replace (Z.to_nat (Z.of_nat j + 1)) with (S j) by lia. unfold seg. by rewrite take_ge by (rewrite length_drop, length_fmap; lia). }
  assert (He : expected hs (length hs) j h = layers (seg (S j) (length hs) (hkeys <$> hs)) (Z.of_nat (hslot h)) (hreply h))
    by (unfold expected; by rewrite (proj2 (Nat.ltb_lt j (length hs))) by lia).
  rewrite He, transformWith_ok; [|lia|by apply Forall_drop, hop_keys_ok|by apply len_layers]. rewrite Hseg, layers_twice by done. cbn [bind].
  rewrite slice_ok by (rewrite ?len_over; lia). cbn [bind]. rewrite (index_lookup _ j (hkeys h)) by (by apply lookup_keys).
  cbn [bind]. rewrite Hopen by (rewrite len_sub; rewrite ?len_over; lia). cbn [bind].
  rewrite write_over by lia. cbn [bind]. rewrite Hmap. zbool. cbn [orb]. change (202 - 1) with 201.
  rewrite Hcode. cbn [bind]. replace (negb _ && negb _) with false by (by destruct (haccept h)).
  rewrite <- answers_snoc by done. replace (Z.of_nat j + 1) with (Z.of_nat (S j)) by lia. apply IH; [done|lia|done].
Qed.

Lemma Open_ok hs rs dst : hs <> [] -> Forall hop_ok hs -> arrived hs (length hs) rs -> 202 * len hs <= len dst ->
  OpenShortBuildReplies (concat rs) (hkeys <$> hs) ((fun h => Z.of_nat (hslot h)) <$> hs) dst = Ok (over (concat (answers hs)) dst).
Proof.
  intros Hne Hok Harr Hdst. pose proof Harr as (Hall & _). pose proof (len_records rs Hall) as Hlen.
  unfold OpenShortBuildReplies, ShortBuildRecordSize, ShortBuildReplyPlainSize. rewrite Hlen.
  rewrite !len_fmap. rewrite Z.mul_comm, Z.mod_mul, Z.eqb_refl by lia.
  assert (0 < len hs) by (destruct hs; [done|len_lia]). zbool. cbn [Z.eqb orb negb].
  pose proof (openLoop_ok hs rs Hok Harr hs 0 dst eq_refl ltac:(lia) Hdst) as Ho. rewrite take_0 in Ho.
  cbn [answers fmap list_fmap concat] in Ho. rewrite <- over_nil in Ho. exact Ho.
Qed.

(** The codes: the first hop that refused ends the build. *)
Lemma checkCodes_ok hs : Forall hop_ok hs -> forall todo j, drop j hs = todo ->
  checkCodes (length todo) (Z.of_nat j) (concat (answers hs)) = if forallb haccept todo then Ok tt else Err ErrBuildRejected.
Proof.
  intros Hok todo. induction todo as [|h todo IH]; intros j Hdrop; [done|].
  assert (Hj : hs !! j = Some h) by (rewrite <- (Nat.add_0_r j), <- lookup_drop, Hdrop; done).
  assert (Hdrop' : drop (S j) hs = todo) by (rewrite (drop_S hs h j Hj) in Hdrop; by injection Hdrop).
  destruct (proj1 (Forall_lookup _ _) Hok j h Hj) as (_ & (Hplain & Hcode & _) & _). pose proof (lookup_lt_Some _ _ _ Hj).
  cbn [length checkCodes forallb]. unfold ShortBuildReplyPlainSize.
  assert (Hidx : index (concat (answers hs)) ((Z.of_nat j + 1) * 202 - 1) = Ok (if haccept h then 0 else 30)).
  { rewrite <- (take_drop_middle hs j h Hj). unfold answers. rewrite fmap_app, concat_app. cbn [fmap list_fmap concat].
    pose proof (len_answers (take j hs) ltac:(by apply Forall_take)) as Hl. unfold answers in Hl.
    assert (len (take j hs) = Z.of_nat j) as Ht by (unfold len; rewrite length_take; lia). rewrite Ht in Hl.
    rewrite index_app_r by lia. rewrite index_app_l by lia. rewrite <- Hcode. f_equal. lia. }
  rewrite Hidx. cbn [bind]. destruct (haccept h); cbn [Z.eqb negb andb]; [|done].
  replace (Z.of_nat j + 1) with (Z.of_nat (S j)) by lia. by apply IH.
Qed.

Lemma decryptors_ok ks : Forall keys_shape ks -> decryptors ks = Ok ((fun k => cipher (LayerKey k, IVKey k) false) <$> ks).
Proof.
  induction 1 as [|k ks (_ & H1 & H2) _ IH]; [done|]. cbn [decryptors]. unfold NewLayerDecryptor, newLayer. rewrite H1, H2.
  cbn [Z.eqb Pos.eqb negb orb bind]. rewrite IH. done.
Qed.

Lemma keys_shapes hs : Forall hop_ok hs -> Forall keys_shape (hkeys <$> hs).
Proof. intros Hok. apply Forall_fmap. eapply Forall_impl; [exact Hok|]. by intros x ((_ & _ & (_ & _ & Hk & _) & _) & _). Qed.

Lemma parse_short kind rs : kind = ShortTunnelBuild \/ kind = OutboundTunnelBuildReply -> records_ok rs ->
  (1 <= length rs)%nat -> (length rs <= 8)%nat ->
  ParseBuildRecords kind ([len rs] ++ concat rs) = Ok (mkBuildRecords (len rs) 218 (concat rs)).
Proof.
  intros Hk Hall H1 H8. pose proof (len_records rs Hall) as Hl. assert (Hn : 1 <= len rs <= 8) by (unfold len; lia).
  unfold ParseBuildRecords. assert (Hll : len ([len rs] ++ concat rs) = 1 + len rs * 218) by len_lia.
  replace ((kind =? TunnelBuild) || (kind =? TunnelBuildReply)) with false by (destruct Hk; subst; done).
  replace ((kind =? VariableTunnelBuild) || (kind =? VariableTunnelBuildReply)) with false by (destruct Hk; subst; done).
  replace ((kind =? ShortTunnelBuild) || (kind =? OutboundTunnelBuildReply)) with true by (destruct Hk; subst; done).
  rewrite Hll. replace (1 + len rs * 218 =? 0) with false by lia. rewrite index_app_l by len_lia. change (index [len rs] 0) with (Ok (len rs)).
  cbn [bind]. unfold MaxVariableBuildRecords, ShortBuildRecordLen, u8, u16. zbool. cbn [orb negb].
  rewrite slice_from_ok by lia. rewrite Hll. rewrite sub_app_r by len_lia. rewrite sub_all by len_lia. cbn [bind].
  by rewrite Z.mod_small by lia.
Qed.

(** The circuit the creator makes of the hops' keys. *)
Definition creatorCircuit (build : OutboundBuild) (owner : bytes) (first : ShortBuildHop) (keys : list ShortBuildKeys) : OutboundCircuit :=
  mkOutboundCircuit (CircuitID build) owner (Router first) (HReceiveTunnelID first)
    ((fun k => cipher (LayerKey k, IVKey k) false) <$> rev keys) (ExpiresAt build).

Lemma openOutboundReply_ok hs rs build first rest id deadline deadline' owner now :
  hs <> [] -> Forall hop_ok hs -> arrived hs (length hs) rs -> 1 <= len rs -> Hops build = first :: rest -> now < deadline' ->
  openOutboundReply (mkPending build (hkeys <$> hs) ((fun h => Z.of_nat (hslot h)) <$> hs) (len rs) deadline')
    (mkMessage (mkHeader OutboundTunnelBuildReply id deadline) ([len rs] ++ concat rs)) owner now =
  if forallb haccept hs then Ok (creatorCircuit build owner first (hkeys <$> hs)) else Err ErrBuildRejected.
Proof.
  intros Hne Hok Harr Hlen Hfirst Hd. pose proof Harr as (Hall & Hl8 & _). pose proof (len_records rs Hall) as Hl.
  pose proof (parse_short OutboundTunnelBuildReply rs ltac:(by right) Hall ltac:(unfold len in *; lia) Hl8) as Hparse.
  unfold openOutboundReply. cbn [Type_ MHeader Payload pdeadline precordCount pkeys ppositions pbuild]. rewrite Hparse. cbn [bind BRCount BRRecords].
  zbool. cbn [negb orb]. unfold ShortBuildReplyPlainSize.
  assert (Hdst : len (make_bytes (len (hkeys <$> hs) * 202)) = 202 * len hs) by (rewrite len_fmap; len_pos; rewrite len_make_bytes; lia).
  rewrite Open_ok by (done || lia). cbn [bind]. unfold over. rewrite sub_empty, app_nil_r by (rewrite len_answers by done; lia).
  rewrite length_fmap. change 0 with (Z.of_nat 0) at 1. rewrite (checkCodes_ok hs Hok hs 0) by done.
  destruct (forallb haccept hs); [|done]. cbn [bind].
  rewrite decryptors_ok by (apply Forall_rev; by apply keys_shapes). cbn [bind]. by rewrite Hfirst.
Qed.
End Replies.

(** ** A hop *)

Section Station.
Context `{P : Primitives} {L : PrimitivesLaws P} `{C : Curve} {CL : CurveLaws C}.
Context {T handler W : Type} `{!CircuitRuntime T handler} `{!CircuitRuntimeLaws T handler}.
Abbreviation node := (node (T := T) (W := W)).
Abbreviation manager := (manager (handler := handler) (W := W)).

Definition answer_entries (available : Z) (b : bool) : list (bytes * bytes) := if b then [(str "b", FormatUint available)] else [].

Lemma answer_entries_ok available b : 0 <= available < 2 ^ 32 ->
  Forall entry_ok (answer_entries available b) /\ increasing None (answer_entries available b).*1 /\
  2 <= len (mapping_wire (answer_entries available b)) <= 17 /\ len (entries_wire (answer_entries available b)) <= 15.
Proof.
  intros Ha. destruct b; [|by split_and!]. cbn [answer_entries]. destruct (format_ok available Ha) as (_ & Hl & Hb).
  assert (Hw : len (entries_wire [(str "b", FormatUint available)]) = 5 + len (FormatUint available)).
  { rewrite entries_wire_cons, len_app, len_entry_wire. cbn [fst snd]. change (len (entries_wire [])) with 0. change (len (str "b")) with 1. lia. }
  len_pos. assert (Hm : len (mapping_wire [(str "b", FormatUint available)]) = 2 + len (entries_wire [(str "b", FormatUint available)]))
    by (unfold mapping_wire; len_lia).
  split_and!; try lia; [|done]. constructor; [|done]. unfold entry_ok. cbn [fst snd]. split_and!; try done; [lia|by apply bytes_ok_check].
Qed.

Lemma sealBuildReply_ok (m : manager) keys slot accept available b (n : node) :
  reads (mrandom m) -> 0 <= available < 2 ^ 32 -> len (ReplyKey keys) = 32 -> 0 <= slot < 8 ->
  exists plain reply w, reply_shape accept plain /\ seals_reply plain keys slot reply /\
    forall record, len record = 218 ->
      sealBuildReply m record keys slot (if accept then 0 else 30) available b n = (Ok reply, set_world w n).
Proof.
  intros Hread Ha Hk Hs. destruct (answer_entries_ok available b Ha) as (Hall & Hinc & Hm & He).
  set (es := answer_entries available b) in *. set (code := if accept then 0 else 30).
  destruct (Hread (202 - 1 - len (mapping_wire es)) (world n)) as (fill & w & Hfill & Hlf & _); [lia|].
  assert (Hbuf : (if b then lift (MarshalMappingTo (make_bytes 202) [mkEntry (Some (str "b")) (FormatUint available)])
      else ret (make_bytes 202, 2)) n = (Ok (over (mapping_wire es) (make_bytes 202), len (mapping_wire es)), n)).
  { destruct b; [|done]. destruct (marshal_increasing es (make_bytes 202) Hall Hinc) as [_ Hmar]; [lia|len_lia|]. unfold lift. by rewrite <- Hmar. }
  set (plain := mapping_wire es ++ fill ++ [code]). assert (Hplain : len plain = 202) by (unfold plain; len_lia).
  destruct (reply_sealed plain keys slot Hplain Hk Hs) as (reply & Hreply). exists plain, reply, w. split; [split; [done|]|split; [done|]].
  - split; [unfold plain; rewrite app_assoc, index_app_r by len_lia; len_simpl; by replace (201 - _) with 0 by lia|].
    exists (mapping_wire es), (len (mapping_wire es)). split; [apply ParseMapping_wire; [done|lia]|lia].
  - intros record Hr. unfold sealBuildReply, ShortBuildReplyPlainSize. go_call Hbuf.
    assert (Hf : onReader (mrandom m (202 - 1 - len (mapping_wire es))) n = (Ok fill, set_world w n)) by (unfold onReader; by rewrite Hfill).
    go_call Hf. assert (E1 : write (over (mapping_wire es) (make_bytes 202)) (len (mapping_wire es)) fill = Ok (over (mapping_wire es ++ fill) (make_bytes 202)))
      by (apply write_over; len_lia).
    go_lift E1. assert (E2 : write (over (mapping_wire es ++ fill) (make_bytes 202)) (202 - 1) [code] = Ok plain).
    { rewrite write_over by len_lia. f_equal. unfold over, plain. rewrite sub_empty, app_nil_r by len_lia. by rewrite <- app_assoc. }
    go_lift E2. destruct Hreply as (_ & Hseal & _). unfold lift. by rewrite Hseal.
Qed.

(** A station of the path: a hop's manager and state, and its clock. *)
Record station := mkStation { smanager : manager; snode : node; snow : Z }.

Abbreviation address := (fun x => mlocal (smanager x)).

(** The station can answer a request that comes from the router [from]: its
    senders and reader do not fail, what it has reserved has run out, and the
    identifier of the request is free. *)
Definition ready (from : bytes) (x : station) (request : ShortBuildRequest) : Prop :=
  let m := smanager x in let n := snode x in
  reads (mrandom m) /\ (forall f w, bandwidth m = Some f -> 0 <= (f request w).1 < 2 ^ 32) /\
  (forall router message w, (sender m router message w).1 = None) /\
  (forall send router tunnel key message w, replySender m = Some send -> (send router tunnel key message w).1 = None) /\
  table_ok (runtime n) /\ inspectCircuit (ReceiveTunnelID request) (runtime n) = None /\
  0 < maxPending m /\ (forall id d, transit (reserved n) !! id = Some d -> d <= snow x) /\
  (forall h d, transitRecords (reserved n) !! h = Some d -> d <= snow x) /\
  mlocal m <> zeroHash /\
  (forall keys, HasGarlicKeys keys = Endpoint request -> validTransitRequest m request keys (snow x) (mkSource from true) = true).

Lemma swept {K} `{Countable K} (m : gmap K Z) now : (forall h d, m !! h = Some d -> d <= now) ->
  filter (fun item => live now item.2 = true) m = ∅.
Proof.
  intros Hm. apply map_empty_filter_2. intros h d Hh. cbn. unfold live. specialize (Hm h d Hh). by rewrite (proj2 (Z.leb_le d now)).
Qed.

Lemma reserve_ok cap id hash now s : id <> 0 -> 0 < cap -> (forall i d, transit s !! i = Some d -> d <= now) ->
  (forall h d, transitRecords s !! h = Some d -> d <= now) -> exists s', reserveTransit cap id hash now s = (true, s').
Proof.
  intros Hid Hcap Ht Hr. unfold reserveTransit. rewrite (proj2 (Z.eqb_neq id 0)) by done. rewrite (swept _ _ Ht), (swept _ _ Hr).
  rewrite !lookup_empty, map_size_empty. destruct (Z.geb_spec (Z.of_nat 0) cap); [lia|]. by eexists.
Qed.

Lemma decideTransit_range (m : manager) request (n : node) accept available n' :
  (forall f w, bandwidth m = Some f -> 0 <= (f request w).1 < 2 ^ 32) ->
  decideTransit m request n = (Ok (accept, available), n') -> 0 <= available < 2 ^ 32.
Proof.
  intros Hb. unfold decideTransit, onWorld. go_unfold.
  destruct (bandwidth m) as [f|] eqn:Ef; [specialize (Hb f (world n) eq_refl); destruct (negb _ || negb _);
    [destruct (f request (world n)) as [a w']|]|];
    (destruct (admitRequest m) as [g|]; [destruct (_ || _); [destruct (g _ _) as [b w2]|]|]); cbn; intros [= <- <- <-]; cbn in *; lia.
Qed.

Lemma valid_inv (m : manager) request keys now source : validTransitRequest m request keys now source = true ->
  ReceiveTunnelID request <> 0 /\ (NextTunnelID request =? 0) = false /\ NextMessageID request <> 0 /\
  bytes_eqb (NextRouter request) zeroHash = false /\ (Endpoint request = true -> is_Some (replySender m)).
Proof.
  unfold validTransitRequest. destruct (_ || negb _ && negb _ && _); [done|].
  destruct (negb (LifetimeSeconds request =? shortBuildLifetime) || _ || _ || _ || _ || _ || _) eqn:E; [done|].
  rewrite !orb_false_iff in E. destruct E as ((((((_ & H1) & H2) & H3) & H4) & _) & _).
  destruct (_ || (_ <? _)); [done|]. destruct (negb (validShortBuildOptions _ _)); [done|].
  intros Hv. split; [lia|]. split; [done|]. split; [lia|]. split; [done|]. intros Ee. rewrite Ee in Hv. cbn [negb orb] in Hv.
  apply andb_true_iff in Hv as [[Hrs _]%andb_true_iff _]. by apply bool_decide_eq_true in Hrs.
Qed.

(** Passing on, when the senders do not fail. *)
Lemma passOn_ok from x request keys accept payload (n : node) : ready from x request -> HasGarlicKeys keys = Endpoint request ->
  exists w, passOn (smanager x) request keys (snow x) accept payload n =
    (if accept then Ok tt else Err ErrBuildRejected, log (onward request keys (snow x) payload) (set_world w n)).
Proof.
  intros (_ & _ & Hsend & Hreply & _ & _ & _ & _ & _ & _ & Hvalid) Hg. pose proof (Hvalid keys Hg) as Hv.
  apply valid_inv in Hv as (_ & H1 & _ & H2 & H3). unfold passOn, onward. go_unfold. unfold onWorld.
  destruct (Endpoint request) eqn:Ee.
  - destruct (H3 eq_refl) as [send Hs]. rewrite Hs, H1, H2, Hg, orb_true_r. cbn [orb negb].
    specialize (Hreply send (NextRouter request) (NextTunnelID request)
      (ReplyKeys.mkKey (GarlicTag keys) (GarlicKey keys) (saturatingDeadline (snow x) nextHopSendTimeout))
      (mkMessage (mkHeader OutboundTunnelBuildReply (NextMessageID request) (saturatingDeadline (snow x) nextHopSendTimeout)) payload) (world n) Hs).
    destruct (send _ _ _ _ _) as [o w]. cbn in Hreply. subst o. exists w. cbn. by destruct accept.
  - specialize (Hsend (NextRouter request)
      (mkMessage (mkHeader ShortTunnelBuild (NextMessageID request) (saturatingDeadline (snow x) nextHopSendTimeout)) payload) (world n)).
    destruct (sender _ _ _ _) as [o w]. cbn in Hsend. subst o. exists w. cbn. by destruct accept.
Qed.

(** The answer: the reply sealed in the hop's slot, its layer on the others. *)
Lemma answerTransit_ok from x s (accept : bool) available (n : node) : ready from x (srequest s) -> sealed_ok s -> 0 <= available < 2 ^ 32 ->
  exists plain reply, reply_shape accept plain /\ seals_reply plain (skeys s) (Z.of_nat (sslot s)) reply /\
    forall rs, records_ok rs -> (length rs <= 8)%nat -> rs !! sslot s = Some (srecord s) ->
    exists w, let payload := [len rs] ++ concat (relayer (ReplyKey (skeys s)) (sslot s) 0 (<[sslot s := reply]> rs)) in
      answerTransit (smanager x) ([len rs] ++ concat rs) (mkBuildRecords (len rs) 218 (concat rs)) (srecord s) (srequest s) (skeys s)
        (Z.of_nat (sslot s)) (snow x) accept available n =
      (if accept then Ok tt else Err ErrBuildRejected, log (onward (srequest s) (skeys s) (snow x) payload) (set_world w n)).
Proof.
  intros Hready (Hslot & _ & (Hrec & _ & (Hk & _) & Hflag & _) & Hparse) Ha. pose proof Hready as (Hread & _).
  assert (Hg : HasGarlicKeys (skeys s) = Endpoint (srequest s)).
  { apply parse_endpoint in Hparse. rewrite Hparse in Hflag. by injection Hflag. }
  set (b := accept && (negb (Minimum (Bandwidth (srequest s)) =? 0) || negb (Requested (Bandwidth (srequest s)) =? 0))).
  destruct (sealBuildReply_ok (smanager x) (skeys s) (Z.of_nat (sslot s)) accept available b n Hread Ha Hk ltac:(lia))
    as (plain & reply & w & Hshape & Hseals & Hrun).
  exists plain, reply. split; [done|]. split; [done|]. intros rs Hall Hl Hown. pose proof (answer_ok rs (sslot s) (srecord s) plain (skeys s) reply Hall Hl Hown Hk Hseals) as Hans.
  unfold answerRecords, ShortBuildRecordSize in Hans. rewrite count_ok, Nat2Z.id in Hans by done.
  pose proof Hseals as (Hrep & Hseal & _). rewrite Hseal in Hans by done. cbn [bind] in Hans.
  rewrite (putRecord_ok rs (sslot s) (srecord s)) in Hans by done. cbn [bind] in Hans.
  set (rs' := relayer _ _ _ _) in *. assert (Hrs' : len (concat rs') = len (concat rs)).
  { rewrite (len_records rs Hall), len_records by (apply relayer_ok; by apply records_insert). unfold rs', len.
    by rewrite len_relayer, length_insert. }
  destruct (passOn_ok from x (srequest s) (skeys s) accept ([len rs] ++ concat rs') (set_world w n) Hready Hg) as (w' & Hpass).
  exists w'. cbn zeta. unfold answerTransit. cbv beta zeta. go_call (Hrun (srecord s) Hrec). cbn [BRRecords BRCount].
  go_lift (putRecord_ok rs (sslot s) (srecord s) reply Hall Hown Hrep). unfold len at 1. rewrite Nat2Z.id. go_lift Hans.
  assert (E : write ([len rs] ++ concat rs) 1 (concat rs') = Ok ([len rs] ++ concat rs')).
  { rewrite write_app by len_lia. by rewrite sub_empty, app_nil_r by lia. }
  go_lift E. exact Hpass.
Qed.

(** A station that gets a message with its record in it answers and passes it on. *)
Lemma station_ok from x s id : sealed_ok s -> shash s = mlocal (smanager x) -> staticPrivateKey (smanager x) = Some (sprivate s) ->
  ready from x (srequest s) -> id <> 0 ->
  exists h, hsealed h = s /\ hop_ok h /\
    forall rs deadline, records_ok rs -> (length rs <= 8)%nat -> rs !! sslot s = Some (srecord s) -> addressed (shash s) (sslot s) rs ->
    exists n', handleTransit (smanager x) (mkSource from true) (snow x)
        (mkMessage (mkHeader ShortTunnelBuild id deadline) ([len rs] ++ concat rs)) (snode x) =
        (if haccept h then Ok tt else Err ErrBuildRejected, n') /\
      sent n' = sent (snode x) ++ [onward (srequest s) (skeys s) (snow x)
        ([len rs] ++ concat (relayer (ReplyKey (skeys s)) (sslot s) 0 (<[sslot s := hreply h]> rs)))] /\
      if haccept h then installs (smanager x) (srequest s) (skeys s) (snow x) (runtime (snode x)) (runtime n')
      else forall k, view k (runtime n') = view k (runtime (snode x)).
Proof.
  intros Hs Hhash Hkey Hready Hid. pose proof Hready as (_ & Hband & _ & _ & Htable & Hfree & Hcap & Ht & Hr & Hzero & Hvalid).
  pose proof Hs as (Hslot & Hlh & (Hrec & _ & _ & Hflag & _ & Hdec) & Hparse).
  assert (Hg : HasGarlicKeys (skeys s) = Endpoint (srequest s)).
  { apply parse_endpoint in Hparse. rewrite Hparse in Hflag. by injection Hflag. }
  destruct (reserve_ok (maxPending (smanager x)) id (Sha256.Sum256 (srecord s)) (snow x) (reserved (snode x)) Hid Hcap Ht Hr) as (s' & Hres).
  destruct (decideTransit_ok (smanager x) (srequest s) (set_reserved s' (snode x))) as (accept & available & w & Hdecide).
  pose proof (decideTransit_range _ _ _ _ _ _ Hband Hdecide) as Havail. set (n1 := set_world w (set_reserved s' (snode x))) in *.
  assert (Hinst : exists installed n2, (if accept then
       fun n => match installTransitCircuit (smanager x) (srequest s) (skeys s) (snow x) n with
                | (Ok token, n) => (Ok (Some token), n) | (Err _, n) => (Ok None, n) | (Panic, n) => (Panic, n) end
     else ret None) n1 = (Ok installed, n2) /\ sent n2 = sent (snode x)).
  { destruct accept; [|by exists None, n1]. destruct (installTransitCircuit _ _ _ _ n1) as [a n2] eqn:Ei.
    apply installTransitCircuit_inv in Ei as (-> & _ & Ha); [|done]. destruct a as [token|e|]; [| |done]; by eexists _, _. }
  destruct Hinst as (installed & n2 & Hinst & Hsent2). set (a := bool_decide (is_Some installed)).
  destruct (answerTransit_ok from x s a available n2 Hready Hs Havail) as (plain & reply & Hshape & Hseals & Hrun).
  exists (mkHop s a plain reply). split; [done|]. split; [done|]. intros rs deadline Hall Hl Hown Haddr.
  pose proof (lookup_lt_Some _ _ _ Hown) as Hlt. destruct (Hrun rs Hall Hl Hown) as (w' & Hans). cbn zeta in Hans. cbn [haccept hreply].
  set (message := mkMessage _ _).
  assert (Hopen : openTransit (smanager x) (sprivate s) (mkBuildRecords (len rs) 218 (concat rs)) = Ok (Z.of_nat (sslot s), srecord s, srequest s, skeys s)).
  { unfold openTransit. cbn [BRCount BRRecords]. unfold len at 1. rewrite Nat2Z.id, <- Hhash, (search_ok _ _ (sslot s)) by done. cbn [bind].
    replace (Z.of_nat (sslot s) <? 0) with false by lia. rewrite (recordAt_ok rs (sslot s) (srecord s)) by done. cbn [bind].
    rewrite Hdec by (unfold ShortBuildRequestPlainSize; rewrite len_make_bytes; lia). cbn [bind]. by rewrite Hparse. }
  destruct (cleanup (default noToken installed) (answerTransit (smanager x) ([len rs] ++ concat rs) (mkBuildRecords (len rs) 218 (concat rs)) (srecord s) (srequest s) (skeys s)
        (Z.of_nat (sslot s)) (snow x) a available) n2) as [r n'] eqn:Ec.
  assert (Hhandle : handleTransit (smanager x) (mkSource from true) (snow x) message (snode x) = (r, n')).
  { unfold handleTransit. rewrite Hkey. unfold bytes_eqb at 1. rewrite bool_decide_false by done. cbn [message Payload MHeader ID].
    go_lift (parse_short ShortTunnelBuild rs ltac:(by left) Hall ltac:(lia) Hl). go_lift Hopen. rewrite (Hvalid _ Hg). cbn [negb].
    go_get. rewrite Hres. go_put. cbn [negb]. go_get.
    change (runtime (set_reserved s' (snode x))) with (runtime (snode x)). rewrite Hfree. go_call Hdecide. go_call Hinst. exact Ec. }
  exists n'. rewrite Hhandle. unfold cleanup in Ec. rewrite Hans in Ec.
  assert (Hout : r = (if a then Ok tt else Err ErrBuildRejected) /\ sent n' = sent (snode x) ++ [onward (srequest s) (skeys s) (snow x)
    ([len rs] ++ concat (relayer (ReplyKey (skeys s)) (sslot s) 0 (<[sslot s:=reply]> rs)))]).
  { rewrite <- Hsent2. destruct a eqn:Ea; [by injection Ec as <- <-|]. apply bool_decide_eq_false, eq_None_not_Some in Ea. subst installed.
    revert Ec. unfold gbind, onRuntime, fail. cbn [from_option]. rewrite removeCircuit_none. by intros [= <- <-]. }
  destruct Hout as [-> Hsent]. split; [done|]. split; [done|].
  apply handleTransit_inv in Hhandle; [|done]. destruct Hhandle as [(Hne & s0 & -> & _)|(p & rec & sl & re & rq & ks & s0 & (Hk & Hp & Ho & _) & _ & _ & _ & Hm)].
  - by destruct a.
  - cbn [message Payload] in Hp. rewrite (parse_short ShortTunnelBuild rs ltac:(by left) Hall ltac:(lia) Hl) in Hp. injection Hp as <-.
    rewrite Hkey in Hk. injection Hk as <-. rewrite Hopen in Ho. injection Ho as <- <- <- <-. destruct a; [apply Hm|exact Hm].
Qed.

(** ** The way of the message *)

(** A station handles a message that comes from the router [from]: the result,
    its state, and what it hands on, if that is one message. *)
Definition relay (from : bytes) (x : station) (message : Message) : option (res unit * node * buildHandoff) :=
  let (r, n') := handleTransit (smanager x) (mkSource from true) (snow x) message (snode x) in
  match drop (length (sent (snode x))) (sent n') with
  | [h] => Some (r, n', h)
  | _ => None
  end.

(** A message under way: the transport delivers it to the router it is sent to,
    and to no other.  The stations' results and what the last one hands on. *)
Fixpoint travel (from : bytes) (xs : list station) (h : buildHandoff) : option (list (res unit * node) * buildHandoff) :=
  match xs with
  | [] => Some ([], h)
  | x :: xs =>
      match h with
      | Forwarded router message =>
          if bool_decide (router = address x) then
            match relay from x message with
            | Some (r, n', h) =>
                match travel (address x) xs h with
                | Some (results, h) => Some ((r, n') :: results, h)
                | None => None
                end
            | None => None
            end
          else None
      | Replied _ _ _ _ => None
      end
  end.

(** No record but its own happens to begin with the hash of the station that
    looks at it. *)
Fixpoint clearWay (from : bytes) (xs : list station) (positions : list Z) (message : Message) : Prop :=
  match xs, positions with
  | x :: xs, p :: positions =>
      (forall i r, recordAt (drop 1 (Payload message)) i = Ok r -> sub 0 16 r = sub 0 16 (address x) -> i = p) /\
      (forall r n' router message', relay from x message = Some (r, n', Forwarded router message') ->
        clearWay (address x) xs positions message')
  | _, _ => True
  end.

(** What [station_ok] finds. *)
Definition behaves (from : bytes) (x : station) (id : Z) (h : hop) : Prop :=
  forall rs deadline, records_ok rs -> (length rs <= 8)%nat -> rs !! hslot h = Some (hrecord h) ->
  addressed (shash (hsealed h)) (hslot h) rs ->
  exists n', handleTransit (smanager x) (mkSource from true) (snow x)
      (mkMessage (mkHeader ShortTunnelBuild id deadline) ([len rs] ++ concat rs)) (snode x) =
      (if haccept h then Ok tt else Err ErrBuildRejected, n') /\
    sent n' = sent (snode x) ++ [onward (srequest (hsealed h)) (hkeys h) (snow x)
      ([len rs] ++ concat (relayer (ReplyKey (hkeys h)) (hslot h) 0 (<[hslot h := hreply h]> rs)))] /\
    if haccept h then installs (smanager x) (srequest (hsealed h)) (hkeys h) (snow x) (runtime (snode x)) (runtime n')
    else forall k, view k (runtime n') = view k (runtime (snode x)).

(** The stations answer in turn, each naming the next; [id] is the identifier of
    the message that reaches the first, [router] and [tunnel] are where the last
    one, the endpoint, sends the reply and [replyID] is its identifier. *)
Fixpoint chained (router : bytes) (tunnel replyID : Z) (from : bytes) (xs : list station) (hs : list hop) (id : Z) : Prop :=
  match xs, hs with
  | [], [] => id = replyID
  | x :: xs, h :: hs =>
      let request := srequest (hsealed h) in
      shash (hsealed h) = address x /\ behaves from x id h /\ HasGarlicKeys (hkeys h) = Endpoint request /\
      match xs with
      | [] => Endpoint request = true /\ NextRouter request = router /\ NextTunnelID request = tunnel
      | y :: _ => Endpoint request = false /\ NextRouter request = address y
      end /\
      chained router tunnel replyID (address x) xs hs (NextMessageID request)
  | _, _ => False
  end.

(** Every station can answer its request, which comes from the one before it. *)
Fixpoint allReady (from : bytes) (xs : list station) (requests : list ShortBuildRequest) : Prop :=
  match xs, requests with
  | [], [] => True
  | x :: xs, request :: requests => ready from x request /\ allReady (address x) xs requests
  | _, _ => False
  end.

Lemma last_default {A} (l : list A) : forall x d, List.last (x :: l) d = List.last l x.
Proof. induction l as [|y l IH]; intros x d; [done|]. change (List.last (y :: l) d = List.last (y :: l) x). by rewrite !IH. Qed.

Lemma chain_ok replyRouter replyTunnelID minutes hops : forall ids ss xs from id,
  id <> 0 -> Forall id_ok ids -> length ids = length hops ->
  srequest <$> ss = requests replyRouter replyTunnelID minutes hops ids -> Forall sealed_ok ss ->
  shash <$> ss = address <$> xs -> address <$> xs = Router <$> hops ->
  Some <$> (sprivate <$> ss) = (fun x => staticPrivateKey (smanager x)) <$> xs ->
  allReady from xs (srequest <$> ss) ->
  exists hs, hsealed <$> hs = ss /\ Forall hop_ok hs /\ chained replyRouter replyTunnelID (List.last ids id) from xs hs id.
Proof.
  induction hops as [|hop hops IH]; intros ids ss xs from id Hid Hids Hli Hreq Hss Hhash Haddr Hpriv Hready.
  { destruct xs; [|done]. destruct ss; [|done]. destruct ids; [|done]. by exists []. }
  destruct ids as [|id' ids]; [done|]. apply Forall_cons in Hids as [Hid' Hids]. injection Hli as Hli.
  destruct xs as [|x xs]; [done|]. destruct ss as [|s ss]; [done|]. rewrite requests_cons in Hreq. cbn [fmap list_fmap] in *.
  injection Hreq as Hrq Hreq. destruct Hready as [Hr Hready].
  injection Hhash as Hh Hhash. injection Haddr as Ha Haddr. injection Hpriv as Hp Hpriv. apply Forall_cons in Hss as [Hs Hss].
  destruct (station_ok from x s id Hs Hh (eq_sym Hp) Hr Hid) as (h & <- & Hok & Hbeh).
  assert (Hg : HasGarlicKeys (hkeys h) = Endpoint (srequest (hsealed h))).
  { destruct Hs as (_ & _ & (_ & _ & _ & Hflag & _) & Hparse). apply parse_endpoint in Hparse. rewrite Hparse in Hflag. by injection Hflag. }
  assert (Hnext : NextMessageID (srequest (hsealed h)) = id') by (rewrite Hrq; unfold received, outboundRequest; by destruct hops).
  destruct (IH ids ss xs (address x) id') as (hs & <- & Hoks & Hchain); [unfold id_ok in Hid'; lia|done..|].
  exists (h :: hs). split; [done|]. split; [by constructor|]. cbn [chained]. cbv zeta. rewrite Hnext. split; [done|]. split; [done|].
  split; [done|]. split; [|by rewrite last_default]. rewrite Hrq. unfold received, outboundRequest.
  destruct xs as [|y xs], hops as [|next hops]; try done. cbn. injection Haddr as Hy _. by rewrite Hy.
Qed.

(** How a station's call ended, for a hop that answers as [h]. *)
Definition outcome (x : station) (h : hop) (o : res unit * node) : Prop :=
  if haccept h then o.1 = Ok tt /\ installs (smanager x) (srequest (hsealed h)) (hkeys h) (snow x) (runtime (snode x)) (runtime o.2)
  else o.1 = Err ErrBuildRejected /\ forall k, view k (runtime o.2) = view k (runtime (snode x)).

Lemma relay_hop from x id h hs j rs deadline : NoDup (hslot <$> hs) -> Forall hop_ok hs -> arrived hs j rs -> hs !! j = Some h ->
  shash (hsealed h) = address x -> behaves from x id h ->
  let message := mkMessage (mkHeader ShortTunnelBuild id deadline) ([len rs] ++ concat rs) in
  (forall i r, recordAt (drop 1 (Payload message)) i = Ok r -> sub 0 16 r = sub 0 16 (address x) -> i = Z.of_nat (hslot h)) ->
  exists r n' rs',
    relay from x message = Some (r, n', onward (srequest (hsealed h)) (hkeys h) (snow x) ([len rs'] ++ concat rs')) /\
    outcome x h (r, n') /\ arrived hs (S j) rs' /\ length rs' = length rs.
Proof.
  intros Hnd Hok Harr Hj Hhash Hbeh message Hclear. pose proof Harr as (Hall & Hl & _). pose proof (arrived_own hs j h rs Harr Hj) as Hown.
  destruct (Hbeh rs deadline Hall Hl Hown) as (n' & Hrun & Hsent & Hout).
  { intros i r Hi. rewrite Hhash. split; [|intros ->; rewrite <- Hhash; rewrite Hown in Hi; injection Hi as <-].
    - intros Hm. apply Nat2Z.inj, (Hclear _ r); [|done]. cbn [message Payload app drop]. by apply recordAt_ok.
    - destruct (proj1 (Forall_lookup _ _) Hok j h Hj) as ((_ & _ & (_ & Hsub & _) & _) & _). exact Hsub. }
  set (rs' := relayer (ReplyKey (hkeys h)) (hslot h) 0 (<[hslot h := hreply h]> rs)) in *.
  assert (Hlen : length rs' = length rs) by (unfold rs'; by rewrite len_relayer, length_insert).
  exists (if haccept h then Ok tt else Err ErrBuildRejected), n', rs'. split_and!; [| |by apply arrived_step|done].
  - unfold relay. change message with (mkMessage (mkHeader ShortTunnelBuild id deadline) ([len rs] ++ concat rs)). rewrite Hrun, Hsent.
    rewrite drop_app_length. by replace (len rs) with (len rs') by (unfold len; by rewrite Hlen).
  - unfold outcome. cbn [fst snd]. by destruct (haccept h).
Qed.

Lemma travel_ok router tunnel replyID hs : NoDup (hslot <$> hs) -> Forall hop_ok hs ->
  forall todo xs x j rs from id deadline, drop j hs = todo -> chained router tunnel replyID from (x :: xs) todo id -> arrived hs j rs ->
  let message := mkMessage (mkHeader ShortTunnelBuild id deadline) ([len rs] ++ concat rs) in
  clearWay from (x :: xs) ((fun h => Z.of_nat (hslot h)) <$> todo) message ->
  exists results rs' h key deadline', list.last todo = Some h /\
    travel from (x :: xs) (Forwarded (address x) message) =
      Some (results, Replied router tunnel key (mkMessage (mkHeader OutboundTunnelBuildReply replyID deadline') ([len rs'] ++ concat rs'))) /\
    ReplyKeys.Tag key = GarlicTag (hkeys h) /\ ReplyKeys.Key key = GarlicKey (hkeys h) /\ HasGarlicKeys (hkeys h) = true /\
    Forall3 outcome (x :: xs) todo results /\ arrived hs (length hs) rs' /\ length rs' = length rs.
Proof.
  intros Hnd Hok todo. induction todo as [|h todo IH]; intros xs x j rs from id deadline Hdrop Hchain Harr message Hclear; [done|].
  destruct Hchain as (Hhash & Hbeh & Hg & Hend & Hchain). cbn [fmap list_fmap] in Hclear. destruct Hclear as [Hc Hclear].
  assert (Hj : hs !! j = Some h) by (rewrite <- (Nat.add_0_r j), <- lookup_drop, Hdrop; done).
  assert (Hdrop' : drop (S j) hs = todo) by (rewrite (drop_S hs h j Hj) in Hdrop; by injection Hdrop).
  destruct (relay_hop from x id h hs j rs deadline Hnd Hok Harr Hj Hhash Hbeh Hc) as (r & n' & rs' & Hrel & Hout & Harr' & Hlen).
  unfold message. cbn [travel]. rewrite bool_decide_true by done. rewrite Hrel. unfold onward in *. destruct xs as [|y xs].
  - destruct Hend as (He & <- & <-). rewrite He in *. destruct todo as [|h' todo]; [|done]. cbn [chained] in Hchain. rewrite <- Hchain.
    eexists [(r, n')], rs', h, _, _. split; [done|]. split; [done|]. split; [done|]. split; [done|]. split; [done|]. split; [by repeat constructor|].
    split; [|done]. assert (length hs = S j) as -> by (apply (f_equal length) in Hdrop; rewrite length_drop in Hdrop; cbn in Hdrop; lia). done.
  - destruct Hend as (He & Hn). rewrite He in *. specialize (Hclear _ _ _ _ Hrel). rewrite Hn in *.
    destruct (IH xs y (S j) rs' _ _ _ Hdrop' Hchain Harr' Hclear) as (results & rs2 & l & key & d2 & Hl & Ht & Hk1 & Hk2 & Hg' & Hres & Harr2 & Hlen2).
    rewrite Ht. exists ((r, n') :: results), rs2, l, key, d2. destruct todo as [|h' todo]; [done|].
    split_and!; try done; [by constructor|lia].
Qed.

Definition accepted (o : res unit * node) : bool := match o.1 with Ok _ => true | _ => false end.

Lemma outcomes_accepted xs hs results : Forall3 outcome xs hs results -> forallb haccept hs = forallb accepted results.
Proof.
  induction 1 as [|x h o xs hs results Ho _ IH]; [done|]. cbn [forallb]. rewrite IH. f_equal. unfold outcome in Ho. unfold accepted.
  destruct (haccept h), Ho as [-> _]; done.
Qed.
End Station.

(** ** The whole build *)

Lemma fmap_rev {A B} (f : A -> B) l : f <$> rev l = rev (f <$> l).
Proof. induction l as [|x l IH]; [done|]. cbn [rev fmap list_fmap]. by rewrite fmap_app, IH. Qed.

Lemma transformAll_app `{A : AES} a b : forall p, transformAll (a ++ b) p = bind (transformAll a p) (transformAll b).
Proof.
  induction a as [|c a IH]; intros p; [done|]. cbn [app transformAll].
  destruct (slice_from p 4) as [x|e|]; [|done..]. cbn [bind]. destruct (Transform c x x) as [y|e|]; [|done..]. cbn [bind].
  destruct (write p 4 y) as [z|e|]; [|done..]. cbn [bind]. apply IH.
Qed.

Section Build.
Context `{P : Primitives} {L : PrimitivesLaws P} `{C : Curve} {CL : CurveLaws C} `{A : AES} {AL : AESLaws A}.
Context {T handler W : Type} `{!CircuitRuntime T handler} `{!CircuitRuntimeLaws T handler}.
Context {R : Type} (ReadFull : Z -> go R bytes) (GenerateKey : go R bytes).
Abbreviation station := (station (T := T) (handler := handler) (W := W)).
Abbreviation node := (node (T := T) (W := W)).
Abbreviation address := (fun x : station => mlocal (smanager x)).

Lemma prepare_ids hops replyRouter replyTunnelID now st ids positions payload keys st' :
  prepareOutbound ReadFull GenerateKey hops replyRouter replyTunnelID now st = (Ok (ids, positions, payload, keys), st') ->
  exists ids' st1, messageIDLoop ReadFull (length hops + 1) [] st = (Ok ids', st1).
Proof.
  unfold prepareOutbound, gbind at 1. destruct (messageIDLoop _ _ _ _) as [[ids'|e|] st1]; [|done..]. intros _. by exists ids', st1.
Qed.

(** The layers of the creator's circuit and of the hops' circuits cancel. *)
Lemma circuit_cancels build owner first keys head p : len head = 4 -> payload_ok p ->
  transformAll (OTransforms (creatorCircuit build owner first keys) ++ ((fun k => cipher (LayerKey k, IVKey k) true) <$> keys)) (head ++ p) =
    Ok (head ++ p).
Proof.
  intros Hh Hp. rewrite transformAll_app. cbn [creatorCircuit OTransforms]. set (pairs := (fun k => (LayerKey k, IVKey k)) <$> keys).
  replace ((fun k => cipher (LayerKey k, IVKey k) false) <$> rev keys) with ((fun k => cipher k false) <$> rev pairs)
    by (unfold pairs; by rewrite <- fmap_rev, <- list_fmap_compose).
  rewrite transformAll_ok by done. cbn [bind].
  replace ((fun k => cipher (LayerKey k, IVKey k) true) <$> keys) with ((fun k => cipher k true) <$> pairs)
    by (unfold pairs; by rewrite <- list_fmap_compose).
  rewrite transformAll_ok by (done || by apply layers_ok). by rewrite (layers_cancel pairs true).
Qed.

Lemma prepared_record ss rs i s : Forall sealed_ok ss -> prepared ss (length ss) rs -> ss !! i = Some s ->
  exists record, recordAt (concat rs) (Z.of_nat (sslot s)) = Ok record /\
    transformWith (take i (skeys <$> ss)) record (Z.of_nat (sslot s)) = Ok (srecord s).
Proof.
  intros Hss (Hrs & _ & Hrec) Hi. pose proof (lookup_lt_Some _ _ _ Hi). pose proof (Hrec i s Hi) as Hr.
  rewrite (proj2 (Nat.ltb_lt i (length ss))) in Hr by lia. destruct (proj1 (Forall_lookup _ _) Hss i s Hi) as (Hslot & _ & (Hl & _) & _).
  assert (Hseg : take i (skeys <$> ss) = seg 0 i (skeys <$> ss)) by (unfold seg; by rewrite Nat.sub_0_r, drop_0).
  eexists. split; [by apply recordAt_ok|]. rewrite transformWith_ok; [|lia|by apply Forall_take, sealed_keys_ok|by apply len_layers].
  by rewrite Hseg, layers_twice.
Qed.

(** C10: The creator's message.  Once the identifiers are drawn, preparing the
    message of an outbound tunnel does not fail; the records are in distinct
    slots of the message, and each, when the layers of the hops before it are
    taken off, opens with its hop's private key to that hop's request and to the
    keys the creator keeps for it. *)
Theorem message_prepared hops privates replyRouter replyTunnelID now st ids st1 :
  reads ReadFull -> (forall st, exists e st', GenerateKey st = (Ok e, st') /\ len e = 32) ->
  1 <= len hops <= 8 -> Forall2 hop_key hops privates -> Forall hop_shape hops -> len replyRouter = 32 -> 0 < replyTunnelID < 2 ^ 32 ->
  messageIDLoop ReadFull (length hops + 1) [] st = (Ok ids, st1) ->
  exists positions records keys st', let count := Z.max 4 (len hops) in
    prepareOutbound ReadFull GenerateKey hops replyRouter replyTunnelID now st = (Ok (ids, positions, count :: records, keys), st') /\
    len records = count * 218 /\ NoDup ids /\ Forall id_ok ids /\ NoDup positions /\ len positions = len hops /\ len keys = len hops /\
    forall i hop private request key position, hops !! i = Some hop -> privates !! i = Some private ->
      requests replyRouter replyTunnelID (u32 (now / 60000)) hops (drop 1 ids) !! i = Some request ->
      keys !! i = Some key -> positions !! i = Some position ->
      exists record opened plain, recordAt records position = Ok record /\ transformWith (take i keys) record position = Ok opened /\
        decryptShortBuildRequestWithPrivate (make_bytes 154) opened (Router hop) (Some private) = Ok (plain, key) /\
        ParseShortBuildRequest plain = Ok request.
Proof.
  intros Hread Hgen Hlen Hkeys Hshape Hrouter Htunnel Hids.
  destruct (messageIDLoop_inv ReadFull Hread _ _ _ _ _ Hids) as (Hnd & Hidok & _); [constructor|constructor|].
  destruct (prepareOutbound_ok ReadFull GenerateKey Hread Hgen hops privates replyRouter replyTunnelID now st ids st1 Hlen Hkeys Hshape Hrouter Htunnel Hids)
    as (ss & fill & rs & st2 & st3 & Hrun & _ & Hlrs & Hss & Hnds & Hsp & Hsh & Hsr & Hprep & _). cbn zeta in *.
  exists (slots ss), (concat rs), (skeys <$> ss), st3. assert (Hls : len ss = len hops) by (rewrite <- (len_fmap shash ss), Hsh; apply len_fmap).
  split; [exact Hrun|]. split; [rewrite (len_records rs) by apply Hprep; lia|]. split; [done|]. split; [done|]. split; [done|].
  split; [by unfold slots; rewrite len_fmap|]. split; [by rewrite len_fmap|]. intros i hop private request key position Hh Hp Hr Hk Hpos.
  rewrite <- Hsp, list_lookup_fmap in Hp. rewrite <- Hsr, list_lookup_fmap in Hr. unfold slots in Hpos.
  rewrite list_lookup_fmap in Hk. rewrite list_lookup_fmap in Hpos.
  pose proof (f_equal (fun l => l !! i) Hsh) as Hhi. cbn beta in Hhi. rewrite !list_lookup_fmap, Hh in Hhi.
  destruct (ss !! i) as [s|] eqn:Hs; [|done]. injection Hp as <-. injection Hr as <-. injection Hk as <-. injection Hpos as <-. injection Hhi as Hhi.
  destruct (prepared_record ss rs i s Hss Hprep Hs) as (record & Hrec & Hopen).
  destruct (proj1 (Forall_lookup _ _) Hss i s Hs) as (_ & _ & (_ & _ & _ & _ & _ & Hdec) & Hparse).
  exists record, (srecord s), (splain s). split; [done|]. split; [done|]. split; [|done]. rewrite <- Hhi. by apply Hdec.
Qed.

(** What the run of the stations left: each has the circuit for its request with
    the creator's keys, or has refused and has none. *)
Definition built (x : station) (request : ShortBuildRequest) (key : ShortBuildKeys) (o : res unit * node) : Prop :=
  o.1 = Ok tt /\ installs (smanager x) request key (snow x) (runtime (snode x)) (runtime o.2) \/
  o.1 = Err ErrBuildRejected /\ forall k, view k (runtime o.2) = view k (runtime (snode x)).

Lemma outcomes_built (xs : list station) hs results : Forall3 outcome xs hs results ->
  length results = length xs /\
  forall i x h o, xs !! i = Some x -> hs !! i = Some h -> results !! i = Some o -> built x (srequest (hsealed h)) (hkeys h) o.
Proof.
  induction 1 as [|x h o xs hs results Ho _ [Hl IH]]; [done|]. split; [cbn; by rewrite Hl|]. intros [|i] x' h' o' Hx Hh Hr.
  - injection Hx as <-. injection Hh as <-. injection Hr as <-. unfold outcome in Ho. unfold built. destruct (haccept h); [by left|by right].
  - by apply (IH i).
Qed.

(** The dispatch, when the last hop has keys for the reply. *)
Lemma dispatch_ok build first rest id ids positions payload keys key now deadline :
  Hops build = first :: rest -> len (Hops build) <= 8 -> list.last keys = Some key -> HasGarlicKeys key = true ->
  dispatchOutbound build (id :: ids) positions payload keys now deadline =
    Ok (mkDispatch (List.last ids id) (mkPending build keys positions (Z.max 4 (len (Hops build))) (ExpiresAt build))
      (ReplyKeys.mkKey (GarlicTag key) (GarlicKey key) (saturatingDeadline now (2 * buildMessageLifetime)))
      (Router first) (mkMessage (mkHeader ShortTunnelBuild id deadline) payload)).
Proof.
  intros Hh H8 Hl Hg. unfold dispatchOutbound.
  assert (E1 : index (id :: ids) (len (id :: ids) - 1) = Ok (List.last ids id)).
  { rewrite <- (last_default ids id 0). clear. induction ids as [|x ids IH] using rev_ind; [done|].
    rewrite app_comm_cons, last_last, len_app, index_app_r by len_lia. by replace (_ - _) with 0 by (len_simpl; lia). }
  assert (E2 : index keys (len keys - 1) = Ok key).
  { apply last_Some in Hl as [l ->]. rewrite len_app, index_app_r by len_lia. by replace (_ - _) with 0 by (len_simpl; lia). }
  rewrite E1, E2. cbn [bind]. rewrite Hg. cbn [negb]. rewrite index_cons_0, Hh, index_cons_0. cbn [bind]. rewrite <- Hh.
  unfold u8. rewrite Z.mod_small by (pose proof (len_nonneg (Hops build)); lia). done.
Qed.

End Build.

(** ** Witnesses *)

(** A creator and a tunnel of one hop, whose circuits are those of the registry's
    witness. *)
Module Demo.
Abbreviation router_t := (Runtime (reader := unit) (handler := unit) (senderT := unit) (world := Z)).

#[export] Instance circuits : CircuitRuntime router_t unit := registry_runtime map_to_list map_to_list map_to_list Registry.Demo.Now.

Definition reader (n : Z) : go Z bytes := fun c => (Ok (replicate (Z.to_nat n) (c mod 256)), c + 1).
Definition generate : go Z bytes := fun c => (Ok (replicate 32 3), c).

Lemma reader_reads : reads reader.
Proof.
  intros n c Hn. eexists _, _. split; [done|]. split; [unfold len; rewrite length_replicate; lia|].
  apply Forall_replicate. unfold is_byte. pose proof (Z.mod_pos_bound c 256). lia.
Qed.

Lemma sub_const n (c : Z) lo hi : exists k, sub lo hi (replicate n c) = replicate k c.
Proof. unfold sub. rewrite drop_replicate, take_replicate. by eexists. Qed.

Lemma reader_fill n c b c' : reader n c = (Ok b, c') -> b = replicate (Z.to_nat n) (c mod 256).
Proof. by intros [= <- _]. Qed.

Lemma generate_keys st : exists e st', generate st = (Ok e, st') /\ len e = 32.
Proof. by eexists _, _. Qed.

Definition hash : bytes := Z.of_nat <$> seq 1 32.
Definition private : bytes := replicate 32 5.
Definition hop : ShortBuildHop := mkShortHop hash (publicOf (Curve := Toy.curve) private) 11 (mkOptions 0 0 0).
Definition build : OutboundBuild := mkOutboundBuild 21 [hop] (replicate 32 8) 13 1000000 false.

Definition node : Transit.node (T := router_t) (W := Z) := mkNode (mkReservations ∅ ∅) Registry.Demo.router 0 [].
Definition manager : Transit.manager (handler := unit) (W := Z) :=
  mkManager hash (Some private) 4 None None (Some tt) reader (fun _ _ w => (None, w)) (Some (fun _ _ _ _ w => (None, w))).
Definition station : BuildPath.station (T := router_t) (handler := unit) (W := Z) :=
  mkStation manager node 600000.

Lemma hop_key_ok : Forall2 (hop_key (C := Toy.curve)) [hop] [private].
Proof. repeat constructor. by intros e He. Qed.

Lemma hop_shape_ok : Forall hop_shape [hop].
Proof. repeat constructor; cbn; lia. Qed.

Definition creator : bytes := replicate 32 7.
Definition request : ShortBuildRequest := request_of 10 hop (replicate 32 8) 13 true 0x02020202.

Lemma station_ready : ready creator station request.
Proof.
  split; [apply reader_reads|]. split; [done|]. split; [done|]. split; [by intros send router tunnel key message w [= <-]|].
  split; [exists []; apply newRegistry_ok|]. split_and!; done.
Qed.

(** The message the creator makes, with the slot of the hop's record. *)
Lemma prepared_message : exists slot rs keys st',
  prepareOutbound (P := demo) (C := Toy.curve) reader generate [hop] (replicate 32 8) 13 600000 0 =
    (Ok ([0x01010101; 0x02020202], [slot], 4 :: concat rs, [keys]), st') /\
  forall i r, recordAt (concat rs) i = Ok r -> sub 0 16 r = sub 0 16 hash -> i = slot.
Proof.
  destruct (prepareOutbound_ok (P := demo) (L := demo_laws) (C := Toy.curve) (CL := Toy.curve_laws) reader generate reader_reads generate_keys
    [hop] [private] (replicate 32 8) 13 600000 0 [0x01010101; 0x02020202] 3)
    as (ss & fill & rs & st2 & st3 & Hrun & (st' & Hfill) & Hlen & Hss & _ & Hp & _ & _ & Hprep & Hother);
    [vm_compute; split; congruence|apply hop_key_ok|apply hop_shape_ok|reflexivity|lia|reflexivity|].
  destruct ss as [|s [|s' ss]]; [done| |done]. exists (Z.of_nat (sslot s)), rs, (skeys s), st3. split; [exact Hrun|].
  intros i r Hr Hm. destruct (decide (i = Z.of_nat (sslot s))) as [|Hne]; [done|]. exfalso.
  destruct Hprep as (Hrs & _). pose proof (len_records rs Hrs) as Hl. change (Z.max 4 (len [hop])) with 4 in Hlen.
  pose proof Hr as Hb. unfold recordAt, ShortBuildRecordSize in Hb. apply slice_inv in Hb as (Hlo & Hhi & _). rewrite Hl, Hlen in Hhi.
  specialize (Hother (Z.to_nat i)). rewrite Z2Nat.id in Hother by lia. rewrite <- Hother in Hr; [| |unfold len in *; lia].
  2: { cbn. intros E%list_elem_of_singleton. lia. }
  apply reader_fill in Hfill as ->. unfold recordAt in Hr. apply slice_inv in Hr as (_ & _ & ->).
  edestruct sub_const as [k Hk]; erewrite Hk in Hm; clear Hk.
  destruct (sub_const k (st2 mod 256) 0 16) as [k' Hk']. rewrite Hk' in Hm. change (sub 0 16 hash) with (1 :: 2 :: (Z.of_nat <$> seq 3 14)) in Hm.
  destruct k' as [|[|k']]; [done..|]. injection Hm as H1 H2 _. lia.
Qed.

(** The station's first call. *)
Lemma first_call : exists message record r n',
  handleTransit (P := demo) (C := Toy.curve) manager (mkSource (replicate 32 7) true) 600000 message node = (r, n') /\
  ownRecord manager message = Ok record /\ length (sent n') = 1%nat.
Proof.
  destruct (prepareOutbound_ok (P := demo) (L := demo_laws) (C := Toy.curve) (CL := Toy.curve_laws) reader generate reader_reads generate_keys
    [hop] [private] (replicate 32 8) 13 600000 0 [0x01010101; 0x02020202] 3)
    as (ss & fill & rs & st2 & st3 & Hrun & _ & Hlen & Hss & _ & Hp & Hh & Hr & Hprep & _);
    [vm_compute; split; congruence|apply hop_key_ok|apply hop_shape_ok|reflexivity|lia|reflexivity|].
  destruct prepared_message as (slot & rs' & keys & st' & Hrun' & Hclear). cbn zeta in Hrun. rewrite Hrun in Hrun'.
  injection Hrun' as Hslot Hrs Hks _. destruct ss as [|s [|s' ss]]; [done| |done]. injection Hslot as <-. rewrite <- Hrs in Hclear.
  apply Forall_cons in Hss as [Hs _]. injection Hp as Hp. injection Hh as Hh. injection Hr as Hr.
  destruct (station_ok (P := demo) (L := demo_laws) (C := Toy.curve) creator station s 0x01010101 Hs Hh ltac:(by rewrite Hp)
    ltac:(rewrite Hr; exact station_ready) ltac:(done)) as (h & Hhs & _ & Hcall).
  destruct Hprep as (Hrs0 & H8 & Hrec). specialize (Hrec 0%nat s eq_refl). cbn in Hrec.
  assert (Haddr : addressed (shash s) (sslot s) rs).
  { intros i r Hi. rewrite Hh. split.
    - intros Hm. apply Nat2Z.inj, (Hclear _ r); [by apply recordAt_ok|exact Hm].
    - intros ->. rewrite Hrec in Hi. injection Hi as <-. destruct Hs as (_ & _ & (_ & Hsub & _) & _). by rewrite Hsub, Hh. }
  destruct (Hcall rs 700000 Hrs0 H8 Hrec Haddr) as (n' & Hhandle & Hsent & _).
  set (message := mkMessage _ _) in Hhandle. exists message, (srecord s), (if haccept h then Ok tt else Err ErrBuildRejected), n'.
  split; [exact Hhandle|]. split; [|by rewrite Hsent].
  destruct Hs as (_ & Hlh & _ & _). pose proof (lookup_lt_Some _ _ _ Hrec).
  unfold ownRecord, message. cbn [Payload]. rewrite (parse_short ShortTunnelBuild rs) by (by left || lia || done). cbn [bind BRCount BRRecords].
  unfold len at 1. rewrite Nat2Z.id. change (mlocal manager) with hash. change (mlocal (smanager station)) with hash in Hh. rewrite <- Hh.
  rewrite (search_ok _ _ (sslot s)) by done. cbn [bind]. by apply recordAt_ok.
Qed.

(** The demo's message as the station gets it. *)
Lemma station_clear slot rs : (forall i r, recordAt (concat rs) i = Ok r -> sub 0 16 r = sub 0 16 hash -> i = slot) ->
  clearWay (P := demo) (C := Toy.curve) creator [station] [slot] (mkMessage (mkHeader ShortTunnelBuild 0x01010101 700000) (4 :: concat rs)).
Proof. intros H. split; [exact H|done]. Qed.
End Demo.

#[local] Existing Instance Demo.circuits.


Lemma message_prepared_witness : exists positions records keys st',
  prepareOutbound (P := demo) (C := Toy.curve) Demo.reader Demo.generate [Demo.hop] (replicate 32 8) 13 600000 0 =
    (Ok ([0x01010101; 0x02020202], positions, 4 :: records, keys), st') /\ len records = 872 /\ len positions = 1 /\ len keys = 1.
Proof.
  destruct (message_prepared (P := demo) (L := demo_laws) (C := Toy.curve) (CL := Toy.curve_laws) Demo.reader Demo.generate
    [Demo.hop] [Demo.private] (replicate 32 8) 13 600000 0 [0x01010101; 0x02020202] 3)
    as (positions & records & keys & st' & Hrun & Hl & _ & _ & _ & Hp & Hk & _);
    [apply Demo.reader_reads|apply Demo.generate_keys|vm_compute; split; congruence|apply Demo.hop_key_ok|apply Demo.hop_shape_ok|reflexivity|lia|reflexivity|].
  exists positions, records, keys, st'. split; [exact Hrun|]. split; [exact Hl|]. split; [exact Hp|exact Hk].
Defined.

Lemma transit_installs_witness : exists message r n',
  handleTransit (P := demo) (C := Toy.curve) Demo.manager (mkSource (replicate 32 7) true) 600000 message Demo.node = (r, n') /\
  length (sent n') = 1%nat /\
  match r with
  | Ok tt => exists request keys, installs Demo.manager request keys 600000 (runtime Demo.node) (runtime n')
  | Err _ => forall k, view k (runtime n') = view k (runtime Demo.node)
  | Panic => True
  end.
Proof.
  destruct Demo.first_call as (message & record & r & n' & Hcall & _ & Hsent). exists message, r, n'. split; [exact Hcall|]. split; [exact Hsent|].
  pose proof (transit_installs (P := demo) (C := Toy.curve) Demo.manager (mkSource (replicate 32 7) true) 600000 message Demo.node n' r
    (ex_intro _ [] newRegistry_ok) Hcall) as H. destruct r as [[]|e|]; [|exact H|done].
  destruct H as (_ & _ & _ & _ & request & keys & _ & _ & _ & _ & Hi & _). by exists request, keys.
Defined.

Lemma no_replay_witness : exists message r n0 r' n2,
  handleTransit (P := demo) (C := Toy.curve) Demo.manager (mkSource (replicate 32 7) true) 600000 message Demo.node = (r, n0) /\
  handleTransit (P := demo) (C := Toy.curve) Demo.manager (mkSource (replicate 32 6) true) 700000 message n0 = (r', n2) /\
  length (sent n0) = 1%nat /\ r' <> Ok tt /\ sent n2 = sent n0.
Proof.
  destruct Demo.first_call as (message & record & r & n0 & Hcall & Hown & Hsent).
  pose proof (no_replay (P := demo) (C := Toy.curve) Demo.manager (mkSource (replicate 32 7) true) 600000 message Demo.node n0 r record []
    (mkSource (replicate 32 6) true) 700000 message (ex_intro _ [] newRegistry_ok) ltac:(lia) Hcall Hown ltac:(by intros E; rewrite E in Hsent)
    ltac:(constructor) ltac:(lia) Hown) as H. cbn zeta in H. cbn [calls foldl] in H.
  destruct (handleTransit Demo.manager (mkSource (replicate 32 6) true) 700000 message n0) as [r' n2] eqn:E.
  exists message, r, n0, r', n2. destruct H as (H1 & H2 & _). split; [exact Hcall|]. split; [exact E|]. split; [exact Hsent|]. split; [exact H1|exact H2].
Defined.
